(** * dlt.common.schema.utils: schema migration, hint defaults, name
    normalisation and value coercion

    A shallow embedding of [src/dlt/common/schema/utils.py] and the
    properties its specification states about it.

    Layout:
    - [PyStr]: the [str] methods the module uses ([find], [rfind], slices,
      [lower], the two regular expressions);
    - [PyDict]: insertion-ordered dictionaries;
    - [Doc]: schema documents as trees, with the state-and-exception monad in
      which [upgrade_engine_version] mutates the document it is handed;
    - [Store]: an object store with references, in which [deepcopy] and
      [remove_defaults] run (what is stated of them is about the identity
      of objects);
    - [Coerce]: [coerce_type] over floats and decimals. *)

From Stdlib Require Import ZArith Lia List Bool Ascii String QArith.
From Stdlib Require Import Floats.SpecFloat.
Import ListNotations.

Local Open Scope string_scope.
Local Open Scope Z_scope.

(* ===================================================================== *)
(** ** Strings *)
(* ===================================================================== *)

Module PyStr.

(** [s[:n]] and [s[n:]] for an index already brought into range. *)
Fixpoint take (n : nat) (s : string) : string :=
  match n, s with
  | S n', String c s' => String c (take n' s')
  | _, _ => EmptyString
  end.

Fixpoint drop (n : nat) (s : string) : string :=
  match n, s with
  | S n', String _ s' => drop n' s'
  | _, _ => s
  end.

(** Python's slice index normalisation: a negative index counts from the
    end, and every index is clamped to [0, len]. *)
Definition clamp (len : Z) (i : Z) : Z :=
  if i <? 0 then Z.max (i + len) 0 else Z.min i len.

(** [s[start:stop]]; [None] is an omitted bound. *)
Definition slice (s : string) (start stop : option Z) : string :=
  let len := Z.of_nat (String.length s) in
  let lo := match start with Some i => clamp len i | None => 0 end in
  let hi := match stop with Some i => clamp len i | None => len end in
  take (Z.to_nat (hi - lo)) (drop (Z.to_nat lo) s).

(** [s.startswith(sub)] *)
Fixpoint startswith (sub s : string) : bool :=
  match sub, s with
  | EmptyString, _ => true
  | String a sub', String b s' => Ascii.eqb a b && startswith sub' s'
  | String _ _, EmptyString => false
  end.

(** [s.find(sub)]: the lowest index at which [sub] occurs, or -1. *)
Fixpoint find (sub s : string) : Z :=
  if startswith sub s then 0
  else match s with
       | EmptyString => -1
       | String _ s' => let r := find sub s' in if r <? 0 then -1 else r + 1
       end.

(** [s.rfind(sub)]: the highest index at which [sub] occurs, or -1. *)
Fixpoint rfind (sub s : string) : Z :=
  match s with
  | EmptyString => if startswith sub s then 0 else -1
  | String _ s' =>
      let r := rfind sub s' in
      if 0 <=? r then r + 1
      else if startswith sub s then 0 else -1
  end.

(** Character classes of the two regular expressions.  Characters are code
    points below 256; in that range [\d] is exactly the ASCII digits (the
    superscript digits of Latin-1 are not in Unicode category Nd). *)
Definition is_digit (c : ascii) : bool :=
  let n := nat_of_ascii c in (48 <=? n)%nat && (n <=? 57)%nat.

Definition is_upper (c : ascii) : bool :=
  let n := nat_of_ascii c in (65 <=? n)%nat && (n <=? 90)%nat.

Definition is_lower (c : ascii) : bool :=
  let n := nat_of_ascii c in (97 <=? n)%nat && (n <=? 122)%nat.

(** [[a-zA-Z\d]] *)
Definition is_alnum (c : ascii) : bool :=
  is_lower c || is_upper c || is_digit c.

(** [str.lower] on one character.  It is only ever applied to what
    [RE_NON_ALPHANUMERIC] leaves, where it shifts A-Z by 32. *)
Definition lower_char (c : ascii) : ascii :=
  if is_upper c then ascii_of_nat (nat_of_ascii c + 32) else c.

Fixpoint lower (s : string) : string :=
  match s with
  | EmptyString => EmptyString
  | String c s' => String (lower_char c) (lower s')
  end.

(** [RE_NON_ALPHANUMERIC.sub("", s)] *)
Fixpoint strip_non_alnum (s : string) : string :=
  match s with
  | EmptyString => EmptyString
  | String c s' =>
      if is_alnum c then String c (strip_non_alnum s') else strip_non_alnum s'
  end.

(** [RE_LEADING_DIGITS.match(s)] as a truth value: [^\d+] matches exactly
    when the first character is a digit. *)
Definition leading_digits (s : string) : bool :=
  match s with
  | EmptyString => false
  | String c _ => is_digit c
  end.

(** [sub] occurs in [s] at index [i]. *)
Definition occurs_at (sub s : string) (i : nat) : Prop :=
  (i <= String.length s)%nat /\ startswith sub (drop i s) = true.

End PyStr.

(* ===================================================================== *)
(** ** The name normaliser *)
(* ===================================================================== *)

(** [normalize_schema_name] *)
Definition normalize_schema_name (name : string) : string :=
  let name := if PyStr.leading_digits name then "s" ++ name else name in
  PyStr.lower (PyStr.strip_non_alnum name).

(* ===================================================================== *)
(** ** Dictionaries *)
(* ===================================================================== *)

(** A Python [dict] with [str] keys: the entries in insertion order.  The
    keys of a dictionary are pairwise distinct ([NoDup (keys d)]); every
    operation below keeps them so. *)
Module PyDict.
Section Dict.
Context {V : Type}.

Definition dict : Type := list (string * V).

Definition keys (d : dict) : list string := map fst d.
Definition values (d : dict) : list V := map snd d.

(** [d.get(k)] *)
Fixpoint get (k : string) (d : dict) : option V :=
  match d with
  | [] => None
  | (k', v) :: d' => if String.eqb k k' then Some v else get k d'
  end.

(** [k in d] *)
Definition mem (k : string) (d : dict) : bool :=
  match get k d with Some _ => true | None => false end.

(** [d[k] = v]: an existing key keeps its position, a new one goes last. *)
Fixpoint set (k : string) (v : V) (d : dict) : dict :=
  match d with
  | [] => [(k, v)]
  | (k', v') :: d' =>
      if String.eqb k k' then (k, v) :: d' else (k', v') :: set k v d'
  end.

(** Removal of the entry for [k] (no effect when there is none). *)
Definition remove (k : string) (d : dict) : dict :=
  filter (fun kv => negb (String.eqb k (fst kv))) d.

(** [del d[k]]: [None] stands for the [KeyError]. *)
Definition del (k : string) (d : dict) : option dict :=
  if mem k d then Some (remove k d) else None.

(** [{**a, **b}] *)
Definition merge (a b : dict) : dict :=
  fold_left (fun acc kv => set (fst kv) (snd kv) acc) b a.

(** Python's [==] on dictionaries ignores the insertion order. *)
Definition equiv (a b : dict) : Prop := forall k, get k a = get k b.

End Dict.
Arguments dict : clear implicits.
End PyDict.

(* ===================================================================== *)
(** ** Mutation and exceptions *)
(* ===================================================================== *)

(** Python code that mutates a state [St] and may raise an exception of
    [E].  Both a return and a raise leave a state behind.  [OutOfFuel] is
    the outcome of a loop or a recursion cut short by the bound the model
    puts on it; the theorems show that it does not arise. *)
Module PyMonad.

Inductive result (E St A : Type) : Type :=
| Ok (a : A) (st : St)
| Raise (e : E) (st : St)
| OutOfFuel.
Arguments Ok {E St A} a st.
Arguments Raise {E St A} e st.
Arguments OutOfFuel {E St A}.

Definition M (E St A : Type) : Type := St -> result E St A.

Section Ops.
Context {E St : Type}.

Definition ret {A} (a : A) : M E St A := fun st => Ok a st.

Definition bind {A B} (m : M E St A) (f : A -> M E St B) : M E St B :=
  fun st =>
    match m st with
    | Ok a st' => f a st'
    | Raise e st' => Raise e st'
    | OutOfFuel => OutOfFuel
    end.

Definition raise {A} (e : E) : M E St A := fun st => Raise e st.

Definition lift {A} (r : E + A) : M E St A :=
  match r with inl e => raise e | inr a => ret a end.

(** [for x in xs: body(x)] over a list that the body does not change. *)
Fixpoint for_each {A} (xs : list A) (body : A -> M E St unit) : M E St unit :=
  match xs with
  | [] => ret tt
  | x :: xs' => bind (body x) (fun _ => for_each xs' body)
  end.
End Ops.

End PyMonad.

Declare Scope py_scope.
Delimit Scope py_scope with py.
Notation "x <- m ;; k" := (PyMonad.bind m (fun x => k))
  (at level 100, m at next level, right associativity) : py_scope.
Notation "m ;; k" := (PyMonad.bind m (fun _ => k))
  (at level 100, right associativity) : py_scope.

(* ===================================================================== *)
(** ** Schema documents as trees *)
(* ===================================================================== *)

(** [upgrade_engine_version] changes the top-level mapping of the document
    and the objects it creates itself (the new tables and their filters);
    the columns and the settings it hands on as they are.  What the
    document holds after the call is therefore a function of what it held
    before, and the document is modelled as a tree that the call passes
    along. *)
Module Doc.
Import PyDict PyMonad.

(** The JSON-like values a schema document is made of. *)
#[warnings="-register-all"]
Inductive value : Type :=
| VNone
| VBool (b : bool)
| VInt (n : Z)
| VStr (s : string)
| VList (l : list value)
| VDict (d : list (string * value)).

Definition document : Type := dict value.

Inductive exn : Type :=
| KeyError (k : string)
| TypeError
| AttributeError
| SchemaEngineNoUpgradePathException
    (schema_name init_engine : value) (from_engine to_engine : Z).

(** [upgrade_engine_version] mutates the document it is handed and either
    returns it or raises.  The caller holds the same object in both cases,
    so both outcomes carry the document as the call left it. *)
Definition M : Type -> Type := PyMonad.M exn document.

Local Open Scope py_scope.

(** [schema_dict[k]] *)
Definition getitem (k : string) : M value :=
  fun doc =>
    match get k doc with
    | Some v => Ok v doc
    | None => Raise (KeyError k) doc
    end.

(** [schema_dict[k] = v] *)
Definition setitem (k : string) (v : value) : M unit :=
  fun doc => Ok tt (set k v doc).

(** [schema_dict.pop(k)] *)
Definition pop (k : string) : M value :=
  fun doc =>
    match get k doc with
    | Some v => Ok v (remove k doc)
    | None => Raise (KeyError k) doc
    end.

(** [schema_dict.pop(k, default)] *)
Definition pop_default (k : string) (default : value) : M value :=
  fun doc =>
    match get k doc with
    | Some v => Ok v (remove k doc)
    | None => Ok default doc
    end.

(** [v.items()] *)
Definition items (v : value) : exn + list (string * value) :=
  match v with
  | VDict d => inr d
  | _ => inl AttributeError
  end.

(** What [for x in v] iterates over. *)
Definition iter (v : value) : exn + list value :=
  match v with
  | VList l => inr l
  | VDict d => inr (map VStr (keys d))
  | VStr s => inr (map (fun c => VStr (String c EmptyString)) (list_ascii_of_string s))
  | _ => inl TypeError
  end.

(** [{c["name"]: c for c in columns}]; a name that is not a [str] is
    outside the model's dictionaries and reported as a [TypeError]. *)
Fixpoint columns_by_name (columns : list value) (acc : dict value)
  : exn + dict value :=
  match columns with
  | [] => inr acc
  | VDict c :: rest =>
      match get "name" c with
      | Some (VStr n) => columns_by_name rest (set n (VDict c) acc)
      | Some _ => inl TypeError
      | None => inl (KeyError "name")
      end
  | _ :: _ => inl TypeError
  end.

(** [new_table]; [if parent_name:] is false for [None] and for [""]. *)
Definition new_table (table_name : string) (parent_name : option string)
    (columns : option (list value)) : exn + dict value :=
  match (match columns with
         | None => inr []
         | Some cs => columns_by_name cs []
         end) with
  | inl e => inl e
  | inr cols =>
      let table := [("name", VStr table_name); ("columns", VDict cols)] in
      inr (match parent_name with
           | Some p =>
               if (String.length p =? 0)%nat
               then set "write_disposition" (VStr "append") table
               else set "parent" (VStr p) table
           | None => set "write_disposition" (VStr "append") table
           end)
  end.

(** The [while True] loop of the 2 -> 3 step that looks for an existing
    parent: [Some r] is the value of [parent] at the [break], [None] means
    the bound [fuel] on the number of iterations was reached. *)
Fixpoint find_parent_loop (fuel : nat) (old_tables : dict value)
    (parent : string) : option (option string) :=
  match fuel with
  | O => None
  | S fuel' =>
      let idx := PyStr.rfind "__" parent in
      if 0 <? idx then
        let parent := PyStr.slice parent None (Some idx) in
        if negb (mem parent old_tables)
        then find_parent_loop fuel' old_tables parent
        else Some (Some parent)
      else Some None
  end.

(** Every iteration shortens [parent], so its length bounds the loop. *)
Definition find_parent (old_tables : dict value) (name : string) : M (option string) :=
  fun doc =>
    match find_parent_loop (S (String.length name)) old_tables name with
    | Some r => Ok r doc
    | None => OutOfFuel
    end.

(** [current["tables"]]; it is the mapping that the step itself has put
    there. *)
Definition current_tables : M (dict value) :=
  fun doc =>
    match get "tables" doc with
    | Some (VDict ts) => Ok ts doc
    | Some _ => Raise TypeError doc
    | None => Raise (KeyError "tables") doc
    end.

(** [current["tables"][name] = t] *)
Definition tables_setitem (name : string) (t : value) : M unit :=
  ts <- current_tables ;;
  setitem "tables" (VDict (set name t ts)).

(** The default normalizers installed by the 2 -> 3 step. *)
Definition default_normalizers : value :=
  VDict
    [("names", VStr "dlt.common.normalizers.names.snake_case");
     ("json",
      VDict
        [("module", VStr "dlt.common.normalizers.json.relational");
         ("config",
          VDict
            [("propagation",
              VDict [("root", VDict [("_record_hash", VStr "_root_hash")])])])])].

(** [t.setdefault("filters", {}).setdefault(group, []).append(x)], as the
    new content of the table [t].  When it raises, [t] has not been
    changed: a default is only inserted on the way to a successful
    [append]. *)
Definition append_filter (group x : string) (t : value) : exn + value :=
  match t with
  | VDict td =>
      match (match get "filters" td with Some v => v | None => VDict [] end) with
      | VDict fd =>
          match (match get group fd with Some v => v | None => VList [] end) with
          | VList l =>
              inr (VDict (set "filters"
                            (VDict (set group (VList (l ++ [VStr x])) fd)) td))
          | _ => inl AttributeError
          end
      | _ => inl AttributeError
      end
  | _ => inl AttributeError
  end.

(** The body of the loop of [migrate_filters].  The table [t] is an object
    held by [current["tables"]]; its mutation is the update of that entry. *)
Definition migrate_filter (group : string) (f : value) : M unit :=
  match f with
  | VStr f =>
      let root := PyStr.slice f (Some 1) (Some (PyStr.find "__" f)) in
      let path := PyStr.slice f (Some (PyStr.find "__" f + 2)) None in
      ts <- current_tables ;;
      t <- match get root ts with
           | Some VNone | None =>
               t <- lift (new_table root None None) ;;
               tables_setitem root (VDict t) ;;
               ret (VDict t)
           | Some t => ret t
           end ;;
      t' <- lift (append_filter group ("^" ++ path) t) ;;
      tables_setitem root t'
  | _ => raise AttributeError
  end.

Definition migrate_filters (group : string) (filters : value) : M unit :=
  fs <- lift (iter filters) ;;
  for_each fs (migrate_filter group).

(** The body of the loop that repackages the legacy tables. *)
Definition repackage_table (old_tables : dict value)
    (item : string * value) : M unit :=
  let (name, columns) := item in
  parent <- find_parent old_tables name ;;
  nt <- lift (new_table name parent None) ;;
  tables_setitem name (VDict (set "columns" columns nt)).

(** [if from_engine == 1 and to_engine > 1] *)
Definition step_1_2 : M unit :=
  setitem "engine_version" (VInt 2) ;;
  setitem "includes" (VList []) ;;
  setitem "excludes" (VList []).

(** [if from_engine == 2 and to_engine > 2] *)
Definition step_2_3 : M unit :=
  setitem "normalizers" default_normalizers ;;
  hints <- pop_default "hints" (VDict []) ;;
  preferred_types <- pop_default "preferred_types" (VDict []) ;;
  setitem "settings"
    (VDict [("default_hints", hints); ("preferred_types", preferred_types)]) ;;
  old_tables <- pop "tables" ;;
  setitem "tables" (VDict []) ;;
  old_items <- lift (items old_tables) ;;
  for_each old_items (repackage_table old_items) ;;
  excludes <- pop_default "excludes" (VList []) ;;
  migrate_filters "excludes" excludes ;;
  includes <- pop_default "includes" (VList []) ;;
  migrate_filters "includes" includes ;;
  setitem "engine_version" (VInt 3).

(** The chain of migration steps; its value is [from_engine] as the chain
    leaves it, the version reached. *)
Definition migration_chain (from_engine to_engine : Z) : M Z :=
  from_engine <-
    (if (from_engine =? 1) && (to_engine >? 1)
     then step_1_2 ;; ret 2 else ret from_engine) ;;
  from_engine <-
    (if (from_engine =? 2) && (to_engine >? 2)
     then step_2_3 ;; ret 3 else ret from_engine) ;;
  ret from_engine.

(** [upgrade_engine_version(schema_dict, from_engine, to_engine)]; [Ok tt]
    is the return of [schema_dict] itself. *)
Definition upgrade_engine_version (from_engine to_engine : Z) : M unit :=
  if from_engine =? to_engine then ret tt
  else
    reached <- migration_chain from_engine to_engine ;;
    if negb (reached =? to_engine) then
      name <- getitem "name" ;;
      engine_version <- getitem "engine_version" ;;
      raise (SchemaEngineNoUpgradePathException name engine_version
               reached to_engine)
    else ret tt.

End Doc.

(* ===================================================================== *)
(** ** Objects, references and the store *)
(* ===================================================================== *)

(** [remove_defaults] copies a structure and mutates the copy, so what it
    leaves of the original depends on which objects are shared.  Here
    dictionaries and lists are objects in a store, and a value holds a
    reference to them. *)
Module Store.
Import PyDict PyMonad.

Definition loc : Type := nat.

Inductive val : Type :=
| VNone
| VBool (b : bool)
| VInt (n : Z)
| VStr (s : string)
| VRef (l : loc).

Inductive obj : Type :=
| ODict (d : dict val)
| OList (l : list val).

(** The store: the object at address [l] is the [l]-th element, and a new
    object goes to the end. *)
Definition store : Type := list obj.

Definition lookup (l : loc) (st : store) : option obj := nth_error st l.

Fixpoint update (l : loc) (o : obj) (st : store) : store :=
  match st, l with
  | [], _ => []
  | _ :: st', O => o :: st'
  | o' :: st', S l' => o' :: update l' o st'
  end.

(** [Dangling] is no Python exception: it reports a reference to an address
    the store does not have, which no Python state contains. *)
Inductive exn : Type :=
| KeyError (k : string)
| TypeError
| AttributeError
| RuntimeError
| Dangling.

Definition S : Type -> Type := PyMonad.M exn store.

Local Open Scope py_scope.

(** Allocation of a new object. *)
Definition alloc (o : obj) : S loc :=
  fun st => Ok (List.length st) (st ++ [o])%list.

Definition deref (l : loc) : S obj :=
  fun st =>
    match lookup l st with
    | Some o => Ok o st
    | None => Raise Dangling st
    end.

Definition write (l : loc) (o : obj) : S unit :=
  fun st => Ok tt (update l o st).

(** [v[k]] for a [str] key [k]: only a dictionary can be indexed by it. *)
Definition getitem (v : val) (k : string) : S val :=
  match v with
  | VRef l =>
      o <- deref l ;;
      match o with
      | ODict d =>
          match get k d with
          | Some x => ret x
          | None => raise (KeyError k)
          end
      | OList _ => raise TypeError
      end
  | _ => raise TypeError
  end.

(** [v[k] = x] *)
Definition setitem (v : val) (k : string) (x : val) : S unit :=
  match v with
  | VRef l =>
      o <- deref l ;;
      match o with
      | ODict d => write l (ODict (set k x d))
      | OList _ => raise TypeError
      end
  | _ => raise TypeError
  end.

(** [del v[k]] *)
Definition delitem (v : val) (k : string) : S unit :=
  match v with
  | VRef l =>
      o <- deref l ;;
      match o with
      | ODict d =>
          match del k d with
          | Some d' => write l (ODict d')
          | None => raise (KeyError k)
          end
      | OList _ => raise TypeError
      end
  | _ => raise TypeError
  end.

(** [list(v.keys())] *)
Definition keys_list (v : val) : S (list string) :=
  match v with
  | VRef l =>
      o <- deref l ;;
      match o with
      | ODict d => ret (keys d)
      | OList _ => raise AttributeError
      end
  | _ => raise AttributeError
  end.

(** The test a dictionary iterator makes at every step: the dictionary must
    have as many entries as when the iteration began. *)
Definition check_size (l : loc) (size : nat) : S unit :=
  o <- deref l ;;
  match o with
  | ODict d =>
      if (List.length d =? size)%nat then ret tt else raise RuntimeError
  | OList _ => raise RuntimeError
  end.

Fixpoint values_loop (l : loc) (size : nat) (vs : list val)
    (body : val -> S unit) : S unit :=
  match vs with
  | [] => check_size l size
  | v :: vs' =>
      check_size l size ;; body v ;; values_loop l size vs' body
  end.

(** [for x in v.values(): body(x)].  The iterator reads the dictionary as it
    is at each step.  The bodies below only ever delete entries, so a
    dictionary that passes the size test is the one the loop began with, and
    the loop may run over the values read at its start. *)
Definition for_values (v : val) (body : val -> S unit) : S unit :=
  match v with
  | VRef l =>
      o <- deref l ;;
      match o with
      | ODict d => values_loop l (List.length d) (values d) body
      | OList _ => raise AttributeError
      end
  | _ => raise AttributeError
  end.

(** *** [copy.deepcopy] *)

(** The memo of [deepcopy]: which object has been copied to which. *)
Definition memo : Type := list (loc * loc).

Fixpoint memo_get (x : loc) (m : memo) : option loc :=
  match m with
  | [] => None
  | (a, b) :: m' => if (x =? a)%nat then Some b else memo_get x m'
  end.

(** [for key, value in x.items(): y[key] = deepcopy(value, memo)] *)
Fixpoint copy_items (rec : val -> memo -> S (val * memo)) (y : loc)
    (d : dict val) (m : memo) : S memo :=
  match d with
  | [] => ret m
  | (k, v) :: d' =>
      r <- rec v m ;;
      setitem (VRef y) k (fst r) ;;
      copy_items rec y d' (snd r)
  end.

(** [y.append(x)] *)
Definition append (y : loc) (x : val) : S unit :=
  o <- deref y ;;
  match o with
  | OList l => write y (OList (l ++ [x])%list)
  | ODict _ => raise AttributeError
  end.

(** [for a in x: y.append(deepcopy(a, memo))] *)
Fixpoint copy_elems (rec : val -> memo -> S (val * memo)) (y : loc)
    (l : list val) (m : memo) : S memo :=
  match l with
  | [] => ret m
  | v :: l' =>
      r <- rec v m ;;
      append y (fst r) ;;
      copy_elems rec y l' (snd r)
  end.

(** [deepcopy(v, memo)]: atoms are returned as they are; an object already
    in the memo is answered from it; otherwise a new empty object is
    allocated, entered in the memo, and filled with the copies of the
    children.  [fuel] bounds the depth of the recursion. *)
Fixpoint deepcopy_memo (fuel : nat) (v : val) (m : memo) : S (val * memo) :=
  match v with
  | VRef x =>
      match memo_get x m with
      | Some y => ret (VRef y, m)
      | None =>
          match fuel with
          | O => fun _ => OutOfFuel
          | Datatypes.S fuel' =>
              o <- deref x ;;
              match o with
              | ODict d =>
                  y <- alloc (ODict []) ;;
                  m' <- copy_items (deepcopy_memo fuel') y d ((x, y) :: m) ;;
                  ret (VRef y, m')
              | OList l =>
                  y <- alloc (OList []) ;;
                  m' <- copy_elems (deepcopy_memo fuel') y l ((x, y) :: m) ;;
                  ret (VRef y, m')
              end
          end
      end
  | _ => ret (v, m)
  end.

(** [deepcopy(v)].  Each level of the recursion enters one more object of
    the store into the memo, so the size of the store bounds its depth. *)
Definition deepcopy (v : val) : S val :=
  fun st =>
    (r <- deepcopy_memo (Datatypes.S (List.length st)) v [] ;; ret (fst r)) st.

(** *** The hint defaults *)

(** [isinstance(v, bool) and v is False] *)
Definition is_False (v : val) : bool :=
  match v with
  | VBool false => true
  | _ => false
  end.

(** The body of [for h in list(c.keys())] in [remove_defaults]. *)
Definition remove_default_hint (c : val) (h : string) : S unit :=
  v <- getitem c h ;;
  if is_False v && negb (String.eqb h "nullable")
  then delitem c h
  else ret tt.

(** The body of [for c in t["columns"].values()]. *)
Definition remove_column_defaults (c : val) : S unit :=
  delitem c "name" ;;
  hs <- keys_list c ;;
  for_each hs (remove_default_hint c).

(** The body of [for t in clean_tables.values()]. *)
Definition remove_table_defaults (t : val) : S unit :=
  delitem t "name" ;;
  columns <- getitem t "columns" ;;
  for_values columns remove_column_defaults.

(** [remove_defaults(stored_schema)]; its value is what the call returns. *)
Definition remove_defaults (stored_schema : val) : S val :=
  tables <- getitem stored_schema "tables" ;;
  clean_tables <- deepcopy tables ;;
  for_values clean_tables remove_table_defaults ;;
  setitem stored_schema "tables" clean_tables ;;
  ret VNone.

(** The defaults that [add_missing_hints] spreads under the column. *)
Definition hint_defaults : dict val :=
  [("partition", VBool false); ("cluster", VBool false);
   ("unique", VBool false); ("sort", VBool false);
   ("primary_key", VBool false); ("foreign_key", VBool false)].

(** [add_missing_hints(column)]: a new dictionary, [{**defaults, **column}]. *)
Definition add_missing_hints (column : val) : S val :=
  match column with
  | VRef l =>
      o <- deref l ;;
      match o with
      | ODict d =>
          y <- alloc (ODict (merge hint_defaults d)) ;;
          ret (VRef y)
      | OList _ => raise TypeError
      end
  | _ => raise TypeError
  end.

End Store.

(* ===================================================================== *)
(** ** Value coercion *)
(* ===================================================================== *)

Module Coerce.

(** [TDataType] *)
Inductive TDataType : Type :=
| dt_text | dt_bigint | dt_double | dt_bool | dt_binary
| dt_complex | dt_decimal | dt_timestamp | dt_wei.

Definition TDataType_eqb (a b : TDataType) : bool :=
  match a, b with
  | dt_text, dt_text | dt_bigint, dt_bigint | dt_double, dt_double
  | dt_bool, dt_bool | dt_binary, dt_binary | dt_complex, dt_complex
  | dt_decimal, dt_decimal | dt_timestamp, dt_timestamp | dt_wei, dt_wei => true
  | _, _ => false
  end.

(** A [decimal.Decimal]: sign, coefficient and exponent of a finite number
    (its value is [(-1)^sign * coeff * 10^exp]), an infinity, or a quiet or
    signalling NaN. *)
Inductive Decimal : Type :=
| DFinite (sign : bool) (coeff : Z) (exp : Z)
| DInfinity (sign : bool)
| DNaN (signalling : bool).

(** The context of the decimal library, as far as the remainder depends on
    it: the precision, the smallest exponent and the rounding mode.  The
    traps are those of the default context ([InvalidOperation],
    [DivisionByZero], [Overflow]); an underflow is not trapped. *)
Inductive rounding_mode : Type :=
| ROUND_DOWN | ROUND_HALF_UP | ROUND_HALF_EVEN | ROUND_CEILING
| ROUND_FLOOR | ROUND_UP | ROUND_HALF_DOWN | ROUND_05UP.

Record context : Type := {
  prec : Z;
  Emin : Z;
  rounding : rounding_mode
}.

(** [context.Etiny()]: the exponent of the smallest subnormal number. *)
Definition Etiny (ctx : context) : Z := Emin ctx - prec ctx + 1.

(** [decimal.DefaultContext] *)
Definition default_context : context :=
  {| prec := 28; Emin := -999999; rounding := ROUND_HALF_EVEN |}.

(** The runtime values [coerce_type] is given and returns.  A [float] is an
    IEEE 754 binary64 number; [S754_finite s m e] is [(-1)^s * m * 2^e].
    [None], lists and dictionaries are the values of JSON that are none of
    the others. *)
Inductive pyval : Type :=
| PNone
| PBool (b : bool)
| PInt (n : Z)
| PFloat (f : spec_float)
| PDecimal (d : Decimal)
| PStr (s : string)
| PBytes (b : list ascii)
| PList (l : list Doc.value)
| PDict (d : list (string * Doc.value)).

(** [ConversionSyntax] and [BinasciiError] are the two exceptions of the
    collaborators that [coerce_type] catches by name. *)
Inductive exn : Type :=
| ValueError
| TypeError
| AttributeError
| OverflowError
| InvalidOperation
| ConversionSyntax
| BinasciiError.

(** *** [float] arithmetic *)

(** [f % 1 != 0].  C's [fmod] is exact, and Python's correction of a
    non-zero remainder by one does not make it zero; [inf % 1] and
    [nan % 1] are [nan], which differs from every number. *)
Definition float_mod1_nonzero (f : spec_float) : bool :=
  match f with
  | S754_zero _ => false
  | S754_infinity _ => true
  | S754_nan => true
  | S754_finite _ m e =>
      if 0 <=? e then false else negb (Z.pos m mod 2 ^ (- e) =? 0)
  end.

(** [int(f)]: truncation towards zero. *)
Definition int_of_float (f : spec_float) : exn + Z :=
  match f with
  | S754_zero _ => inr 0
  | S754_infinity _ => inl OverflowError
  | S754_nan => inl ValueError
  | S754_finite s m e =>
      let a := if 0 <=? e then Z.pos m * 2 ^ e else Z.pos m / 2 ^ (- e) in
      inr (if s then - a else a)
  end.

(** *** [Decimal] arithmetic *)

(** The number of decimal digits of a coefficient ([0] has one). *)
Fixpoint digits_loop (fuel : nat) (c : Z) : Z :=
  match fuel with
  | O => 1
  | S fuel' => if c <? 10 then 1 else 1 + digits_loop fuel' (c / 10)
  end.

Definition digits (c : Z) : Z := digits_loop (Z.to_nat (Z.log2 c)) c.

(** [d.adjusted()]: the exponent of the most significant digit. *)
Definition adjusted (c e : Z) : Z := e + digits c - 1.

(** The remainder of [Decimal.__mod__] is rounded to the context before it
    is returned.  Its magnitude is below 1, so the rounding can only make
    a non-zero remainder zero by underflow: [rounds_to_zero] tells whether
    it does, for the remainder of sign [s], coefficient [r > 0] and
    exponent [e].  [kept] is the number of digits of [r] that are not
    below [Etiny].  When there is one, the rounded coefficient begins with
    it and is not zero.  When there is none, the whole of [r] is discarded
    and the result is zero or one unit of [Etiny], as the rounding mode
    says: towards zero it is zero, away from zero it is the unit, and to
    the nearest it is zero when [r] is less than half the unit, or
    exactly half of it and the tie goes down or to the even neighbour. *)
Definition rounds_to_zero (ctx : context) (s : bool) (r e : Z) : bool :=
  let kept := digits r + e - Etiny ctx in
  if 0 <? kept then false
  else
    match rounding ctx with
    | ROUND_DOWN => true
    | ROUND_UP | ROUND_05UP => false
    | ROUND_CEILING => s
    | ROUND_FLOOR => negb s
    | ROUND_HALF_UP => (kept <? 0) || (2 * r <? 10 ^ digits r)
    | ROUND_HALF_EVEN | ROUND_HALF_DOWN =>
        (kept <? 0) || (2 * r <=? 10 ^ digits r)
    end.

(** [d % 1 != 0] under the context [ctx], after [Decimal.__mod__]: a quiet
    NaN gives NaN, which differs from 0; a signalling NaN and an infinity
    are invalid operations; a zero, or a number below 0.1 in magnitude, is
    its own remainder; otherwise the integer quotient is computed, and
    when it needs more than [prec] digits the division is impossible,
    which is an invalid operation too.  The remainder has the sign of
    [d] and the exponent [min(e, 0)], and is rounded to the context. *)
Definition decimal_mod1_nonzero (ctx : context) (d : Decimal) : exn + bool :=
  match d with
  | DNaN false => inr true
  | DNaN true => inl InvalidOperation
  | DInfinity _ => inl InvalidOperation
  | DFinite s c e =>
      let expdiff := adjusted c e in
      if (c =? 0) then inr false
      else if (expdiff <=? -2) then inr (negb (rounds_to_zero ctx s c e))
      else if expdiff <=? prec ctx then
        let op1 := if 0 <=? e then c * 10 ^ e else c in
        let op2 := if 0 <=? e then 1 else 10 ^ (- e) in
        if op1 / op2 <? 10 ^ prec ctx
        then inr (negb (op1 mod op2 =? 0) &&
                  negb (rounds_to_zero ctx s (op1 mod op2) (Z.min e 0)))
        else inl InvalidOperation
      else inl InvalidOperation
  end.

(** [int(d)]: truncation towards zero. *)
Definition int_of_decimal (d : Decimal) : exn + Z :=
  match d with
  | DNaN _ => inl ValueError
  | DInfinity _ => inl OverflowError
  | DFinite s c e =>
      let a := if 0 <=? e then c * 10 ^ e else c / 10 ^ (- e) in
      inr (if s then - a else a)
  end.

(** *** The collaborators

    What [coerce_type] calls outside this module and outside the numeric
    tower: the JSON codec, [str], the [%] of [str] and [bytes] (their
    formatting operator), the hex and base64 codecs, [int] on any value
    and on a text with a base, the conversions to [float] and [Decimal],
    and the date-time library.  Each of them returns or raises. *)
Record collaborators : Type := {
  json_dumps : pyval -> exn + pyval;
  py_str : pyval -> exn + pyval;
  format_with : pyval -> pyval -> exn + pyval;
  strip : string -> string;
  bytes_fromhex : string -> exn + pyval;
  b64decode : string -> exn + pyval;
  int_to_bytes : Z -> exn + pyval;
  int_of : pyval -> exn + pyval;
  int_of_text : string -> Z -> exn + pyval;
  float_of : pyval -> exn + pyval;
  decimal_of : pyval -> exn + pyval;
  from_timestamp : pyval -> exn + pyval;
  isoparse : pyval -> exn + pyval
}.

Section CoerceType.
Variable ctx : context.
Variable ext : collaborators.

(** [try: ... except caught: raise ValueError(...)] *)
Definition reraise (caught : exn -> bool) (r : exn + pyval) : exn + pyval :=
  match r with
  | inl e => if caught e then inl ValueError else inl e
  | inr v => inr v
  end.

Definition is_BinasciiError (e : exn) : bool :=
  match e with BinasciiError => true | _ => false end.

Definition is_ConversionSyntax (e : exn) : bool :=
  match e with ConversionSyntax => true | _ => false end.

(** [except ValueError]: [binascii.Error] derives from [ValueError]. *)
Definition is_ValueError (e : exn) : bool :=
  match e with ValueError | BinasciiError => true | _ => false end.

(** [if value % 1 != 0: raise ValueError(value)] then [return int(value)].
    The value is a [float] or a [Decimal] when [from_type] is [double] or
    [decimal].  Of the values handed over under that name without being
    one: an [int] or a [bool] has the remainder 0 and passes the test;
    for a [str] or [bytes] the [%] is the formatting operator, which
    raises or gives a [str] or [bytes], and these differ from 0; the
    others have no [%]. *)
Definition coerce_integral (value : pyval) : exn + pyval :=
  match value with
  | PFloat f =>
      if float_mod1_nonzero f then inl ValueError
      else match int_of_float f with
           | inr n => inr (PInt n)
           | inl e => inl e
           end
  | PDecimal d =>
      match decimal_mod1_nonzero ctx d with
      | inl e => inl e
      | inr true => inl ValueError
      | inr false =>
          match int_of_decimal d with
          | inr n => inr (PInt n)
          | inl e => inl e
          end
      end
  | PInt n => inr (PInt n)
  | PBool b => inr (PInt (if b then 1 else 0))
  | PStr _ | PBytes _ =>
      match format_with ext value (PInt 1) with
      | inl e => inl e
      | inr _ => inl ValueError
      end
  | PNone | PList _ | PDict _ => inl TypeError
  end.

(** [int(trim_value[2:], 16)] for a [0x] prefix, else [int(trim_value)]. *)
Definition int_of_trimmed (trim_value : string) : exn + pyval :=
  if PyStr.startswith "0x" trim_value
  then int_of_text ext (PyStr.slice trim_value (Some 2) None) 16
  else int_of ext (PStr trim_value).

(** [value.strip()] followed by [trim_value.startswith("0x")], for a value
    that is no [str]: [bytes] has both methods, but its [startswith] does
    not take a [str]; the others have no [strip]. *)
Definition not_a_text (value : pyval) : exn :=
  match value with
  | PBytes _ => TypeError
  | _ => AttributeError
  end.

(** [coerce_type(to_type, from_type, value)] *)
Definition coerce_type (to_type from_type : TDataType) (value : pyval)
  : exn + pyval :=
  if TDataType_eqb to_type from_type then
    match to_type with
    | dt_complex => json_dumps ext value
    | _ => inr value
    end
  else
    match to_type with
    | dt_text =>
        match from_type with
        | dt_complex => json_dumps ext value
        | _ => py_str ext value
        end
    | dt_binary =>
        match from_type with
        | dt_text =>
            match value with
            | PStr s =>
                if PyStr.startswith "0x" s
                then bytes_fromhex ext (PyStr.slice s (Some 2) None)
                else reraise is_BinasciiError (b64decode ext s)
            | _ => inl (not_a_text value)
            end
        | dt_bigint =>
            match value with
            | PInt n => int_to_bytes ext n
            | PBool b => int_to_bytes ext (if b then 1 else 0)
            | _ => inl AttributeError
            end
        | _ => inl ValueError
        end
    | dt_wei | dt_bigint =>
        match from_type with
        | dt_bigint => inr value
        | dt_decimal | dt_double => coerce_integral value
        | dt_text =>
            match value with
            | PStr s => int_of_trimmed (strip ext s)
            | _ => inl (not_a_text value)
            end
        | _ => inl ValueError
        end
    | dt_double =>
        match from_type with
        | dt_bigint | dt_wei | dt_decimal => float_of ext value
        | dt_text =>
            match value with
            | PStr s =>
                let trim_value := strip ext s in
                if PyStr.startswith "0x" trim_value
                then
                  match int_of_text ext (PyStr.slice trim_value (Some 2) None) 16 with
                  | inr n => float_of ext n
                  | inl e => inl e
                  end
                else float_of ext (PStr trim_value)
            | _ => inl (not_a_text value)
            end
        | _ => inl ValueError
        end
    | dt_decimal =>
        match from_type with
        | dt_bigint | dt_wei => inr value
        | dt_double => decimal_of ext value
        | dt_text =>
            match value with
            | PStr s =>
                let trim_value := strip ext s in
                if PyStr.startswith "0x" trim_value
                then int_of_text ext (PyStr.slice trim_value (Some 2) None) 16
                else if (PyStr.find "." trim_value <? 0)
                        && (PyStr.find "e" trim_value <? 0)
                then int_of ext (PStr trim_value)
                else reraise is_ConversionSyntax
                       (decimal_of ext (PStr trim_value))
            | _ => inl (not_a_text value)
            end
        | _ => inl ValueError
        end
    | dt_timestamp =>
        match from_type with
        | dt_bigint | dt_double => from_timestamp ext value
        | dt_text =>
            match isoparse ext value with
            | inr _ => inr value
            | inl e =>
                if is_ValueError e then
                  match int_of ext value with
                  | inr n => from_timestamp ext n
                  | inl e' =>
                      if is_ValueError e' then
                        match float_of ext value with
                        | inr x => from_timestamp ext x
                        | inl e'' => inl e''
                        end
                      else inl e'
                  end
                else inl e
            end
        | _ => inl ValueError
        end
    | dt_bool | dt_complex => inl ValueError
    end.

End CoerceType.

(** The real number a finite [float] or [Decimal] stands for. *)
Definition Qpow (b : Z) (e : Z) : Q :=
  if 0 <=? e then inject_Z (b ^ e) else / inject_Z (b ^ (- e)).

Definition float_value (f : spec_float) : option Q :=
  match f with
  | S754_zero _ => Some 0%Q
  | S754_finite s m e =>
      Some ((if s then - inject_Z (Z.pos m) else inject_Z (Z.pos m)) * Qpow 2 e)%Q
  | S754_infinity _ | S754_nan => None
  end.

Definition decimal_value (d : Decimal) : option Q :=
  match d with
  | DFinite s c e =>
      Some ((if s then - inject_Z c else inject_Z c) * Qpow 10 e)%Q
  | DInfinity _ | DNaN _ => None
  end.

(** The integer part of the magnitude of a finite decimal. *)
Definition integer_part (c e : Z) : Z :=
  if 0 <=? e then c * 10 ^ e else c / 10 ^ (- e).

End Coerce.

(* ===================================================================== *)
(** ** Vocabulary of the specification *)
(* ===================================================================== *)

Module Spec.
Import PyDict.

(** The last index at which [sub] occurs in [s]. *)
Definition last_occurrence (sub s : string) (i : nat) : Prop :=
  PyStr.occurs_at sub s i /\
  forall j, PyStr.occurs_at sub s j -> (j <= i)%nat.

(** The first index at which [sub] occurs in [s]. *)
Definition first_occurrence (sub s : string) (i : nat) : Prop :=
  PyStr.occurs_at sub s i /\
  forall j, PyStr.occurs_at sub s j -> (i <= j)%nat.

(** [t] is [s] truncated at its last [__], which is not at index 0. *)
Definition cut (s t : string) : Prop :=
  exists i, last_occurrence "__" s i /\ (0 < i)%nat /\ t = PyStr.take i s.

(** The names obtained from [name] by truncating it, once or repeatedly. *)
Inductive truncation (name : string) : string -> Prop :=
| truncation_once t : cut name t -> truncation name t
| truncation_again t u : truncation name t -> cut t u -> truncation name u.

(** The parent the specification gives a legacy table name: the longest
    truncation that names a legacy table, or none when no truncation does. *)
Definition legacy_parent (old_tables : dict Doc.value) (name : string)
    (parent : option string) : Prop :=
  match parent with
  | Some p =>
      truncation name p /\ mem p old_tables = true /\
      forall q, truncation name q -> mem q old_tables = true ->
                (String.length q <= String.length p)%nat
  | None => forall q, truncation name q -> mem q old_tables = false
  end.

(** The loop, as a relation between the name it starts from and the parent
    it ends with. *)
Inductive search (old_tables : dict Doc.value) : string -> option string -> Prop :=
| search_root s : (forall t, ~ cut s t) -> search old_tables s None
| search_found s t :
    cut s t -> mem t old_tables = true -> search old_tables s (Some t)
| search_skip s t r :
    cut s t -> mem t old_tables = false -> search old_tables t r ->
    search old_tables s r.

(** A legacy filter pattern, [^root__path]. *)
Definition pattern (rp : string * string) : string :=
  "^" ++ fst rp ++ "__" ++ snd rp.

(** [root] is the first [__]-delimited segment of [root__path]: the
    separator that follows it is the first [__] there is. *)
Definition first_segment (root : string) : Prop :=
  first_occurrence "__" (root ++ "__") (String.length root).

(** The root and the path that the migration reads off a legacy filter. *)
Definition split_filter (f : string) : string * string :=
  (PyStr.slice f (Some 1) (Some (PyStr.find "__" f)),
   PyStr.slice f (Some (PyStr.find "__" f + 2)) None).

(** The sequence [t["filters"][group]], empty when there is none. *)
Definition filters_of (group : string) (t : dict Doc.value) : list Doc.value :=
  match get "filters" t with
  | Some (Doc.VDict fd) =>
      match get group fd with
      | Some (Doc.VList l) => l
      | _ => []
      end
  | _ => []
  end.

(** The table [t] with [x] appended to [t["filters"][group]]. *)
Definition with_filter (group x : string) (t : dict Doc.value) : dict Doc.value :=
  let fd := match get "filters" t with
            | Some (Doc.VDict fd) => fd
            | _ => []
            end in
  set "filters"
    (Doc.VDict (set group (Doc.VList (filters_of group t ++ [Doc.VStr x])%list) fd)) t.

(** An empty root table. *)
Definition root_table (name : string) : dict Doc.value :=
  [("name", Doc.VStr name); ("columns", Doc.VDict []);
   ("write_disposition", Doc.VStr "append")].

(** The tables after the filter [^root__path] of [group] has been placed:
    [^path] is appended to the filters of the table [root], which is an
    empty root table when there was none. *)
Definition place_filter (group : string) (ts : dict Doc.value)
    (rp : string * string) : dict Doc.value :=
  let t := match get (fst rp) ts with
           | Some (Doc.VDict t) => t
           | _ => root_table (fst rp)
           end in
  set (fst rp) (Doc.VDict (with_filter group ("^" ++ snd rp) t)) ts.

(** A legacy table repackaged: a child of [parent], or a root table. *)
Definition legacy_table (name : string) (parent : option string)
    (columns : Doc.value) : dict Doc.value :=
  match parent with
  | Some p =>
      [("name", Doc.VStr name); ("columns", columns); ("parent", Doc.VStr p)]
  | None =>
      [("name", Doc.VStr name); ("columns", columns);
       ("write_disposition", Doc.VStr "append")]
  end.

(** The parent the loop of the migration ends with. *)
Definition parent_of (old_tables : dict Doc.value) (name : string)
  : option string :=
  match Doc.find_parent_loop (S (String.length name)) old_tables name with
  | Some r => r
  | None => None
  end.

(** The legacy tables repackaged, in the order of the legacy mapping. *)
Definition repackage_step (old_tables : dict Doc.value) (ts : dict Doc.value)
    (item : string * Doc.value) : dict Doc.value :=
  set (fst item)
    (Doc.VDict (legacy_table (fst item) (parent_of old_tables (fst item)) (snd item)))
    ts.

Definition repackaged (old_tables : dict Doc.value) : dict Doc.value :=
  fold_left (repackage_step old_tables) old_tables [].

(** The tables of the migrated document: the legacy tables repackaged, then
    the exclude filters placed, then the include filters. *)
Definition migrated_tables (old_tables : dict Doc.value)
    (excludes includes : list string) : dict Doc.value :=
  fold_left (place_filter "includes") (map split_filter includes)
    (fold_left (place_filter "excludes") (map split_filter excludes)
       (repackaged old_tables)).

(** What the migration moves from the top-level key [k] into the settings:
    the value of the key, or an empty mapping. *)
Definition moved (k : string) (doc : Doc.document) : Doc.value :=
  match get k doc with
  | Some v => v
  | None => Doc.VDict []
  end.

(** The document after the 2 -> 3 step, given its new tables. *)
Definition migrated_document (doc : Doc.document) (tables : dict Doc.value)
  : Doc.document :=
  set "engine_version" (Doc.VInt 3)
    (remove "includes"
       (remove "excludes"
          (set "tables" (Doc.VDict tables)
             (remove "tables"
                (set "settings"
                   (Doc.VDict [("default_hints", moved "hints" doc);
                               ("preferred_types", moved "preferred_types" doc)])
                   (remove "preferred_types"
                      (remove "hints"
                         (set "normalizers" Doc.default_normalizers doc)))))))).

(** The legacy filters under the key [group] are the strings [fs]; a
    missing key is the empty sequence. *)
Definition legacy_filters (group : string) (doc : Doc.document)
    (fs : list string) : Prop :=
  get group doc = Some (Doc.VList (map Doc.VStr fs)) \/
  (get group doc = None /\ fs = []).

(** A table as the migration builds them: a dictionary whose [filters], if
    any, map each group to a sequence. *)
Definition table_ok (v : Doc.value) : Prop :=
  match v with
  | Doc.VDict td =>
      match get "filters" td with
      | None => True
      | Some (Doc.VDict fd) =>
          forall g x, get g fd = Some x -> exists l, x = Doc.VList l
      | Some _ => False
      end
  | _ => False
  end.

Definition tables_ok (ts : dict Doc.value) : Prop :=
  forall k v, get k ts = Some v -> table_ok v.

(** The table [name] is there and has the parent entry [po]. *)
Definition has_parent (name : string) (po : option Doc.value) (ts : dict Doc.value) : Prop :=
  exists t, get name ts = Some (Doc.VDict t) /\ get "parent" t = po.

(** The table [root] is there and has [x] among its filters of [group]. *)
Definition has_filter (group : string) (root : string) (x : Doc.value)
    (ts : dict Doc.value) : Prop :=
  exists t, get root ts = Some (Doc.VDict t) /\ In x (filters_of group t).

End Spec.

(* ===================================================================== *)
(** ** Vocabulary of the hint defaults *)
(* ===================================================================== *)

Module HintSpec.
Import PyDict Store.

(** The six hint flags. *)
Definition hint_names : list string := keys hint_defaults.

(** An entry that the stored form of a column keeps: every entry but a
    [False] under a key other than [nullable]. *)
Definition kept (kv : string * val) : bool :=
  negb (is_False (snd kv) && negb (String.eqb (fst kv) "nullable")).

(** The stored form of a column: no [name], no defaulted hint. *)
Definition stored_column (c : dict val) : dict val :=
  filter kept (remove "name" c).

(** A working column: [name], [data_type] and [nullable] are present, the
    six hint flags are present and boolean, and no other entry is [False]. *)
Definition working_column (w : dict val) : Prop :=
  NoDup (keys w) /\
  In "name" (keys w) /\ In "data_type" (keys w) /\ In "nullable" (keys w) /\
  (forall h, In h hint_names -> exists b, get h w = Some (VBool b)) /\
  (forall k, get k w = Some (VBool false) -> k = "nullable" \/ In k hint_names).

(** Expanding a column, collapsing the expanded column in place to its
    stored form, and expanding that again.  The value is the pair of the
    stored column and the column expanded from it. *)
Definition expand_collapse_expand (column : val) : S (val * val) :=
  (expanded <- add_missing_hints column ;;
   remove_column_defaults expanded ;;
   again <- add_missing_hints expanded ;;
   PyMonad.ret (expanded, again))%py.

End HintSpec.

(* ===================================================================== *)
(** ** Vocabulary of the store *)
(* ===================================================================== *)

Module StoreSpec.
Import PyDict Store.

(** The values an object holds. *)
Definition obj_vals (o : obj) : list val :=
  match o with
  | ODict d => values d
  | OList l => l
  end.

(** A value of the store as it was when it had [n] objects: an atom, or a
    reference to one of them. *)
Definition old_val (n : nat) (v : val) : Prop :=
  match v with
  | VRef l => (l < n)%nat
  | _ => True
  end.

(** A value that does not lead to the first [n] objects: an atom, or a
    reference to a later object. *)
Definition new_val (n : nat) (v : val) : Prop :=
  match v with
  | VRef l => (n <= l)%nat
  | _ => True
  end.

(** A store without dangling references, as every Python state is. *)
Definition closed (st : store) : Prop :=
  forall l o, lookup l st = Some o ->
              Forall (old_val (List.length st)) (obj_vals o).

(** The objects after the first [n] hold no reference to the first [n]. *)
Definition independent (n : nat) (st : store) : Prop :=
  forall l o, (n <= l)%nat -> lookup l st = Some o ->
              Forall (new_val n) (obj_vals o).

(** Every object of [st0] is in [st], as it was. *)
Definition unchanged (st0 st : store) : Prop :=
  forall l, (l < List.length st0)%nat -> lookup l st = lookup l st0.

(** Every object of [st0] but the one at [d] is in [st], as it was. *)
Definition unchanged_but (d : loc) (st0 st : store) : Prop :=
  forall l, (l < List.length st0)%nat -> l <> d -> lookup l st = lookup l st0.

(** What holds of the store while [remove_defaults] works on its copy: the
    objects of [st0] are as they were, and the objects added since are
    independent of them. *)
Definition frame (st0 st : store) : Prop :=
  (List.length st0 <= List.length st)%nat /\
  unchanged st0 st /\
  independent (List.length st0) st.

(** A computation keeps the frame, gives a value that satisfies [Q], and
    does not run out of fuel. *)
Definition keeps {A} (st0 : store) (m : S A) (Q : A -> Prop) : Prop :=
  forall st, frame st0 st ->
    match m st with
    | PyMonad.Ok a st' => Q a /\ frame st0 st'
    | PyMonad.Raise _ st' => frame st0 st'
    | PyMonad.OutOfFuel => False
    end.

(** The memo maps to objects added since [st0]. *)
Definition memo_new (n : nat) (m : memo) : Prop :=
  forall x y, memo_get x m = Some y -> (n <= y)%nat.

(** The memo [m'] knows every object that [m] knows. *)
Definition memo_extends (m m' : memo) : Prop :=
  forall x, memo_get x m <> None -> memo_get x m' <> None.

(** How many of the first [n] objects the memo does not know. *)
Definition unseen (n : nat) (m : memo) : nat :=
  List.length
    (filter (fun x => match memo_get x m with Some _ => false | None => true end)
       (seq 0 n)).

(** What a copy is: a value that does not lead to the first [n] objects,
    with a memo that has grown and maps to later objects. *)
Definition copied (n : nat) (m : memo) (r : val * memo) : Prop :=
  new_val n (fst r) /\ memo_new n (snd r) /\ memo_extends m (snd r).

End StoreSpec.

(* ===================================================================== *)
(** ** Sample documents *)
(* ===================================================================== *)

Module Samples.
Import PyDict Doc.

(** A version-2 document with a nested table and a legacy exclude filter. *)
Definition shop_v2 : document :=
  [("name", VStr "shop");
   ("engine_version", VInt 2);
   ("tables",
    VDict [("orders", VDict [("id", VDict [("data_type", VStr "bigint")])]);
           ("orders__items", VDict [])]);
   ("hints", VDict [("not_null", VList [VStr "id"])]);
   ("excludes", VList [VStr "^orders__items__price"]);
   ("includes", VList [])].

(** A version-1 document. *)
Definition shop_v1 : document :=
  [("name", VStr "shop");
   ("engine_version", VInt 1);
   ("tables", VDict [("orders", VDict [])]);
   ("preferred_types", VDict [])].

(** A working column. *)
Definition id_column : dict Store.val :=
  [("name", Store.VStr "id"); ("data_type", Store.VStr "bigint");
   ("nullable", Store.VBool false);
   ("partition", Store.VBool false); ("cluster", Store.VBool false);
   ("unique", Store.VBool true); ("sort", Store.VBool false);
   ("primary_key", Store.VBool true); ("foreign_key", Store.VBool false)].

(** A store with a document at address 0, its tables at 1, one table at 2,
    the columns of the table at 3 and one column at 4. *)
Definition shop_store : Store.store :=
  [Store.ODict [("name", Store.VStr "shop"); ("tables", Store.VRef 1%nat)];
   Store.ODict [("orders", Store.VRef 2%nat)];
   Store.ODict [("name", Store.VStr "orders"); ("columns", Store.VRef 3%nat)];
   Store.ODict [("id", Store.VRef 4%nat)];
   Store.ODict id_column].

(** Collaborators that do nothing, for running [coerce_type] where it
    calls none of them. *)
Definition no_collaborators : Coerce.collaborators :=
  {| Coerce.json_dumps := fun _ => inl Coerce.TypeError;
     Coerce.py_str := fun _ => inl Coerce.TypeError;
     Coerce.format_with := fun _ _ => inl Coerce.TypeError;
     Coerce.strip := fun s => s;
     Coerce.bytes_fromhex := fun _ => inl Coerce.ValueError;
     Coerce.b64decode := fun _ => inl Coerce.BinasciiError;
     Coerce.int_to_bytes := fun _ => inl Coerce.OverflowError;
     Coerce.int_of := fun _ => inl Coerce.ValueError;
     Coerce.int_of_text := fun _ _ => inl Coerce.ValueError;
     Coerce.float_of := fun _ => inl Coerce.ValueError;
     Coerce.decimal_of := fun _ => inl Coerce.ConversionSyntax;
     Coerce.from_timestamp := fun _ => inl Coerce.ValueError;
     Coerce.isoparse := fun _ => inl Coerce.ValueError |}.

End Samples.

(* ===================================================================== *)
(** ** Columns as trees: comparison and expansion *)
(* ===================================================================== *)

(** [compare_columns] only reads its arguments, and [==] compares what
    they hold, not which objects they are; the columns it is given are
    modelled as trees. *)
Module Column.
Import PyDict Doc.

(** Python's [==] on the values of a document.  [bool] is a subclass of
    [int], so [True == 1]; sequences are compared element by element,
    mappings entry by entry whatever their order; values of different
    kinds are unequal. *)
Fixpoint py_eq (a b : value) {struct a} : bool :=
  match a, b with
  | VNone, VNone => true
  | VBool x, VBool y => Bool.eqb x y
  | VBool x, VInt n => (if x then 1 else 0) =? n
  | VInt n, VBool x => n =? (if x then 1 else 0)
  | VInt m, VInt n => m =? n
  | VStr s, VStr t => String.eqb s t
  | VList l, VList l' =>
      (fix list_eq (l l' : list value) {struct l} : bool :=
         match l, l' with
         | [], [] => true
         | x :: xs, y :: ys => py_eq x y && list_eq xs ys
         | _, _ => false
         end) l l'
  | VDict d, VDict d' =>
      (List.length d =? List.length d')%nat &&
      (fix entries_eq (d : list (string * value)) {struct d} : bool :=
         match d with
         | [] => true
         | (k, v) :: rest =>
             match get k d' with
             | Some v' => py_eq v v' && entries_eq rest
             | None => false
             end
         end) d
  | _, _ => false
  end.

(** [v[k]] for a [str] key [k] *)
Definition subscript (v : value) (k : string) : exn + value :=
  match v with
  | VDict d =>
      match get k d with
      | Some x => inr x
      | None => inl (KeyError k)
      end
  | _ => inl TypeError
  end.

(** [compare_columns(a, b)]: the operands of [and] are evaluated from left
    to right, the second only when the first is true. *)
Definition compare_columns (a b : value) : exn + bool :=
  match subscript a "data_type" with
  | inl e => inl e
  | inr ta =>
      match subscript b "data_type" with
      | inl e => inl e
      | inr tb =>
          if py_eq ta tb then
            match subscript a "nullable" with
            | inl e => inl e
            | inr na =>
                match subscript b "nullable" with
                | inl e => inl e
                | inr nb => inr (py_eq na nb)
                end
            end
          else inr false
      end
  end.

(** The defaults that [add_missing_hints] spreads under the column. *)
Definition hint_defaults : dict value :=
  [("partition", VBool false); ("cluster", VBool false);
   ("unique", VBool false); ("sort", VBool false);
   ("primary_key", VBool false); ("foreign_key", VBool false)].

(** [add_missing_hints(column)] as the content of the dictionary it
    builds; [**column] needs a mapping. *)
Definition add_missing_hints (column : value) : exn + value :=
  match column with
  | VDict d => inr (VDict (merge hint_defaults d))
  | _ => inl TypeError
  end.

(** A value that is no container: [None], a [bool], an [int] or a [str]. *)
Definition scalar (v : value) : Prop :=
  match v with
  | VList _ | VDict _ => False
  | _ => True
  end.

(** *** Columns that hold floats

    The values of [Doc] have no [float], which a parsed document can
    hold.  A [float] takes part in [==] as a number: it is compared with
    an [int] or a [bool] by value, exactly, and a NaN differs from
    everything, itself included. *)
Module WithFloats.

(** A number as [==] sees it. *)
Inductive number : Type :=
| NNaN
| NInf (negative : bool)
| NFin (q : Q).

Definition number_of_float (f : spec_float) : number :=
  match f with
  | S754_nan => NNaN
  | S754_infinity s => NInf s
  | S754_zero _ => NFin 0
  | S754_finite s m e =>
      NFin ((if s then - inject_Z (Z.pos m) else inject_Z (Z.pos m))
            * Coerce.Qpow 2 e)
  end.

Definition number_eq (a b : number) : bool :=
  match a, b with
  | NFin p, NFin q => Qeq_bool p q
  | NInf s, NInf t => Bool.eqb s t
  | _, _ => false
  end.

(** What an entry of a column holds: a value of a document, or a
    [float].  (Inside the sequences and mappings there is none: on their
    elements [==] goes by identity first, which a tree does not
    record.) *)
Inductive entry : Type :=
| EVal (v : value)
| EFloat (f : spec_float).

(** The number that an entry is, if it is one. *)
Definition number_of (a : entry) : option number :=
  match a with
  | EFloat f => Some (number_of_float f)
  | EVal (VInt n) => Some (NFin (inject_Z n))
  | EVal (VBool b) => Some (NFin (inject_Z (if b then 1 else 0)))
  | EVal _ => None
  end.

(** Python's [==] on entries. *)
Definition entry_eq (a b : entry) : bool :=
  match a, b with
  | EVal u, EVal v => py_eq u v
  | _, _ =>
      match number_of a, number_of b with
      | Some x, Some y => number_eq x y
      | _, _ => false
      end
  end.

(** [col[k]] *)
Definition subscript (col : dict entry) (k : string) : exn + entry :=
  match get k col with
  | Some x => inr x
  | None => inl (KeyError k)
  end.

(** [compare_columns(a, b)] on two dictionaries. *)
Definition compare_columns (a b : dict entry) : exn + bool :=
  match subscript a "data_type" with
  | inl e => inl e
  | inr ta =>
      match subscript b "data_type" with
      | inl e => inl e
      | inr tb =>
          if entry_eq ta tb then
            match subscript a "nullable" with
            | inl e => inl e
            | inr na =>
                match subscript b "nullable" with
                | inl e => inl e
                | inr nb => inr (entry_eq na nb)
                end
            end
          else inr false
      end
  end.

(** An entry that is no container: [None], a [bool], an [int], a [float]
    or a [str]. *)
Definition scalar_entry (a : entry) : Prop :=
  match a with
  | EVal v => scalar v
  | EFloat _ => True
  end.

Definition is_nan (a : entry) : bool :=
  match a with
  | EFloat S754_nan => true
  | _ => false
  end.

(** A column that carries the scalar [t] as [data_type] and the scalar
    [n] as [nullable]. *)
Definition typed_column (d : dict entry) (t n : entry) : Prop :=
  get "data_type" d = Some t /\ get "nullable" d = Some n /\
  scalar_entry t /\ scalar_entry n.

(** A column of [Doc] values as a column of entries. *)
Definition of_doc (d : dict value) : dict entry :=
  map (fun kv => (fst kv, EVal (snd kv))) d.

End WithFloats.

(** The columns that [new_table] is handed: dictionaries with a [str]
    under [name]. *)
Definition name_of (c : value) : option string :=
  match c with
  | VDict d => match get "name" d with Some (VStr n) => Some n | _ => None end
  | _ => None
  end.

Definition named (n : string) (c : value) : bool :=
  match name_of c with
  | Some m => String.eqb n m
  | None => false
  end.

End Column.

(* ===================================================================== *)
(** ** Python classes and [py_type_to_sc_type] *)
(* ===================================================================== *)

Module PyType.
Import Coerce.

(** The classes that [py_type_to_sc_type] names, and the others. *)
Inductive class_id : Type :=
| c_object | c_float | c_int | c_bool | c_bytes | c_dict | c_list
| c_Decimal | c_datetime
| c_other (n : nat).

Definition class_id_eqb (a b : class_id) : bool :=
  match a, b with
  | c_object, c_object | c_float, c_float | c_int, c_int | c_bool, c_bool
  | c_bytes, c_bytes | c_dict, c_dict | c_list, c_list
  | c_Decimal, c_Decimal | c_datetime, c_datetime => true
  | c_other m, c_other n => (m =? n)%nat
  | _, _ => false
  end.

(** A class: which class it is, and its method resolution order, the list
    of the classes it derives from, itself first.  The argument of
    [py_type_to_sc_type] is a class ([Type[Any]]). *)
Record class : Type := { ident : class_id; mro : list class_id }.

(** [t is k] *)
Definition is_ (t : class) (k : class_id) : bool :=
  class_id_eqb (ident t) k.

(** [issubclass(t, k)] for a class [t] and one of the built-in classes
    [k], none of which customises the test: [k] is looked up in the
    method resolution order of [t]. *)
Definition issubclass (t : class) (k : class_id) : bool :=
  existsb (class_id_eqb k) (mro t).

(** [py_type_to_sc_type(t)] *)
Definition py_type_to_sc_type (t : class) : TDataType :=
  if is_ t c_float then dt_double
  else if is_ t c_int then dt_bigint
  else if is_ t c_bool then dt_bool
  else if issubclass t c_bytes then dt_binary
  else if issubclass t c_dict || issubclass t c_list then dt_complex
  else if issubclass t c_Decimal then dt_decimal
  else if issubclass t c_datetime then dt_timestamp
  else dt_text.

(** The classes of the language as far as the function looks at them:
    [bool] derives from [int], every class from [object]. *)
Definition float_class : class := {| ident := c_float; mro := [c_float; c_object] |}.
Definition int_class : class := {| ident := c_int; mro := [c_int; c_object] |}.
Definition bool_class : class := {| ident := c_bool; mro := [c_bool; c_int; c_object] |}.

(** [class IntEnum(int, Enum)]-like: a class of the program that derives
    from [int]. *)
Definition int_subclass (n : nat) : class :=
  {| ident := c_other n; mro := [c_other n; c_int; c_object] |}.

End PyType.

(* ===================================================================== *)
(** ** [apply_defaults] in the store *)
(* ===================================================================== *)

(** [apply_defaults] changes the tables it is handed in place and replaces
    each column by a new dictionary, so it runs in the store.  Its loops
    are over dictionaries that their own bodies write to, and the columns
    are reached by a subscript with the loop variable; both are modelled
    as the interpreter performs them. *)
Module Defaults.
Import PyDict PyMonad Store.

(** The exceptions of [Store], and two more that a subscript with a key
    that is no [str] raises.  [NonStrKey] is no Python exception: it
    reports the assignment of a key that is no [str] to a dictionary,
    which the dictionaries of the model (those of a JSON document) do not
    hold. *)
Inductive exn : Type :=
| Py (e : Store.exn)
| KeyErrorOf (key : val)
| IndexError
| NonStrKey.

Definition D : Type -> Type := PyMonad.M exn store.

(** An operation of [Store], with its exception. *)
Definition py {A} (m : Store.S A) : D A :=
  fun st =>
    match m st with
    | Ok a st' => Ok a st'
    | Raise e st' => Raise (Py e) st'
    | OutOfFuel => OutOfFuel
    end.

Local Open Scope py_scope.

(** [v.get(k)] *)
Definition get_method (v : val) (k : string) : Store.S val :=
  match v with
  | VRef l =>
      o <- deref l ;;
      match o with
      | ODict d => ret (match get k d with Some x => x | None => VNone end)
      | OList _ => raise AttributeError
      end
  | _ => raise AttributeError
  end.

(** [v is None] *)
Definition is_None (v : val) : bool :=
  match v with
  | VNone => true
  | _ => false
  end.

(** A key used as the index of a sequence: an [int], or a [bool]. *)
Definition as_index (key : val) : option Z :=
  match key with
  | VInt i => Some i
  | VBool b => Some (if b then 1 else 0)
  | _ => None
  end.

(** The position that the index [i] has in a sequence of [len] items; a
    negative index counts from the end. *)
Definition position (len : nat) (i : Z) : option nat :=
  let j := if i <? 0 then i + Z.of_nat len else i in
  if (0 <=? j) && (j <? Z.of_nat len) then Some (Z.to_nat j) else None.

(** [xs[n] = x] at a position of the list. *)
Fixpoint list_set (n : nat) (x : val) (xs : list val) : list val :=
  match xs, n with
  | [], _ => []
  | _ :: xs', O => x :: xs'
  | y :: xs', Datatypes.S n' => y :: list_set n' x xs'
  end.

(** [c[key]] for a key of any kind. *)
Definition subscript (c key : val) : D val :=
  match c with
  | VRef l =>
      o <- py (deref l) ;;
      match o with
      | ODict d =>
          match key with
          | VStr k =>
              match get k d with
              | Some x => ret x
              | None => raise (Py (KeyError k))
              end
          | VRef _ => raise (Py TypeError)
          | _ => raise (KeyErrorOf key)
          end
      | OList xs =>
          match as_index key with
          | Some i =>
              match position (List.length xs) i with
              | Some n =>
                  match nth_error xs n with
                  | Some x => ret x
                  | None => raise IndexError
                  end
              | None => raise IndexError
              end
          | None => raise (Py TypeError)
          end
      end
  | VStr s =>
      match as_index key with
      | Some i =>
          match position (String.length s) i with
          | Some n =>
              match String.get n s with
              | Some ch => ret (VStr (String ch EmptyString))
              | None => raise IndexError
              end
          | None => raise IndexError
          end
      | None => raise (Py TypeError)
      end
  | _ => raise (Py TypeError)
  end.

(** [c[key] = x] for a key of any kind. *)
Definition store_subscript (c key x : val) : D unit :=
  match c with
  | VRef l =>
      o <- py (deref l) ;;
      match o with
      | ODict d =>
          match key with
          | VStr k => py (write l (ODict (set k x d)))
          | VRef _ => raise (Py TypeError)
          | _ => raise NonStrKey
          end
      | OList xs =>
          match as_index key with
          | Some i =>
              match position (List.length xs) i with
              | Some n => py (write l (OList (list_set n x xs)))
              | None => raise IndexError
              end
          | None => raise (Py TypeError)
          end
      end
  | _ => raise (Py TypeError)
  end.

(** The iterator of a dictionary.  At every step it tests that the
    dictionary has as many entries as when the iteration began, and then
    reads the entry at its position from the dictionary as it is now.  (No
    loop body below deletes an entry, so the entries keep their
    positions.)  [n] is the number of entries still to come. *)
Fixpoint items_loop (l : loc) (size i n : nat)
    (body : string -> val -> D unit) : D unit :=
  match n with
  | O => py (check_size l size)
  | Datatypes.S n' =>
      py (check_size l size) ;;
      o <- py (deref l) ;;
      match o with
      | ODict d =>
          match nth_error d i with
          | Some (k, v) => body k v ;; items_loop l size (Datatypes.S i) n' body
          | None => raise (Py RuntimeError)
          end
      | OList _ => raise (Py RuntimeError)
      end
  end.

(** [for k, v in c.items(): body(k, v)] *)
Definition for_items (c : val) (body : string -> val -> D unit) : D unit :=
  match c with
  | VRef l =>
      o <- py (deref l) ;;
      match o with
      | ODict d => items_loop l (List.length d) 0 (List.length d) body
      | OList _ => raise (Py AttributeError)
      end
  | _ => raise (Py AttributeError)
  end.

(** The iterator of a list: it yields the item at its position for as long
    as the list, as it is now, has one.  [fuel] bounds the number of
    items. *)
Fixpoint list_loop (l : loc) (i fuel : nat) (body : val -> D unit) : D unit :=
  o <- py (deref l) ;;
  match o with
  | OList xs =>
      match nth_error xs i with
      | None => ret tt
      | Some x =>
          match fuel with
          | O => fun _ => OutOfFuel
          | Datatypes.S fuel' =>
              body x ;; list_loop l (Datatypes.S i) fuel' body
          end
      end
  | ODict _ => raise (Py RuntimeError)
  end.

(** [for x in c: body(x)]: the keys of a dictionary, the items of a list,
    the characters of a string.  No loop body below changes the length of
    a list, so the length of the list bounds the iteration. *)
Definition for_in (c : val) (body : val -> D unit) : D unit :=
  match c with
  | VRef l =>
      o <- py (deref l) ;;
      match o with
      | ODict d =>
          items_loop l (List.length d) 0 (List.length d)
            (fun k _ => body (VStr k))
      | OList xs => list_loop l 0 (List.length xs) body
      end
  | VStr s =>
      for_each
        (map (fun ch => VStr (String ch EmptyString)) (list_ascii_of_string s))
        body
  | _ => raise (Py TypeError)
  end.

(** The body of [for column_name in table["columns"]]. *)
Definition apply_column_defaults (table column_name : val) : D unit :=
  columns <- py (getitem table "columns") ;;
  c <- subscript columns column_name ;;
  column <- py (add_missing_hints c) ;;
  py (setitem column "name" column_name) ;;
  columns <- py (getitem table "columns") ;;
  store_subscript columns column_name column.

(** The body of [for table_name, table in stored_schema["tables"].items()]. *)
Definition apply_table_defaults (table_name : string) (table : val) : D unit :=
  py (setitem table "name" (VStr table_name)) ;;
  parent <- py (get_method table "parent") ;;
  (if is_None parent then
     write_disposition <- py (get_method table "write_disposition") ;;
     if is_None write_disposition
     then py (setitem table "write_disposition" (VStr "append"))
     else ret tt
   else ret tt) ;;
  columns <- py (getitem table "columns") ;;
  for_in columns (apply_column_defaults table).

(** [apply_defaults(stored_schema)]; its value is what the call returns. *)
Definition apply_defaults (stored_schema : val) : D val :=
  tables <- py (getitem stored_schema "tables") ;;
  for_items tables apply_table_defaults ;;
  ret VNone.

End Defaults.

(* ===================================================================== *)
(** ** Vocabulary of the defaults *)
(* ===================================================================== *)

Module DefaultsSpec.
Import PyDict Store.

(** The entry under [k] is missing or [None]. *)
Definition unset (k : string) (d : dict val) : bool :=
  match get k d with
  | None | Some VNone => true
  | Some _ => false
  end.

(** A table with its defaults: its name is the key it is stored under, and
    a table without a parent and without a write disposition appends. *)
Definition table_defaults (table_name : string) (td : dict val) : dict val :=
  let td := set "name" (VStr table_name) td in
  if unset "parent" td && unset "write_disposition" td
  then set "write_disposition" (VStr "append") td
  else td.

(** A column with its defaults: the six hints, and the key it is stored
    under as its name. *)
Definition column_defaults (column_name : string) (cd : dict val) : dict val :=
  set "name" (VStr column_name) (merge hint_defaults cd).

(** The objects of a schema that [apply_defaults] writes to: for every
    table, the table and its mapping of columns. *)
Definition layout : Type := list (string * loc * loc).

Definition structure (lay : layout) : list loc :=
  flat_map (fun e => [snd (fst e); snd e]) lay.

(** The mapping of tables that a layout describes. *)
Definition tables_of (lay : layout) : dict val :=
  map (fun e => (fst (fst e), VRef (snd (fst e)))) lay.

(** A mapping of columns: its keys are distinct, and every entry refers to
    a dictionary that is none of the objects of [avoid]. *)
Definition columns_shape (st : store) (avoid : list loc) (cols : dict val)
  : Prop :=
  NoDup (keys cols) /\
  forall k v, In (k, v) cols ->
    exists x cd, v = VRef x /\ lookup x st = Some (ODict cd) /\ ~ In x avoid.

(** A table at [t] whose mapping of columns is the object at [c]. *)
Definition table_shape (st : store) (avoid : list loc) (t c : loc) : Prop :=
  exists td cols,
    lookup t st = Some (ODict td) /\
    get "columns" td = Some (VRef c) /\
    lookup c st = Some (ODict cols) /\
    columns_shape st avoid cols.

(** A schema document at [doc] laid out as a tree: its tables are the
    mapping at [lt], the document, the mapping of tables, the tables and
    their mappings of columns are objects of their own, and no column is
    one of them. *)
Definition schema_shape (st : store) (doc lt : loc) (lay : layout) : Prop :=
  (exists dd, lookup doc st = Some (ODict dd) /\
              get "tables" dd = Some (VRef lt)) /\
  lookup lt st = Some (ODict (tables_of lay)) /\
  NoDup (doc :: lt :: structure lay) /\
  forall n t c, In (n, t, c) lay ->
    table_shape st (lt :: structure lay) t c.

(** What [apply_defaults] makes of the table stored under [n], which is
    the object at [t] with its columns at [c], between the stores [st]
    and [st']: the table has its defaults, its mapping of columns has the
    keys it had, and every column is a new object that holds the defaults
    of the column it stands for. *)
Definition table_done (st st' : store) (n : string) (t c : loc) : Prop :=
  forall td cols,
    lookup t st = Some (ODict td) -> lookup c st = Some (ODict cols) ->
    lookup t st' = Some (ODict (table_defaults n td)) /\
    exists cols',
      lookup c st' = Some (ODict cols') /\ keys cols' = keys cols /\
      forall k x cd,
        get k cols = Some (VRef x) -> lookup x st = Some (ODict cd) ->
        exists y,
          get k cols' = Some (VRef y) /\ (List.length st <= y)%nat /\
          lookup y st' = Some (ODict (column_defaults k cd)).

(** Two runs of [apply_defaults] on the same document. *)
Definition apply_defaults_twice (stored_schema : val) : Defaults.D val :=
  (Defaults.apply_defaults stored_schema ;;
   Defaults.apply_defaults stored_schema)%py.

(** A column brought to working form under the key [column_name] and then
    collapsed in place to stored form, as [apply_defaults] and
    [remove_defaults] do to it in turn.  The value is the collapsed
    column. *)
Definition expand_collapse (column : val) (column_name : string) : S val :=
  (expanded <- add_missing_hints column ;;
   setitem expanded "name" (VStr column_name) ;;
   remove_column_defaults expanded ;;
   PyMonad.ret expanded)%py.

(** A stored column: distinct keys, no [name], and no [False] under a key
    other than [nullable]. *)
Definition stored_form (c : dict val) : Prop :=
  NoDup (keys c) /\
  get "name" c = None /\
  forall k, get k c = Some (VBool false) -> k = "nullable".

(** A column in stored form. *)
Definition stored_id : dict val :=
  [("data_type", VStr "bigint"); ("nullable", VBool false);
   ("unique", VBool true)].

(** A stored schema: the document at address 0, its tables at 1, the
    table [orders] at 2 with its columns at 3 and one column at 4, the
    table [orders__items] at 5 with its columns at 6 and no column. *)
Definition stored_shop : store :=
  [ODict [("name", VStr "shop"); ("tables", VRef 1%nat)];
   ODict [("orders", VRef 2%nat); ("orders__items", VRef 5%nat)];
   ODict [("columns", VRef 3%nat)];
   ODict [("id", VRef 4%nat)];
   ODict stored_id;
   ODict [("parent", VStr "orders"); ("columns", VRef 6%nat)];
   ODict []].

Definition stored_shop_layout : layout :=
  [("orders", 2%nat, 3%nat); ("orders__items", 5%nat, 6%nat)].

(** A schema whose first table has no columns. *)
Definition broken_shop : store :=
  [ODict [("tables", VRef 1%nat)];
   ODict [("orders", VRef 2%nat)];
   ODict [("description", VStr "orders")]].

End DefaultsSpec.

(* ===================================================================== *)
(** ** Vocabulary of the copy *)
(* ===================================================================== *)

Module CopySpec.
Import PyDict Store StoreSpec.

(** What the memo makes of a value: a reference to an object it knows
    becomes the reference to the copy, any other value stays. *)
Definition image (m : memo) (v : val) : val :=
  match v with
  | VRef x =>
      match memo_get x m with
      | Some y => VRef y
      | None => v
      end
  | _ => v
  end.

Definition image_entry (m : memo) (kv : string * val) : string * val :=
  (fst kv, image m (snd kv)).

Definition image_obj (m : memo) (o : obj) : obj :=
  match o with
  | ODict d => ODict (map (image_entry m) d)
  | OList l => OList (map (image m) l)
  end.

(** The memo knows the object a value refers to. *)
Definition known (m : memo) (v : val) : Prop :=
  match v with
  | VRef x => memo_get x m <> None
  | _ => True
  end.

(** No two objects have the same copy. *)
Definition one_to_one (m : memo) : Prop :=
  forall x x' y, memo_get x m = Some y -> memo_get x' m = Some y -> x = x'.

(** [m'] maps what [m] knows as [m] does. *)
Definition memo_agrees (m m' : memo) : Prop :=
  forall x y, memo_get x m = Some y -> memo_get x m' = Some y.

(** The object at [y] is the finished copy of the object at [x]: it holds
    what that object held in [st0], every reference replaced by the
    reference to the copy. *)
Definition copy_of (st0 st : store) (m : memo) (x y : loc) : Prop :=
  exists o,
    lookup x st0 = Some o /\ Forall (known m) (obj_vals o) /\
    lookup y st = Some (image_obj m o).

(** The state of a copy under way: the objects of [st0] are as they were,
    the memo maps them one to one to objects added since, and the copy of
    every object is finished unless the object is one of [pend], those
    whose children are being copied. *)
Definition copying (st0 st : store) (m : memo) (pend : list loc) : Prop :=
  unchanged st0 st /\
  (forall x y, memo_get x m = Some y ->
     (x < List.length st0)%nat /\
     (List.length st0 <= y)%nat /\ (y < List.length st)%nat) /\
  one_to_one m /\
  (forall x y, memo_get x m = Some y -> In x pend \/ copy_of st0 st m x y).

(** What a call of [deepcopy_memo] on [v] with the memo [m] in the store
    [st] ends with. *)
Definition copied_as (st0 st : store) (pend : list loc) (v : val) (m : memo)
    (r : val * memo) (st' : store) : Prop :=
  fst r = image (snd r) v /\ known (snd r) v /\
  copying st0 st' (snd r) pend /\ memo_agrees m (snd r) /\
  (List.length st <= List.length st')%nat /\
  (forall l, (l < List.length st)%nat -> lookup l st' = lookup l st).

(** The dictionaries of a store have distinct keys, as every dictionary
    has. *)
Definition distinct_keys (st : store) : Prop :=
  forall l d, lookup l st = Some (ODict d) -> NoDup (keys d).

(** A copy: every object the memo knows has a finished copy. *)
Definition isomorphic (st0 st : store) (m : memo) : Prop :=
  copying st0 st m [].

End CopySpec.

(* ===================================================================== *)
(** ** Vocabulary of the stored form *)
(* ===================================================================== *)

Module StoredSpec.
Import PyDict Store StoreSpec HintSpec CopySpec.

(** A value that is no reference. *)
Definition atom (v : val) : Prop :=
  match v with
  | VRef _ => False
  | _ => True
  end.

(** The objects of a working schema that [remove_defaults] copies and
    cleans: for every table its key, the table, its mapping of columns
    and, for every column, its key and the column. *)
Definition table_layout : Type := string * loc * loc * list (string * loc).
Definition layout : Type := list table_layout.

Definition columns_of (xs : list (string * loc)) : dict val :=
  map (fun kx => (fst kx, VRef (snd kx))) xs.

Definition tables_of (lay : layout) : dict val :=
  map (fun e : table_layout => (fst (fst (fst e)), VRef (snd (fst (fst e))))) lay.

Definition table_objects (e : table_layout) : list loc :=
  snd (fst (fst e)) :: snd (fst e) :: map snd (snd e).

Definition objects (lay : layout) : list loc := flat_map table_objects lay.

(** A table that [remove_defaults] can clean: it has a name and its
    columns, and every column is a dictionary with a name and distinct
    keys. *)
Definition table_ready (st : store) (e : table_layout) : Prop :=
  (exists td, lookup (snd (fst (fst e))) st = Some (ODict td) /\
              In "name" (keys td) /\
              get "columns" td = Some (VRef (snd (fst e)))) /\
  lookup (snd (fst e)) st = Some (ODict (columns_of (snd e))) /\
  forall k x, In (k, x) (snd e) ->
    exists cd, lookup x st = Some (ODict cd) /\
               In "name" (keys cd) /\ NoDup (keys cd).

(** The tables at [lt], laid out as a tree of objects of their own. *)
Definition tables_ready (st : store) (lt : loc) (lay : layout) : Prop :=
  lookup lt st = Some (ODict (tables_of lay)) /\
  NoDup (lt :: objects lay) /\
  forall e, In e lay -> table_ready st e.

(** A table cleaned in place between [st] and [st']: the table has lost
    its name, its mapping of columns is as it was, and every column is in
    stored form. *)
Definition table_cleaned (st st' : store) (e : table_layout) : Prop :=
  (forall td, lookup (snd (fst (fst e))) st = Some (ODict td) ->
              lookup (snd (fst (fst e))) st' = Some (ODict (remove "name" td))) /\
  lookup (snd (fst e)) st' = lookup (snd (fst e)) st /\
  forall k x cd, In (k, x) (snd e) -> lookup x st = Some (ODict cd) ->
                 lookup x st' = Some (ODict (stored_column cd)).

(** A working schema: a store without dangling references whose
    dictionaries have distinct keys, a document at [doc] whose tables are
    laid out as a tree, and columns that hold no references. *)
Definition working_schema (st : store) (doc lt : loc) (lay : layout) : Prop :=
  closed st /\ distinct_keys st /\
  (exists dd, lookup doc st = Some (ODict dd) /\
              get "tables" dd = Some (VRef lt)) /\
  tables_ready st lt lay /\
  forall n t c xs k x cd,
    In (n, t, c, xs) lay -> In (k, x) xs -> lookup x st = Some (ODict cd) ->
    Forall atom (values cd).

(** The copy of an object under the memo. *)
Definition copy_loc (m : memo) (x : loc) : loc :=
  match memo_get x m with
  | Some y => y
  | None => x
  end.

(** The layout of the copy. *)
Definition copy_table (m : memo) (e : table_layout) : table_layout :=
  (fst (fst (fst e)), copy_loc m (snd (fst (fst e))), copy_loc m (snd (fst e)),
   map (fun kx => (fst kx, copy_loc m (snd kx))) (snd e)).

Definition copy_layout (m : memo) (lay : layout) : layout :=
  map (copy_table m) lay.

(** A working schema with one table and one column: the document at
    address 0, its tables at 1, the table [orders] at 2, its columns at
    3, the column [id] at 4. *)
Definition working_shop : store :=
  [ODict [("name", VStr "shop"); ("tables", VRef 1%nat)];
   ODict [("orders", VRef 2%nat)];
   ODict [("name", VStr "orders"); ("write_disposition", VStr "append");
          ("columns", VRef 3%nat)];
   ODict [("id", VRef 4%nat)];
   ODict [("partition", VBool false); ("cluster", VBool false);
          ("unique", VBool true); ("sort", VBool false);
          ("primary_key", VBool false); ("foreign_key", VBool false);
          ("data_type", VStr "bigint"); ("nullable", VBool false);
          ("name", VStr "id")]].

Definition working_shop_layout : layout :=
  [("orders", 2%nat, 3%nat, [("id", 4%nat)])].

(** The same schema with the [sort] flag of the column left out. *)
Definition working_shop_no_sort : store :=
  [ODict [("name", VStr "shop"); ("tables", VRef 1%nat)];
   ODict [("orders", VRef 2%nat)];
   ODict [("name", VStr "orders"); ("write_disposition", VStr "append");
          ("columns", VRef 3%nat)];
   ODict [("id", VRef 4%nat)];
   ODict [("partition", VBool false); ("cluster", VBool false);
          ("unique", VBool true);
          ("primary_key", VBool false); ("foreign_key", VBool false);
          ("data_type", VStr "bigint"); ("nullable", VBool false);
          ("name", VStr "id")]].

(** [stored_schema["tables"][table]["columns"][column]] *)
Definition column_at (stored_schema : val) (table column : string) : S val :=
  (tables <- getitem stored_schema "tables" ;;
   t <- getitem tables table ;;
   columns <- getitem t "columns" ;;
   getitem columns column)%py.

(** The column [column] of the table [table] of the schema is a
    dictionary that holds [d]. *)
Definition stored_at (st : store) (stored_schema : val)
    (table column : string) (d : dict val) : Prop :=
  exists x,
    column_at stored_schema table column st = PyMonad.Ok (VRef x) st /\
    lookup x st = Some (ODict d).

End StoredSpec.

(* ===================================================================== *)
(** ** Vocabulary of the cleaning *)
(* ===================================================================== *)

Module CleanSpec.
Import PyDict Store StoreSpec CopySpec.

(** One deletion of the cleaning: of the entry [name] of a dictionary, or
    of an entry that is [False] under a key other than [nullable]. *)
Inductive deletion (s : store) : store -> Prop :=
| deletion_at l d k :
    lookup l s = Some (ODict d) ->
    k = "name" \/ (get k d = Some (VBool false) /\ k <> "nullable") ->
    deletion s (update l (ODict (remove k d)) s).

(** Any number of them, one after the other. *)
Inductive deletions (s : store) : store -> Prop :=
| deletions_none : deletions s s
| deletions_more s1 s2 : deletions s s1 -> deletion s1 s2 -> deletions s s2.

(** What holds of a store once keeps holding whatever is deleted. *)
Definition stable (P : store -> Prop) : Prop :=
  forall s s', deletion s s' -> P s -> P s'.

(** A dictionary less some of its entries; a list as it is. *)
Definition pruned (d d' : dict val) : Prop :=
  exists keep : string * val -> bool, d' = filter keep d.

Definition pruned_obj (o o' : obj) : Prop :=
  match o, o' with
  | ODict d, ODict d' => pruned d d'
  | OList l, OList l' => l' = l
  | _, _ => False
  end.

(** A column in stored form: a dictionary with no [name] and with no
    [False] but under [nullable]. *)
Definition cleaned_column (st : store) (v : val) : Prop :=
  exists x cd,
    v = VRef x /\ lookup x st = Some (ODict cd) /\
    get "name" cd = None /\
    forall h, get h cd = Some (VBool false) -> h = "nullable".

(** A table in stored form: a dictionary with no [name], whose [columns]
    is a dictionary of columns in stored form. *)
Definition cleaned_table (st : store) (v : val) : Prop :=
  exists t td c cols,
    v = VRef t /\ lookup t st = Some (ODict td) /\
    get "name" td = None /\
    get "columns" td = Some (VRef c) /\
    lookup c st = Some (ODict cols) /\
    Forall (cleaned_column st) (values cols).

(** An entry that the cleaning deletes: a [name], or a [False] under a key
    other than [nullable]. *)
Definition deleted_entry (kv : string * val) : Prop :=
  fst kv = "name" \/ (snd kv = VBool false /\ fst kv <> "nullable").

(** The dictionary [d'] is [d] less entries that the cleaning deletes; a
    list is not changed. *)
Definition cleaned_dict (d d' : dict val) : Prop :=
  exists keep : string * val -> bool,
    d' = filter keep d /\
    forall kv, In kv d -> keep kv = false -> deleted_entry kv.

Definition cleaned_obj (o o' : obj) : Prop :=
  match o, o' with
  | ODict d, ODict d' => cleaned_dict d d'
  | OList l, OList l' => l' = l
  | _, _ => False
  end.

(** The deep copy that [remove_defaults] makes and cleans.  The memo [m]
    maps objects of [st0] one to one to objects added since, and with an
    object every object that it refers to.  The copy of an object holds
    what the object holds in [st0], every reference replaced by the
    reference to the copy, less entries that the cleaning deletes. *)
Definition cleaned_copy (st0 st : store) (m : memo) : Prop :=
  one_to_one m /\
  forall x y, memo_get x m = Some y ->
    (x < List.length st0)%nat /\ (List.length st0 <= y)%nat /\
    exists o o',
      lookup x st0 = Some o /\ Forall (known m) (obj_vals o) /\
      lookup y st = Some o' /\ cleaned_obj (image_obj m o) o'.

End CleanSpec.

(* ===================================================================== *)
(** ** Vocabulary of the coercion and of the migration *)
(* ===================================================================== *)

Module CoerceSpec.
Import Coerce.

(** The pairs of a target and a source type for which [coerce_type] has a
    branch. *)
Definition supported (to_type from_type : TDataType) : bool :=
  TDataType_eqb to_type from_type ||
  match to_type, from_type with
  | dt_text, _ => true
  | dt_binary, (dt_text | dt_bigint) => true
  | dt_bigint, (dt_decimal | dt_double | dt_text) => true
  | dt_wei, (dt_bigint | dt_decimal | dt_double | dt_text) => true
  | dt_double, (dt_bigint | dt_wei | dt_decimal | dt_text) => true
  | dt_decimal, (dt_bigint | dt_wei | dt_double | dt_text) => true
  | dt_timestamp, (dt_bigint | dt_double | dt_text) => true
  | _, _ => false
  end.

(** A text that [coerce_type] reads as an integer literal when the target
    is [decimal]: a [0x] prefix, or neither a [.] nor an [e]. *)
Definition integer_literal (s : string) : bool :=
  PyStr.startswith "0x" s ||
  ((PyStr.find "." s <? 0) && (PyStr.find "e" s <? 0)).

End CoerceSpec.

(* ===================================================================== *)
(** ** The name normaliser over Unicode *)
(* ===================================================================== *)

(** A [str] is a sequence of Unicode code points; the strings of [PyStr]
    are those whose code points are below 256.  The two patterns are
    [str] patterns compiled without [re.ASCII], so their [\d] matches
    every decimal digit of Unicode (category Nd), of which 0-9 are the
    ones below 256.  Here the normaliser is given for all code points,
    over the class [decimal] of the decimal digits.  [str.lower] is
    applied to what [RE_NON_ALPHANUMERIC] leaves: the ASCII letters, of
    which it shifts A-Z by 32, and decimal digits, which have no case. *)
Module Unicode.
Local Open Scope N_scope.

Section Digits.
Variable decimal : N -> bool.

Definition is_upper (c : N) : bool := (65 <=? c) && (c <=? 90).
Definition is_lower (c : N) : bool := (97 <=? c) && (c <=? 122).

(** [[a-zA-Z\d]] *)
Definition is_alnum (c : N) : bool := is_lower c || is_upper c || decimal c.

Definition lower_char (c : N) : N := if is_upper c then c + 32 else c.

(** [s.lower()] *)
Definition lower (s : list N) : list N := map lower_char s.

(** [RE_NON_ALPHANUMERIC.sub("", s)] *)
Definition strip_non_alnum (s : list N) : list N := filter is_alnum s.

(** [RE_LEADING_DIGITS.match(s)] as a truth value *)
Definition leading_digits (s : list N) : bool :=
  match s with
  | [] => false
  | c :: _ => decimal c
  end.

(** [normalize_schema_name]; 115 is the letter [s]. *)
Definition normalize_schema_name (name : list N) : list N :=
  let name := if leading_digits name then 115 :: name else name in
  lower (strip_non_alnum name).

End Digits.

(** The code points of a string of [PyStr]. *)
Definition codes (s : string) : list N :=
  map N_of_ascii (list_ascii_of_string s).

End Unicode.

Module UpgradeSpec.
Import PyDict Doc.

(** The document that the 2 -> 3 step leaves behind when it finds no
    [tables]: the normalizers and the settings are in, the legacy hints
    and preferred types are out. *)
Definition half_migrated (doc : document) : document :=
  set "settings"
    (VDict [("default_hints", Spec.moved "hints" doc);
            ("preferred_types", Spec.moved "preferred_types" doc)])
    (remove "preferred_types"
       (remove "hints" (set "normalizers" default_normalizers doc))).

(** An upgrade in two calls, through version 2. *)
Definition upgrade_in_two_calls : M unit :=
  (upgrade_engine_version 1 2 ;; upgrade_engine_version 2 3)%py.

(** The entry [k] of the table [name]. *)
Definition table_entry (name k : string) (ts : dict value) : option value :=
  match get name ts with
  | Some (VDict t) => get k t
  | _ => None
  end.

End UpgradeSpec.

(* ===================================================================== *)
(** ** Facts about strings *)
(* ===================================================================== *)

Module PyStrFacts.
Import PyStr.

Lemma length_take n s : String.length (take n s) = Nat.min n (String.length s).
Proof.
  revert s; induction n as [|n IH]; intros [|c s]; simpl; auto.
Qed.

Lemma length_drop n s : String.length (drop n s) = (String.length s - n)%nat.
Proof.
  revert s; induction n as [|n IH]; intros [|c s]; simpl; auto.
Qed.

Lemma take_all n s : (String.length s <= n)%nat -> take n s = s.
Proof.
  revert s; induction n as [|n IH]; intros [|c s]; simpl; intros H;
    try reflexivity; try lia.
  f_equal. apply IH. lia.
Qed.

Lemma drop_all n s : (String.length s <= n)%nat -> drop n s = EmptyString.
Proof.
  revert s; induction n as [|n IH]; intros [|c s]; simpl; intros H;
    try reflexivity; try lia.
  apply IH. lia.
Qed.

Lemma take_app s t : take (String.length s) (s ++ t) = s.
Proof. induction s as [|c s IH]; simpl; [destruct t|]; congruence. Qed.

Lemma drop_app s t : drop (String.length s) (s ++ t) = t.
Proof. induction s as [|c s IH]; simpl; auto. Qed.

Lemma take_drop n s : take n s ++ drop n s = s.
Proof.
  revert s; induction n as [|n IH]; intros [|c s]; simpl; auto.
  now rewrite IH.
Qed.

Lemma length_app s t :
  String.length (s ++ t) = (String.length s + String.length t)%nat.
Proof. induction s as [|c s IH]; simpl; auto. Qed.

Lemma startswith_app sub t : startswith sub (sub ++ t) = true.
Proof.
  induction sub as [|c sub IH]; simpl; [reflexivity|].
  now rewrite Ascii.eqb_refl.
Qed.

Lemma startswith_split sub s :
  startswith sub s = true -> exists t, s = sub ++ t.
Proof.
  revert s; induction sub as [|c sub IH]; intros s H.
  - exists s. reflexivity.
  - destruct s as [|c' s]; simpl in H; [discriminate|].
    apply andb_true_iff in H. destruct H as [Hc H].
    apply Ascii.eqb_eq in Hc. subst c'.
    destruct (IH _ H) as [t ->]. exists t. reflexivity.
Qed.

Lemma startswith_length sub s :
  startswith sub s = true -> (String.length sub <= String.length s)%nat.
Proof.
  intros H. destruct (startswith_split _ _ H) as [t ->].
  rewrite length_app. lia.
Qed.

(** An occurrence one character further on. *)
Lemma occurs_at_cons sub c s i :
  occurs_at sub (String c s) (S i) <-> occurs_at sub s i.
Proof. unfold occurs_at; simpl. split; intros [H1 H2]; split; auto; lia. Qed.

Lemma occurs_at_0 sub s : occurs_at sub s 0 <-> startswith sub s = true.
Proof.
  unfold occurs_at. replace (drop 0 s) with s by now destruct s.
  split; [tauto | intros H; split; [lia | assumption]].
Qed.

(** [rfind] returns -1 or an index of the string. *)
Lemma rfind_range sub s : -1 <= rfind sub s <= Z.of_nat (String.length s).
Proof.
  induction s as [|c s IH]; cbn [rfind String.length].
  - destruct (startswith sub EmptyString); lia.
  - destruct (0 <=? rfind sub s) eqn:E.
    + apply Z.leb_le in E. lia.
    + destruct (startswith sub (String c s)); lia.
Qed.

(** A non-negative result of [rfind] is an occurrence. *)
Lemma rfind_occurs sub s :
  0 <= rfind sub s -> occurs_at sub s (Z.to_nat (rfind sub s)).
Proof.
  induction s as [|c s IH]; cbn [rfind find].
  - destruct (startswith sub EmptyString) eqn:E; intros H; [|lia].
    apply occurs_at_0. exact E.
  - destruct (0 <=? rfind sub s) eqn:E.
    + apply Z.leb_le in E. intros _.
      replace (Z.to_nat (rfind sub s + 1)) with (S (Z.to_nat (rfind sub s))) by lia.
      apply occurs_at_cons. auto.
    + destruct (startswith sub (String c s)) eqn:E'; intros H; [|lia].
      apply occurs_at_0. exact E'.
Qed.

(** No occurrence lies beyond the result of [rfind]. *)
Lemma rfind_last sub s j :
  occurs_at sub s j -> Z.of_nat j <= rfind sub s.
Proof.
  revert j; induction s as [|c s IH]; intros j Hj; cbn [rfind find].
  - destruct Hj as [Hl Hp]. simpl in Hl. assert (j = 0%nat) by lia. subst j.
    cbn [drop] in Hp. rewrite Hp. lia.
  - destruct j as [|j].
    + apply occurs_at_0 in Hj. rewrite Hj.
      destruct (0 <=? rfind sub s) eqn:E; [apply Z.leb_le in E|]; lia.
    + apply occurs_at_cons in Hj. apply IH in Hj.
      destruct (0 <=? rfind sub s) eqn:E; [lia|].
      apply Z.leb_gt in E. lia.
Qed.

(** [rfind] is the last occurrence, when there is one. *)
Lemma rfind_last_occurrence sub s i :
  Spec.last_occurrence sub s i <-> rfind sub s = Z.of_nat i.
Proof.
  split.
  - intros [Ho Hl]. pose proof (rfind_last _ _ _ Ho) as H1.
    assert (H0 : 0 <= rfind sub s) by lia.
    pose proof (rfind_occurs _ _ H0) as H2. apply Hl in H2. lia.
  - intros H. split.
    + replace i with (Z.to_nat (rfind sub s)) by lia.
      apply rfind_occurs. lia.
    + intros j Hj. apply rfind_last in Hj. lia.
Qed.

(** [find] returns -1 or an index of the string. *)
Lemma find_range sub s : -1 <= find sub s <= Z.of_nat (String.length s).
Proof.
  induction s as [|c s IH]; cbn [find String.length].
  - destruct (startswith sub EmptyString); lia.
  - destruct (startswith sub (String c s)); [lia|].
    destruct (find sub s <? 0) eqn:E; [lia|]. apply Z.ltb_ge in E. lia.
Qed.

Lemma find_occurs sub s :
  0 <= find sub s -> occurs_at sub s (Z.to_nat (find sub s)).
Proof.
  induction s as [|c s IH]; cbn [rfind find].
  - destruct (startswith sub EmptyString) eqn:E; intros H; [|lia].
    apply occurs_at_0. exact E.
  - destruct (startswith sub (String c s)) eqn:E.
    + intros _. apply occurs_at_0. exact E.
    + destruct (find sub s <? 0) eqn:E'; intros H; [lia|].
      apply Z.ltb_ge in E'.
      replace (Z.to_nat (find sub s + 1)) with (S (Z.to_nat (find sub s))) by lia.
      apply occurs_at_cons. auto.
Qed.

Lemma find_first sub s j :
  occurs_at sub s j -> 0 <= find sub s <= Z.of_nat j.
Proof.
  revert j; induction s as [|c s IH]; intros j Hj; cbn [rfind find].
  - destruct Hj as [Hl Hp]. simpl in Hl. assert (j = 0%nat) by lia. subst j.
    cbn [drop] in Hp. rewrite Hp. lia.
  - destruct (startswith sub (String c s)) eqn:E; [lia|].
    destruct j as [|j].
    + apply occurs_at_0 in Hj. congruence.
    + apply occurs_at_cons in Hj. apply IH in Hj.
      destruct (find sub s <? 0) eqn:E'; [apply Z.ltb_lt in E'|]; lia.
Qed.

(** [find] is the first occurrence, when there is one. *)
Lemma find_first_occurrence sub s i :
  Spec.first_occurrence sub s i <-> find sub s = Z.of_nat i.
Proof.
  split.
  - intros [Ho Hl]. pose proof (find_first _ _ _ Ho) as H1.
    assert (H0 : 0 <= find sub s) by lia.
    pose proof (find_occurs _ _ H0) as H2. apply Hl in H2. lia.
  - intros H. split.
    + replace i with (Z.to_nat (find sub s)) by lia.
      apply find_occurs. lia.
    + intros j Hj. apply find_first in Hj. lia.
Qed.

(** A slice with bounds in range. *)
Lemma slice_to s i :
  0 <= i <= Z.of_nat (String.length s) ->
  slice s None (Some i) = take (Z.to_nat i) s.
Proof.
  intros H. unfold slice, clamp.
  destruct (i <? 0) eqn:E; [apply Z.ltb_lt in E; lia|].
  rewrite Z.min_l by lia. simpl. f_equal. lia.
Qed.

Lemma slice_from s i :
  0 <= i <= Z.of_nat (String.length s) ->
  slice s (Some i) None = drop (Z.to_nat i) s.
Proof.
  intros H. unfold slice, clamp.
  destruct (i <? 0) eqn:E; [apply Z.ltb_lt in E; lia|].
  rewrite Z.min_l by lia. apply take_all. rewrite length_drop. lia.
Qed.

Lemma slice_between s i j :
  0 <= i <= j -> j <= Z.of_nat (String.length s) ->
  slice s (Some i) (Some j) = take (Z.to_nat (j - i)) (drop (Z.to_nat i) s).
Proof.
  intros H1 H2. unfold slice, clamp.
  destruct (i <? 0) eqn:E; [apply Z.ltb_lt in E; lia|].
  destruct (j <? 0) eqn:E'; [apply Z.ltb_lt in E'; lia|].
  rewrite !Z.min_l by lia. reflexivity.
Qed.

End PyStrFacts.

(* ===================================================================== *)
(** ** Facts about dictionaries and the monad *)
(* ===================================================================== *)

Module PyDictFacts.
Import PyDict.
Section Facts.
Context {V : Type}.
Implicit Types (d : dict V) (k : string) (v : V).

Lemma get_set_eq k v d : get k (set k v d) = Some v.
Proof.
  induction d as [|[k' v'] d IH]; simpl.
  - now rewrite String.eqb_refl.
  - destruct (String.eqb k k') eqn:E; simpl.
    + now rewrite String.eqb_refl.
    + now rewrite E.
Qed.

Lemma get_set_ne k k' v d : k <> k' -> get k' (set k v d) = get k' d.
Proof.
  intros Hne. induction d as [|[k0 v0] d IH]; simpl.
  - destruct (String.eqb k' k) eqn:E; [|reflexivity].
    apply String.eqb_eq in E. congruence.
  - destruct (String.eqb k k0) eqn:E; simpl.
    + apply String.eqb_eq in E. subst k0.
      destruct (String.eqb k' k) eqn:E'; [|reflexivity].
      apply String.eqb_eq in E'. congruence.
    + now rewrite IH.
Qed.

Lemma get_set k k' v d :
  get k' (set k v d) = if String.eqb k k' then Some v else get k' d.
Proof.
  destruct (String.eqb k k') eqn:E.
  - apply String.eqb_eq in E. subst. apply get_set_eq.
  - apply String.eqb_neq in E. now apply get_set_ne.
Qed.

Lemma get_remove_eq k d : get k (remove k d) = None.
Proof.
  induction d as [|[k' v'] d IH]; simpl; [reflexivity|].
  destruct (String.eqb k k') eqn:E; simpl; [exact IH|].
  now rewrite E.
Qed.

Lemma get_remove_ne k k' d : k <> k' -> get k' (remove k d) = get k' d.
Proof.
  intros Hne. induction d as [|[k0 v0] d IH]; simpl; [reflexivity|].
  destruct (String.eqb k k0) eqn:E; simpl.
  - apply String.eqb_eq in E. subst k0.
    destruct (String.eqb k' k) eqn:E'; [|exact IH].
    apply String.eqb_eq in E'. congruence.
  - now rewrite IH.
Qed.

Lemma get_remove k k' d :
  get k' (remove k d) = if String.eqb k k' then None else get k' d.
Proof.
  destruct (String.eqb k k') eqn:E.
  - apply String.eqb_eq in E. subst. apply get_remove_eq.
  - apply String.eqb_neq in E. now apply get_remove_ne.
Qed.

(** A second assignment to a key overwrites the first. *)
Lemma set_set k v v' d : set k v (set k v' d) = set k v d.
Proof.
  induction d as [|[k0 v0] d IH]; simpl.
  - now rewrite String.eqb_refl.
  - destruct (String.eqb k k0) eqn:E; simpl.
    + now rewrite String.eqb_refl.
    + now rewrite E, IH.
Qed.

(** Assigning to a key the value it has changes nothing. *)
Lemma set_same k v d : get k d = Some v -> set k v d = d.
Proof.
  induction d as [|[k0 v0] d IH]; simpl; [discriminate|].
  destruct (String.eqb k k0) eqn:E.
  - apply String.eqb_eq in E. intros [= ->]. now subst.
  - intros H. now rewrite IH.
Qed.

Lemma mem_true k d : mem k d = true <-> In k (keys d).
Proof.
  unfold mem. induction d as [|[k0 v0] d IH]; simpl.
  - split; [discriminate | tauto].
  - destruct (String.eqb k k0) eqn:E.
    + apply String.eqb_eq in E. subst. tauto.
    + apply String.eqb_neq in E. rewrite IH. split; [tauto|].
      intros [H|H]; [congruence | exact H].
Qed.

Lemma get_Some_In k v d : get k d = Some v -> In k (keys d).
Proof. intros H. apply mem_true. unfold mem. now rewrite H. Qed.

Lemma In_get k d : In k (keys d) -> exists v, get k d = Some v.
Proof.
  intros H. apply mem_true in H. unfold mem in H.
  destruct (get k d) as [v|]; [eauto | discriminate].
Qed.

Lemma get_None_not_In k d : get k d = None <-> ~ In k (keys d).
Proof.
  rewrite <- mem_true. unfold mem. destruct (get k d); split; intros;
    try congruence; try discriminate.
Qed.

Lemma keys_remove k d : keys (remove k d) = List.filter (fun x => negb (String.eqb k x)) (keys d).
Proof.
  unfold keys, remove. induction d as [|[k0 v0] d IH]; simpl; [reflexivity|].
  destruct (String.eqb k k0); simpl; now rewrite IH.
Qed.

Lemma length_remove_le k d : (List.length (remove k d) <= List.length d)%nat.
Proof. apply List.filter_length_le. Qed.

(** Removing a key that is present shortens the dictionary. *)
Lemma length_remove_lt k d :
  In k (keys d) -> (List.length (remove k d) < List.length d)%nat.
Proof.
  unfold remove, keys. induction d as [|[k0 v0] d IH]; simpl; [tauto|].
  intros [H|H].
  - subst k0. rewrite String.eqb_refl. simpl.
    pose proof (List.filter_length_le (fun kv => negb (String.eqb k (fst kv))) d).
    lia.
  - destruct (String.eqb k k0); simpl.
    + pose proof (List.filter_length_le (fun kv => negb (String.eqb k (fst kv))) d).
      lia.
    + apply IH in H. lia.
Qed.

Lemma NoDup_keys_remove k d : NoDup (keys d) -> NoDup (keys (remove k d)).
Proof. intros H. rewrite keys_remove. now apply List.NoDup_filter. Qed.

(** With distinct keys, removing a key that is absent changes nothing. *)
Lemma remove_absent k d : get k d = None -> remove k d = d.
Proof.
  unfold remove. induction d as [|[k0 v0] d IH]; simpl; [reflexivity|].
  destruct (String.eqb k k0) eqn:E; [discriminate|].
  intros H. simpl. now rewrite IH.
Qed.

Lemma remove_remove k k' d : remove k (remove k' d) = remove k' (remove k d).
Proof.
  unfold remove. induction d as [|[k0 v0] d IH]; simpl; [reflexivity|].
  destruct (String.eqb k' k0) eqn:E, (String.eqb k k0) eqn:E'; simpl;
    rewrite ?E, ?E'; simpl; now rewrite IH.
Qed.

End Facts.
End PyDictFacts.

Module PyMonadFacts.
Import PyMonad.
Section Facts.
Context {E St : Type}.

Lemma bind_Ok_inv {A B} (m : M E St A) (f : A -> M E St B) st b st' :
  bind m f st = Ok b st' ->
  exists a st1, m st = Ok a st1 /\ f a st1 = Ok b st'.
Proof.
  unfold bind. destruct (m st) as [a st1|e st1|]; try discriminate. eauto.
Qed.

Lemma bind_Ok {A B} (m : M E St A) (f : A -> M E St B) st a st1 :
  m st = Ok a st1 -> bind m f st = f a st1.
Proof. unfold bind. now intros ->. Qed.

Lemma bind_Raise {A B} (m : M E St A) (f : A -> M E St B) st e st1 :
  m st = Raise e st1 -> bind m f st = Raise e st1.
Proof. unfold bind. now intros ->. Qed.

Lemma for_each_app {A} (xs ys : list A) (body : A -> M E St unit) st :
  for_each (xs ++ ys) body st =
  bind (for_each xs body) (fun _ => for_each ys body) st.
Proof.
  revert st; induction xs as [|x xs IH]; intros st; simpl; [reflexivity|].
  unfold bind. destruct (body x st) as [[] st1|e st1|]; auto.
Qed.

End Facts.
End PyMonadFacts.

(* ===================================================================== *)
(** ** The search for a legacy parent *)
(* ===================================================================== *)

Module ParentFacts.
Import PyDict PyStr PyStrFacts Spec Doc.

(** The test and the slice of the loop are one truncation step. *)
Lemma cut_rfind s t :
  cut s t <-> 0 < rfind "__" s /\ t = slice s None (Some (rfind "__" s)).
Proof.
  pose proof (rfind_range "__" s) as Hr. split.
  - intros (i & Hl & Hi & ->). apply rfind_last_occurrence in Hl.
    split; [lia|]. rewrite slice_to by lia. f_equal. lia.
  - intros [Hpos ->]. exists (Z.to_nat (rfind "__" s)). split; [|split].
    + apply rfind_last_occurrence. lia.
    + lia.
    + apply slice_to. lia.
Qed.

Lemma occurs_at_sep_length s i :
  occurs_at "__" s i -> (i + 2 <= String.length s)%nat.
Proof.
  intros [Hi Hp]. apply startswith_length in Hp.
  rewrite length_drop in Hp. simpl in Hp. lia.
Qed.

(** A truncation step yields a non-empty, strictly shorter prefix. *)
Lemma cut_length s t :
  cut s t -> (0 < String.length t < String.length s)%nat.
Proof.
  intros (i & [Ho _] & Hi & ->). apply occurs_at_sep_length in Ho.
  rewrite length_take. lia.
Qed.

Lemma cut_functional s t t' : cut s t -> cut s t' -> t = t'.
Proof.
  intros H H'. apply cut_rfind in H, H'. destruct H as [_ ->], H' as [_ ->].
  reflexivity.
Qed.

Lemma take_take i j s : (i <= j)%nat -> take i (take j s) = take i s.
Proof.
  revert j s; induction i as [|i IH]; intros [|j] [|c s] H; simpl; auto; try lia.
  f_equal. apply IH. lia.
Qed.

Lemma cut_prefix s t : cut s t -> t = take (String.length t) s.
Proof.
  intros H. pose proof (cut_length _ _ H) as Hl.
  destruct H as (i & _ & _ & ->). rewrite length_take.
  f_equal. rewrite length_take in Hl. lia.
Qed.

(** Every truncation is a non-empty strict prefix of the name. *)
Lemma truncation_prefix name t :
  truncation name t ->
  t = take (String.length t) name /\
  (0 < String.length t < String.length name)%nat.
Proof.
  induction 1 as [t H | t u Ht [IH1 IH2] Hc].
  - split; [now apply cut_prefix | now apply cut_length].
  - pose proof (cut_length _ _ Hc) as Hl. split; [|lia].
    pose proof (cut_prefix _ _ Hc) as Hu. rewrite IH1 in Hu.
    rewrite take_take in Hu by lia. exact Hu.
Qed.

(** A truncation begins with one step from the name. *)
Lemma truncation_step name t u :
  cut name t -> truncation t u -> truncation name u.
Proof.
  intros Hc Ht. induction Ht as [u H | u v Hu IH Hv].
  - eapply truncation_again; [apply truncation_once; eassumption | assumption].
  - eapply truncation_again; eassumption.
Qed.

Lemma truncation_inv name u :
  truncation name u ->
  exists t, cut name t /\ (u = t \/ truncation t u).
Proof.
  induction 1 as [t H | t u Ht (t0 & Hc & IH) Hu].
  - exists t. auto.
  - exists t0. split; [assumption|]. right. destruct IH as [-> | IH].
    + now apply truncation_once.
    + eapply truncation_again; eassumption.
Qed.

(** The loop ends within as many iterations as the name is long, and with
    the parent the relation describes. *)
Lemma find_parent_loop_search old_tables fuel s :
  (String.length s < fuel)%nat ->
  exists r, find_parent_loop fuel old_tables s = Some r /\ search old_tables s r.
Proof.
  revert s; induction fuel as [|fuel IH]; intros s Hlen; [lia|].
  cbn [find_parent_loop].
  destruct (0 <? rfind "__" s) eqn:E.
  - apply Z.ltb_lt in E.
    assert (Hc : cut s (slice s None (Some (rfind "__" s)))).
    { apply cut_rfind. auto. }
    pose proof (cut_length _ _ Hc) as Hl.
    destruct (mem (slice s None (Some (rfind "__" s))) old_tables) eqn:Em; simpl.
    + eexists; split; [reflexivity|]. now apply search_found.
    + destruct (IH (slice s None (Some (rfind "__" s)))) as (r & Hr & Hs); [lia|].
      exists r. split; [assumption|]. eapply search_skip; eassumption.
  - apply Z.ltb_ge in E. eexists; split; [reflexivity|].
    apply search_root. intros t Ht. apply cut_rfind in Ht. lia.
Qed.

(** What the loop finds is the parent of the specification. *)
Lemma search_legacy_parent old_tables s r :
  search old_tables s r -> legacy_parent old_tables s r.
Proof.
  induction 1 as [s Hno | s t Hc Hm | s t r Hc Hm Hs IH]; simpl.
  - intros q Hq. apply truncation_inv in Hq. destruct Hq as (t & Hc & _).
    now apply Hno in Hc.
  - split; [now apply truncation_once|]. split; [assumption|].
    intros q Hq _. apply truncation_inv in Hq.
    destruct Hq as (t' & Hc' & [-> | Hq]).
    + now rewrite (cut_functional _ _ _ Hc Hc').
    + rewrite (cut_functional _ _ _ Hc Hc').
      apply truncation_prefix in Hq. lia.
  - destruct r as [p|]; simpl in IH.
    + destruct IH as (Hp & Hmp & Hmax). split; [|split].
      * eapply truncation_step; eassumption.
      * assumption.
      * intros q Hq Hmq. apply truncation_inv in Hq.
        destruct Hq as (t' & Hc' & Hq).
        rewrite <- (cut_functional _ _ _ Hc Hc') in Hq.
        destruct Hq as [-> | Hq]; [congruence | auto].
    + intros q Hq. apply truncation_inv in Hq.
      destruct Hq as (t' & Hc' & Hq).
      rewrite <- (cut_functional _ _ _ Hc Hc') in Hq.
      destruct Hq as [-> | Hq]; auto.
Qed.

(** The specification determines the parent. *)
Lemma legacy_parent_functional old_tables s r r' :
  legacy_parent old_tables s r -> legacy_parent old_tables s r' -> r = r'.
Proof.
  destruct r as [p|], r' as [p'|]; simpl.
  - intros (Hp & Hm & Hmax) (Hp' & Hm' & Hmax').
    pose proof (Hmax _ Hp' Hm'). pose proof (Hmax' _ Hp Hm).
    apply truncation_prefix in Hp, Hp'.
    destruct Hp as [Hp _], Hp' as [Hp' _].
    rewrite Hp, Hp'. do 2 f_equal. lia.
  - intros (Hp & Hm & _) H. apply H in Hp. congruence.
  - intros H (Hp & Hm & _). apply H in Hp. congruence.
  - reflexivity.
Qed.

(** [find_parent] returns, and returns the parent of the specification. *)
Lemma find_parent_spec old_tables name doc :
  exists parent,
    find_parent old_tables name doc = PyMonad.Ok parent doc /\
    legacy_parent old_tables name parent /\
    (forall p, parent = Some p -> (0 < String.length p)%nat).
Proof.
  unfold find_parent.
  destruct (find_parent_loop_search old_tables (S (String.length name)) name)
    as (r & Hr & Hs); [lia|].
  rewrite Hr. exists r. split; [reflexivity|].
  pose proof (search_legacy_parent _ _ _ Hs) as Hp. split; [assumption|].
  intros p ->. destruct Hp as (Ht & _). apply truncation_prefix in Ht. lia.
Qed.

End ParentFacts.

(* ===================================================================== *)
(** ** The 2 -> 3 migration step *)
(* ===================================================================== *)

Module MigrateFacts.
Import PyDict PyDictFacts PyMonad PyMonadFacts PyStr PyStrFacts Spec Doc ParentFacts.

Lemma set_remove_comm {V} k k' (v : V) d :
  k <> k' -> set k v (remove k' d) = remove k' (set k v d).
Proof.
  intros Hne. unfold remove. induction d as [|[k0 v0] d IH]; simpl.
  - destruct (String.eqb k' k) eqn:E; [|reflexivity].
    apply String.eqb_eq in E. congruence.
  - destruct (String.eqb k' k0) eqn:E; destruct (String.eqb k k0) eqn:E'; simpl.
    + apply String.eqb_eq in E, E'. congruence.
    + rewrite E. exact IH.
    + rewrite E'. apply String.eqb_eq in E'. subst k0.
      destruct (String.eqb k' k) eqn:E2; [|reflexivity].
      apply String.eqb_eq in E2. congruence.
    + rewrite E', E. simpl. now rewrite IH.
Qed.

(** *** Parsing a pattern *)

Lemma drop_app_le j a x :
  (j <= String.length a)%nat -> drop j (a ++ x) = drop j a ++ x.
Proof.
  revert a; induction j as [|j IH]; intros [|c a] H; simpl in *; auto; try lia.
  apply IH. lia.
Qed.

Lemma startswith_sep_app a p :
  startswith "__" (a ++ "__" ++ p) = startswith "__" (a ++ "__").
Proof.
  destruct a as [|c [|c' a]]; reflexivity.
Qed.

Lemma drop_drop i j s : drop i (drop j s) = drop (j + i) s.
Proof.
  revert s; induction j as [|j IH]; intros s; simpl; [reflexivity|].
  destruct s as [|c s]; [now destruct i | apply IH].
Qed.

Lemma occurs_at_sep_app root path j :
  (j <= String.length root)%nat ->
  occurs_at "__" (root ++ "__" ++ path) j <-> occurs_at "__" (root ++ "__") j.
Proof.
  intros Hj. unfold occurs_at.
  rewrite (drop_app_le j root ("__" ++ path)) by assumption.
  rewrite (drop_app_le j root "__") by assumption.
  rewrite startswith_sep_app, !length_app. simpl. split; intros [H1 H2]; split; auto; lia.
Qed.

(** In [^root__path] the first separator is the one after [root]. *)
Lemma find_pattern root path :
  first_segment root ->
  find "__" (pattern (root, path)) = 1 + Z.of_nat (String.length root).
Proof.
  intros [Ho Hmin]. unfold pattern. cbn [fst snd].
  assert (H : first_occurrence "__" (root ++ "__" ++ path) (String.length root)).
  { split.
    - apply occurs_at_sep_app; [lia | assumption].
    - intros j Hj. destruct (Nat.le_gt_cases (String.length root) j) as [|Hlt]; [assumption|].
      apply occurs_at_sep_app in Hj; [|lia]. now apply Hmin. }
  apply find_first_occurrence in H.
  change ("^" ++ root ++ "__" ++ path) with (String "^" (root ++ "__" ++ path)).
  cbn [find]. replace (startswith "__" (String "^" (root ++ "__" ++ path))) with false
    by reflexivity.
  rewrite H. destruct (Z.of_nat (String.length root) <? 0) eqn:E; [|lia].
  apply Z.ltb_lt in E. lia.
Qed.

Lemma length_pattern root path :
  String.length (pattern (root, path)) =
  (1 + String.length root + 2 + String.length path)%nat.
Proof.
  unfold pattern. cbn [fst snd].
  change ("^" ++ root ++ "__" ++ path) with (String "^" (root ++ "__" ++ path)).
  cbn [String.length]. rewrite !length_app. simpl. lia.
Qed.

Lemma slice_pattern_root root path :
  slice (pattern (root, path)) (Some 1)
    (Some (1 + Z.of_nat (String.length root))) = root.
Proof.
  rewrite slice_between; [| lia | rewrite length_pattern; lia].
  replace (Z.to_nat 1) with 1%nat by reflexivity.
  replace (Z.to_nat (1 + Z.of_nat (String.length root) - 1))
    with (String.length root) by lia.
  unfold pattern. cbn [fst snd].
  change (drop 1 ("^" ++ root ++ "__" ++ path)) with (root ++ "__" ++ path).
  apply take_app.
Qed.

Lemma slice_pattern_path root path :
  slice (pattern (root, path))
    (Some (1 + Z.of_nat (String.length root) + 2)) None = path.
Proof.
  rewrite slice_from; [| rewrite length_pattern; lia].
  replace (Z.to_nat (1 + Z.of_nat (String.length root) + 2))
    with (S (String.length root + 2)) by lia.
  unfold pattern. cbn [fst snd].
  change (drop (S (String.length root + 2)) ("^" ++ root ++ "__" ++ path))
    with (drop (String.length root + 2) (root ++ "__" ++ path)).
  rewrite <- drop_drop, drop_app. reflexivity.
Qed.

(** What the migration reads off [^root__path] is [root] and [path]. *)
Lemma split_filter_pattern root path :
  first_segment root -> split_filter (pattern (root, path)) = (root, path).
Proof.
  intros Hroot. unfold split_filter.
  rewrite (find_pattern _ _ Hroot), slice_pattern_root, slice_pattern_path.
  reflexivity.
Qed.

(** *** Placing one filter *)

Lemma append_filter_ok group x td :
  table_ok (VDict td) ->
  append_filter group x (VDict td) = inr (VDict (with_filter group x td)).
Proof.
  unfold table_ok, append_filter, with_filter, filters_of.
  destruct (get "filters" td) as [[| | | |l|fd]|]; try tauto.
  intros H. destruct (get group fd) as [v|] eqn:E; [|reflexivity].
  destruct (H _ _ E) as [l ->]. reflexivity.
Qed.

Lemma table_ok_with_filter group x td :
  table_ok (VDict td) -> table_ok (VDict (with_filter group x td)).
Proof.
  unfold table_ok, with_filter. intros H. rewrite get_set_eq.
  intros g v. rewrite get_set.
  destruct (String.eqb group g).
  - intros [= <-]. eauto.
  - destruct (get "filters" td) as [[| | | |l|fd]|]; try tauto; try discriminate.
    apply H.
Qed.

Lemma table_ok_root_table name : table_ok (VDict (root_table name)).
Proof. exact I. Qed.

Lemma tables_ok_set k v ts :
  tables_ok ts -> table_ok v -> tables_ok (set k v ts).
Proof.
  intros Hts Hv k' v'. rewrite get_set. destruct (String.eqb k k').
  - now intros [= <-].
  - apply Hts.
Qed.

Lemma tables_ok_place_filter group ts rp :
  tables_ok ts -> tables_ok (place_filter group ts rp).
Proof.
  intros H. unfold place_filter. apply tables_ok_set; [assumption|].
  apply table_ok_with_filter.
  destruct (get (fst rp) ts) as [v|] eqn:E; [|exact I].
  pose proof (H _ _ E) as Hv. destruct v; try exact I. exact Hv.
Qed.

Lemma current_tables_ok doc ts :
  get "tables" doc = Some (VDict ts) -> current_tables doc = Ok ts doc.
Proof. unfold current_tables. now intros ->. Qed.

Lemma tables_setitem_ok doc ts name t :
  get "tables" doc = Some (VDict ts) ->
  tables_setitem name t doc = Ok tt (set "tables" (VDict (set name t ts)) doc).
Proof.
  intros H. unfold tables_setitem.
  rewrite (bind_Ok _ _ _ _ _ (current_tables_ok _ _ H)). reflexivity.
Qed.

(** The body of [migrate_filters] places the filter as the specification
    says. *)
Lemma migrate_filter_spec group doc ts f :
  get "tables" doc = Some (VDict ts) ->
  tables_ok ts ->
  migrate_filter group (VStr f) doc =
  Ok tt (set "tables" (VDict (place_filter group ts (split_filter f))) doc).
Proof.
  intros Hts Hok. unfold migrate_filter, split_filter, place_filter.
  cbn [fst snd].
  set (root := slice f (Some 1) (Some (find "__" f))).
  set (path := slice f (Some (find "__" f + 2)) None).
  rewrite (bind_Ok _ _ _ _ _ (current_tables_ok _ _ Hts)).
  destruct (get root ts) as [v|] eqn:E.
  - pose proof (Hok _ _ E) as Hv. destruct v as [| | | | |td]; try contradiction.
    unfold bind at 1. unfold ret at 1.
    unfold bind at 1. unfold lift. rewrite (append_filter_ok _ _ _ Hv).
    unfold ret at 1. apply tables_setitem_ok. assumption.
  - unfold bind at 1. unfold bind at 1. unfold lift at 1. cbn [new_table].
    unfold ret at 1. unfold bind at 1.
    rewrite (tables_setitem_ok _ _ _ _ Hts). unfold ret at 1.
    unfold bind at 1. unfold lift.
    change (set "write_disposition" (VStr "append")
              [("name", VStr root); ("columns", VDict [])])
      with (root_table root).
    rewrite (append_filter_ok _ _ _ (table_ok_root_table root)).
    unfold ret at 1. erewrite tables_setitem_ok by apply get_set_eq.
    now rewrite !set_set.
Qed.

Lemma migrate_filters_spec group fs : forall doc ts,
  get "tables" doc = Some (VDict ts) ->
  tables_ok ts ->
  migrate_filters group (VList (map VStr fs)) doc =
  Ok tt (set "tables"
           (VDict (fold_left (place_filter group) (map split_filter fs) ts)) doc).
Proof.
  unfold migrate_filters. cbn [iter lift]. unfold bind at 1, ret at 1.
  induction fs as [|f fs IH]; intros doc ts Hts Hok.
  - simpl. unfold ret. now rewrite set_same.
  - cbn [map for_each fold_left].
    unfold bind. rewrite (migrate_filter_spec _ _ _ _ Hts Hok).
    fold (@bind exn document unit unit).
    rewrite (IH _ (place_filter group ts (split_filter f))).
    + now rewrite set_set.
    + apply get_set_eq.
    + now apply tables_ok_place_filter.
Qed.

(** *** Repackaging the legacy tables *)

Lemma find_parent_parent_of old_tables name doc :
  find_parent old_tables name doc = Ok (parent_of old_tables name) doc /\
  legacy_parent old_tables name (parent_of old_tables name) /\
  (forall p, parent_of old_tables name = Some p -> (0 < String.length p)%nat).
Proof.
  destruct (find_parent_spec old_tables name doc) as (r & Hr & Hp & Hne).
  assert (parent_of old_tables name = r) as ->.
  { unfold parent_of. unfold find_parent in Hr.
    destruct (find_parent_loop _ _ _); [congruence | discriminate]. }
  auto.
Qed.

Lemma new_table_legacy name parent columns :
  (forall p, parent = Some p -> (0 < String.length p)%nat) ->
  exists nt, new_table name parent None = inr nt /\
             set "columns" columns nt = legacy_table name parent columns.
Proof.
  intros Hne. unfold new_table. destruct parent as [p|].
  - specialize (Hne p eq_refl). destruct (String.length p =? 0)%nat eqn:E.
    + apply Nat.eqb_eq in E. lia.
    + eexists; split; reflexivity.
  - eexists; split; reflexivity.
Qed.

Lemma repackage_table_spec old_tables doc ts item :
  get "tables" doc = Some (VDict ts) ->
  repackage_table old_tables item doc =
  Ok tt (set "tables" (VDict (repackage_step old_tables ts item)) doc).
Proof.
  intros Hts. destruct item as [name columns]. unfold repackage_table.
  destruct (find_parent_parent_of old_tables name doc) as (Hf & _ & Hne).
  rewrite (bind_Ok _ _ _ _ _ Hf).
  destruct (new_table_legacy name _ columns Hne) as (nt & Hnt & Hset).
  rewrite Hnt. unfold bind, lift, ret. rewrite Hset.
  now apply tables_setitem_ok.
Qed.

Lemma repackage_loop_spec old_tables items : forall doc ts,
  get "tables" doc = Some (VDict ts) ->
  for_each items (repackage_table old_tables) doc =
  Ok tt (set "tables" (VDict (fold_left (repackage_step old_tables) items ts)) doc).
Proof.
  induction items as [|item items IH]; intros doc ts Hts.
  - simpl. unfold ret. now rewrite set_same.
  - cbn [for_each fold_left]. unfold bind.
    rewrite (repackage_table_spec _ _ _ _ Hts).
    rewrite (IH _ (repackage_step old_tables ts item)) by apply get_set_eq.
    now rewrite set_set.
Qed.

Lemma table_ok_legacy_table name parent columns :
  table_ok (VDict (legacy_table name parent columns)).
Proof. destruct parent; exact I. Qed.

Lemma tables_ok_repackage old_tables items : forall ts,
  tables_ok ts -> tables_ok (fold_left (repackage_step old_tables) items ts).
Proof.
  induction items as [|item items IH]; intros ts H; [assumption|].
  apply IH. apply tables_ok_set; [assumption | apply table_ok_legacy_table].
Qed.

Lemma tables_ok_repackaged old_tables : tables_ok (repackaged old_tables).
Proof.
  apply (tables_ok_repackage old_tables old_tables []). intros k v. discriminate.
Qed.

End MigrateFacts.

(* ===================================================================== *)
(** ** [upgrade_engine_version] *)
(* ===================================================================== *)

Module UpgradeFacts.
Import PyDict PyDictFacts PyMonad PyMonadFacts PyStr PyStrFacts Spec Doc.
Import ParentFacts MigrateFacts.

Lemma bind_setitem {B} k v (f : unit -> M B) doc :
  bind (setitem k v) f doc = f tt (set k v doc).
Proof. reflexivity. Qed.

Lemma bind_pop_default {B} k dv (f : value -> M B) doc :
  bind (pop_default k dv) f doc =
  f (match get k doc with Some v => v | None => dv end) (remove k doc).
Proof.
  unfold bind, pop_default. destruct (get k doc) eqn:E; [reflexivity|].
  now rewrite remove_absent.
Qed.

Lemma bind_pop {B} k v (f : value -> M B) doc :
  get k doc = Some v -> bind (pop k) f doc = f v (remove k doc).
Proof. intros H. unfold bind, pop. now rewrite H. Qed.

Ltac get_simpl :=
  repeat (rewrite ?get_set, ?get_remove; cbn [String.eqb Ascii.eqb Bool.eqb]).

Lemma legacy_filters_get group doc fs :
  legacy_filters group doc fs ->
  match get group doc with Some v => v | None => VList [] end =
  VList (map VStr fs).
Proof. intros [-> | [-> ->]]; reflexivity. Qed.

(** The 2 -> 3 step returns, and leaves the document the specification
    describes. *)
Lemma step_2_3_spec doc old_tables excludes includes :
  get "tables" doc = Some (VDict old_tables) ->
  legacy_filters "excludes" doc excludes ->
  legacy_filters "includes" doc includes ->
  step_2_3 doc =
  Ok tt (migrated_document doc (migrated_tables old_tables excludes includes)).
Proof.
  intros Hts Hex Hin. unfold step_2_3.
  rewrite bind_setitem, bind_pop_default, bind_pop_default, bind_setitem.
  rewrite (bind_pop "tables" (VDict old_tables)) by (get_simpl; exact Hts).
  rewrite bind_setitem. cbn [items lift]. unfold bind at 1, ret at 1.
  unfold bind at 1.
  rewrite (repackage_loop_spec old_tables old_tables _ []) by apply get_set_eq.
  rewrite set_set, bind_pop_default.
  get_simpl. rewrite (legacy_filters_get _ _ _ Hex).
  unfold bind at 1.
  rewrite (migrate_filters_spec "excludes" excludes _ (repackaged old_tables)).
  2:{ rewrite get_remove_ne by discriminate. apply get_set_eq. }
  2:{ apply tables_ok_repackaged. }
  rewrite set_remove_comm, set_set by discriminate.
  rewrite bind_pop_default. get_simpl. rewrite (legacy_filters_get _ _ _ Hin).
  unfold bind at 1.
  rewrite (migrate_filters_spec "includes" includes _
             (fold_left (place_filter "excludes") (map split_filter excludes)
                (repackaged old_tables))).
  2:{ rewrite !get_remove_ne by discriminate. apply get_set_eq. }
  2:{ clear. induction excludes as [|rp ex IH] using rev_ind.
      - apply tables_ok_repackaged.
      - rewrite map_app, fold_left_app. simpl. now apply tables_ok_place_filter. }
  rewrite !set_remove_comm, set_set by discriminate.
  unfold setitem, migrated_document, moved. get_simpl. reflexivity.
Qed.


Lemma upgrade_2_3_spec doc old_tables excludes includes :
  get "tables" doc = Some (VDict old_tables) ->
  legacy_filters "excludes" doc excludes ->
  legacy_filters "includes" doc includes ->
  upgrade_engine_version 2 3 doc =
  Ok tt (migrated_document doc (migrated_tables old_tables excludes includes)).
Proof.
  intros Hts Hex Hin. unfold upgrade_engine_version, migration_chain.
  unfold bind, ret. cbn -[step_2_3].
  now rewrite (step_2_3_spec _ _ _ _ Hts Hex Hin).
Qed.

Lemma get_tables_migrated doc tables :
  get "tables" (migrated_document doc tables) = Some (VDict tables).
Proof. unfold migrated_document. get_simpl. reflexivity. Qed.

(** *** The parent of a repackaged table *)

Lemma get_parent_legacy_table name parent columns :
  get "parent" (legacy_table name parent columns) = option_map VStr parent.
Proof. destruct parent; reflexivity. Qed.

Lemma has_parent_repackage_step old_tables name po ts item :
  has_parent name po ts -> po = option_map VStr (parent_of old_tables name) ->
  has_parent name po (repackage_step old_tables ts item).
Proof.
  intros (t & Ht & Hp) Hpo. unfold has_parent, repackage_step.
  rewrite get_set. destruct (String.eqb (fst item) name) eqn:E.
  - apply String.eqb_eq in E. rewrite E. eexists; split; [reflexivity|].
    now rewrite get_parent_legacy_table.
  - eauto.
Qed.

Lemma has_parent_repackage_fold old_tables name items : forall ts,
  has_parent name (option_map VStr (parent_of old_tables name)) ts ->
  has_parent name (option_map VStr (parent_of old_tables name))
    (fold_left (repackage_step old_tables) items ts).
Proof.
  induction items as [|item items IH]; intros ts H; [assumption|].
  apply IH. now apply has_parent_repackage_step.
Qed.

Lemma has_parent_repackage_In old_tables name items : forall ts,
  In name (keys items) ->
  has_parent name (option_map VStr (parent_of old_tables name))
    (fold_left (repackage_step old_tables) items ts).
Proof.
  induction items as [|item items IH]; intros ts Hin; [destruct Hin|].
  cbn [fold_left]. destruct (string_dec (fst item) name) as [E|E].
  - apply has_parent_repackage_fold. unfold has_parent, repackage_step.
    rewrite E, get_set_eq. eexists; split; [reflexivity|].
    apply get_parent_legacy_table.
  - apply IH. destruct Hin as [H|H]; [congruence | assumption].
Qed.

Lemma get_parent_with_filter group x t :
  get "parent" (with_filter group x t) = get "parent" t.
Proof. unfold with_filter. now rewrite get_set_ne by discriminate. Qed.

Lemma has_parent_place_filter group name po ts rp :
  has_parent name po ts -> has_parent name po (place_filter group ts rp).
Proof.
  intros (t & Ht & Hp). unfold has_parent, place_filter.
  rewrite get_set. destruct (String.eqb (fst rp) name) eqn:E.
  - apply String.eqb_eq in E. rewrite E, Ht. eexists; split; [reflexivity|].
    now rewrite get_parent_with_filter.
  - eauto.
Qed.

Lemma has_parent_place_filters group name po pats : forall ts,
  has_parent name po ts -> has_parent name po (fold_left (place_filter group) pats ts).
Proof.
  induction pats as [|rp pats IH]; intros ts H; [assumption|].
  apply IH. now apply has_parent_place_filter.
Qed.

Lemma has_parent_migrated old_tables excludes includes name :
  In name (keys old_tables) ->
  has_parent name (option_map VStr (parent_of old_tables name))
    (migrated_tables old_tables excludes includes).
Proof.
  intros Hin. unfold migrated_tables. do 2 apply has_parent_place_filters.
  now apply has_parent_repackage_In.
Qed.

Lemma legacy_parent_parent_of old_tables name :
  legacy_parent old_tables name (parent_of old_tables name).
Proof. apply (find_parent_parent_of old_tables name []). Qed.

(** *** The filters of a table *)

Lemma filters_of_with_filter group group' x t :
  filters_of group (with_filter group' x t) =
  if String.eqb group' group
  then (filters_of group t ++ [VStr x])%list
  else filters_of group t.
Proof.
  unfold with_filter. unfold filters_of at 1. rewrite get_set_eq, get_set.
  destruct (String.eqb group' group) eqn:E.
  - apply String.eqb_eq in E. now subst.
  - unfold filters_of. destruct (get "filters" t) as [[| | | | |fd]|]; reflexivity.
Qed.

Lemma has_filter_place_filter group group' root x ts rp :
  has_filter group root x ts -> has_filter group root x (place_filter group' ts rp).
Proof.
  intros (t & Ht & Hx). unfold has_filter, place_filter.
  rewrite get_set. destruct (String.eqb (fst rp) root) eqn:E.
  - apply String.eqb_eq in E. rewrite E, Ht. eexists; split; [reflexivity|].
    rewrite filters_of_with_filter. destruct (String.eqb group' group); [|assumption].
    apply in_or_app. now left.
  - eauto.
Qed.

Lemma has_filter_place_filters group group' root x pats : forall ts,
  has_filter group root x ts ->
  has_filter group root x (fold_left (place_filter group') pats ts).
Proof.
  induction pats as [|rp pats IH]; intros ts H; [assumption|].
  apply IH. now apply has_filter_place_filter.
Qed.

Lemma has_filter_placed group root path ts :
  has_filter group root (VStr ("^" ++ path)) (place_filter group ts (root, path)).
Proof.
  unfold has_filter, place_filter. cbn [fst snd]. rewrite get_set_eq.
  eexists; split; [reflexivity|]. rewrite filters_of_with_filter, String.eqb_refl.
  apply in_or_app. right. now left.
Qed.

Lemma has_filter_place_In group root path pats : forall ts,
  In (root, path) pats ->
  has_filter group root (VStr ("^" ++ path)) (fold_left (place_filter group) pats ts).
Proof.
  induction pats as [|rp pats IH]; intros ts Hin; [destruct Hin|].
  cbn [fold_left]. destruct Hin as [-> | Hin].
  - apply has_filter_place_filters, has_filter_placed.
  - now apply IH.
Qed.

(** What placing one filter does to the tables. *)
Lemma place_filter_effect group ts root path :
  let t0 := match get root ts with
            | Some (VDict t) => t
            | _ => root_table root
            end in
  exists t,
    get root (place_filter group ts (root, path)) = Some (VDict t) /\
    filters_of group t = (filters_of group t0 ++ [VStr ("^" ++ path)])%list /\
    (forall g, g <> group -> filters_of g t = filters_of g t0) /\
    (forall k, k <> "filters" -> get k t = get k t0) /\
    (forall other, other <> root ->
       get other (place_filter group ts (root, path)) = get other ts).
Proof.
  intros t0. unfold place_filter. cbn [fst snd]. fold t0.
  exists (with_filter group ("^" ++ path) t0). rewrite get_set_eq.
  split; [reflexivity|]. split; [|split; [|split]].
  - now rewrite filters_of_with_filter, String.eqb_refl.
  - intros g Hg. rewrite filters_of_with_filter.
    destruct (String.eqb group g) eqn:E; [|reflexivity].
    apply String.eqb_eq in E. congruence.
  - intros k Hk. unfold with_filter. apply get_set_ne. congruence.
  - intros other Ho. apply get_set_ne. congruence.
Qed.


(** *** The version the chain reaches *)

Lemma step_2_3_version doc d :
  step_2_3 doc = Ok tt d -> get "engine_version" d = Some (VInt 3).
Proof.
  unfold step_2_3. intros H.
  repeat (apply bind_Ok_inv in H; destruct H as (? & ? & _ & H)).
  unfold setitem in H. injection H as <-. apply get_set_eq.
Qed.

(** The chain either runs no step, or leaves a document whose
    [engine_version] is the version reached. *)
Lemma migration_chain_version from_engine to_engine doc reached d :
  migration_chain from_engine to_engine doc = Ok reached d ->
  (reached = from_engine /\ d = doc) \/
  get "engine_version" d = Some (VInt reached).
Proof.
  unfold migration_chain. intros H.
  apply bind_Ok_inv in H. destruct H as (r1 & d1 & H1 & H).
  apply bind_Ok_inv in H. destruct H as (r2 & d2 & H2 & H).
  unfold ret in H. injection H as <- <-.
  destruct ((r1 =? 2) && (to_engine >? 2)).
  - apply bind_Ok_inv in H2. destruct H2 as ([] & d3 & H2 & H).
    unfold ret in H. injection H as <- <-. right. eapply step_2_3_version; eassumption.
  - unfold ret in H2. injection H2 as <- <-.
    destruct ((from_engine =? 1) && (to_engine >? 1)).
    + cbv [step_1_2 bind setitem ret] in H1. injection H1 as <- <-.
      right. rewrite !get_set. reflexivity.
    + unfold ret in H1. injection H1 as <- <-. now left.
Qed.

(** The final test of [upgrade_engine_version]. *)
Lemma upgrade_after_chain from_engine to_engine doc reached d :
  from_engine <> to_engine ->
  migration_chain from_engine to_engine doc = Ok reached d ->
  upgrade_engine_version from_engine to_engine doc =
  if reached =? to_engine then Ok tt d
  else match get "name" d, get "engine_version" d with
       | Some name, Some ev =>
           Raise (SchemaEngineNoUpgradePathException name ev reached to_engine) d
       | Some _, None => Raise (KeyError "engine_version") d
       | None, _ => Raise (KeyError "name") d
       end.
Proof.
  intros Hne Hc. unfold upgrade_engine_version.
  destruct (from_engine =? to_engine) eqn:E; [apply Z.eqb_eq in E; contradiction|].
  rewrite (bind_Ok _ _ _ _ _ Hc).
  destruct (reached =? to_engine); cbn [negb]; [reflexivity|].
  unfold bind, getitem, raise.
  destruct (get "name" d); [|reflexivity].
  destruct (get "engine_version" d); reflexivity.
Qed.

(** An upgrade that changes the version returns only a document at the
    requested version. *)
Lemma upgrade_returns_target from_engine to_engine doc d :
  from_engine <> to_engine ->
  upgrade_engine_version from_engine to_engine doc = Ok tt d ->
  get "engine_version" d = Some (VInt to_engine).
Proof.
  intros Hne H.
  destruct (migration_chain from_engine to_engine doc) as [reached d1| |] eqn:Hc.
  - rewrite (upgrade_after_chain _ _ _ _ _ Hne Hc) in H.
    destruct (reached =? to_engine) eqn:E.
    + apply Z.eqb_eq in E. injection H as <-. subst reached.
      destruct (migration_chain_version _ _ _ _ _ Hc) as [[He _] | Hv];
        [congruence | assumption].
    + destruct (get "name" d1); [|discriminate].
      destruct (get "engine_version" d1); discriminate.
  - unfold upgrade_engine_version in H.
    destruct (from_engine =? to_engine) eqn:E; [apply Z.eqb_eq in E; contradiction|].
    rewrite (bind_Raise _ _ _ _ _ Hc) in H. discriminate.
  - unfold upgrade_engine_version, bind in H.
    destruct (from_engine =? to_engine) eqn:E; [apply Z.eqb_eq in E; contradiction|].
    rewrite Hc in H. discriminate.
Qed.

(** A downgrade runs no step. *)
Lemma migration_chain_downgrade from_engine to_engine doc :
  to_engine < from_engine ->
  migration_chain from_engine to_engine doc = Ok from_engine doc.
Proof.
  intros Hlt. unfold migration_chain.
  assert (E1 : (from_engine =? 1) && (to_engine >? 1) = false).
  { destruct (from_engine =? 1) eqn:E; [|reflexivity].
    apply Z.eqb_eq in E. cbn [andb]. rewrite Z.gtb_ltb. apply Z.ltb_ge. lia. }
  assert (E2 : (from_engine =? 2) && (to_engine >? 2) = false).
  { destruct (from_engine =? 2) eqn:E; [|reflexivity].
    apply Z.eqb_eq in E. cbn [andb]. rewrite Z.gtb_ltb. apply Z.ltb_ge. lia. }
  rewrite E1. unfold bind at 1, ret at 1. now rewrite E2.
Qed.

(** The 1 -> 2 step, then the 2 -> 3 step. *)
Lemma upgrade_1_3_spec doc old_tables :
  get "tables" doc = Some (VDict old_tables) ->
  upgrade_engine_version 1 3 doc =
  Ok tt
    (migrated_document
       (set "excludes" (VList [])
          (set "includes" (VList []) (set "engine_version" (VInt 2) doc)))
       (migrated_tables old_tables [] [])).
Proof.
  intros Hts. unfold upgrade_engine_version, migration_chain.
  unfold bind, ret. cbn -[step_2_3].
  rewrite (step_2_3_spec _ old_tables [] []); [reflexivity | | |].
  - get_simpl. exact Hts.
  - left. get_simpl. reflexivity.
  - left. get_simpl. reflexivity.
Qed.

End UpgradeFacts.

(* ===================================================================== *)
(** ** The store *)
(* ===================================================================== *)

Module StoreFacts.
Import PyDict PyDictFacts PyMonad PyMonadFacts Store.

Lemma length_update l o st : List.length (update l o st) = List.length st.
Proof.
  revert l; induction st as [|o' st IH]; intros [|l]; simpl; auto.
Qed.

Lemma lookup_update_eq l o st :
  (l < List.length st)%nat -> lookup l (update l o st) = Some o.
Proof.
  unfold lookup. revert l; induction st as [|o' st IH]; intros [|l] H;
    simpl in *; try lia; auto. apply IH. lia.
Qed.

Lemma lookup_update_ne l l' o st :
  l <> l' -> lookup l' (update l o st) = lookup l' st.
Proof.
  unfold lookup. revert l l'; induction st as [|o' st IH]; intros [|l] [|l'] H;
    simpl; auto; try congruence.
Qed.

Lemma update_update l o o' st : update l o (update l o' st) = update l o st.
Proof.
  revert l; induction st as [|o0 st IH]; intros [|l]; simpl; auto.
  now rewrite IH.
Qed.

Lemma update_same l o st : lookup l st = Some o -> update l o st = st.
Proof.
  unfold lookup. revert l; induction st as [|o0 st IH]; intros [|l] H;
    simpl in *; try discriminate.
  - now injection H as ->.
  - now rewrite IH.
Qed.

Lemma lookup_lt l o st : lookup l st = Some o -> (l < List.length st)%nat.
Proof. unfold lookup. intros H. apply nth_error_Some. congruence. Qed.

Lemma lookup_app_old l st new :
  (l < List.length st)%nat -> lookup l (st ++ new)%list = lookup l st.
Proof. unfold lookup. intros H. now apply nth_error_app1. Qed.

Lemma lookup_app_new st o : lookup (List.length st) (st ++ [o])%list = Some o.
Proof.
  unfold lookup. rewrite nth_error_app2 by lia. now rewrite Nat.sub_diag.
Qed.

Lemma deref_ok l o st : lookup l st = Some o -> deref l st = Ok o st.
Proof. unfold deref. now intros ->. Qed.

Lemma getitem_ok l d k x st :
  lookup l st = Some (ODict d) -> get k d = Some x ->
  getitem (VRef l) k st = Ok x st.
Proof.
  intros Hl Hk. unfold getitem. rewrite (bind_Ok _ _ _ _ _ (deref_ok _ _ _ Hl)).
  now rewrite Hk.
Qed.

Lemma delitem_ok l d k st :
  lookup l st = Some (ODict d) -> In k (keys d) ->
  delitem (VRef l) k st = Ok tt (update l (ODict (remove k d)) st).
Proof.
  intros Hl Hk. unfold delitem. rewrite (bind_Ok _ _ _ _ _ (deref_ok _ _ _ Hl)).
  unfold del. apply mem_true in Hk. now rewrite Hk.
Qed.

Lemma setitem_ok l d k x st :
  lookup l st = Some (ODict d) ->
  setitem (VRef l) k x st = Ok tt (update l (ODict (set k x d)) st).
Proof.
  intros Hl. unfold setitem. now rewrite (bind_Ok _ _ _ _ _ (deref_ok _ _ _ Hl)).
Qed.

Lemma keys_list_ok l d st :
  lookup l st = Some (ODict d) -> keys_list (VRef l) st = Ok (keys d) st.
Proof.
  intros Hl. unfold keys_list. now rewrite (bind_Ok _ _ _ _ _ (deref_ok _ _ _ Hl)).
Qed.

End StoreFacts.

(* ===================================================================== *)
(** ** The hint defaults of a column *)
(* ===================================================================== *)

Module HintFacts.
Import PyDict PyDictFacts PyMonad PyMonadFacts Store StoreFacts HintSpec.

Lemma get_app_l {V} k (a b : dict V) v :
  get k a = Some v -> get k (a ++ b)%list = Some v.
Proof.
  induction a as [|[k0 v0] a IH]; simpl; [discriminate|].
  destruct (String.eqb k k0); auto.
Qed.

Lemma get_app_r {V} k (a b : dict V) :
  get k a = None -> get k (a ++ b)%list = get k b.
Proof.
  induction a as [|[k0 v0] a IH]; simpl; [reflexivity|].
  destruct (String.eqb k k0); [discriminate | auto].
Qed.

Lemma keys_app {V} (a b : dict V) : keys (a ++ b)%list = (keys a ++ keys b)%list.
Proof. apply map_app. Qed.

Lemma remove_app {V} k (a b : dict V) :
  remove k (a ++ b)%list = (remove k a ++ remove k b)%list.
Proof. apply filter_app. Qed.

Lemma remove_not_In {V} k (d : dict V) : ~ In k (keys d) -> remove k d = d.
Proof. intros H. apply remove_absent. now apply get_None_not_In. Qed.

(** The loop over the keys of a column, while it has dealt with the
    entries [pre] and has the entries [suf] to go. *)
Lemma hints_loop l suf : forall pre st,
  lookup l st = Some (ODict (pre ++ suf)%list) ->
  NoDup (keys (pre ++ suf)%list) ->
  for_each (keys suf) (remove_default_hint (VRef l)) st =
  Ok tt (update l (ODict (pre ++ filter kept suf)%list) st).
Proof.
  induction suf as [|[h v] suf IH]; intros pre st Hl Hnd.
  - simpl. unfold ret. rewrite update_same; [reflexivity|].
    now rewrite app_nil_r in *.
  - change (keys ((h, v) :: suf)) with (h :: keys suf). cbn [for_each].
    rewrite keys_app in Hnd. change (keys ((h, v) :: suf)) with (h :: keys suf) in Hnd.
    pose proof (NoDup_remove_2 _ _ _ Hnd) as Hnot.
    assert (Hpre : ~ In h (keys pre)) by (intros H; apply Hnot, in_or_app; now left).
    assert (Hsuf : ~ In h (keys suf)) by (intros H; apply Hnot, in_or_app; now right).
    assert (Hget : get h (pre ++ (h, v) :: suf)%list = Some v).
    { rewrite get_app_r by now apply get_None_not_In.
      simpl. now rewrite String.eqb_refl. }
    unfold bind at 1. unfold remove_default_hint at 1.
    rewrite (bind_Ok _ _ _ _ _ (getitem_ok _ _ _ _ _ Hl Hget)).
    cbn [filter]. unfold kept at 1. cbn [fst snd].
    destruct (is_False v && negb (String.eqb h "nullable")) eqn:E; cbn [negb].
    + rewrite (delitem_ok _ _ _ _ Hl (get_Some_In _ _ _ Hget)).
      assert (Hrm : remove h (pre ++ (h, v) :: suf)%list = (pre ++ suf)%list).
      { rewrite remove_app, (remove_not_In h pre Hpre).
        unfold remove at 1. simpl. rewrite String.eqb_refl. simpl.
        fold (remove h suf). now rewrite (remove_not_In h suf Hsuf). }
      rewrite Hrm. rewrite (IH pre).
      * now rewrite update_update.
      * apply lookup_update_eq. eapply lookup_lt; eassumption.
      * rewrite keys_app. eapply NoDup_remove_1; eassumption.
    + change (pre ++ (h, v) :: suf)%list with (pre ++ [(h, v)] ++ suf)%list in Hl.
      rewrite app_assoc in Hl. unfold ret at 1.
      rewrite (IH (pre ++ [(h, v)])%list st Hl).
      * now rewrite <- app_assoc.
      * rewrite <- app_assoc, keys_app. exact Hnd.
Qed.

(** [remove_column_defaults] brings a column to its stored form. *)
Lemma remove_column_defaults_spec l d st :
  lookup l st = Some (ODict d) ->
  NoDup (keys d) ->
  In "name" (keys d) ->
  remove_column_defaults (VRef l) st =
  Ok tt (update l (ODict (stored_column d)) st).
Proof.
  intros Hl Hnd Hname. unfold remove_column_defaults.
  rewrite (bind_Ok _ _ _ _ _ (delitem_ok _ _ _ _ Hl Hname)).
  assert (Hl1 : lookup l (update l (ODict (remove "name" d)) st)
                = Some (ODict (remove "name" d))).
  { apply lookup_update_eq. eapply lookup_lt; eassumption. }
  rewrite (bind_Ok _ _ _ _ _ (keys_list_ok _ _ _ Hl1)).
  rewrite (hints_loop l (remove "name" d) [] _ Hl1).
  - now rewrite update_update.
  - now apply NoDup_keys_remove.
Qed.

Lemma get_filter k (f : string * val -> bool) (d : dict val) :
  NoDup (keys d) ->
  get k (filter f d) =
  match get k d with
  | Some v => if f (k, v) then Some v else None
  | None => None
  end.
Proof.
  induction d as [|[k0 v0] d IH]; intros Hnd; simpl; [reflexivity|].
  inversion Hnd as [|? ? Hnot Hnd']; subst.
  destruct (String.eqb k k0) eqn:E.
  - apply String.eqb_eq in E. subst k0. destruct (f (k, v0)) eqn:Ef; simpl.
    + now rewrite String.eqb_refl.
    + rewrite (IH Hnd'). apply get_None_not_In in Hnot. now rewrite Hnot.
  - destruct (f (k0, v0)); simpl; [rewrite E|]; now apply IH.
Qed.

(** What the stored form holds under a key. *)
Lemma get_stored_column k d :
  NoDup (keys d) ->
  get k (stored_column d) =
  if String.eqb "name" k then None
  else match get k d with
       | Some v =>
           if is_False v && negb (String.eqb k "nullable") then None else Some v
       | None => None
       end.
Proof.
  intros Hnd. unfold stored_column.
  rewrite get_filter by now apply NoDup_keys_remove.
  rewrite get_remove. destruct (String.eqb "name" k); [reflexivity|].
  destruct (get k d) as [v|]; [|reflexivity].
  unfold kept. cbn [fst snd].
  destruct (is_False v && negb (String.eqb k "nullable")); reflexivity.
Qed.

Lemma filter_kept_remove h (d : dict val) :
  (forall kv, In kv d -> fst kv = h -> kept kv = false) ->
  filter kept (remove h d) = filter kept d.
Proof.
  unfold remove. induction d as [|[k0 v0] d IH]; intros H; simpl; [reflexivity|].
  assert (IH' : filter kept (filter (fun kv => negb (String.eqb h (fst kv))) d)
                = filter kept d).
  { apply IH. intros kv Hin. apply H. now right. }
  destruct (String.eqb h k0) eqn:E; simpl.
  - apply String.eqb_eq in E. subst k0.
    rewrite (H (h, v0)); [exact IH' | now left | reflexivity].
  - destruct (kept (k0, v0)); [f_equal|]; exact IH'.
Qed.

Lemma In_get_NoDup {V} k (v : V) d :
  NoDup (keys d) -> In (k, v) d -> get k d = Some v.
Proof.
  induction d as [|[k0 v0] d IH]; intros Hnd Hin; [destruct Hin|].
  inversion Hnd as [|? ? Hnot Hnd']; subst. simpl.
  destruct Hin as [[= -> ->] | Hin].
  - now rewrite String.eqb_refl.
  - destruct (String.eqb k k0) eqn:E; [|auto].
    apply String.eqb_eq in E. subst k0. exfalso. apply Hnot.
    change k with (fst (k, v)). now apply in_map.
Qed.

(** A flag that is [False] and a flag that is absent have one stored form. *)
Lemma stored_column_remove h d :
  NoDup (keys d) -> get h d = Some (VBool false) -> h <> "nullable" ->
  stored_column (remove h d) = stored_column d.
Proof.
  intros Hnd Hget Hh. unfold stored_column. rewrite remove_remove.
  apply filter_kept_remove. intros [k v] Hin Hk. cbn [fst] in Hk. subst k.
  apply filter_In in Hin. destruct Hin as [Hin _].
  rewrite (In_get_NoDup _ _ _ Hnd Hin) in Hget. injection Hget as ->.
  unfold kept. cbn [fst snd is_False andb].
  apply String.eqb_neq in Hh. now rewrite Hh.
Qed.

(** *** Expanding a column *)

Lemma keys_set {V} k (v : V) d :
  keys (set k v d) = if mem k d then keys d else (keys d ++ [k])%list.
Proof.
  unfold mem. induction d as [|[k0 v0] d IH]; simpl; [reflexivity|].
  destruct (String.eqb k k0) eqn:E; simpl.
  - apply String.eqb_eq in E. now subst.
  - rewrite IH. now destruct (get k d).
Qed.

Lemma NoDup_keys_set {V} k (v : V) d : NoDup (keys d) -> NoDup (keys (set k v d)).
Proof.
  intros H. rewrite keys_set. destruct (mem k d) eqn:E; [assumption|].
  apply NoDup_app; [assumption | repeat constructor; intros [] |].
  intros x Hx [<- | []]. apply mem_true in Hx. congruence.
Qed.

Lemma NoDup_keys_merge {V} (a b : dict V) : NoDup (keys a) -> NoDup (keys (merge a b)).
Proof.
  unfold merge. revert a; induction b as [|[k v] b IH]; intros a H; [assumption|].
  simpl. apply IH. now apply NoDup_keys_set.
Qed.

(** [{**a, **b}] holds what [b] holds and, under the other keys, what [a]
    holds. *)
Lemma get_merge {V} k (a b : dict V) :
  NoDup (keys b) ->
  get k (merge a b) = match get k b with Some v => Some v | None => get k a end.
Proof.
  unfold merge. revert a; induction b as [|[k0 v0] b IH]; intros a Hnd;
    [reflexivity|].
  inversion Hnd as [|? ? Hnot Hnd']; subst. simpl. rewrite (IH _ Hnd').
  destruct (String.eqb k k0) eqn:E.
  - apply String.eqb_eq in E. subst k0. apply get_None_not_In in Hnot.
    rewrite Hnot. apply get_set_eq.
  - apply String.eqb_neq in E. rewrite get_set_ne by congruence. reflexivity.
Qed.

Lemma NoDup_keys_filter (f : string * val -> bool) (d : dict val) :
  NoDup (keys d) -> NoDup (keys (filter f d)).
Proof.
  induction d as [|[k v] d IH]; intros H; [constructor|].
  inversion H as [|? ? Hnot Hnd]; subst. simpl.
  destruct (f (k, v)); [|auto]. simpl. constructor; [|auto].
  intros Hin. apply Hnot. unfold keys in *. apply in_map_iff in Hin.
  destruct Hin as (kv & <- & Hin). apply filter_In in Hin.
  apply in_map. tauto.
Qed.

Lemma NoDup_keys_stored_column d : NoDup (keys d) -> NoDup (keys (stored_column d)).
Proof. intros H. apply NoDup_keys_filter. now apply NoDup_keys_remove. Qed.

Lemma add_missing_hints_ok l d st :
  lookup l st = Some (ODict d) ->
  add_missing_hints (VRef l) st =
  Ok (VRef (List.length st)) (st ++ [ODict (merge hint_defaults d)])%list.
Proof.
  intros Hl. unfold add_missing_hints.
  now rewrite (bind_Ok _ _ _ _ _ (deref_ok _ _ _ Hl)).
Qed.

Lemma NoDup_hint_defaults : NoDup (keys hint_defaults).
Proof.
  repeat (constructor; [simpl; intuition discriminate|]). constructor.
Qed.

Lemma get_hint_default h :
  In h hint_names -> get h hint_defaults = Some (VBool false) /\ h <> "nullable" /\ h <> "name".
Proof.
  intros H. simpl in H.
  repeat (destruct H as [<- | H]; [repeat split; (reflexivity || discriminate)|]).
  destruct H.
Qed.

(** Collapsing the expansion of a working column and expanding it again
    gives the working column without its name. *)
Lemma expand_stored_expand w :
  working_column w ->
  equiv (merge hint_defaults (stored_column (merge hint_defaults w)))
        (remove "name" w) /\
  get "nullable" (stored_column (merge hint_defaults w)) = get "nullable" w.
Proof.
  intros (Hnd & Hname & Htype & Hnull & Hhints & Hfalse).
  assert (Hnde : NoDup (keys (merge hint_defaults w)))
    by apply NoDup_keys_merge, NoDup_hint_defaults.
  assert (Hge : forall k, get k (merge hint_defaults w) =
                          match get k w with
                          | Some v => Some v
                          | None => get k hint_defaults
                          end) by (intros k; now apply get_merge).
  split.
  - intros k. rewrite get_merge by now apply NoDup_keys_stored_column.
    rewrite (get_stored_column k _ Hnde), Hge, get_remove.
    destruct (String.eqb "name" k) eqn:Ek.
    { apply String.eqb_eq in Ek. now subst k. }
    destruct (in_dec string_dec k hint_names) as [Hk | Hk].
    + destruct (Hhints _ Hk) as [b Hb]. rewrite Hb.
      destruct (get_hint_default _ Hk) as (Hd & Hn & _).
      apply String.eqb_neq in Hn. rewrite Hn.
      destruct b; cbn [is_False andb negb]; [reflexivity | exact Hd].
    + assert (Hd : get k hint_defaults = None) by now apply get_None_not_In.
      rewrite Hd. destruct (get k w) as [v|] eqn:Ev; [|reflexivity].
      destruct (is_False v && negb (String.eqb k "nullable")) eqn:E; [|reflexivity].
      apply andb_true_iff in E. destruct E as [Ef En].
      destruct v as [|[]| | |]; try discriminate.
      destruct (Hfalse _ Ev) as [-> | Hin]; [discriminate | contradiction].
  - rewrite (get_stored_column _ _ Hnde), Hge. cbn [String.eqb Ascii.eqb Bool.eqb].
    destruct (In_get _ _ Hnull) as [v ->].
    now destruct v as [|[]| | |].
Qed.

(** The three calls of the round trip. *)
Lemma expand_collapse_expand_spec l w st :
  lookup l st = Some (ODict w) ->
  NoDup (keys w) -> In "name" (keys w) ->
  let s := List.length st in
  let stored := stored_column (merge hint_defaults w) in
  expand_collapse_expand (VRef l) st =
  Ok (VRef s, VRef (Datatypes.S s))
     (st ++ [ODict stored; ODict (merge hint_defaults stored)])%list.
Proof.
  intros Hl Hnd Hname s stored. unfold expand_collapse_expand.
  rewrite (bind_Ok _ _ _ _ _ (add_missing_hints_ok _ _ _ Hl)).
  assert (Hs : lookup s (st ++ [ODict (merge hint_defaults w)])%list
               = Some (ODict (merge hint_defaults w))) by apply lookup_app_new.
  assert (Hin : In "name" (keys (merge hint_defaults w))).
  { destruct (In_get _ _ Hname) as [v Hv]. apply (get_Some_In _ v).
    rewrite get_merge by assumption. now rewrite Hv. }
  rewrite (bind_Ok _ _ _ _ _ (remove_column_defaults_spec _ _ _ Hs
             (NoDup_keys_merge _ _ NoDup_hint_defaults) Hin)).
  assert (Hupd : update s (ODict stored) (st ++ [ODict (merge hint_defaults w)])%list
                 = (st ++ [ODict stored])%list).
  { subst s. clear. induction st as [|o st IH]; simpl; [reflexivity | now rewrite IH]. }
  fold stored. rewrite Hupd.
  rewrite (bind_Ok _ _ _ _ _ (add_missing_hints_ok s stored _ (lookup_app_new _ _))).
  unfold ret. rewrite length_app, <- app_assoc. simpl. subst s.
  replace (List.length st + 1)%nat with (Datatypes.S (List.length st)) by lia.
  reflexivity.
Qed.

End HintFacts.

(* ===================================================================== *)
(** ** The name normaliser *)
(* ===================================================================== *)

Module NameFacts.
Import PyStr.

Lemma lower_char_idem c : lower_char (lower_char c) = lower_char c.
Proof. destruct c as [[] [] [] [] [] [] [] []]; reflexivity. Qed.

Lemma is_alnum_lower_char c : is_alnum (lower_char c) = is_alnum c.
Proof. destruct c as [[] [] [] [] [] [] [] []]; reflexivity. Qed.

Lemma is_digit_lower_char c : is_digit (lower_char c) = is_digit c.
Proof. destruct c as [[] [] [] [] [] [] [] []]; reflexivity. Qed.

Lemma lower_idem s : lower (lower s) = lower s.
Proof.
  induction s as [|c s IH]; simpl; [reflexivity|].
  now rewrite lower_char_idem, IH.
Qed.

(** What is left after stripping and lower-casing is stripped already. *)
Lemma strip_lower_strip s :
  strip_non_alnum (lower (strip_non_alnum s)) = lower (strip_non_alnum s).
Proof.
  induction s as [|c s IH]; simpl; [reflexivity|].
  destruct (is_alnum c) eqn:E; [|exact IH].
  simpl. now rewrite is_alnum_lower_char, E, IH.
Qed.

Lemma leading_digits_lower s : leading_digits (lower s) = leading_digits s.
Proof. destruct s; simpl; [reflexivity | apply is_digit_lower_char]. Qed.

(** The result does not depend on a second pass exactly when it does not
    begin with a digit. *)
Lemma normalize_twice s :
  normalize_schema_name (normalize_schema_name s) =
  if leading_digits (normalize_schema_name s)
  then ("s" ++ normalize_schema_name s)%string
  else normalize_schema_name s.
Proof.
  unfold normalize_schema_name at 1.
  destruct (leading_digits (normalize_schema_name s)) eqn:E.
  - unfold normalize_schema_name.
    change (strip_non_alnum ("s" ++ ?x)) with (String "s" (strip_non_alnum x)).
    set (t := if leading_digits s then ("s" ++ s)%string else s).
    cbn [append strip_non_alnum]. change (is_alnum "s") with true. cbn iota.
    cbn [lower]. change (lower_char "s") with "s"%char.
    now rewrite strip_lower_strip, lower_idem.
  - unfold normalize_schema_name.
    now rewrite strip_lower_strip, lower_idem.
Qed.

(** A name that begins with a digit gets the prefix. *)
Lemma normalize_leading_digit s :
  leading_digits s = true ->
  leading_digits (normalize_schema_name s) = false.
Proof. unfold normalize_schema_name. now intros ->. Qed.

(** The names on which the normaliser is idempotent: those that begin with
    a digit, and those whose first letter or digit is a letter. *)
Lemma normalize_idempotent_iff s :
  normalize_schema_name (normalize_schema_name s) = normalize_schema_name s <->
  leading_digits s = true \/ leading_digits (strip_non_alnum s) = false.
Proof.
  rewrite normalize_twice.
  destruct (leading_digits s) eqn:Es.
  - rewrite (normalize_leading_digit _ Es). tauto.
  - unfold normalize_schema_name. rewrite Es, leading_digits_lower.
    destruct (leading_digits (strip_non_alnum s)); split; auto.
    + intros H. exfalso.
      assert (Hl : String.length ("s" ++ lower (strip_non_alnum s))
                   = String.length (lower (strip_non_alnum s))) by now rewrite H.
      simpl in Hl. lia.
    + intros [H | H]; discriminate.
Qed.

End NameFacts.

(* ===================================================================== *)
(** ** What [remove_defaults] leaves of the store *)
(* ===================================================================== *)

Module FrameFacts.
Import PyDict PyDictFacts PyMonad PyMonadFacts Store StoreFacts StoreSpec.

Section Frame.
Variable st0 : store.
Hypothesis st0_closed : closed st0.

Local Abbreviation n0 := (List.length st0).

(** *** The rules of [keeps] *)

Lemma keeps_ret {A} (a : A) (Q : A -> Prop) : Q a -> keeps st0 (ret a) Q.
Proof. intros H st Hst. simpl. auto. Qed.

Lemma keeps_raise {A} e (Q : A -> Prop) : keeps st0 (raise e) Q.
Proof. intros st Hst. exact Hst. Qed.

Lemma keeps_bind {A B} (m : S A) (f : A -> S B) (Q : A -> Prop) (R : B -> Prop) :
  keeps st0 m Q -> (forall a, Q a -> keeps st0 (f a) R) ->
  keeps st0 (bind m f) R.
Proof.
  intros Hm Hf st Hst. unfold bind. specialize (Hm st Hst).
  destruct (m st) as [a st1|e st1|]; [|assumption|assumption].
  destruct Hm as [Ha Hst1]. exact (Hf a Ha st1 Hst1).
Qed.

Lemma keeps_weaken {A} (m : S A) (Q R : A -> Prop) :
  keeps st0 m Q -> (forall a, Q a -> R a) -> keeps st0 m R.
Proof.
  intros Hm HQR st Hst. specialize (Hm st Hst).
  destruct (m st) as [a st1|e st1|]; auto. destruct Hm. auto.
Qed.

Lemma keeps_for_each {A} (xs : list A) (body : A -> S unit) (P : A -> Prop) :
  Forall P xs -> (forall x, P x -> keeps st0 (body x) (fun _ => True)) ->
  keeps st0 (for_each xs body) (fun _ => True).
Proof.
  intros Hxs Hbody. induction Hxs as [|x xs Hx Hxs IH]; simpl.
  - now apply keeps_ret.
  - eapply keeps_bind; [now apply Hbody | intros _ _; exact IH].
Qed.

(** *** The store operations *)

Lemma Forall_values_set {V} (P : V -> Prop) k v (d : dict V) :
  Forall P (values d) -> P v -> Forall P (values (set k v d)).
Proof.
  intros Hd Hv. induction d as [|[k0 v0] d IH]; simpl.
  - now repeat constructor.
  - inversion Hd; subst. destruct (String.eqb k k0); simpl; constructor; auto.
Qed.

Lemma Forall_values_remove {V} (P : V -> Prop) k (d : dict V) :
  Forall P (values d) -> Forall P (values (remove k d)).
Proof.
  intros Hd. induction d as [|[k0 v0] d IH]; simpl; [constructor|].
  inversion Hd; subst. destruct (String.eqb k k0); simpl; auto.
Qed.

Lemma Forall_values_get {V} (P : V -> Prop) k v (d : dict V) :
  Forall P (values d) -> get k d = Some v -> P v.
Proof.
  intros Hd. induction d as [|[k0 v0] d IH]; simpl; [discriminate|].
  inversion Hd; subst. destruct (String.eqb k k0); [now intros [= <-] | auto].
Qed.

(** A reference is to an old object or to a new one. *)
Lemma keeps_deref l :
  keeps st0 (deref l)
    (fun o => ((l < n0)%nat -> lookup l st0 = Some o) /\
              ((n0 <= l)%nat -> Forall (new_val n0) (obj_vals o))).
Proof.
  intros st (Hlen & Hold & Hnew). unfold deref.
  destruct (lookup l st) as [o|] eqn:E; [|now repeat split].
  split; [|now repeat split]. split.
  - intros Hl. now rewrite <- (Hold l Hl).
  - intros Hl. exact (Hnew l o Hl E).
Qed.

(** Writing to a new object values that do not lead to the old ones. *)
Lemma keeps_write l o :
  (n0 <= l)%nat -> Forall (new_val n0) (obj_vals o) ->
  keeps st0 (write l o) (fun _ => True).
Proof.
  intros Hl Ho st (Hlen & Hold & Hnew). unfold write.
  split; [exact I|]. split; [|split].
  - now rewrite length_update.
  - intros l' Hl'. rewrite lookup_update_ne by lia. now apply Hold.
  - intros l' o' Hl' Ho'. destruct (Nat.eq_dec l l') as [<- | Hne].
    + destruct (Nat.lt_ge_cases l (List.length st)) as [Hlt | Hge].
      * rewrite lookup_update_eq in Ho' by assumption. now injection Ho' as <-.
      * unfold lookup in Ho'. rewrite (proj2 (nth_error_None _ _)) in Ho';
          [discriminate | now rewrite length_update].
    + rewrite lookup_update_ne in Ho' by assumption. exact (Hnew l' o' Hl' Ho').
Qed.

Lemma keeps_alloc o :
  Forall (new_val n0) (obj_vals o) ->
  keeps st0 (alloc o) (fun y => (n0 <= y)%nat).
Proof.
  intros Ho st (Hlen & Hold & Hnew). unfold alloc.
  split; [exact Hlen|]. split; [|split].
  - rewrite length_app. lia.
  - intros l Hl. rewrite lookup_app_old by lia. now apply Hold.
  - intros l o' Hl Ho'.
    destruct (Nat.lt_ge_cases l (List.length st)) as [Hlt | Hge].
    + rewrite lookup_app_old in Ho' by assumption. exact (Hnew l o' Hl Ho').
    + unfold lookup in Ho'. rewrite nth_error_app2 in Ho' by assumption.
      destruct (l - List.length st)%nat as [|[|k]]; simpl in Ho';
        try discriminate. now injection Ho' as <-.
Qed.

Lemma keeps_getitem_new v k :
  new_val n0 v -> keeps st0 (getitem v k) (new_val n0).
Proof.
  intros Hv. destruct v as [| | | |l]; try apply keeps_raise.
  unfold getitem. eapply keeps_bind; [apply keeps_deref|].
  intros [d|xs] [_ Ho]; [|apply keeps_raise].
  destruct (get k d) as [x|] eqn:E; [|apply keeps_raise].
  apply keeps_ret. exact (Forall_values_get _ _ _ _ (Ho Hv) E).
Qed.

Lemma keeps_setitem_new v k x :
  new_val n0 v -> new_val n0 x -> keeps st0 (setitem v k x) (fun _ => True).
Proof.
  intros Hv Hx. destruct v as [| | | |l]; try apply keeps_raise.
  unfold setitem. eapply keeps_bind; [apply keeps_deref|].
  intros [d|xs] [_ Ho]; [|apply keeps_raise].
  apply keeps_write; [exact Hv|]. apply Forall_values_set; auto.
Qed.

Lemma keeps_delitem_new v k :
  new_val n0 v -> keeps st0 (delitem v k) (fun _ => True).
Proof.
  intros Hv. destruct v as [| | | |l]; try apply keeps_raise.
  unfold delitem. eapply keeps_bind; [apply keeps_deref|].
  intros [d|xs] [_ Ho]; [|apply keeps_raise].
  unfold del. destruct (mem k d); [|apply keeps_raise].
  apply keeps_write; [exact Hv|]. apply Forall_values_remove; auto.
Qed.

Lemma keeps_append_new y x :
  (n0 <= y)%nat -> new_val n0 x -> keeps st0 (append y x) (fun _ => True).
Proof.
  intros Hy Hx. unfold append. eapply keeps_bind; [apply keeps_deref|].
  intros [d|xs] [_ Ho]; [apply keeps_raise|].
  apply keeps_write; [exact Hy|]. simpl. apply Forall_app. split; auto.
Qed.

Lemma keeps_keys_list v : keeps st0 (keys_list v) (fun _ => True).
Proof.
  destruct v as [| | | |l]; try apply keeps_raise.
  unfold keys_list. eapply keeps_bind; [apply keeps_deref|].
  intros [d|xs] _; [now apply keeps_ret | apply keeps_raise].
Qed.

Lemma keeps_check_size l size : keeps st0 (check_size l size) (fun _ => True).
Proof.
  unfold check_size. eapply keeps_bind; [apply keeps_deref|].
  intros [d|xs] _; [|apply keeps_raise].
  destruct (List.length d =? size)%nat; [now apply keeps_ret | apply keeps_raise].
Qed.

Lemma keeps_values_loop l size vs (body : val -> S unit) :
  Forall (new_val n0) vs ->
  (forall v, new_val n0 v -> keeps st0 (body v) (fun _ => True)) ->
  keeps st0 (values_loop l size vs body) (fun _ => True).
Proof.
  intros Hvs Hbody. induction Hvs as [|v vs Hv Hvs IH]; simpl.
  - apply keeps_check_size.
  - eapply keeps_bind; [apply keeps_check_size|]. intros _ _.
    eapply keeps_bind; [now apply Hbody|]. intros _ _. exact IH.
Qed.

Lemma keeps_for_values v (body : val -> S unit) :
  new_val n0 v ->
  (forall x, new_val n0 x -> keeps st0 (body x) (fun _ => True)) ->
  keeps st0 (for_values v body) (fun _ => True).
Proof.
  intros Hv Hbody. destruct v as [| | | |l]; try apply keeps_raise.
  unfold for_values. eapply keeps_bind; [apply keeps_deref|].
  intros [d|xs] [_ Ho]; [|apply keeps_raise].
  apply keeps_values_loop; [exact (Ho Hv) | exact Hbody].
Qed.

(** *** The loops of [remove_defaults] work on new objects *)

Lemma keeps_remove_default_hint c h :
  new_val n0 c -> keeps st0 (remove_default_hint c h) (fun _ => True).
Proof.
  intros Hc. unfold remove_default_hint.
  eapply keeps_bind; [now apply keeps_getitem_new|]. intros v _.
  destruct (is_False v && negb (String.eqb h "nullable"));
    [now apply keeps_delitem_new | now apply keeps_ret].
Qed.

Lemma keeps_remove_column_defaults c :
  new_val n0 c -> keeps st0 (remove_column_defaults c) (fun _ => True).
Proof.
  intros Hc. unfold remove_column_defaults.
  eapply keeps_bind; [now apply keeps_delitem_new|]. intros _ _.
  eapply keeps_bind; [apply keeps_keys_list|]. intros hs _.
  apply (keeps_for_each hs _ (fun _ => True)).
  - apply Forall_forall. auto.
  - intros h _. now apply keeps_remove_default_hint.
Qed.

Lemma keeps_remove_table_defaults t :
  new_val n0 t -> keeps st0 (remove_table_defaults t) (fun _ => True).
Proof.
  intros Ht. unfold remove_table_defaults.
  eapply keeps_bind; [now apply keeps_delitem_new|]. intros _ _.
  eapply keeps_bind; [now apply keeps_getitem_new|]. intros columns Hc.
  apply keeps_for_values; [exact Hc | exact keeps_remove_column_defaults].
Qed.

(** *** [deepcopy] *)

Lemma filter_length_mono {A} (f g : A -> bool) (l : list A) :
  (forall x, In x l -> f x = true -> g x = true) ->
  (List.length (filter f l) <= List.length (filter g l))%nat.
Proof.
  induction l as [|a l IH]; intros H; simpl; [lia|].
  assert (IH' : (List.length (filter f l) <= List.length (filter g l))%nat).
  { apply IH. intros x Hx. apply H. now right. }
  destruct (f a) eqn:Ef.
  - rewrite (H a (or_introl eq_refl) Ef). simpl. lia.
  - destruct (g a); simpl; lia.
Qed.

Lemma filter_length_lt {A} (f g : A -> bool) (l : list A) a :
  (forall x, In x l -> f x = true -> g x = true) ->
  In a l -> f a = false -> g a = true ->
  (List.length (filter f l) < List.length (filter g l))%nat.
Proof.
  induction l as [|b l IH]; intros H Hin Hf Hg; [destruct Hin|].
  assert (Hmono : (List.length (filter f l) <= List.length (filter g l))%nat).
  { apply filter_length_mono. intros x Hx. apply H. now right. }
  simpl. destruct Hin as [-> | Hin].
  - rewrite Hf, Hg. simpl. lia.
  - assert (IH' : (List.length (filter f l) < List.length (filter g l))%nat).
    { apply IH; auto. intros x Hx. apply H. now right. }
    destruct (f b) eqn:Ef.
    + rewrite (H b (or_introl eq_refl) Ef). simpl. lia.
    + destruct (g b); simpl; lia.
Qed.

Lemma unseen_extends n m m' :
  memo_extends m m' -> (unseen n m' <= unseen n m)%nat.
Proof.
  intros H. unfold unseen. apply filter_length_mono. intros x _.
  specialize (H x). destruct (memo_get x m'), (memo_get x m); auto.
  exfalso. apply H; [discriminate | reflexivity].
Qed.

Lemma unseen_cons n m (x y : loc) :
  (x < n)%nat -> memo_get x m = None ->
  (unseen n ((x, y) :: m) < unseen n m)%nat.
Proof.
  intros Hx Hm. unfold unseen. apply (filter_length_lt _ _ _ x).
  - intros z _. simpl. destruct (z =? x)%nat; [discriminate | auto].
  - apply in_seq. lia.
  - simpl. now rewrite Nat.eqb_refl.
  - now rewrite Hm.
Qed.

Lemma memo_extends_refl m : memo_extends m m.
Proof. intros x H. exact H. Qed.

Lemma memo_extends_trans m1 m2 m3 :
  memo_extends m1 m2 -> memo_extends m2 m3 -> memo_extends m1 m3.
Proof. intros H12 H23 x H. auto. Qed.

Lemma memo_extends_cons m (x y : loc) : memo_extends m ((x, y) :: m).
Proof. intros z H. simpl. destruct (z =? x)%nat; [discriminate | exact H]. Qed.

Lemma memo_new_cons m (x y : loc) :
  memo_new n0 m -> (n0 <= y)%nat -> memo_new n0 ((x, y) :: m).
Proof.
  intros Hm Hy z w. simpl. destruct (z =? x)%nat; [now intros [= <-] | apply Hm].
Qed.

Section Children.
Variable fuel : nat.
Variable rec : val -> memo -> S (val * memo).
Hypothesis keeps_rec : forall v m,
  old_val n0 v -> memo_new n0 m -> (unseen n0 m < fuel)%nat ->
  keeps st0 (rec v m) (copied n0 m).

Lemma keeps_copy_items y d : forall m,
  (n0 <= y)%nat -> Forall (old_val n0) (values d) ->
  memo_new n0 m -> (unseen n0 m < fuel)%nat ->
  keeps st0 (copy_items rec y d m)
    (fun m' => memo_new n0 m' /\ memo_extends m m').
Proof.
  induction d as [|[k v] d IH]; intros m Hy Hd Hm Hfuel; cbn [copy_items].
  - apply keeps_ret. split; [assumption | apply memo_extends_refl].
  - inversion Hd as [|? ? Hv Hd']; subst.
    eapply keeps_bind; [now apply keeps_rec|]. intros [v' m1] (Hv' & Hm1 & Hext).
    cbn [fst snd] in *.
    eapply keeps_bind; [now apply keeps_setitem_new|]. intros _ _.
    eapply keeps_weaken.
    + apply IH; auto. pose proof (unseen_extends n0 _ _ Hext). lia.
    + intros m2 [Hm2 Hext2]. split; [assumption|].
      eapply memo_extends_trans; eassumption.
Qed.

Lemma keeps_copy_elems y l : forall m,
  (n0 <= y)%nat -> Forall (old_val n0) l ->
  memo_new n0 m -> (unseen n0 m < fuel)%nat ->
  keeps st0 (copy_elems rec y l m)
    (fun m' => memo_new n0 m' /\ memo_extends m m').
Proof.
  induction l as [|v l IH]; intros m Hy Hl Hm Hfuel; cbn [copy_elems].
  - apply keeps_ret. split; [assumption | apply memo_extends_refl].
  - inversion Hl as [|? ? Hv Hl']; subst.
    eapply keeps_bind; [now apply keeps_rec|]. intros [v' m1] (Hv' & Hm1 & Hext).
    cbn [fst snd] in *.
    eapply keeps_bind; [now apply keeps_append_new|]. intros _ _.
    eapply keeps_weaken.
    + apply IH; auto. pose proof (unseen_extends n0 _ _ Hext). lia.
    + intros m2 [Hm2 Hext2]. split; [assumption|].
      eapply memo_extends_trans; eassumption.
Qed.

End Children.

(** [deepcopy_memo] returns when its fuel exceeds the number of old objects
    the memo does not know; it adds objects and changes none of the old. *)
Lemma keeps_deepcopy_memo fuel : forall v m,
  old_val n0 v -> memo_new n0 m -> (unseen n0 m < fuel)%nat ->
  keeps st0 (deepcopy_memo fuel v m) (copied n0 m).
Proof.
  induction fuel as [|fuel IH]; intros v m Hv Hm Hfuel; [lia|].
  assert (Hatom : forall a : val, new_val n0 a ->
                    keeps st0 (ret (a, m)) (copied n0 m)).
  { intros a Ha. apply keeps_ret. split; [exact Ha|].
    split; [exact Hm | apply memo_extends_refl]. }
  destruct v as [| | | |x]; try (apply Hatom; exact I).
  cbn [deepcopy_memo]. destruct (memo_get x m) as [y|] eqn:Ememo.
  - apply Hatom. exact (Hm x y Ememo).
  - eapply keeps_bind; [apply keeps_deref|]. intros o [Hold _].
    specialize (Hold Hv). pose proof (st0_closed _ _ Hold) as Hchildren.
    pose proof (unseen_cons n0 m x) as Hlt.
    destruct o as [d|l].
    + eapply keeps_bind; [apply keeps_alloc; constructor|]. intros y Hy.
      eapply keeps_bind.
      * apply (keeps_copy_items fuel (deepcopy_memo fuel) IH y d).
        -- exact Hy.
        -- exact Hchildren.
        -- now apply memo_new_cons.
        -- specialize (Hlt y Hv Ememo). lia.
      * intros m' [Hm' Hext]. apply keeps_ret. split; [exact Hy|].
        split; [exact Hm'|].
        eapply memo_extends_trans; [apply memo_extends_cons | exact Hext].
    + eapply keeps_bind; [apply keeps_alloc; constructor|]. intros y Hy.
      eapply keeps_bind.
      * apply (keeps_copy_elems fuel (deepcopy_memo fuel) IH y l).
        -- exact Hy.
        -- exact Hchildren.
        -- now apply memo_new_cons.
        -- specialize (Hlt y Hv Ememo). lia.
      * intros m' [Hm' Hext]. apply keeps_ret. split; [exact Hy|].
        split; [exact Hm'|].
        eapply memo_extends_trans; [apply memo_extends_cons | exact Hext].
Qed.

Lemma unseen_nil n : unseen n [] = n.
Proof.
  unfold unseen. simpl. rewrite forallb_filter_id.
  - apply length_seq.
  - apply forallb_forall. reflexivity.
Qed.

Lemma frame_refl : frame st0 st0.
Proof.
  split; [lia|]. split; [intros l _; reflexivity|].
  intros l o Hl Ho. apply lookup_lt in Ho. lia.
Qed.

Lemma keeps_deepcopy v :
  old_val n0 v -> keeps st0 (deepcopy v) (new_val n0).
Proof.
  intros Hv st Hst. unfold deepcopy.
  assert (H : keeps st0
                (bind (deepcopy_memo (Datatypes.S (List.length st)) v [])
                      (fun r => ret (fst r)))
                (new_val n0)).
  { eapply keeps_bind.
    - apply keeps_deepcopy_memo; [exact Hv | intros x y; discriminate |].
      rewrite unseen_nil. destruct Hst as [Hlen _]. lia.
    - intros r (Hr & _). now apply keeps_ret. }
  exact (H st Hst).
Qed.

(** The frame of [remove_defaults].  In a store without dangling
    references the call ends, by a return or by a raise.  Whichever way it
    ends, every object that was there before the call is as it was, other
    than the document itself, and the new objects hold no reference to an
    object that was there before.  When it returns, the document is
    changed in one place, its [tables] key, which holds a value that does
    not lead to the old objects, and the value returned is [None]. *)
Lemma remove_defaults_frame stored_schema :
  match remove_defaults stored_schema st0 with
  | Ok r st =>
      r = VNone /\
      exists l doc tables clean_tables,
        stored_schema = VRef l /\
        lookup l st0 = Some (ODict doc) /\
        get "tables" doc = Some tables /\
        new_val n0 clean_tables /\
        lookup l st = Some (ODict (set "tables" clean_tables doc)) /\
        unchanged_but l st0 st /\
        independent n0 st
  | Raise _ st => unchanged st0 st /\ independent n0 st
  | OutOfFuel => False
  end.
Proof.
  assert (Hst0 : unchanged st0 st0 /\ independent n0 st0).
  { destruct frame_refl as (_ & H1 & H2). now split. }
  unfold remove_defaults.
  destruct stored_schema as [| | | |l]; try exact Hst0.
  unfold bind at 1. unfold getitem. unfold bind at 1. unfold deref.
  destruct (lookup l st0) as [[doc|xs]|] eqn:Hl; try exact Hst0.
  destruct (get "tables" doc) as [tables|] eqn:Ht; try exact Hst0.
  unfold ret at 1.
  assert (Hold : old_val n0 tables).
  { exact (Forall_values_get _ _ _ _ (st0_closed _ _ Hl) Ht). }
  unfold bind at 1.
  pose proof (keeps_deepcopy tables Hold st0 frame_refl) as H1.
  destruct (deepcopy tables st0) as [clean st1|e st1|];
    [|destruct H1 as (_ & H1 & H2); now split | exact H1].
  destruct H1 as [Hclean Hst1].
  unfold bind at 1.
  pose proof (keeps_for_values clean remove_table_defaults Hclean
                keeps_remove_table_defaults st1 Hst1) as H2.
  destruct (for_values clean remove_table_defaults st1) as [[] st2|e st2|];
    [|destruct H2 as (_ & H2 & H3); now split | exact H2].
  destruct H2 as [_ (Hlen & Hunch & Hind)].
  assert (Hlt : (l < n0)%nat) by (eapply lookup_lt; eassumption).
  assert (Hl2 : lookup l st2 = Some (ODict doc)) by now rewrite Hunch.
  rewrite (bind_Ok _ _ _ _ _ (setitem_ok _ _ "tables" clean _ Hl2)).
  unfold ret. split; [reflexivity|].
  exists l, doc, tables, clean. repeat split; try assumption.
  - apply lookup_update_eq. lia.
  - intros l' Hl' Hne. rewrite lookup_update_ne by congruence. now apply Hunch.
  - intros l' o Hl' Ho. rewrite lookup_update_ne in Ho by lia.
    exact (Hind l' o Hl' Ho).
Qed.

End Frame.
End FrameFacts.

(* ===================================================================== *)
(** ** Coercion to integers *)
(* ===================================================================== *)

Module CoerceFacts.
Import Coerce.

Local Open Scope Z_scope.

(** When a signed coefficient times a power of the base is an integer. *)
Lemma scaled_is_integer (b c e z : Z) :
  0 < b ->
  (inject_Z c * Qpow b e == inject_Z z)%Q <->
  (if 0 <=? e then z = c * b ^ e else c = z * b ^ (- e)).
Proof.
  intros Hb. unfold Qpow. destruct (0 <=? e) eqn:E.
  - rewrite <- inject_Z_mult, inject_Z_injective. split; congruence.
  - apply Z.leb_gt in E.
    assert (Hd : 0 < b ^ (- e)) by (apply Z.pow_pos_nonneg; lia).
    assert (Hq : ~ (inject_Z (b ^ (- e)) == 0)%Q).
    { change 0%Q with (inject_Z 0). rewrite inject_Z_injective. lia. }
    split; intros H.
    + apply inject_Z_injective. rewrite inject_Z_mult, <- H. field. exact Hq.
    + rewrite H, inject_Z_mult. field. exact Hq.
Qed.

Lemma signed_inject_Z (s : bool) (c : Z) :
  (if s then (- inject_Z c)%Q else inject_Z c) = inject_Z (if s then - c else c).
Proof. destruct s; [|reflexivity]. unfold inject_Z, Qopp. reflexivity. Qed.

(** A [float] that is an integer passes the test and is converted to that
    integer; any other [float] fails the test. *)
Lemma float_integral f :
  match float_value f with
  | Some q =>
      (forall z, (q == inject_Z z)%Q ->
                 float_mod1_nonzero f = false /\ int_of_float f = inr z) /\
      ((forall z, ~ (q == inject_Z z)%Q) -> float_mod1_nonzero f = true)
  | None => float_mod1_nonzero f = true
  end.
Proof.
  destruct f as [s|s| |s m e]; cbn [float_value float_mod1_nonzero int_of_float];
    try reflexivity.
  - split.
    + intros z Hz. change 0%Q with (inject_Z 0) in Hz.
      apply (proj1 (inject_Z_injective _ _)) in Hz. subst z. now split.
    + intros H. exfalso. apply (H 0). reflexivity.
  - rewrite signed_inject_Z. split.
    + intros z Hz. apply scaled_is_integer in Hz; [|lia].
      destruct (0 <=? e) eqn:E.
      * split; [reflexivity|]. f_equal. subst z. destruct s; ring.
      * apply Z.leb_gt in E.
        assert (Hd : 0 < 2 ^ (- e)) by (apply Z.pow_pos_nonneg; lia).
        assert (Hm : Z.pos m = (if s then - z else z) * 2 ^ (- e)).
        { destruct s; [|exact Hz].
          rewrite Z.mul_opp_l, <- Hz. ring. }
        split.
        -- rewrite Hm, Z.mod_mul by lia. reflexivity.
        -- f_equal. rewrite Hm, Z.div_mul by lia. destruct s; ring.
    + intros H. destruct (0 <=? e) eqn:E.
      * exfalso. apply (H ((if s then - Z.pos m else Z.pos m) * 2 ^ e)).
        apply scaled_is_integer; [lia|]. now rewrite E.
      * apply Z.leb_gt in E.
        assert (Hd : 0 < 2 ^ (- e)) by (apply Z.pow_pos_nonneg; lia).
        destruct (Z.pos m mod 2 ^ (- e) =? 0) eqn:Em; [|reflexivity].
        apply Z.eqb_eq in Em. exfalso.
        apply (H (if s then - (Z.pos m / 2 ^ (- e)) else Z.pos m / 2 ^ (- e))).
        apply scaled_is_integer; [lia|].
        apply Z.leb_gt in E. rewrite E.
        pose proof (Z.div_mod (Z.pos m) (2 ^ (- e))) as Hdm.
        rewrite Em in Hdm. destruct s; lia.
Qed.

(** The claim of the specification holds of every [double]. *)
Lemma coerce_double_to_integer ctx ext to_type f :
  to_type = dt_bigint \/ to_type = dt_wei ->
  match float_value f with
  | Some q =>
      (forall z, (q == inject_Z z)%Q ->
         coerce_type ctx ext to_type dt_double (PFloat f) = inr (PInt z)) /\
      ((forall z, ~ (q == inject_Z z)%Q) ->
         coerce_type ctx ext to_type dt_double (PFloat f) = inl ValueError)
  | None => coerce_type ctx ext to_type dt_double (PFloat f) = inl ValueError
  end.
Proof.
  intros Hto. pose proof (float_integral f) as H.
  assert (Hc : coerce_type ctx ext to_type dt_double (PFloat f)
               = coerce_integral ctx ext (PFloat f))
    by (destruct Hto as [-> | ->]; reflexivity).
  rewrite Hc. unfold coerce_integral.
  destruct (float_value f) as [q|].
  - destruct H as [Hint Hfrac]. split.
    + intros z Hz. destruct (Hint z Hz) as [-> ->]. reflexivity.
    + intros Hz. now rewrite (Hfrac Hz).
  - now rewrite H.
Qed.

(** *** Decimals *)

Lemma digits_loop_spec fuel : forall c,
  0 < c -> Z.log2 c <= Z.of_nat fuel ->
  1 <= digits_loop fuel c /\
  10 ^ (digits_loop fuel c - 1) <= c < 10 ^ digits_loop fuel c.
Proof.
  induction fuel as [|fuel IH]; intros c Hc Hlog.
  - cbn [digits_loop]. pose proof (Z.log2_spec c Hc) as Hs.
    pose proof (Z.log2_nonneg c) as Hn.
    assert (Z.log2 c = 0) as E by lia. rewrite E in Hs. simpl in Hs.
    change (10 ^ (1 - 1)) with 1. change (10 ^ 1) with 10. lia.
  - cbn [digits_loop]. destruct (c <? 10) eqn:E.
    + apply Z.ltb_lt in E. change (10 ^ (1 - 1)) with 1. change (10 ^ 1) with 10. lia.
    + apply Z.ltb_ge in E.
      assert (Hq : 0 < c / 10) by (apply Z.div_str_pos; lia).
      assert (Hlog' : Z.log2 (c / 10) <= Z.of_nat fuel).
      { pose proof (Z.log2_double (c / 10) Hq) as Hdbl.
        assert (Z.log2 (2 * (c / 10)) <= Z.log2 c).
        { apply Z.log2_le_mono. pose proof (Z.div_mod c 10).
          pose proof (Z.mod_pos_bound c 10). lia. }
        lia. }
      destruct (IH (c / 10) Hq Hlog') as (H1 & H2 & H3).
      set (d := digits_loop fuel (c / 10)) in *.
      pose proof (Z.div_mod c 10) as Hdm.
      pose proof (Z.mod_pos_bound c 10) as Hmb.
      split; [lia|].
      replace (1 + d - 1) with (Z.succ (d - 1)) by lia.
      replace (1 + d) with (Z.succ d) by lia.
      rewrite !Z.pow_succ_r by lia. lia.
Qed.

(** A positive coefficient has [digits c] decimal digits. *)
Lemma digits_spec c :
  0 < c -> 1 <= digits c /\ 10 ^ (digits c - 1) <= c < 10 ^ digits c.
Proof.
  intros Hc. apply digits_loop_spec; [assumption|].
  pose proof (Z.log2_nonneg c). lia.
Qed.

Lemma pow10_lt a b : 0 <= b -> 10 ^ a < 10 ^ b -> a < b.
Proof.
  intros Hb H. destruct (Z.lt_ge_cases a b) as [|Hge]; [assumption|].
  pose proof (Z.pow_le_mono_r 10 b a). lia.
Qed.

(** A remainder with no digit below [Etiny] is not rounded to zero. *)
Lemma rounds_to_zero_above ctx s r e :
  0 < r -> Etiny ctx <= e -> rounds_to_zero ctx s r e = false.
Proof.
  intros Hr He. unfold rounds_to_zero.
  destruct (digits_spec r Hr) as (Hd & _).
  destruct (0 <? digits r + e - Etiny ctx) eqn:E; [reflexivity|].
  apply Z.ltb_ge in E. lia.
Qed.

(** The remainder is computed when the integer part fits the precision,
    and it is not rounded to zero when the exponent is not below
    [Etiny]. *)
Lemma decimal_mod1_defined ctx s c e :
  0 <= prec ctx -> Etiny ctx <= 0 -> Etiny ctx <= e ->
  0 <= c -> integer_part c e < 10 ^ prec ctx ->
  decimal_mod1_nonzero ctx (DFinite s c e) =
  inr (if 0 <=? e then false else negb (c mod 10 ^ (- e) =? 0)).
Proof.
  intros Hprec Htiny He Hc Hint. unfold decimal_mod1_nonzero, integer_part in *.
  destruct (c =? 0) eqn:E0.
  - apply Z.eqb_eq in E0. subst c. destruct (0 <=? e) eqn:E; [reflexivity|].
    apply Z.leb_gt in E. now rewrite Z.mod_0_l by (apply Z.pow_nonzero; lia).
  - apply Z.eqb_neq in E0. assert (Hpos : 0 < c) by lia.
    destruct (digits_spec c Hpos) as (Hd1 & Hd2 & Hd3).
    unfold adjusted. destruct (e + digits c - 1 <=? -2) eqn:Esmall.
    + apply Z.leb_le in Esmall.
      rewrite (rounds_to_zero_above ctx s c e Hpos He). cbn [negb].
      destruct (0 <=? e) eqn:E; [apply Z.leb_le in E; lia|].
      apply Z.leb_gt in E.
      assert (Hlt : c < 10 ^ (- e)).
      { pose proof (Z.pow_le_mono_r 10 (digits c) (- e)). lia. }
      rewrite Z.mod_small by lia.
      apply Z.eqb_neq in E0. now rewrite E0.
    + assert (Hadj : e + digits c - 1 <= prec ctx).
      { destruct (0 <=? e) eqn:E.
        - apply Z.leb_le in E.
          assert (10 ^ (digits c - 1 + e) < 10 ^ prec ctx).
          { rewrite Z.pow_add_r by lia.
            pose proof (Z.pow_pos_nonneg 10 e). nia. }
          pose proof (pow10_lt (digits c - 1 + e) (prec ctx)). lia.
        - apply Z.leb_gt in E.
          assert (Hk : 0 < 10 ^ (- e)) by (apply Z.pow_pos_nonneg; lia).
          assert (c < 10 ^ prec ctx * 10 ^ (- e)).
          { pose proof (Z.div_mod c (10 ^ (- e))).
            pose proof (Z.mod_pos_bound c (10 ^ (- e))). nia. }
          assert (10 ^ (digits c - 1) < 10 ^ (prec ctx + - e)).
          { rewrite Z.pow_add_r by lia. lia. }
          pose proof (pow10_lt (digits c - 1) (prec ctx + - e)). lia. }
      apply Z.leb_le in Hadj. rewrite Hadj.
      destruct (0 <=? e) eqn:E.
      * rewrite Z.div_1_r. apply Z.ltb_lt in Hint. rewrite Hint.
        now rewrite Z.mod_1_r.
      * apply Z.leb_gt in E. apply Z.ltb_lt in Hint. rewrite Hint.
        assert (Hk : 0 < 10 ^ (- e)) by (apply Z.pow_pos_nonneg; lia).
        pose proof (Z.mod_pos_bound c (10 ^ (- e)) Hk) as Hr.
        destruct (c mod 10 ^ (- e) =? 0) eqn:Er; [reflexivity|].
        apply Z.eqb_neq in Er. cbn [negb andb].
        rewrite rounds_to_zero_above; [reflexivity | lia | lia].
Qed.

(** The claim of the specification holds of a decimal whose integer part
    fits the precision of the context and whose exponent is not below
    [Etiny]. *)
Lemma coerce_decimal_to_integer ctx ext to_type s c e :
  to_type = dt_bigint \/ to_type = dt_wei ->
  0 <= prec ctx -> Etiny ctx <= 0 -> Etiny ctx <= e ->
  0 <= c -> integer_part c e < 10 ^ prec ctx ->
  forall q, decimal_value (DFinite s c e) = Some q ->
  (forall z, (q == inject_Z z)%Q ->
     coerce_type ctx ext to_type dt_decimal (PDecimal (DFinite s c e))
     = inr (PInt z)) /\
  ((forall z, ~ (q == inject_Z z)%Q) ->
     coerce_type ctx ext to_type dt_decimal (PDecimal (DFinite s c e))
     = inl ValueError).
Proof.
  intros Hto Hprec Htiny He Hc Hint q Hq.
  assert (Hco : coerce_type ctx ext to_type dt_decimal (PDecimal (DFinite s c e))
                = coerce_integral ctx ext (PDecimal (DFinite s c e)))
    by (destruct Hto as [-> | ->]; reflexivity).
  rewrite Hco. unfold coerce_integral.
  rewrite (decimal_mod1_defined ctx s c e Hprec Htiny He Hc Hint).
  cbn [decimal_value] in Hq. injection Hq as <-. rewrite signed_inject_Z.
  cbn [int_of_decimal]. split.
  - intros z Hz. apply scaled_is_integer in Hz; [|lia].
    destruct (0 <=? e) eqn:E.
    + do 2 f_equal. subst z. destruct s; ring.
    + apply Z.leb_gt in E.
      assert (Hd : 0 < 10 ^ (- e)) by (apply Z.pow_pos_nonneg; lia).
      assert (Hm : c = (if s then - z else z) * 10 ^ (- e)).
      { destruct s; [|exact Hz]. rewrite Z.mul_opp_l, <- Hz. ring. }
      rewrite Hm at 1. rewrite Z.mod_mul by lia. cbn [Z.eqb negb].
      do 2 f_equal. rewrite Hm, Z.div_mul by lia. destruct s; ring.
  - intros H. destruct (0 <=? e) eqn:E.
    + exfalso. apply (H ((if s then - c else c) * 10 ^ e)).
      apply scaled_is_integer; [lia|]. now rewrite E.
    + apply Z.leb_gt in E.
      assert (Hd : 0 < 10 ^ (- e)) by (apply Z.pow_pos_nonneg; lia).
      destruct (c mod 10 ^ (- e) =? 0) eqn:Em; [|reflexivity].
      apply Z.eqb_eq in Em. exfalso.
      apply (H (if s then - (c / 10 ^ (- e)) else c / 10 ^ (- e))).
      apply scaled_is_integer; [lia|].
      apply Z.leb_gt in E. rewrite E.
      pose proof (Z.div_mod c (10 ^ (- e))) as Hdm.
      rewrite Em in Hdm. destruct s; lia.
Qed.

(** The decimal [1E+prec] is the integer [10 ^ prec], and its remainder
    cannot be computed under the precision [prec]. *)
Lemma decimal_mod1_beyond_precision ctx :
  0 < prec ctx ->
  decimal_mod1_nonzero ctx (DFinite false 1 (prec ctx)) = inl InvalidOperation.
Proof.
  intros Hprec. unfold decimal_mod1_nonzero, adjusted.
  change (digits 1) with 1. change (1 =? 0) with false. cbn iota.
  replace (prec ctx + 1 - 1) with (prec ctx) by ring.
  destruct (prec ctx <=? -2) eqn:E1; [apply Z.leb_le in E1; lia|].
  rewrite Z.leb_refl.
  destruct (0 <=? prec ctx) eqn:E2; [|apply Z.leb_gt in E2; lia].
  rewrite Z.div_1_r, Z.mul_1_l, Z.ltb_irrefl. reflexivity.
Qed.

(** Below [Etiny] the remainder underflows.  A decimal that is not zero
    and has all its digits below [Etiny] is no integer; under a rounding
    to the nearest or towards zero its remainder is zero, and it is
    coerced to the integer 0. *)
Lemma coerce_decimal_underflow ctx ext to_type s c e :
  to_type = dt_bigint \/ to_type = dt_wei ->
  Etiny ctx <= 0 -> 0 < c -> digits c + e < Etiny ctx ->
  rounding ctx = ROUND_HALF_EVEN \/ rounding ctx = ROUND_HALF_UP \/
  rounding ctx = ROUND_HALF_DOWN \/ rounding ctx = ROUND_DOWN ->
  (forall q, decimal_value (DFinite s c e) = Some q ->
             forall z, ~ (q == inject_Z z)%Q) /\
  coerce_type ctx ext to_type dt_decimal (PDecimal (DFinite s c e))
  = inr (PInt 0).
Proof.
  intros Hto Htiny Hc Hlow Hmode.
  destruct (digits_spec c Hc) as (Hd1 & Hd2 & Hd3).
  assert (He : e < 0) by lia.
  assert (Hpow : 10 ^ digits c <= 10 ^ (- e)) by (apply Z.pow_le_mono_r; lia).
  assert (Hsmall : c < 10 ^ (- e)) by lia.
  split.
  - intros q [= <-] z Hz. rewrite signed_inject_Z in Hz.
    apply scaled_is_integer in Hz; [|lia].
    destruct (0 <=? e) eqn:E; [apply Z.leb_le in E; lia|].
    assert (Hk : c = Z.abs z * 10 ^ (- e)) by (destruct s; lia).
    assert (0 < Z.abs z) by nia. nia.
  - assert (Hco : coerce_type ctx ext to_type dt_decimal (PDecimal (DFinite s c e))
                  = coerce_integral ctx ext (PDecimal (DFinite s c e)))
      by (destruct Hto as [-> | ->]; reflexivity).
    rewrite Hco. unfold coerce_integral, decimal_mod1_nonzero, adjusted.
    replace (c =? 0) with false by (symmetry; apply Z.eqb_neq; lia).
    replace (e + digits c - 1 <=? -2) with true by (symmetry; apply Z.leb_le; lia).
    assert (Hz : rounds_to_zero ctx s c e = true).
    { unfold rounds_to_zero.
      replace (0 <? digits c + e - Etiny ctx) with false
        by (symmetry; apply Z.ltb_ge; lia).
      replace (digits c + e - Etiny ctx <? 0) with true
        by (symmetry; apply Z.ltb_lt; lia).
      destruct Hmode as [-> | [-> | [-> | ->]]]; reflexivity. }
    rewrite Hz. cbn [negb int_of_decimal].
    replace (0 <=? e) with false by (symmetry; apply Z.leb_gt; lia).
    rewrite Z.div_small by lia. now destruct s.
Qed.

End CoerceFacts.

(* ===================================================================== *)
(** ** The claims about names and about the round trip of a column *)
(* ===================================================================== *)

Module NameClaims.

(** C6.  [normalize_schema_name] is not idempotent: the digit test looks at
    the name before the other characters are stripped, so ["_1a"] becomes
    ["1a"], which a second pass turns into ["s1a"]. *)
Theorem normalize_schema_name_second_pass :
  normalize_schema_name "_1a" = "1a" /\
  normalize_schema_name (normalize_schema_name "_1a") = "s1a" /\
  normalize_schema_name (normalize_schema_name "_1a")
    <> normalize_schema_name "_1a".
Proof. repeat split. discriminate. Qed.

End NameClaims.

Module HintClaims.
Import PyDict PyDictFacts PyMonad PyMonadFacts Store StoreFacts HintSpec HintFacts.

(** The rule on one column.  For a column with a name, and a hint flag
    [h] other than [nullable], the body of the loop over the columns
    deletes [h] exactly when it is [False]: a flag that is [True] (or any
    other value) stays as it is, a column with the flag [False] and the
    same column without the flag get the same stored form, and
    [nullable] stays whatever its value. *)
Lemma default_hints_elided st l d h :
  lookup l st = Some (ODict d) ->
  NoDup (keys d) ->
  In "name" (keys d) ->
  h <> "nullable" -> h <> "name" ->
  exists stored,
    remove_column_defaults (VRef l) st = Ok tt (update l (ODict stored) st) /\
    get h stored =
      match get h d with
      | Some (VBool false) => None
      | present_or_absent => present_or_absent
      end /\
    get "nullable" stored = get "nullable" d /\
    (get h d = Some (VBool false) ->
     forall st2 l2,
       lookup l2 st2 = Some (ODict (remove h d)) ->
       remove_column_defaults (VRef l2) st2 =
       Ok tt (update l2 (ODict stored) st2)).
Proof.
  intros Hl Hnd Hname Hh Hn. exists (stored_column d).
  split; [now apply remove_column_defaults_spec|]. split; [|split].
  - rewrite (get_stored_column _ _ Hnd).
    destruct (String.eqb "name" h) eqn:E; [apply String.eqb_eq in E; congruence|].
    apply String.eqb_neq in Hh. rewrite Hh.
    destruct (get h d) as [[|[]| | |]|]; reflexivity.
  - rewrite (get_stored_column _ _ Hnd). cbn [String.eqb Ascii.eqb Bool.eqb].
    destruct (get "nullable" d) as [[|[]| | |]|]; reflexivity.
  - intros Hf st2 l2 Hl2.
    rewrite <- (stored_column_remove h d Hnd Hf Hh).
    apply remove_column_defaults_spec; [assumption | now apply NoDup_keys_remove |].
    rewrite keys_remove. apply filter_In. split; [assumption|].
    apply negb_true_iff. apply String.eqb_neq. congruence.
Qed.

Lemma NoDup_keys_id_column : NoDup (keys Samples.id_column).
Proof.
  repeat (constructor; [simpl; intuition discriminate|]). constructor.
Qed.

Lemma working_id_column : working_column Samples.id_column.
Proof.
  split; [exact NoDup_keys_id_column|].
  split; [simpl; tauto|]. split; [simpl; tauto|]. split; [simpl; tauto|]. split.
  - intros h Hin. simpl in Hin.
    repeat (destruct Hin as [<- | Hin]; [eexists; reflexivity|]). destruct Hin.
  - intros k. unfold Samples.id_column. cbn [get].
    repeat match goal with
    | |- context [String.eqb k ?s] =>
        let E := fresh "E" in
        destruct (String.eqb k s) eqn:E;
        [apply String.eqb_eq in E; subst k; clear;
         try discriminate; intros _; simpl; tauto|]
    end.
    discriminate.
Qed.

(** C8 as the specification states it fails: the stored form has no
    [name], and expanding it does not bring the name back. *)
Lemma round_trip_loses_name :
  working_column Samples.id_column /\
  exists st' again,
    expand_collapse_expand (VRef 0%nat) [ODict Samples.id_column] =
      Ok (VRef 1%nat, VRef 2%nat) st' /\
    lookup 2%nat st' = Some (ODict again) /\
    get "name" Samples.id_column = Some (VStr "id") /\
    get "name" again = None /\
    ~ equiv again Samples.id_column.
Proof.
  split; [exact working_id_column|].
  eexists. eexists. split; [vm_compute; reflexivity|].
  split; [reflexivity|]. split; [reflexivity|]. split; [reflexivity|].
  intros H. specialize (H "name"). discriminate.
Qed.

(** C8, amended.  For a working column, expanding it, collapsing the
    expansion to its stored form by the [remove_defaults] rule and
    expanding that again gives the working column without its [name]: every
    other entry is as in the working column, the six hint flags included;
    [nullable] is in the stored form with the value it had; and the working
    column itself is not touched. *)
Theorem round_trip_up_to_name st l w :
  lookup l st = Some (ODict w) ->
  working_column w ->
  exists st' s a stored again,
    expand_collapse_expand (VRef l) st = Ok (VRef s, VRef a) st' /\
    lookup s st' = Some (ODict stored) /\
    lookup a st' = Some (ODict again) /\
    equiv again (remove "name" w) /\
    get "nullable" stored = get "nullable" w /\
    lookup l st' = Some (ODict w).
Proof.
  intros Hl Hw. pose proof Hw as (Hnd & Hname & _).
  destruct (expand_stored_expand _ Hw) as [Heq Hnull].
  pose proof (lookup_lt _ _ _ Hl) as Hlt.
  eexists. exists (List.length st), (Datatypes.S (List.length st)).
  eexists. eexists.
  split; [apply (expand_collapse_expand_spec _ _ _ Hl Hnd Hname)|].
  unfold lookup.
  split; [rewrite nth_error_app2, Nat.sub_diag by lia; reflexivity|].
  split; [rewrite nth_error_app2 by lia;
          replace (Datatypes.S (List.length st) - List.length st)%nat with 1%nat by lia;
          reflexivity|].
  split; [exact Heq|]. split; [exact Hnull|].
  rewrite nth_error_app1 by assumption. exact Hl.
Qed.

Lemma round_trip_up_to_name_witness :
  exists st' s a stored again,
    expand_collapse_expand (VRef 0%nat) [ODict Samples.id_column] =
      Ok (VRef s, VRef a) st' /\
    lookup s st' = Some (ODict stored) /\
    lookup a st' = Some (ODict again) /\
    equiv again (remove "name" Samples.id_column) /\
    get "nullable" stored = get "nullable" Samples.id_column /\
    lookup 0%nat st' = Some (ODict Samples.id_column).
Proof.
  exact (round_trip_up_to_name [ODict Samples.id_column] 0%nat Samples.id_column
           eq_refl working_id_column).
Defined.

End HintClaims.

(* ===================================================================== *)
(** ** The claims about the copy and about coercion *)
(* ===================================================================== *)

Module CopyClaims.
Import PyDict PyMonad Store StoreSpec FrameFacts.

Lemma closed_shop_store : closed Samples.shop_store.
Proof.
  intros l o H.
  do 5 (destruct l as [|l];
        [injection H as <-; repeat constructor; simpl; lia|]).
  destruct l; discriminate.
Qed.


End CopyClaims.

Module CoerceClaims.
Import Coerce CoerceFacts.

Local Open Scope Z_scope.

(** C5 at its failing input.  The decimal [1E+prec] is the integer
    [10 ^ prec]; under a context of precision [prec] its coercion to
    [bigint] or [wei] does not return that integer: the remainder
    [value % 1] cannot be computed, and the call ends with the decimal
    library's invalid-operation exception. *)
Theorem coerce_integral_decimal_beyond_precision ctx ext to_type :
  0 < prec ctx ->
  to_type = dt_bigint \/ to_type = dt_wei ->
  (exists q, decimal_value (DFinite false 1 (prec ctx)) = Some q /\
             (q == inject_Z (10 ^ prec ctx))%Q) /\
  coerce_type ctx ext to_type dt_decimal (PDecimal (DFinite false 1 (prec ctx)))
  = inl InvalidOperation.
Proof.
  intros Hprec Hto. split.
  - eexists. split; [reflexivity|]. unfold Qpow.
    destruct (0 <=? prec ctx) eqn:E; [|apply Z.leb_gt in E; lia].
    now rewrite Qmult_1_l.
  - assert (Hco : coerce_type ctx ext to_type dt_decimal
                    (PDecimal (DFinite false 1 (prec ctx)))
                  = coerce_integral ctx ext (PDecimal (DFinite false 1 (prec ctx))))
      by (destruct Hto as [-> | ->]; reflexivity).
    rewrite Hco. unfold coerce_integral.
    now rewrite (decimal_mod1_beyond_precision ctx Hprec).
Qed.

Lemma coerce_integral_decimal_beyond_precision_witness :
  coerce_type default_context Samples.no_collaborators dt_bigint dt_decimal
    (PDecimal (DFinite false 1 28))
  = inl InvalidOperation.
Proof.
  exact (proj2 (coerce_integral_decimal_beyond_precision default_context
                  Samples.no_collaborators dt_bigint eq_refl (or_introl eq_refl))).
Defined.

(** The two examples of the specification: [2.0] and [2.5] as [double]s. *)
Lemma coerce_double_examples ctx ext :
  coerce_type ctx ext dt_bigint dt_double (PFloat (S754_finite false 1 1))
    = inr (PInt 2) /\
  coerce_type ctx ext dt_bigint dt_double (PFloat (S754_finite false 5 (-1)))
    = inl ValueError.
Proof. split; reflexivity. Qed.

End CoerceClaims.

(* ===================================================================== *)
(** ** The migration claims *)
(* ===================================================================== *)

Module MigrationClaims.
Import PyDict PyDictFacts PyMonad PyMonadFacts PyStr PyStrFacts Spec Doc.
Import ParentFacts MigrateFacts UpgradeFacts.

Lemma first_segment_orders : first_segment "orders".
Proof. apply find_first_occurrence. reflexivity. Qed.

Lemma shop_v2_excludes :
  legacy_filters "excludes" Samples.shop_v2 ["^orders__items__price"].
Proof. left. reflexivity. Qed.

Lemma shop_v2_includes : legacy_filters "includes" Samples.shop_v2 [].
Proof. left. reflexivity. Qed.

(** C2.  In the 2 -> 3 step (on a document whose legacy filters, if any,
    are sequences of strings) every legacy table gets as parent the longest
    truncation of its name (cut at the last [__] that is not at index 0, as
    often as needed) that names a legacy table; such a parent is a
    non-empty strict prefix of the name; when no truncation names a legacy
    table, the table has no parent.  With the legacy tables [orders] and
    [orders__items], the parent of [orders__items] is [orders]. *)
Theorem legacy_parent_assigned :
  (forall doc old_tables excludes includes,
      get "tables" doc = Some (VDict old_tables) ->
      legacy_filters "excludes" doc excludes ->
      legacy_filters "includes" doc includes ->
      exists doc' tables,
        upgrade_engine_version 2 3 doc = Ok tt doc' /\
        get "tables" doc' = Some (VDict tables) /\
        forall name, In name (keys old_tables) ->
          exists t parent,
            get name tables = Some (VDict t) /\
            get "parent" t = option_map VStr parent /\
            legacy_parent old_tables name parent /\
            (forall p, parent = Some p ->
               p = take (String.length p) name /\
               (0 < String.length p < String.length name)%nat)) /\
  (forall doc orders items excludes includes,
      get "tables" doc =
        Some (VDict [("orders", orders); ("orders__items", items)]) ->
      legacy_filters "excludes" doc excludes ->
      legacy_filters "includes" doc includes ->
      exists doc' tables t,
        upgrade_engine_version 2 3 doc = Ok tt doc' /\
        get "tables" doc' = Some (VDict tables) /\
        get "orders__items" tables = Some (VDict t) /\
        get "parent" t = Some (VStr "orders")).
Proof.
  split.
  - intros doc old_tables excludes includes Hts Hex Hin.
    exists (migrated_document doc (migrated_tables old_tables excludes includes)),
      (migrated_tables old_tables excludes includes).
    split; [now apply upgrade_2_3_spec|]. split; [apply get_tables_migrated|].
    intros name Hname.
    destruct (has_parent_migrated old_tables excludes includes name Hname)
      as (t & Ht & Hp).
    exists t, (parent_of old_tables name).
    pose proof (legacy_parent_parent_of old_tables name) as Hl.
    repeat split; try assumption;
      subst parent || (destruct (parent_of old_tables name) as [q|]; [|discriminate]);
      injection H as ->; destruct Hl as (Hl & _);
      apply truncation_prefix in Hl; tauto || lia.
  - intros doc orders items excludes includes Hts Hex Hin.
    set (old := [("orders", orders); ("orders__items", items)]) in *.
    destruct (has_parent_migrated old excludes includes "orders__items")
      as (t & Ht & Hp); [right; left; reflexivity|].
    exists (migrated_document doc (migrated_tables old excludes includes)),
      (migrated_tables old excludes includes), t.
    split; [now apply upgrade_2_3_spec|]. split; [apply get_tables_migrated|].
    split; assumption.
Qed.

Lemma legacy_parent_assigned_witness :
  (exists doc' tables,
      upgrade_engine_version 2 3 Samples.shop_v2 = Ok tt doc' /\
      get "tables" doc' = Some (VDict tables) /\
      forall name,
        In name ["orders"; "orders__items"] ->
        exists t parent,
          get name tables = Some (VDict t) /\
          get "parent" t = option_map VStr parent /\
          legacy_parent
            [("orders", VDict [("id", VDict [("data_type", VStr "bigint")])]);
             ("orders__items", VDict [])] name parent /\
          (forall p, parent = Some p ->
             p = take (String.length p) name /\
             (0 < String.length p < String.length name)%nat)) /\
  (exists doc' tables t,
      upgrade_engine_version 2 3 Samples.shop_v2 = Ok tt doc' /\
      get "tables" doc' = Some (VDict tables) /\
      get "orders__items" tables = Some (VDict t) /\
      get "parent" t = Some (VStr "orders")).
Proof.
  split.
  - exact (proj1 legacy_parent_assigned Samples.shop_v2 _ _ _ eq_refl
             shop_v2_excludes shop_v2_includes).
  - exact (proj2 legacy_parent_assigned Samples.shop_v2 _ _ _ _ eq_refl
             shop_v2_excludes shop_v2_includes).
Defined.

(** C3.  For a version-1 document (one that has its [tables] mapping),
    [upgrade_engine_version(doc, 1, 3)] returns the document with
    [engine_version] 3, a non-empty [normalizers] block, a [settings] block
    with the keys [default_hints] and [preferred_types] (which hold what
    was under the top-level [hints] and [preferred_types], or empty
    mappings), and no top-level [hints], [preferred_types], [includes] or
    [excludes]. *)
Theorem upgrade_1_3_shape doc old_tables :
  get "tables" doc = Some (VDict old_tables) ->
  exists doc',
    upgrade_engine_version 1 3 doc = Ok tt doc' /\
    get "engine_version" doc' = Some (VInt 3) /\
    get "normalizers" doc' = Some default_normalizers /\
    (exists n, get "normalizers" doc' = Some (VDict n) /\ n <> []) /\
    get "settings" doc' =
      Some (VDict [("default_hints", moved "hints" doc);
                   ("preferred_types", moved "preferred_types" doc)]) /\
    get "hints" doc' = None /\
    get "preferred_types" doc' = None /\
    get "includes" doc' = None /\
    get "excludes" doc' = None.
Proof.
  intros Hts. eexists. split; [apply (upgrade_1_3_spec _ _ Hts)|].
  unfold migrated_document, moved. get_simpl.
  repeat split; try reflexivity.
  eexists; split; [reflexivity | discriminate].
Qed.

Lemma upgrade_1_3_shape_witness :
  exists doc',
    upgrade_engine_version 1 3 Samples.shop_v1 = Ok tt doc' /\
    get "engine_version" doc' = Some (VInt 3) /\
    get "normalizers" doc' = Some default_normalizers /\
    (exists n, get "normalizers" doc' = Some (VDict n) /\ n <> []) /\
    get "settings" doc' =
      Some (VDict [("default_hints", VDict []); ("preferred_types", VDict [])]) /\
    get "hints" doc' = None /\
    get "preferred_types" doc' = None /\
    get "includes" doc' = None /\
    get "excludes" doc' = None.
Proof. exact (upgrade_1_3_shape Samples.shop_v1 _ eq_refl). Defined.

(** C4.  In the 2 -> 3 step every legacy filter is split at its first
    [__]: for a filter [^root__path], where [root] is the first
    [__]-delimited segment, the leading [^] is dropped, what comes before
    the separator is [root] and what comes after is [path].  The tables of
    the migrated document are the repackaged legacy tables with every
    filter placed, the excludes first: the filter goes to the table [root],
    which is an empty root table when there was none, and [^path] is
    appended to that table's [filters[group]]; nothing else changes.  A
    legacy exclude filter [^orders__items__price] ends as [^items__price]
    in [filters["excludes"]] of the table [orders]. *)
Theorem legacy_filters_reassigned :
  (forall root path,
      first_segment root ->
      split_filter ("^" ++ root ++ "__" ++ path) = (root, path)) /\
  (forall doc old_tables excludes includes,
      get "tables" doc = Some (VDict old_tables) ->
      legacy_filters "excludes" doc excludes ->
      legacy_filters "includes" doc includes ->
      exists doc',
        upgrade_engine_version 2 3 doc = Ok tt doc' /\
        get "tables" doc' =
          Some (VDict
                  (fold_left (place_filter "includes") (map split_filter includes)
                     (fold_left (place_filter "excludes")
                        (map split_filter excludes) (repackaged old_tables))))) /\
  (forall group ts root path,
      let t0 := match get root ts with
                | Some (VDict t) => t
                | _ => root_table root
                end in
      exists t,
        get root (place_filter group ts (root, path)) = Some (VDict t) /\
        filters_of group t = (filters_of group t0 ++ [VStr ("^" ++ path)])%list /\
        (forall g, g <> group -> filters_of g t = filters_of g t0) /\
        (forall k, k <> "filters" -> get k t = get k t0) /\
        (forall other, other <> root ->
           get other (place_filter group ts (root, path)) = get other ts)) /\
  (forall doc old_tables excludes includes,
      get "tables" doc = Some (VDict old_tables) ->
      legacy_filters "excludes" doc excludes ->
      legacy_filters "includes" doc includes ->
      In "^orders__items__price" excludes ->
      exists doc' tables t,
        upgrade_engine_version 2 3 doc = Ok tt doc' /\
        get "tables" doc' = Some (VDict tables) /\
        get "orders" tables = Some (VDict t) /\
        In (VStr "^items__price") (filters_of "excludes" t)).
Proof.
  split; [|split; [|split]].
  - intros root path Hroot. exact (split_filter_pattern root path Hroot).
  - intros doc old_tables excludes includes Hts Hex Hin. eexists.
    split; [apply (upgrade_2_3_spec _ _ _ _ Hts Hex Hin) | apply get_tables_migrated].
  - intros group ts root path. apply place_filter_effect.
  - intros doc old_tables excludes includes Hts Hex Hin Hf.
    destruct (has_filter_place_filters "excludes" "includes" "orders"
                (VStr "^items__price") (map split_filter includes)
                (fold_left (place_filter "excludes") (map split_filter excludes)
                   (repackaged old_tables)))
      as (t & Ht & Hx).
    { apply (has_filter_place_In "excludes" "orders" "items__price").
      change ("orders", "items__price")
        with (split_filter "^orders__items__price").
      now apply in_map. }
    exists (migrated_document doc (migrated_tables old_tables excludes includes)),
      (migrated_tables old_tables excludes includes), t.
    split; [now apply upgrade_2_3_spec|]. split; [apply get_tables_migrated|].
    split; assumption.
Qed.

Lemma legacy_filters_reassigned_witness :
  split_filter "^orders__items__price" = ("orders", "items__price") /\
  exists doc' tables t,
    upgrade_engine_version 2 3 Samples.shop_v2 = Ok tt doc' /\
    get "tables" doc' = Some (VDict tables) /\
    get "orders" tables = Some (VDict t) /\
    In (VStr "^items__price") (filters_of "excludes" t).
Proof.
  split.
  - exact (proj1 legacy_filters_reassigned "orders" "items__price"
             first_segment_orders).
  - exact (proj2 (proj2 (proj2 legacy_filters_reassigned)) Samples.shop_v2 _ _ _
             eq_refl shop_v2_excludes shop_v2_includes (or_introl eq_refl)).
Defined.

(** C9.  When the requested version differs from the declared one, a call
    returns only a document whose [engine_version] is the requested one;
    and when the chain of steps ends at another version, the call raises
    the no-upgrade-path exception, which carries the name of the schema,
    its [engine_version], the version reached and the version requested
    (the document names itself and its version, as schema documents do). *)
Theorem upgrade_no_path_raises doc from_engine to_engine :
  from_engine <> to_engine ->
  (forall d, upgrade_engine_version from_engine to_engine doc = Ok tt d ->
             get "engine_version" d = Some (VInt to_engine)) /\
  (forall reached d name engine_version,
      migration_chain from_engine to_engine doc = Ok reached d ->
      reached <> to_engine ->
      get "name" d = Some name ->
      get "engine_version" d = Some engine_version ->
      upgrade_engine_version from_engine to_engine doc =
      Raise (SchemaEngineNoUpgradePathException name engine_version
               reached to_engine) d).
Proof.
  intros Hne. split.
  - intros d. now apply upgrade_returns_target.
  - intros reached d name ev Hc Hr Hn Hv.
    rewrite (upgrade_after_chain _ _ _ _ _ Hne Hc), Hn, Hv.
    destruct (reached =? to_engine) eqn:E; [|reflexivity].
    apply Z.eqb_eq in E. contradiction.
Qed.

Lemma upgrade_no_path_raises_witness :
  (forall d, upgrade_engine_version 2 5 Samples.shop_v2 = Ok tt d ->
             get "engine_version" d = Some (VInt 5)) /\
  exists d,
    get "engine_version" d = Some (VInt 3) /\
    upgrade_engine_version 2 5 Samples.shop_v2 =
    Raise (SchemaEngineNoUpgradePathException (VStr "shop") (VInt 3) 3 5) d.
Proof.
  assert (Hne : 2 <> 5) by discriminate.
  split; [exact (proj1 (upgrade_no_path_raises Samples.shop_v2 2 5 Hne))|].
  eexists. split; [|
    refine (proj2 (upgrade_no_path_raises Samples.shop_v2 2 5 Hne) 3 _ _ _ _ _ _ _)];
    [| vm_compute; reflexivity | discriminate | reflexivity | reflexivity].
  reflexivity.
Defined.

(** C10.  A downgrade request on a document that carries [name] and
    [engine_version] raises the no-upgrade-path exception and leaves the
    document as it was: no step of the chain runs. *)
Theorem upgrade_downgrade_unchanged doc from_engine to_engine name engine_version :
  to_engine < from_engine ->
  get "name" doc = Some name ->
  get "engine_version" doc = Some engine_version ->
  migration_chain from_engine to_engine doc = Ok from_engine doc /\
  upgrade_engine_version from_engine to_engine doc =
  Raise (SchemaEngineNoUpgradePathException name engine_version
           from_engine to_engine) doc.
Proof.
  intros Hlt Hn Hv.
  pose proof (migration_chain_downgrade _ _ doc Hlt) as Hc.
  split; [assumption|].
  assert (Hne : from_engine <> to_engine) by lia.
  rewrite (upgrade_after_chain _ _ _ _ _ Hne Hc), Hn, Hv.
  destruct (from_engine =? to_engine) eqn:E; [|reflexivity].
  apply Z.eqb_eq in E. lia.
Qed.

Lemma upgrade_downgrade_unchanged_witness :
  upgrade_engine_version 3 2 Samples.shop_v2 =
  Raise (SchemaEngineNoUpgradePathException (VStr "shop") (VInt 2) 3 2)
    Samples.shop_v2.
Proof.
  exact (proj2 (upgrade_downgrade_unchanged Samples.shop_v2 3 2 _ _
                  eq_refl eq_refl eq_refl)).
Defined.

End MigrationClaims.

(* ===================================================================== *)
(** ** More about the name normaliser *)
(* ===================================================================== *)

Module NameMore.
Import PyStr NameFacts.

(** A result of the normaliser that begins with a digit is, after the
    prefix, left as it is by a further pass. *)
Lemma normalize_prefixed s :
  normalize_schema_name ("s" ++ normalize_schema_name s)
  = ("s" ++ normalize_schema_name s)%string.
Proof.
  unfold normalize_schema_name at 1.
  change (leading_digits ("s" ++ normalize_schema_name s)) with false.
  cbn iota.
  change (strip_non_alnum ("s" ++ ?x)) with (String "s" (strip_non_alnum x)).
  cbn [lower]. change (lower_char "s") with "s"%char.
  unfold normalize_schema_name.
  now rewrite strip_lower_strip, lower_idem.
Qed.

(** X2.  From the second pass on the normaliser changes nothing: a third
    application gives what the second gave, for every name (the first two
    may differ, as they do for ["_1a"]). *)
Theorem normalize_schema_name_settles (name : string) :
  normalize_schema_name
    (normalize_schema_name (normalize_schema_name name))
  = normalize_schema_name (normalize_schema_name name).
Proof.
  rewrite (normalize_twice name).
  destruct (leading_digits (normalize_schema_name name)) eqn:E.
  - apply normalize_prefixed.
  - rewrite normalize_twice. now rewrite E.
Qed.

End NameMore.

(** *** Over Unicode *)

Module UnicodeName.

(** *** The strings of [PyStr] *)

Lemma is_upper_code c : Unicode.is_upper (N_of_ascii c) = PyStr.is_upper c.
Proof. destruct c as [[] [] [] [] [] [] [] []]; reflexivity. Qed.

Lemma is_lower_code c : Unicode.is_lower (N_of_ascii c) = PyStr.is_lower c.
Proof. destruct c as [[] [] [] [] [] [] [] []]; reflexivity. Qed.

Lemma lower_char_code c :
  Unicode.lower_char (N_of_ascii c) = N_of_ascii (PyStr.lower_char c).
Proof. destruct c as [[] [] [] [] [] [] [] []]; reflexivity. Qed.

(** On a name whose code points are below 256 the normaliser is the one
    of the strings of [PyStr], the decimal digits below 256 being 0-9. *)
Lemma normalize_schema_name_codes decimal s :
  (forall c, decimal (N_of_ascii c) = PyStr.is_digit c) ->
  Unicode.normalize_schema_name decimal (Unicode.codes s)
  = Unicode.codes (normalize_schema_name s).
Proof.
  intros Hd.
  assert (Hstrip : forall t,
            Unicode.lower (Unicode.strip_non_alnum decimal (Unicode.codes t))
            = Unicode.codes (PyStr.lower (PyStr.strip_non_alnum t))).
  { induction t as [|c t IH]; [reflexivity|].
    unfold Unicode.codes in *.
    cbn [list_ascii_of_string map Unicode.strip_non_alnum filter
         PyStr.strip_non_alnum].
    unfold Unicode.is_alnum at 1, PyStr.is_alnum.
    rewrite is_lower_code, is_upper_code, Hd.
    destruct (PyStr.is_lower c || PyStr.is_upper c || PyStr.is_digit c)%bool.
    - cbn [Unicode.lower map PyStr.lower list_ascii_of_string].
      rewrite lower_char_code. f_equal. exact IH.
    - exact IH. }
  unfold Unicode.normalize_schema_name, normalize_schema_name.
  destruct s as [|c s].
  - reflexivity.
  - cbn [Unicode.leading_digits Unicode.codes list_ascii_of_string map
         PyStr.leading_digits].
    rewrite Hd. destruct (PyStr.is_digit c).
    + exact (Hstrip ("s" ++ String c s)%string).
    + exact (Hstrip (String c s)).
Qed.

Import Unicode.

Local Open Scope N_scope.

Section Digits.
Variable decimal : N -> bool.

Lemma lower_char_alphabet c :
  is_alnum decimal c = true ->
  is_lower (lower_char c) || decimal (lower_char c) = true.
Proof.
  unfold is_alnum, lower_char. intros H.
  destruct (is_upper c) eqn:Eu.
  - unfold is_upper in Eu. apply andb_true_iff in Eu as [H1 H2].
    apply N.leb_le in H1, H2.
    assert (Hl : is_lower (c + 32) = true).
    { unfold is_lower. apply andb_true_iff. split; apply N.leb_le; lia. }
    now rewrite Hl.
  - now rewrite orb_false_r in H.
Qed.

Lemma lower_strip_alphabet s :
  Forall (fun c => is_lower c || decimal c = true)
         (lower (strip_non_alnum decimal s)).
Proof.
  unfold lower, strip_non_alnum. apply Forall_map, Forall_forall.
  intros c Hc. apply filter_In in Hc as [_ Hc]. now apply lower_char_alphabet.
Qed.

Lemma length_lower_strip s :
  (List.length (lower (strip_non_alnum decimal s)) <= List.length s)%nat.
Proof.
  unfold lower, strip_non_alnum. rewrite length_map. apply filter_length_le.
Qed.

End Digits.


End UnicodeName.

(* ===================================================================== *)
(** ** More about the coercion *)
(* ===================================================================== *)

From Stdlib Require Import Qround.

Module CoerceMore.
Import Coerce CoerceSpec CoerceFacts.

(** Whether a rational number is an integer can be told. *)
Lemma integer_or_not (q : Q) :
  (q == inject_Z (Qfloor q))%Q \/ (forall z, ~ (q == inject_Z z)%Q).
Proof.
  destruct (Qeq_dec q (inject_Z (Qfloor q))) as [H | H]; [now left | right].
  intros z Hz. apply H.
  rewrite (Qfloor_comp _ _ Hz), Qfloor_Z. exact Hz.
Qed.

(** X3.  [coerce_type] has a branch exactly for the supported pairs of a
    target and a source type.  For every other pair it raises
    [ValueError], whatever the value and whatever its collaborators do:
    nothing is coerced to [bool] or to [complex] from another type, and a
    [wei] is not coerced to [bigint] although a [bigint] is coerced to
    [wei].  For every supported pair there are a value and collaborators
    with which it returns. *)
Theorem coerce_type_supported_pairs (ctx : context) (to_type from_type : TDataType) :
  (supported to_type from_type = false ->
   forall ext value,
     coerce_type ctx ext to_type from_type value = inl ValueError) /\
  (supported to_type from_type = true ->
   exists ext value r,
     coerce_type ctx ext to_type from_type value = inr r) /\
  supported dt_bigint dt_wei = false /\
  supported dt_wei dt_bigint = true.
Proof.
  repeat split.
  - intros H ext value.
    destruct to_type, from_type; try discriminate H; try reflexivity;
      destruct value; reflexivity.
  - intros H.
    pose (ext := {| json_dumps := fun v => inr v;
                    py_str := fun v => inr v;
                    format_with := fun v _ => inr v;
                    strip := fun s => s;
                    bytes_fromhex := fun _ => inr (PBytes []);
                    b64decode := fun _ => inr (PBytes []);
                    int_to_bytes := fun _ => inr (PBytes []);
                    int_of := fun _ => inr (PInt 0);
                    int_of_text := fun _ _ => inr (PInt 0);
                    float_of := fun v => inr v;
                    decimal_of := fun v => inr v;
                    from_timestamp := fun v => inr v;
                    isoparse := fun _ => inr (PStr "") |}).
    destruct to_type, from_type; try discriminate H;
      first [ exists ext, (PStr ""); eexists; reflexivity
            | exists ext, (PInt 0); eexists; reflexivity ].
Qed.

(** X4.  With the target [decimal] a text that has a [0x] prefix, or
    neither a [.] nor an [e], is read as an integer literal: the call
    gives what the same text gives with the target [bigint], the same
    integer or the same exception, and no [Decimal] is built. *)
Theorem coerce_text_integer_literal (ctx : context) (ext : collaborators) (s : string) :
  integer_literal (strip ext s) = true ->
  coerce_type ctx ext dt_decimal dt_text (PStr s)
  = coerce_type ctx ext dt_bigint dt_text (PStr s).
Proof.
  unfold integer_literal. intros H.
  cbn [coerce_type TDataType_eqb]. unfold int_of_trimmed.
  destruct (PyStr.startswith "0x" (strip ext s)); [reflexivity|].
  cbn [orb] in H. now rewrite H.
Qed.

Lemma coerce_text_integer_literal_witness :
  integer_literal (strip Samples.no_collaborators "0x1f") = true /\
  coerce_type default_context Samples.no_collaborators dt_decimal dt_text (PStr "0x1f")
  = coerce_type default_context Samples.no_collaborators dt_bigint dt_text (PStr "0x1f").
Proof.
  split; [reflexivity|].
  apply (coerce_text_integer_literal default_context Samples.no_collaborators "0x1f").
  reflexivity.
Defined.

(** X5.  A [double] is coerced to [bigint] or [wei] exactly when it is a
    finite number without a fractional part, and the integer returned is
    then the number itself; every other [double], the infinities and the
    NaN included, ends the call with [ValueError] and with no other
    exception. *)
Theorem coerce_double_exact (ctx : context) (ext : collaborators)
    (to_type : TDataType) (f : spec_float) :
  to_type = dt_bigint \/ to_type = dt_wei ->
  (forall z,
     coerce_type ctx ext to_type dt_double (PFloat f) = inr (PInt z) <->
     exists q, float_value f = Some q /\ (q == inject_Z z)%Q) /\
  ((exists z, coerce_type ctx ext to_type dt_double (PFloat f) = inr (PInt z)) \/
   coerce_type ctx ext to_type dt_double (PFloat f) = inl ValueError).
Proof.
  intros Hto.
  pose proof (coerce_double_to_integer ctx ext to_type f Hto) as H.
  destruct (float_value f) as [q|] eqn:Hq.
  - destruct H as [Hint Hfrac].
    destruct (integer_or_not q) as [Hz | Hno].
    + pose proof (Hint _ Hz) as Hr. split.
      * intros z. split.
        -- intros Hc. rewrite Hr in Hc. injection Hc as <-.
           exists q. now split.
        -- intros (q' & [= <-] & Hq'). now apply Hint.
      * left. eexists. exact Hr.
    + pose proof (Hfrac Hno) as Hr. split.
      * intros z. split.
        -- intros Hc. rewrite Hr in Hc. discriminate.
        -- intros (q' & [= <-] & Hq'). now destruct (Hno z).
      * now right.
  - split.
    + intros z. split.
      * intros Hc. rewrite H in Hc. discriminate.
      * intros (q' & [=] & _).
    + now right.
Qed.

Lemma coerce_double_exact_witness :
  (dt_bigint = dt_bigint \/ dt_bigint = dt_wei) /\
  (coerce_type default_context Samples.no_collaborators dt_bigint dt_double
     (PFloat (S754_finite false 1 1)) = inr (PInt 2) <->
   exists q, float_value (S754_finite false 1 1) = Some q /\ (q == inject_Z 2)%Q).
Proof.
  split; [now left|].
  apply (coerce_double_exact default_context Samples.no_collaborators dt_bigint
           (S754_finite false 1 1)).
  now left.
Defined.





End CoerceMore.

(* ===================================================================== *)
(** ** The column type of a Python class *)
(* ===================================================================== *)

Module PyTypeMore.
Import Coerce PyType.

Lemma class_id_eqb_eq a b : class_id_eqb a b = true <-> a = b.
Proof.
  split.
  - destruct a, b; simpl; try discriminate; try reflexivity.
    intros H. apply Nat.eqb_eq in H. now subst.
  - intros <-. destruct a; simpl; try reflexivity. apply Nat.eqb_refl.
Qed.

Lemma is_class c k : is_ c k = true <-> ident c = k.
Proof. apply class_id_eqb_eq. Qed.

Ltac branches :=
  repeat match goal with
         | |- context [if ?b then _ else _] => destruct b eqn:?
         end.

(** X7.  [float], [int] and [bool] are recognised by identity, not by
    descent: the result is [double], [bigint] or [bool] for these three
    classes themselves and for no other class, so a class of the program
    that derives from [int] is a [text], while [bool], which derives from
    [int] too, is a [bool].  The column type of a class is never [wei]. *)
Theorem py_type_to_sc_type_by_identity (c : class) :
  (py_type_to_sc_type c = dt_double <-> ident c = c_float) /\
  (py_type_to_sc_type c = dt_bigint <-> ident c = c_int) /\
  (py_type_to_sc_type c = dt_bool <-> ident c = c_bool) /\
  py_type_to_sc_type c <> dt_wei /\
  (forall n, py_type_to_sc_type (int_subclass n) = dt_text) /\
  py_type_to_sc_type bool_class = dt_bool.
Proof.
  assert (Hf := is_class c c_float).
  assert (Hi := is_class c c_int).
  assert (Hb := is_class c c_bool).
  unfold py_type_to_sc_type.
  destruct (is_ c c_float) eqn:Ef.
  { assert (E : ident c = c_float) by now apply Hf.
    repeat split; try (intros; congruence); try reflexivity. }
  destruct (is_ c c_int) eqn:Ei.
  { assert (E : ident c = c_int) by now apply Hi.
    repeat split; try (intros; congruence); try reflexivity. }
  destruct (is_ c c_bool) eqn:Eb.
  { assert (E : ident c = c_bool) by now apply Hb.
    repeat split; try (intros; congruence); try reflexivity. }
  assert (Nf : ident c <> c_float) by (intros E; apply Hf in E; congruence).
  assert (Ni : ident c <> c_int) by (intros E; apply Hi in E; congruence).
  assert (Nb : ident c <> c_bool) by (intros E; apply Hb in E; congruence).
  repeat split; try (intros; congruence); try reflexivity;
    branches; discriminate.
Qed.

End PyTypeMore.

(* ===================================================================== *)
(** ** Comparing columns, and the tables that [new_table] builds *)
(* ===================================================================== *)

Module ColumnMore.
Import PyDict PyDictFacts Doc Column.

(** *** [==] on scalars *)

Lemma py_eq_scalar_refl v : scalar v -> py_eq v v = true.
Proof.
  destruct v as [|b|n|s|l|d]; simpl; try tauto; intros _.
  - now destruct b.
  - apply Z.eqb_refl.
  - apply String.eqb_refl.
Qed.

Lemma py_eq_scalar_sym u v : scalar u -> scalar v -> py_eq u v = py_eq v u.
Proof.
  destruct u as [|b|n|s|l|d], v as [|b'|n'|s'|l'|d']; simpl; try tauto;
    intros _ _; try reflexivity.
  - now destruct b, b'.
  - apply Z.eqb_sym.
  - apply Z.eqb_sym.
  - apply Z.eqb_sym.
  - apply String.eqb_sym.
Qed.

Lemma py_eq_scalar_trans u v w :
  scalar u -> scalar v -> scalar w ->
  py_eq u v = true -> py_eq v w = true -> py_eq u w = true.
Proof.
  destruct u as [|b|n|s|l|d], v as [|b'|n'|s'|l'|d'], w as [|b''|n''|s''|l''|d''];
    simpl; try tauto; intros _ _ _; try discriminate; try reflexivity;
    repeat match goal with x : bool |- _ => destruct x end;
    cbn [Bool.eqb]; cbn iota; rewrite ?Z.eqb_eq, ?String.eqb_eq;
    try congruence; lia.
Qed.

(** *** [compare_columns] *)

Lemma compare_typed d t n d' t' n' :
  get "data_type" d = Some t -> get "nullable" d = Some n ->
  get "data_type" d' = Some t' -> get "nullable" d' = Some n' ->
  compare_columns (VDict d) (VDict d') = inr (py_eq t t' && py_eq n n').
Proof.
  intros H1 H2 H3 H4. unfold compare_columns, subscript.
  rewrite H1, H3, H2, H4. now destruct (py_eq t t').
Qed.

Lemma get_expanded k d :
  NoDup (keys d) -> get k hint_defaults = None ->
  get k (merge hint_defaults d) = get k d.
Proof.
  intros Hnd Hk. rewrite (HintFacts.get_merge k hint_defaults d Hnd), Hk.
  now destruct (get k d).
Qed.

Lemma compare_dicts d d' e e' :
  get "data_type" e = get "data_type" d ->
  get "nullable" e = get "nullable" d ->
  get "data_type" e' = get "data_type" d' ->
  get "nullable" e' = get "nullable" d' ->
  compare_columns (VDict e) (VDict e') = compare_columns (VDict d) (VDict d').
Proof.
  intros H1 H2 H3 H4. unfold compare_columns, subscript.
  now rewrite H1, H2, H3, H4.
Qed.

(** X8.  [compare_columns] does not look at the hints: for columns with
    distinct keys, expanding either column or both with
    [add_missing_hints] leaves the comparison as it is, its value or its
    exception. *)
Theorem compare_columns_ignores_hints (da db : dict value) :
  NoDup (keys da) -> NoDup (keys db) ->
  exists a' b',
    add_missing_hints (VDict da) = inr a' /\
    add_missing_hints (VDict db) = inr b' /\
    compare_columns a' b' = compare_columns (VDict da) (VDict db) /\
    compare_columns a' (VDict db) = compare_columns (VDict da) (VDict db) /\
    compare_columns (VDict da) b' = compare_columns (VDict da) (VDict db).
Proof.
  intros Ha Hb. do 2 eexists. do 2 (split; [reflexivity|]).
  repeat split; apply compare_dicts;
    try reflexivity; now apply get_expanded.
Qed.

Lemma compare_columns_ignores_hints_witness :
  exists a' b',
    add_missing_hints (VDict [("data_type", VStr "text"); ("nullable", VBool true)])
      = inr a' /\
    add_missing_hints
      (VDict [("data_type", VStr "text"); ("nullable", VBool false);
              ("unique", VBool true)]) = inr b' /\
    compare_columns a' b' = inr false.
Proof.
  destruct (compare_columns_ignores_hints
              [("data_type", VStr "text"); ("nullable", VBool true)]
              [("data_type", VStr "text"); ("nullable", VBool false);
               ("unique", VBool true)])
    as (a' & b' & Ha & Hb & H & _).
  - repeat constructor; simpl; intuition discriminate.
  - repeat constructor; simpl; intuition discriminate.
  - exists a', b'. repeat split; [exact Ha | exact Hb |].
    rewrite H. reflexivity.
Defined.

(** *** [==] on scalars that may be floats *)

Lemma Qeq_bool_sym p q : Qeq_bool p q = Qeq_bool q p.
Proof.
  destruct (Qeq_bool p q) eqn:E, (Qeq_bool q p) eqn:E'; try reflexivity.
  - apply Qeq_bool_iff in E. symmetry in E. apply Qeq_bool_iff in E. congruence.
  - apply Qeq_bool_iff in E'. symmetry in E'. apply Qeq_bool_iff in E'. congruence.
Qed.

Lemma Qeq_bool_inject_Z m n : Qeq_bool (inject_Z m) (inject_Z n) = (m =? n).
Proof.
  destruct (m =? n) eqn:E.
  - apply Z.eqb_eq in E. subst. apply Qeq_bool_iff. reflexivity.
  - apply Z.eqb_neq in E. destruct (Qeq_bool _ _) eqn:E'; [|reflexivity].
    apply Qeq_bool_iff in E'. apply (proj1 (inject_Z_injective m n)) in E'.
    contradiction.
Qed.

Lemma number_eq_sym x y :
  WithFloats.number_eq x y = WithFloats.number_eq y x.
Proof.
  destruct x as [|s|p], y as [|t|q]; simpl; try reflexivity.
  - now destruct s, t.
  - apply Qeq_bool_sym.
Qed.

Lemma number_eq_trans x y z :
  WithFloats.number_eq x y = true -> WithFloats.number_eq y z = true ->
  WithFloats.number_eq x z = true.
Proof.
  destruct x as [|s|p], y as [|t|q], z as [|u|r]; simpl; try discriminate.
  - destruct s, t, u; simpl; congruence.
  - intros H1 H2. apply Qeq_bool_iff in H1, H2. apply Qeq_bool_iff.
    now rewrite H1.
Qed.

Lemma number_eq_refl x :
  WithFloats.number_eq x x = match x with WithFloats.NNaN => false | _ => true end.
Proof.
  destruct x as [|s|p]; simpl; [reflexivity | now destruct s |].
  apply Qeq_bool_iff. reflexivity.
Qed.

(** Two scalars of which one is a number are equal when both are numbers,
    and these are equal; two scalars that are no numbers are compared as
    values of a document. *)
Lemma entry_eq_scalar a b :
  WithFloats.scalar_entry a -> WithFloats.scalar_entry b ->
  WithFloats.entry_eq a b =
  match WithFloats.number_of a, WithFloats.number_of b with
  | Some x, Some y => WithFloats.number_eq x y
  | None, None =>
      match a, b with
      | WithFloats.EVal u, WithFloats.EVal v => py_eq u v
      | _, _ => false
      end
  | _, _ => false
  end.
Proof.
  destruct a as [[|x|m|s|l|d]|f], b as [[|y|n|t|l'|d']|g]; simpl;
    try tauto; intros _ _; try reflexivity.
  - now destruct x, y.
  - now rewrite Qeq_bool_inject_Z.
  - now rewrite Qeq_bool_inject_Z.
  - now rewrite Qeq_bool_inject_Z.
Qed.

Lemma number_of_None a :
  WithFloats.scalar_entry a -> WithFloats.number_of a = None ->
  exists u, a = WithFloats.EVal u /\ scalar u.
Proof.
  destruct a as [u|f]; simpl; [|discriminate]. intros Hs _. now exists u.
Qed.

Lemma entry_eq_sym a b :
  WithFloats.scalar_entry a -> WithFloats.scalar_entry b ->
  WithFloats.entry_eq a b = WithFloats.entry_eq b a.
Proof.
  intros Ha Hb. rewrite (entry_eq_scalar a b Ha Hb), (entry_eq_scalar b a Hb Ha).
  destruct (WithFloats.number_of a) as [x|] eqn:Ea,
           (WithFloats.number_of b) as [y|] eqn:Eb; try reflexivity.
  - apply number_eq_sym.
  - destruct (number_of_None a Ha Ea) as (u & -> & Hu).
    destruct (number_of_None b Hb Eb) as (v & -> & Hv).
    now apply py_eq_scalar_sym.
Qed.

Lemma entry_eq_trans a b c :
  WithFloats.scalar_entry a -> WithFloats.scalar_entry b ->
  WithFloats.scalar_entry c ->
  WithFloats.entry_eq a b = true -> WithFloats.entry_eq b c = true ->
  WithFloats.entry_eq a c = true.
Proof.
  intros Ha Hb Hc.
  rewrite (entry_eq_scalar a b Ha Hb), (entry_eq_scalar b c Hb Hc),
    (entry_eq_scalar a c Ha Hc).
  destruct (WithFloats.number_of a) as [x|] eqn:Ea,
           (WithFloats.number_of b) as [y|] eqn:Eb,
           (WithFloats.number_of c) as [z|] eqn:Ec; try discriminate.
  - apply number_eq_trans.
  - destruct (number_of_None a Ha Ea) as (u & -> & Hu).
    destruct (number_of_None b Hb Eb) as (v & -> & Hv).
    destruct (number_of_None c Hc Ec) as (w & -> & Hw).
    now apply py_eq_scalar_trans.
Qed.

Lemma entry_eq_refl a :
  WithFloats.scalar_entry a ->
  WithFloats.entry_eq a a = negb (WithFloats.is_nan a).
Proof.
  intros Ha. destruct a as [u|f].
  - simpl. now apply py_eq_scalar_refl.
  - rewrite (entry_eq_scalar _ _ Ha Ha). cbn [WithFloats.number_of].
    rewrite number_eq_refl. now destruct f.
Qed.

Lemma compare_entries d t n d' t' n' :
  get "data_type" d = Some t -> get "nullable" d = Some n ->
  get "data_type" d' = Some t' -> get "nullable" d' = Some n' ->
  WithFloats.compare_columns d d'
  = inr (WithFloats.entry_eq t t' && WithFloats.entry_eq n n').
Proof.
  intros H1 H2 H3 H4. unfold WithFloats.compare_columns, WithFloats.subscript.
  rewrite H1, H3, H2, H4. now destruct (WithFloats.entry_eq t t').
Qed.

Lemma get_of_doc k d :
  get k (WithFloats.of_doc d) = option_map WithFloats.EVal (get k d).
Proof.
  induction d as [|[k' v] d IH]; simpl; [reflexivity|].
  now destruct (String.eqb k k').
Qed.

(** X9.  On columns that carry a [data_type] and a [nullable] that are
    scalars, floats included, [compare_columns] returns, the order of its
    arguments does not matter, and two columns equal to a third are equal
    to each other; but a column compares equal to itself only when
    neither entry is a NaN.  On columns without floats it is the
    comparison of the columns as trees. *)
Theorem compare_columns_equivalence (a b c : dict WithFloats.entry)
    (ta na tb nb tc nc : WithFloats.entry) :
  WithFloats.typed_column a ta na ->
  WithFloats.typed_column b tb nb ->
  WithFloats.typed_column c tc nc ->
  (exists r, WithFloats.compare_columns a b = inr r /\
             WithFloats.compare_columns b a = inr r) /\
  (WithFloats.compare_columns a b = inr true ->
   WithFloats.compare_columns b c = inr true ->
   WithFloats.compare_columns a c = inr true) /\
  (WithFloats.compare_columns a a = inr true <->
   WithFloats.is_nan ta = false /\ WithFloats.is_nan na = false) /\
  (forall d d' : dict value,
     WithFloats.compare_columns (WithFloats.of_doc d) (WithFloats.of_doc d')
     = compare_columns (VDict d) (VDict d')).
Proof.
  intros (Hta & Hna & Sta & Sna) (Htb & Hnb & Stb & Snb) (Htc & Hnc & Stc & Snc).
  rewrite (compare_entries _ _ _ _ _ _ Hta Hna Hta Hna).
  rewrite (compare_entries _ _ _ _ _ _ Hta Hna Htb Hnb).
  rewrite (compare_entries _ _ _ _ _ _ Htb Hnb Hta Hna).
  rewrite (compare_entries _ _ _ _ _ _ Htb Hnb Htc Hnc).
  rewrite (compare_entries _ _ _ _ _ _ Hta Hna Htc Hnc).
  split; [|split; [|split]].
  - eexists. split; [reflexivity|].
    now rewrite (entry_eq_sym tb ta), (entry_eq_sym nb na).
  - intros [= H1] [= H2].
    apply andb_true_iff in H1 as [H1 H1'], H2 as [H2 H2'].
    now rewrite (entry_eq_trans ta tb tc), (entry_eq_trans na nb nc).
  - rewrite (entry_eq_refl ta Sta), (entry_eq_refl na Sna). split.
    + intros [= H]. apply andb_true_iff in H as [H1 H2].
      now apply negb_true_iff in H1, H2.
    + intros [-> ->]. reflexivity.
  - intros d d'. unfold WithFloats.compare_columns, WithFloats.subscript,
      compare_columns, subscript.
    rewrite !get_of_doc.
    destruct (get "data_type" d) as [t|]; [|reflexivity].
    destruct (get "data_type" d') as [t'|]; [|reflexivity]. simpl.
    destruct (py_eq t t'); [|reflexivity].
    destruct (get "nullable" d) as [n|]; [|reflexivity].
    destruct (get "nullable" d') as [n'|]; reflexivity.
Qed.

Lemma compare_columns_equivalence_witness :
  WithFloats.compare_columns
    [("data_type", WithFloats.EFloat S754_nan);
     ("nullable", WithFloats.EVal (VBool false))]
    [("data_type", WithFloats.EFloat S754_nan);
     ("nullable", WithFloats.EVal (VBool false))]
  <> inr true.
Proof.
  assert (T : WithFloats.typed_column
                [("data_type", WithFloats.EFloat S754_nan);
                 ("nullable", WithFloats.EVal (VBool false))]
                (WithFloats.EFloat S754_nan) (WithFloats.EVal (VBool false))).
  { repeat split; reflexivity. }
  intros H.
  destruct (proj1 (proj1 (proj2 (proj2 (compare_columns_equivalence _ _ _ _ _ _ _ _ _
                                           T T T)))) H) as [Hnan _].
  discriminate Hnan.
Defined.

(** *** [new_table] *)

Lemma find_snoc {A} (p : A -> bool) l x :
  find p (l ++ [x])%list
  = match find p l with
    | Some y => Some y
    | None => if p x then Some x else None
    end.
Proof.
  induction l as [|a l IH]; simpl; [reflexivity|].
  now destruct (p a).
Qed.

(** The comprehension [{c["name"]: c for c in columns}] on columns that
    have names: the last column of a name is the one kept. *)
Lemma columns_by_name_named cs : forall acc,
  Forall (fun c => name_of c <> None) cs ->
  exists cols,
    columns_by_name cs acc = inr cols /\
    forall n, get n cols = match find (named n) (rev cs) with
                           | Some c => Some c
                           | None => get n acc
                           end.
Proof.
  induction cs as [|c cs IH]; intros acc Hall.
  - exists acc. split; reflexivity.
  - inversion Hall as [|? ? Hc Hcs]; subst.
    destruct c as [| | | | |d]; try (now destruct Hc).
    unfold name_of in Hc. simpl.
    destruct (get "name" d) as [[| | |m| |]|] eqn:Hn; try (now destruct Hc).
    destruct (IH (set m (VDict d) acc) Hcs) as (cols & Hcols & Hget).
    exists cols. split; [exact Hcols|].
    intros n. rewrite Hget, find_snoc.
    destruct (find (named n) (rev cs)); [reflexivity|].
    unfold named, name_of. rewrite Hn.
    destruct (String.eqb n m) eqn:E.
    + apply String.eqb_eq in E. subst m. apply get_set_eq.
    + apply String.eqb_neq in E. apply get_set_ne. congruence.
Qed.

Lemma columns_by_name_unnamed pre d rest : forall acc,
  Forall (fun c => name_of c <> None) pre ->
  get "name" d = None ->
  columns_by_name (pre ++ VDict d :: rest) acc = inl (KeyError "name").
Proof.
  induction pre as [|c pre IH]; intros acc Hall Hd.
  - simpl. now rewrite Hd.
  - inversion Hall as [|? ? Hc Hpre]; subst.
    destruct c as [| | | | |d']; try (now destruct Hc).
    unfold name_of in Hc. simpl.
    destruct (get "name" d') as [[| | |m| |]|] eqn:Hn; try (now destruct Hc).
    now apply IH.
Qed.

(** X10.  A table made by [new_table] has its name, a mapping of columns,
    and either a parent or a write disposition, never both: a parent name
    that is not empty makes a child table with no write disposition, no
    parent name or the empty one makes a root table that appends. *)
Theorem new_table_child_or_root (table_name : string)
    (parent_name : option string) (columns : option (list value))
    (t : dict value) :
  new_table table_name parent_name columns = inr t ->
  get "name" t = Some (VStr table_name) /\
  (exists cols, get "columns" t = Some (VDict cols)) /\
  keys t = ["name"; "columns";
            match get "parent" t with
            | Some _ => "parent"
            | None => "write_disposition"
            end] /\
  match parent_name with
  | Some (String a p) =>
      get "parent" t = Some (VStr (String a p)) /\
      get "write_disposition" t = None
  | Some EmptyString | None =>
      get "parent" t = None /\
      get "write_disposition" t = Some (VStr "append")
  end.
Proof.
  unfold new_table.
  destruct (match columns with
            | Some cs => columns_by_name cs []
            | None => inr []
            end) as [e|cols]; [discriminate|].
  intros [= <-].
  destruct parent_name as [[|a p]|]; simpl; repeat split; eexists; reflexivity.
Qed.

Lemma new_table_child_or_root_witness :
  exists t,
    new_table "orders__items" (Some "orders") None = inr t /\
    get "parent" t = Some (VStr "orders") /\
    get "write_disposition" t = None.
Proof.
  eexists. split; [reflexivity|].
  exact (proj2 (proj2 (proj2
    (new_table_child_or_root "orders__items" (Some "orders") None _ eq_refl)))).
Defined.

(** X11.  [new_table] keys the columns it is given by their names: when
    every column has a name, the table is built, a name is a key of its
    mapping of columns exactly when a column has it, and the column under
    the name is the last one of that name in the sequence, an earlier one
    of the same name being dropped.  A column without a name, after
    columns that have one, ends the call with [KeyError]. *)
Theorem new_table_columns_by_name (table_name : string)
    (parent_name : option string) (cs : list value) :
  (Forall (fun c => name_of c <> None) cs ->
   exists t cols,
     new_table table_name parent_name (Some cs) = inr t /\
     get "columns" t = Some (VDict cols) /\
     forall n, get n cols = find (named n) (rev cs)) /\
  (forall pre d rest,
     cs = (pre ++ VDict d :: rest)%list ->
     Forall (fun c => name_of c <> None) pre ->
     get "name" d = None ->
     new_table table_name parent_name (Some cs) = inl (KeyError "name")).
Proof.
  split.
  - intros Hall.
    destruct (columns_by_name_named cs [] Hall) as (cols & Hcols & Hget).
    unfold new_table. rewrite Hcols.
    eexists. exists cols. split; [reflexivity|]. split.
    + destruct parent_name as [[|a p]|]; reflexivity.
    + intros n. rewrite Hget. now destruct (find (named n) (rev cs)).
  - intros pre d rest -> Hall Hd. unfold new_table.
    now rewrite (columns_by_name_unnamed pre d rest [] Hall Hd).
Qed.

End ColumnMore.

(* ===================================================================== *)
(** ** More about [upgrade_engine_version] *)
(* ===================================================================== *)

Module UpgradeMore.
Import PyDict PyDictFacts PyMonad PyMonadFacts Spec Doc UpgradeSpec.
Import MigrateFacts UpgradeFacts.

(** The 2 -> 3 step runs when, and only when, the chain stands at version
    2 and the target is beyond it. *)
Lemma guard_1_2 from_engine to_engine :
  (from_engine =? 1) && (to_engine >? 1) = true <->
  from_engine = 1 /\ 1 < to_engine.
Proof. rewrite andb_true_iff, Z.eqb_eq, Z.gtb_ltb, Z.ltb_lt. tauto. Qed.

Lemma guard_2_3 from_engine to_engine :
  (from_engine =? 2) && (to_engine >? 2) = true <->
  from_engine = 2 /\ 2 < to_engine.
Proof. rewrite andb_true_iff, Z.eqb_eq, Z.gtb_ltb, Z.ltb_lt. tauto. Qed.

(** The version that the chain reaches: the one it began with when no step
    ran, else 2 or 3, and never one beyond the target. *)
Lemma migration_chain_reached from_engine to_engine doc reached d :
  migration_chain from_engine to_engine doc = Ok reached d ->
  (reached = from_engine /\ d = doc /\ from_engine <> 1 /\
   (from_engine <> 2 \/ to_engine <= 2)) \/
  (reached = from_engine /\ d = doc /\ from_engine = 1 /\ to_engine <= 1) \/
  (from_engine = 1 /\ reached = 2 /\ to_engine = 2) \/
  (from_engine = 1 /\ reached = 3 /\ 2 < to_engine) \/
  (from_engine = 2 /\ reached = 3 /\ 2 < to_engine).
Proof.
  unfold migration_chain. intros H.
  apply bind_Ok_inv in H. destruct H as (r1 & d1 & H1 & H).
  apply bind_Ok_inv in H. destruct H as (r2 & d2 & H2 & H).
  unfold ret in H. injection H as <- <-.
  destruct ((from_engine =? 1) && (to_engine >? 1)) eqn:G1.
  - apply guard_1_2 in G1 as [-> G1].
    cbv [step_1_2 bind setitem ret] in H1. injection H1 as <- <-.
    destruct ((2 =? 2) && (to_engine >? 2)) eqn:G2.
    + apply guard_2_3 in G2 as [_ G2].
      apply bind_Ok_inv in H2. destruct H2 as ([] & d3 & _ & H).
      unfold ret in H. injection H as <- <-. right. right. right. left. lia.
    + unfold ret in H2. injection H2 as <- <-.
      assert (~ (2 = 2 /\ 2 < to_engine))
        by (rewrite <- guard_2_3; congruence).
      right. right. left. lia.
  - unfold ret in H1. injection H1 as <- <-.
    assert (N1 : ~ (from_engine = 1 /\ 1 < to_engine))
      by (rewrite <- guard_1_2; congruence).
    destruct ((from_engine =? 2) && (to_engine >? 2)) eqn:G2.
    + apply guard_2_3 in G2 as [-> G2].
      apply bind_Ok_inv in H2. destruct H2 as ([] & d3 & _ & H).
      unfold ret in H. injection H as <- <-. right. right. right. right. lia.
    + unfold ret in H2. injection H2 as <- <-.
      assert (N2 : ~ (from_engine = 2 /\ 2 < to_engine))
        by (rewrite <- guard_2_3; congruence).
      destruct (Z.eq_dec from_engine 1) as [E|E].
      * right. left. repeat split; try assumption; lia.
      * left. repeat split; try assumption; lia.
Qed.

Lemma upgrade_Ok_chain from_engine to_engine doc d :
  from_engine <> to_engine ->
  upgrade_engine_version from_engine to_engine doc = Ok tt d ->
  migration_chain from_engine to_engine doc = Ok to_engine d.
Proof.
  intros Hne H.
  destruct (migration_chain from_engine to_engine doc) as [reached d1|e d1|] eqn:Hc.
  - rewrite (upgrade_after_chain _ _ _ _ _ Hne Hc) in H.
    destruct (reached =? to_engine) eqn:E.
    + apply Z.eqb_eq in E. injection H as <-. now subst.
    + destruct (get "name" d1); [|discriminate].
      destruct (get "engine_version" d1); discriminate.
  - unfold upgrade_engine_version in H.
    destruct (from_engine =? to_engine) eqn:E; [apply Z.eqb_eq in E; contradiction|].
    rewrite (bind_Raise _ _ _ _ _ Hc) in H. discriminate.
  - unfold upgrade_engine_version, bind in H.
    destruct (from_engine =? to_engine) eqn:E; [apply Z.eqb_eq in E; contradiction|].
    rewrite Hc in H. discriminate.
Qed.

(** X12.  The upgrade paths are 1 to 2, 1 to 3 and 2 to 3 and no other:
    whatever the document, a call that returns was made with equal
    versions, or along one of these three paths.  In particular no call
    reaches a version beyond 3, and none leaves version 3 or starts from a
    version below 1. *)
Theorem upgrade_paths (doc d : document) (from_engine to_engine : Z) :
  upgrade_engine_version from_engine to_engine doc = Ok tt d ->
  from_engine = to_engine \/
  (from_engine = 1 /\ to_engine = 2) \/
  (from_engine = 1 /\ to_engine = 3) \/
  (from_engine = 2 /\ to_engine = 3).
Proof.
  intros H. destruct (Z.eq_dec from_engine to_engine) as [E|E]; [now left|].
  right. apply (upgrade_Ok_chain _ _ _ _ E) in H.
  apply migration_chain_reached in H. lia.
Qed.

Lemma upgrade_paths_witness :
  exists d,
    upgrade_engine_version 1 3 Samples.shop_v1 = Ok tt d /\
    (1 = 3 \/ (1 = 1 /\ 3 = 2) \/ (1 = 1 /\ 3 = 3) \/ (1 = 2 /\ 3 = 3)).
Proof.
  eexists. split; [reflexivity|].
  eapply (upgrade_paths Samples.shop_v1 _ 1 3). reflexivity.
Defined.

(** X13.  A version other than 1 and 2 has no migration step: asked to
    take a document that has a name and an engine version from such a
    version to another one, above or below, the call raises the
    no-upgrade-path exception with the version it was given as the
    version reached, and the document is as it was handed over. *)
Theorem upgrade_from_unknown_version (doc : document)
    (from_engine to_engine : Z) (name engine_version : value) :
  from_engine <> 1 -> from_engine <> 2 -> from_engine <> to_engine ->
  get "name" doc = Some name ->
  get "engine_version" doc = Some engine_version ->
  upgrade_engine_version from_engine to_engine doc
  = Raise (SchemaEngineNoUpgradePathException name engine_version
             from_engine to_engine) doc.
Proof.
  intros N1 N2 Hne Hn Hv.
  assert (Hc : migration_chain from_engine to_engine doc = Ok from_engine doc).
  { unfold migration_chain.
    assert (E1 : (from_engine =? 1) && (to_engine >? 1) = false).
    { apply not_true_is_false. rewrite guard_1_2. tauto. }
    assert (E2 : (from_engine =? 2) && (to_engine >? 2) = false).
    { apply not_true_is_false. rewrite guard_2_3. tauto. }
    rewrite E1. unfold bind at 1, ret at 1. now rewrite E2. }
  rewrite (upgrade_after_chain _ _ _ _ _ Hne Hc).
  assert (E : (from_engine =? to_engine) = false) by now apply Z.eqb_neq.
  now rewrite E, Hn, Hv.
Qed.

Lemma upgrade_from_unknown_version_witness :
  upgrade_engine_version 3 4
    [("name", VStr "shop"); ("engine_version", VInt 3); ("tables", VDict [])]
  = Raise (SchemaEngineNoUpgradePathException (VStr "shop") (VInt 3) 3 4)
      [("name", VStr "shop"); ("engine_version", VInt 3); ("tables", VDict [])].
Proof.
  apply (upgrade_from_unknown_version
           [("name", VStr "shop"); ("engine_version", VInt 3);
            ("tables", VDict [])] 3 4 (VStr "shop") (VInt 3));
    solve [discriminate | reflexivity].
Defined.

(** X14.  An upgrade from 1 to 3 in two calls, through version 2, ends as
    the upgrade in one call does: with the same return and the same
    document, or with the same exception and the same half-migrated
    document. *)
Theorem upgrade_composes (doc : document) :
  upgrade_in_two_calls doc = upgrade_engine_version 1 3 doc.
Proof.
  unfold upgrade_in_two_calls.
  assert (H12 : upgrade_engine_version 1 2 doc
                = Ok tt (set "excludes" (VList [])
                           (set "includes" (VList [])
                              (set "engine_version" (VInt 2) doc))))
    by reflexivity.
  rewrite (bind_Ok _ _ _ _ _ H12).
  unfold upgrade_engine_version, migration_chain.
  unfold bind, ret. cbn -[step_2_3].
  match goal with
  | |- context [step_2_3 ?d] => destruct (step_2_3 d) as [[] d'|e d'|]
  end; reflexivity.
Qed.

Lemma step_2_3_without_tables doc :
  get "tables" doc = None ->
  step_2_3 doc = Raise (KeyError "tables") (half_migrated doc).
Proof.
  intros Ht. unfold step_2_3.
  rewrite bind_setitem, bind_pop_default, bind_pop_default, bind_setitem.
  unfold bind at 1, pop. get_simpl. now rewrite Ht.
Qed.

(** X15.  The 2 -> 3 step is not undone when it fails.  On a document
    without [tables] the call raises [KeyError] and leaves the document
    half migrated: the normalizers and the settings are in, the legacy
    [hints] and [preferred_types] are gone, and the engine version is
    still the old one. *)
Theorem upgrade_without_tables (doc : document) :
  get "tables" doc = None ->
  upgrade_engine_version 2 3 doc
  = Raise (KeyError "tables") (half_migrated doc) /\
  get "normalizers" (half_migrated doc) = Some default_normalizers /\
  get "settings" (half_migrated doc)
  = Some (VDict [("default_hints", moved "hints" doc);
                 ("preferred_types", moved "preferred_types" doc)]) /\
  get "hints" (half_migrated doc) = None /\
  get "preferred_types" (half_migrated doc) = None /\
  get "engine_version" (half_migrated doc) = get "engine_version" doc.
Proof.
  intros Ht. split.
  - unfold upgrade_engine_version, migration_chain.
    unfold bind, ret. cbn -[step_2_3].
    now rewrite (step_2_3_without_tables doc Ht).
  - unfold half_migrated. repeat split; get_simpl; reflexivity.
Qed.

Lemma upgrade_without_tables_witness :
  upgrade_engine_version 2 3 [("name", VStr "shop"); ("hints", VDict [])]
  = Raise (KeyError "tables")
      (half_migrated [("name", VStr "shop"); ("hints", VDict [])]).
Proof.
  apply (upgrade_without_tables [("name", VStr "shop"); ("hints", VDict [])]).
  reflexivity.
Defined.

(** *** What the migration keeps of a legacy table *)

Lemma table_entry_repackage_step old_tables n k v ts item :
  fst item <> n ->
  table_entry n k ts = v ->
  table_entry n k (repackage_step old_tables ts item) = v.
Proof.
  intros Hne H. unfold table_entry, repackage_step.
  now rewrite get_set_ne.
Qed.

Lemma table_entry_repackage_fold old_tables n k v items : forall ts,
  ~ In n (keys items) ->
  table_entry n k ts = v ->
  table_entry n k (fold_left (repackage_step old_tables) items ts) = v.
Proof.
  induction items as [|item items IH]; intros ts Hn H; [assumption|].
  cbn [fold_left]. apply IH.
  - intros Hin. apply Hn. now right.
  - apply table_entry_repackage_step; [|assumption].
    intros E. apply Hn. now left.
Qed.

Lemma get_legacy_table name parent columns :
  get "columns" (legacy_table name parent columns) = Some columns /\
  get "name" (legacy_table name parent columns) = Some (VStr name).
Proof. destruct parent; split; reflexivity. Qed.

Lemma table_entry_repackage_In old_tables n c items : forall ts,
  NoDup (keys items) -> In (n, c) items ->
  table_entry n "columns" (fold_left (repackage_step old_tables) items ts)
  = Some c /\
  table_entry n "name" (fold_left (repackage_step old_tables) items ts)
  = Some (VStr n).
Proof.
  induction items as [|item items IH]; intros ts Hnd Hin; [destruct Hin|].
  inversion Hnd as [|? ? Hnot Hnd']; subst.
  cbn [fold_left]. destruct Hin as [-> | Hin].
  - cbn [fst] in Hnot.
    split; apply table_entry_repackage_fold; try assumption;
      unfold table_entry, repackage_step; cbn [fst snd];
      rewrite get_set_eq; apply get_legacy_table.
  - now apply IH.
Qed.

Lemma table_entry_place_filter group n k v ts rp :
  k <> "filters" ->
  table_entry n k ts = Some v ->
  table_entry n k (place_filter group ts rp) = Some v.
Proof.
  intros Hk H. unfold table_entry in *. destruct rp as [root path].
  destruct (place_filter_effect group ts root path)
    as (t & Ht & _ & _ & Hkeep & Hother).
  destruct (string_dec root n) as [-> | Hne].
  - rewrite Ht, (Hkeep k Hk).
    destruct (get n ts) as [[| | | | |t0]|]; try discriminate. exact H.
  - now rewrite (Hother n) by congruence.
Qed.

Lemma table_entry_place_filters group n k v pats : forall ts,
  k <> "filters" ->
  table_entry n k ts = Some v ->
  table_entry n k (fold_left (place_filter group) pats ts) = Some v.
Proof.
  induction pats as [|rp pats IH]; intros ts Hk H; [assumption|].
  cbn [fold_left]. apply IH; [assumption|].
  now apply table_entry_place_filter.
Qed.

Lemma In_get_entry {V} (n : string) (c : V) d :
  get n d = Some c -> In (n, c) d.
Proof.
  induction d as [|[k v] d IH]; simpl; [discriminate|].
  destruct (String.eqb n k) eqn:E.
  - apply String.eqb_eq in E. intros [= ->]. left. now subst.
  - intros H. right. now apply IH.
Qed.

(** X16.  The migration from version 2 to 3 loses no table and changes no
    column: every legacy table is a table of the migrated document, under
    its own name, and holds as its [columns] exactly what the legacy
    mapping held under that name, whatever filters are placed on it. *)
Theorem upgrade_keeps_columns (doc : document) (old_tables : dict value)
    (excludes includes : list string) (name : string) (columns : value) :
  get "tables" doc = Some (VDict old_tables) ->
  NoDup (keys old_tables) ->
  legacy_filters "excludes" doc excludes ->
  legacy_filters "includes" doc includes ->
  get name old_tables = Some columns ->
  exists d tables,
    upgrade_engine_version 2 3 doc = Ok tt d /\
    get "tables" d = Some (VDict tables) /\
    table_entry name "columns" tables = Some columns /\
    table_entry name "name" tables = Some (VStr name).
Proof.
  intros Hts Hnd Hex Hin Hn.
  rewrite (upgrade_2_3_spec _ _ _ _ Hts Hex Hin).
  do 2 eexists. split; [reflexivity|]. split; [apply get_tables_migrated|].
  destruct (table_entry_repackage_In old_tables name columns old_tables []
              Hnd (In_get_entry _ _ _ Hn)) as [Hc Hname].
  unfold migrated_tables.
  split; do 2 (apply table_entry_place_filters; [discriminate|]); assumption.
Qed.

Lemma upgrade_keeps_columns_witness :
  exists d tables,
    upgrade_engine_version 2 3 Samples.shop_v2 = Ok tt d /\
    get "tables" d = Some (VDict tables) /\
    table_entry "orders" "columns" tables
    = Some (VDict [("id", VDict [("data_type", VStr "bigint")])]) /\
    table_entry "orders" "name" tables = Some (VStr "orders").
Proof.
  apply (upgrade_keeps_columns Samples.shop_v2
           [("orders", VDict [("id", VDict [("data_type", VStr "bigint")])]);
            ("orders__items", VDict [])]
           ["^orders__items__price"] [] "orders").
  - reflexivity.
  - repeat constructor; simpl; intuition discriminate.
  - left. reflexivity.
  - left. reflexivity.
  - reflexivity.
Defined.

End UpgradeMore.

(* ===================================================================== *)
(** ** [apply_defaults] *)
(* ===================================================================== *)

Module DefaultsFacts.
Import PyDict PyDictFacts PyMonad PyMonadFacts Store StoreFacts HintFacts.
Import Defaults DefaultsSpec.

(** *** Running the operations of the store *)

Lemma bind_py_Ok {A B} (m : Store.S A) (f : A -> D B) st a st1 :
  m st = Ok a st1 -> bind (py m) f st = f a st1.
Proof. intros H. unfold bind, py. now rewrite H. Qed.

Lemma py_Ok {A} (m : Store.S A) st a st1 :
  m st = Ok a st1 -> py m st = Ok a st1.
Proof. intros H. unfold py. now rewrite H. Qed.

Lemma bind_py_Raise {A B} (m : Store.S A) (f : A -> D B) st e st1 :
  m st = Raise e st1 -> bind (py m) f st = Raise (Py e) st1.
Proof. intros H. unfold bind, py. now rewrite H. Qed.

Lemma update_app_new st o o' :
  update (List.length st) o' (st ++ [o])%list = (st ++ [o'])%list.
Proof. induction st as [|o0 st IH]; simpl; [reflexivity | now rewrite IH]. Qed.

Lemma lookup_app_new_eq st o l :
  l = List.length st -> lookup l (st ++ [o])%list = Some o.
Proof. intros ->. apply lookup_app_new. Qed.

Lemma get_method_ok l d k st :
  lookup l st = Some (ODict d) ->
  get_method (VRef l) k st
  = Ok (match get k d with Some x => x | None => VNone end) st.
Proof.
  intros Hl. unfold get_method.
  now rewrite (bind_Ok _ _ _ _ _ (deref_ok _ _ _ Hl)).
Qed.

Lemma check_size_ok l d st :
  lookup l st = Some (ODict d) ->
  check_size l (List.length d) st = Ok tt st.
Proof.
  intros Hl. unfold check_size.
  rewrite (bind_Ok _ _ _ _ _ (deref_ok _ _ _ Hl)).
  now rewrite Nat.eqb_refl.
Qed.

Lemma subscript_ok l d k x st :
  lookup l st = Some (ODict d) -> get k d = Some x ->
  subscript (VRef l) (VStr k) st = Ok x st.
Proof.
  intros Hl Hk. unfold subscript.
  rewrite (bind_py_Ok _ _ _ _ _ (deref_ok _ _ _ Hl)). now rewrite Hk.
Qed.

Lemma store_subscript_ok l d k x st :
  lookup l st = Some (ODict d) ->
  store_subscript (VRef l) (VStr k) x st
  = Ok tt (update l (ODict (set k x d)) st).
Proof.
  intros Hl. unfold store_subscript.
  now rewrite (bind_py_Ok _ _ _ _ _ (deref_ok _ _ _ Hl)).
Qed.

(** *** One column *)

(** The body of the loop over the columns: the column under [k] is
    replaced by a new dictionary, the column with its defaults. *)
Lemma apply_column_defaults_ok st t td c cols k x cd :
  lookup t st = Some (ODict td) ->
  get "columns" td = Some (VRef c) ->
  lookup c st = Some (ODict cols) ->
  get k cols = Some (VRef x) ->
  lookup x st = Some (ODict cd) ->
  apply_column_defaults (VRef t) (VStr k) st
  = Ok tt (update c (ODict (set k (VRef (List.length st)) cols))
             (st ++ [ODict (column_defaults k cd)])%list).
Proof.
  intros Ht Hc Hcols Hk Hx. unfold apply_column_defaults.
  rewrite (bind_py_Ok _ _ _ _ _ (getitem_ok _ _ _ _ _ Ht Hc)).
  rewrite (bind_Ok _ _ _ _ _ (subscript_ok _ _ _ _ _ Hcols Hk)).
  rewrite (bind_py_Ok _ _ _ _ _ (add_missing_hints_ok _ _ _ Hx)).
  set (st1 := (st ++ [ODict (merge hint_defaults cd)])%list).
  assert (Hy : lookup (List.length st) st1 = Some (ODict (merge hint_defaults cd)))
    by apply lookup_app_new.
  rewrite (bind_py_Ok _ _ _ _ _ (setitem_ok _ _ "name" (VStr k) _ Hy)).
  unfold st1. rewrite update_app_new. fold (column_defaults k cd).
  set (st2 := (st ++ [ODict (column_defaults k cd)])%list).
  assert (Ht2 : lookup t st2 = Some (ODict td)).
  { unfold st2. rewrite lookup_app_old; [assumption | eapply lookup_lt; eassumption]. }
  assert (Hc2 : lookup c st2 = Some (ODict cols)).
  { unfold st2. rewrite lookup_app_old; [assumption | eapply lookup_lt; eassumption]. }
  rewrite (bind_py_Ok _ _ _ _ _ (getitem_ok _ _ _ _ _ Ht2 Hc)).
  apply (store_subscript_ok _ _ _ _ _ Hc2).
Qed.

(** *** The columns of one table *)

Lemma set_app_r {V} k (v v0 : V) (a b : dict V) :
  get k a = None ->
  set k v (a ++ (k, v0) :: b)%list = (a ++ (k, v) :: b)%list.
Proof.
  induction a as [|[k1 v1] a IH]; simpl.
  - now rewrite String.eqb_refl.
  - destruct (String.eqb k k1); [discriminate|]. intros H. now rewrite IH.
Qed.

Lemma nth_error_middle {A} (a : list A) x b :
  nth_error (a ++ x :: b)%list (List.length a) = Some x.
Proof. induction a as [|y a IH]; simpl; auto. Qed.

Lemma NoDup_keys_middle {V} (a b : dict V) k v :
  NoDup (keys (a ++ (k, v) :: b)%list) -> get k a = None.
Proof.
  rewrite keys_app. simpl. intros H.
  apply NoDup_remove_2 in H. apply get_None_not_In.
  intros Hin. apply H. apply in_or_app. now left.
Qed.

(** The loop over the columns, from any point on: [pre] are the entries
    the loop has been through, [suf] those to come. *)
Lemma columns_loop t td c : forall suf pre st,
  lookup t st = Some (ODict td) ->
  get "columns" td = Some (VRef c) ->
  t <> c ->
  lookup c st = Some (ODict (pre ++ suf)%list) ->
  NoDup (keys (pre ++ suf)%list) ->
  (forall k v, In (k, v) suf ->
     exists x cd, v = VRef x /\ lookup x st = Some (ODict cd) /\ x <> c) ->
  exists st' suf',
    items_loop c (List.length (pre ++ suf)%list) (List.length pre)
      (List.length suf)
      (fun k _ => apply_column_defaults (VRef t) (VStr k)) st = Ok tt st' /\
    (List.length st <= List.length st')%nat /\
    (forall l, (l < List.length st)%nat -> l <> c ->
               lookup l st' = lookup l st) /\
    lookup c st' = Some (ODict (pre ++ suf')%list) /\
    keys suf' = keys suf /\
    (forall k x cd,
       In (k, VRef x) suf -> lookup x st = Some (ODict cd) ->
       exists y, In (k, VRef y) suf' /\ (List.length st <= y)%nat /\
                 lookup y st' = Some (ODict (column_defaults k cd))).
Proof.
  induction suf as [|[k v] suf IH]; intros pre st Ht Hc Htc Hcols Hnd Hsuf.
  - exists st, []. cbn [items_loop List.length].
    split.
    { apply py_Ok. rewrite app_nil_r in *. now apply check_size_ok. }
    repeat split; auto. intros k x cd [].
  - destruct (Hsuf k v (or_introl eq_refl)) as (x & cd & -> & Hx & Hxc).
    pose proof (NoDup_keys_middle _ _ _ _ Hnd) as Hk.
    assert (Hget : get k (pre ++ (k, VRef x) :: suf)%list = Some (VRef x)).
    { rewrite get_app_r by assumption. simpl. now rewrite String.eqb_refl. }
    cbn [items_loop List.length].
    rewrite (bind_py_Ok _ _ _ _ _ (check_size_ok _ _ _ Hcols)).
    rewrite (bind_py_Ok _ _ _ _ _ (deref_ok _ _ _ Hcols)).
    rewrite nth_error_middle.
    rewrite (bind_Ok _ _ _ _ _
               (apply_column_defaults_ok _ _ _ _ _ _ _ _ Ht Hc Hcols Hget Hx)).
    rewrite set_app_r by assumption.
    set (y := List.length st).
    set (st1 := update c (ODict (pre ++ (k, VRef y) :: suf)%list)
                  (st ++ [ODict (column_defaults k cd)])%list).
    assert (Hlen1 : List.length st1 = Datatypes.S (List.length st)).
    { unfold st1. rewrite length_update, length_app. simpl. lia. }
    assert (Hc_lt : (c < List.length st)%nat) by (eapply lookup_lt; eassumption).
    assert (Hold : forall l, (l < List.length st)%nat -> l <> c ->
                             lookup l st1 = lookup l st).
    { intros l Hl Hlc. unfold st1.
      rewrite lookup_update_ne by congruence. now apply lookup_app_old. }
    assert (Hy1 : lookup y st1 = Some (ODict (column_defaults k cd))).
    { unfold st1. rewrite lookup_update_ne by (unfold y; lia).
      apply lookup_app_new. }
    assert (Hc1 : lookup c st1
                  = Some (ODict ((pre ++ [(k, VRef y)]) ++ suf)%list)).
    { unfold st1. rewrite <- app_assoc. simpl.
      apply lookup_update_eq. rewrite length_app. simpl. lia. }
    assert (Ht1 : lookup t st1 = Some (ODict td)).
    { rewrite Hold; [assumption | eapply lookup_lt; eassumption | assumption]. }
    assert (Hnd1 : NoDup (keys ((pre ++ [(k, VRef y)]) ++ suf)%list)).
    { rewrite <- app_assoc. simpl.
      rewrite keys_app in *. exact Hnd. }
    assert (Hsuf1 : forall k' v', In (k', v') suf ->
              exists x' cd', v' = VRef x' /\
                             lookup x' st1 = Some (ODict cd') /\ x' <> c).
    { intros k' v' Hin.
      destruct (Hsuf k' v' (or_intror Hin)) as (x' & cd' & -> & Hx' & Hx'c).
      exists x', cd'. repeat split; try assumption.
      rewrite Hold; [assumption | eapply lookup_lt; eassumption | assumption]. }
    destruct (IH (pre ++ [(k, VRef y)])%list st1 Ht1 Hc Htc Hc1 Hnd1 Hsuf1)
      as (st' & suf' & Hrun & Hlen & Hframe & Hc' & Hkeys & Hdone).
    exists st', ((k, VRef y) :: suf').
    assert (E1 : List.length ((pre ++ [(k, VRef y)]) ++ suf)%list
                 = List.length (pre ++ (k, VRef x) :: suf)%list).
    { rewrite !length_app. simpl. lia. }
    assert (E2 : List.length (pre ++ [(k, VRef y)])%list
                 = Datatypes.S (List.length pre)).
    { rewrite length_app. simpl. lia. }
    rewrite E1, E2 in Hrun.
    split; [exact Hrun|]. split; [lia|]. split; [|split; [|split]].
    + intros l Hl Hlc. rewrite Hframe by (try lia; assumption).
      now apply Hold.
    + rewrite Hc'. now rewrite <- app_assoc.
    + simpl. now rewrite Hkeys.
    + intros k' x' cd' [[= -> ->] | Hin] Hx'.
      * exists y. split; [now left|]. split; [unfold y; lia|].
        rewrite Hframe by (unfold y; lia). rewrite Hy1.
        rewrite Hx in Hx'. now injection Hx' as ->.
      * destruct (Hsuf k' (VRef x') (or_intror Hin))
          as (x'' & cd'' & [= <-] & Hx'' & Hx'c).
        assert (Hx1 : lookup x' st1 = Some (ODict cd')).
        { rewrite Hold; [assumption | eapply lookup_lt; eassumption | assumption]. }
        destruct (Hdone k' x' cd' Hin Hx1) as (y' & Hy'in & Hy'len & Hy').
        exists y'. split; [now right|]. split; [lia | assumption].
Qed.

(** *** One table *)

Lemma is_None_get k (d : dict val) :
  is_None (match get k d with Some x => x | None => VNone end) = unset k d.
Proof. unfold unset. now destruct (get k d) as [[]|]. Qed.

Lemma get_columns_table_defaults n td :
  get "columns" (table_defaults n td) = get "columns" td.
Proof.
  unfold table_defaults.
  destruct (unset "parent" (set "name" (VStr n) td)
            && unset "write_disposition" (set "name" (VStr n) td));
    now rewrite ?get_set_ne by discriminate.
Qed.

(** The part of the body that sets the name and the write disposition. *)
Lemma table_head_ok {B} st n t td (f : unit -> D B) :
  lookup t st = Some (ODict td) ->
  bind (py (setitem (VRef t) "name" (VStr n)))
    (fun _ =>
       bind (py (get_method (VRef t) "parent"))
         (fun parent =>
            bind (if is_None parent
                  then bind (py (get_method (VRef t) "write_disposition"))
                         (fun write_disposition =>
                            if is_None write_disposition
                            then py (setitem (VRef t) "write_disposition"
                                       (VStr "append"))
                            else ret tt)
                  else ret tt) f)) st
  = f tt (update t (ODict (table_defaults n td)) st).
Proof.
  intros Ht.
  rewrite (bind_py_Ok _ _ _ _ _ (setitem_ok _ _ "name" (VStr n) _ Ht)).
  set (td1 := set "name" (VStr n) td).
  assert (Ht1 : lookup t (update t (ODict td1) st) = Some (ODict td1)).
  { apply lookup_update_eq. eapply lookup_lt; eassumption. }
  rewrite (bind_py_Ok _ _ _ _ _ (get_method_ok _ _ "parent" _ Ht1)).
  rewrite is_None_get. unfold table_defaults. fold td1.
  destruct (unset "parent" td1); cbn [andb].
  - unfold bind at 1.
    rewrite (bind_py_Ok _ _ _ _ _ (get_method_ok _ _ "write_disposition" _ Ht1)).
    rewrite is_None_get.
    destruct (unset "write_disposition" td1).
    + rewrite (py_Ok _ _ _ _
                 (setitem_ok _ _ "write_disposition" (VStr "append") _ Ht1)).
      now rewrite update_update.
    + reflexivity.
  - reflexivity.
Qed.

(** The body of the loop over the tables. *)
Lemma apply_table_defaults_ok st n t td c cols :
  lookup t st = Some (ODict td) ->
  get "columns" td = Some (VRef c) ->
  t <> c ->
  lookup c st = Some (ODict cols) ->
  NoDup (keys cols) ->
  (forall k v, In (k, v) cols ->
     exists x cd, v = VRef x /\ lookup x st = Some (ODict cd) /\
                  x <> c /\ x <> t) ->
  exists st',
    apply_table_defaults n (VRef t) st = Ok tt st' /\
    (List.length st <= List.length st')%nat /\
    (forall l, (l < List.length st)%nat -> l <> t -> l <> c ->
               lookup l st' = lookup l st) /\
    table_done st st' n t c.
Proof.
  intros Ht Hc Htc Hcols Hnd Hshape.
  unfold apply_table_defaults.
  rewrite (table_head_ok _ _ _ _ _ Ht).
  set (td1 := table_defaults n td).
  set (st1 := update t (ODict td1) st).
  assert (Ht_lt : (t < List.length st)%nat) by (eapply lookup_lt; eassumption).
  assert (Ht1 : lookup t st1 = Some (ODict td1)) by now apply lookup_update_eq.
  assert (Hc1 : get "columns" td1 = Some (VRef c)).
  { unfold td1. now rewrite get_columns_table_defaults. }
  assert (Hold : forall l, l <> t -> lookup l st1 = lookup l st).
  { intros l Hl. unfold st1. apply lookup_update_ne. congruence. }
  assert (Hcols1 : lookup c st1 = Some (ODict ([] ++ cols)%list)).
  { rewrite Hold by congruence. exact Hcols. }
  rewrite (bind_py_Ok _ _ _ _ _ (getitem_ok _ _ _ _ _ Ht1 Hc1)).
  unfold for_in.
  rewrite (bind_py_Ok _ _ _ _ _ (deref_ok _ _ _ Hcols1)).
  assert (Hshape1 : forall k v, In (k, v) cols ->
            exists x cd, v = VRef x /\ lookup x st1 = Some (ODict cd) /\ x <> c).
  { intros k v Hin. destruct (Hshape k v Hin) as (x & cd & -> & Hx & Hxc & Hxt).
    exists x, cd. repeat split; try assumption. now rewrite Hold. }
  destruct (columns_loop t td1 c cols [] st1 Ht1 Hc1 Htc Hcols1 Hnd Hshape1)
    as (st' & cols' & Hrun & Hlen & Hframe & Hc' & Hkeys & Hdone).
  assert (Hlen1 : List.length st1 = List.length st) by apply length_update.
  exists st'. cbn [List.length app] in *.
  split; [exact Hrun|]. split; [lia|]. split.
  - intros l Hl Hlt Hlc. rewrite Hframe by (try lia; assumption).
    now apply Hold.
  - intros td0 cols0 Ht0 Hcols0.
    rewrite Ht in Ht0. injection Ht0 as <-.
    rewrite Hcols in Hcols0. injection Hcols0 as <-.
    split.
    + rewrite Hframe by (try lia; congruence). exact Ht1.
    + exists cols'. split; [exact Hc'|]. split; [exact Hkeys|].
      intros k x cd Hk Hx.
      assert (Hin : In (k, VRef x) cols).
      { clear - Hk. induction cols as [|[k0 v0] cols IH]; simpl in *;
          [discriminate|].
        destruct (String.eqb k k0) eqn:E.
        - apply String.eqb_eq in E. injection Hk as ->. left. now subst.
        - right. now apply IH. }
      destruct (Hshape k (VRef x) Hin) as (x' & cd' & [= <-] & _ & Hxc & Hxt).
      assert (Hx1 : lookup x st1 = Some (ODict cd)) by now rewrite Hold.
      destruct (Hdone k x cd Hin Hx1) as (y & Hy & Hylen & Hy').
      exists y. split; [|split; [lia | exact Hy']].
      apply In_get_NoDup; [|exact Hy].
      rewrite Hkeys. exact Hnd.
Qed.

(** *** The tables *)

Local Open Scope list_scope.

Lemma structure_app a b : structure (a ++ b) = (structure a ++ structure b)%list.
Proof. unfold structure. now rewrite flat_map_app. Qed.

Lemma structure_In lay n t c :
  In (n, t, c) lay -> In t (structure lay) /\ In c (structure lay).
Proof.
  intros H. unfold structure. split; apply in_flat_map;
    exists (n, t, c); (split; [assumption|]); simpl; tauto.
Qed.

Lemma tables_of_app a b : tables_of (a ++ b) = (tables_of a ++ tables_of b)%list.
Proof. apply map_app. Qed.

Lemma length_tables_of lay : List.length (tables_of lay) = List.length lay.
Proof. apply length_map. Qed.

Lemma get_In {V} k (v : V) (d : dict V) : get k d = Some v -> In (k, v) d.
Proof.
  induction d as [|[k0 v0] d IH]; simpl; [discriminate|].
  destruct (String.eqb k k0) eqn:E.
  - apply String.eqb_eq in E. intros [= ->]. left. now subst.
  - intros H. right. now apply IH.
Qed.

(** The objects of the structure are objects of the store. *)
Lemma structure_lt st avoid lay l :
  (forall n t c, In (n, t, c) lay -> table_shape st avoid t c) ->
  In l (structure lay) -> (l < List.length st)%nat.
Proof.
  intros Hshape Hin. unfold structure in Hin.
  apply in_flat_map in Hin. destruct Hin as ([[n t] c] & He & Hl).
  destruct (Hshape n t c He) as (td & cols & Ht & _ & Hc & _).
  simpl in Hl. destruct Hl as [<- | [<- | []]]; eapply lookup_lt; eassumption.
Qed.

(** The loop over the tables, from any point on. *)
Lemma tables_loop lt : forall suf pre st,
  NoDup (lt :: structure (pre ++ suf)) ->
  lookup lt st = Some (ODict (tables_of (pre ++ suf))) ->
  (forall n t c, In (n, t, c) suf ->
     table_shape st (lt :: structure (pre ++ suf)) t c) ->
  exists st',
    items_loop lt (List.length (tables_of (pre ++ suf))) (List.length pre)
      (List.length suf) apply_table_defaults st = Ok tt st' /\
    (List.length st <= List.length st')%nat /\
    (forall l, (l < List.length st)%nat -> ~ In l (structure suf) ->
               lookup l st' = lookup l st) /\
    (forall n t c, In (n, t, c) suf -> table_done st st' n t c).
Proof.
  induction suf as [|[[n t] c] suf IH]; intros pre st Hnd Hlt Hshape.
  - exists st. cbn [items_loop List.length]. split.
    { apply py_Ok. now apply check_size_ok. }
    split; [lia|]. split; [auto|]. intros ? ? ? [].
  - set (lay := (pre ++ (n, t, c) :: suf)%list) in *.
    destruct (Hshape n t c (or_introl eq_refl))
      as (td & cols & Ht & Hc & Hcols & Hndc & Hcolumns).
    (* the objects of the structure are distinct *)
    assert (Hstr : structure lay
                   = (structure pre ++ t :: c :: structure suf)%list).
    { unfold lay. now rewrite structure_app. }
    assert (Hnd' := Hnd). rewrite Hstr in Hnd'.
    apply NoDup_cons_iff in Hnd' as [Hlt_not Hnd'].
    assert (Hmid := NoDup_remove_2 _ _ _ Hnd').
    assert (Hnd2 := NoDup_remove_1 _ _ _ Hnd').
    assert (Hmid2 := NoDup_remove_2 _ _ _ Hnd2).
    assert (Htc : t <> c).
    { intros ->. apply Hmid. apply in_or_app. right. now left. }
    assert (Hlt_t : lt <> t).
    { intros ->. apply Hlt_not. apply in_or_app. right. now left. }
    assert (Hlt_c : lt <> c).
    { intros ->. apply Hlt_not. apply in_or_app. right. right. now left. }
    assert (Ht_suf : ~ In t (structure suf)).
    { intros H. apply Hmid. apply in_or_app. right. now right. }
    assert (Hc_suf : ~ In c (structure suf)).
    { intros H. apply Hmid2. apply in_or_app. now right. }
    assert (Hin_t : In t (lt :: structure lay)).
    { right. rewrite Hstr. apply in_or_app. right. now left. }
    assert (Hin_c : In c (lt :: structure lay)).
    { right. rewrite Hstr. apply in_or_app. right. right. now left. }
    assert (Hcolumns' : forall k v, In (k, v) cols ->
              exists x cd, v = VRef x /\ lookup x st = Some (ODict cd) /\
                           x <> c /\ x <> t).
    { intros k v Hin. destruct (Hcolumns k v Hin) as (x & cd & -> & Hx & Hav).
      exists x, cd. repeat split; try assumption; intros ->; now apply Hav. }
    destruct (apply_table_defaults_ok st n t td c cols Ht Hc Htc Hcols Hndc
                Hcolumns')
      as (st1 & Hrun1 & Hlen1 & Hframe1 & Hdone1).
    (* the loop *)
    cbn [items_loop List.length].
    rewrite (bind_py_Ok _ _ _ _ _ (check_size_ok _ _ _ Hlt)).
    rewrite (bind_py_Ok _ _ _ _ _ (deref_ok _ _ _ Hlt)).
    unfold lay at 1. rewrite tables_of_app.
    change (tables_of ((n, t, c) :: suf))
      with ((n, VRef t) :: tables_of suf).
    rewrite <- (length_tables_of pre), nth_error_middle.
    rewrite (bind_Ok _ _ _ _ _ Hrun1).
    (* the rest of the loop *)
    assert (Hlay : ((pre ++ [(n, t, c)]) ++ suf)%list = lay).
    { unfold lay. now rewrite <- app_assoc. }
    assert (Hlt_lt : (lt < List.length st)%nat) by (eapply lookup_lt; eassumption).
    assert (Hnd1 : NoDup (lt :: structure ((pre ++ [(n, t, c)]) ++ suf)))
      by now rewrite Hlay.
    assert (Hlt1 : lookup lt st1
                   = Some (ODict (tables_of ((pre ++ [(n, t, c)]) ++ suf)))).
    { rewrite Hlay, Hframe1 by assumption. exact Hlt. }
    assert (Hkeep : forall n' t' c', In (n', t', c') suf ->
              t' <> t /\ t' <> c /\ c' <> t /\ c' <> c).
    { intros n' t' c' Hin. destruct (structure_In _ _ _ _ Hin) as [H1 H2].
      repeat split; intros ->; contradiction. }
    assert (Hshape1 : forall n' t' c', In (n', t', c') suf ->
              table_shape st1 (lt :: structure ((pre ++ [(n, t, c)]) ++ suf))
                t' c').
    { intros n' t' c' Hin. rewrite Hlay.
      destruct (Hshape n' t' c' (or_intror Hin))
        as (td' & cols' & Ht' & Hc' & Hcols' & Hndc' & Hcolumns'').
      destruct (Hkeep n' t' c' Hin) as (K1 & K2 & K3 & K4).
      exists td', cols'. split; [|split; [exact Hc'|split; [|split]]].
      - rewrite Hframe1; [assumption | eapply lookup_lt; eassumption | | ];
          assumption.
      - rewrite Hframe1; [assumption | eapply lookup_lt; eassumption | | ];
          assumption.
      - exact Hndc'.
      - intros k v Hk. destruct (Hcolumns'' k v Hk) as (x & cd & -> & Hx & Hav).
        exists x, cd. repeat split; try assumption.
        rewrite Hframe1; [assumption | eapply lookup_lt; eassumption | | ];
          intros ->; now apply Hav. }
    destruct (IH (pre ++ [(n, t, c)])%list st1 Hnd1 Hlt1 Hshape1)
      as (st' & Hrun & Hlen & Hframe & Hdone).
    assert (E1 : List.length (tables_of ((pre ++ [(n, t, c)]) ++ suf))
                 = List.length (tables_of lay)) by now rewrite Hlay.
    assert (E2 : List.length (pre ++ [(n, t, c)])%list
                 = Datatypes.S (List.length (tables_of pre))).
    { rewrite length_app, length_tables_of. simpl. lia. }
    rewrite E1, E2 in Hrun.
    exists st'. split; [exact Hrun|]. split; [lia|].
    assert (Hsuf_lt : forall l, In l (structure suf) ->
                                (l < List.length st)%nat).
    { intros l. apply (structure_lt st (lt :: structure lay)).
      intros n' t' c' Hin. apply (Hshape n' t' c'). now right. }
    split.
    + intros l Hl Hnot.
      change (structure ((n, t, c) :: suf))
        with (t :: c :: structure suf) in Hnot.
      cbn [In] in Hnot.
      rewrite Hframe by (try lia; tauto).
      apply Hframe1; [assumption | | ]; intros ->; tauto.
    + intros n' t' c' [[= -> -> ->] | Hin].
      * (* the table of this step *)
        intros td0 cols0 Ht0 Hcols0.
        destruct (Hdone1 td0 cols0 Ht0 Hcols0) as (Htd & cols' & Hc' & Hkeys & Hcol).
        assert (Ht_lt : (t' < List.length st)%nat) by (eapply lookup_lt; eassumption).
        assert (Hc_lt : (c' < List.length st)%nat) by (eapply lookup_lt; eassumption).
        split; [rewrite Hframe by (try lia; assumption); exact Htd|].
        exists cols'. split; [rewrite Hframe by (try lia; assumption); exact Hc'|].
        split; [exact Hkeys|].
        intros k x cd Hk Hx. destruct (Hcol k x cd Hk Hx) as (y & Hy & Hylen & Hy').
        exists y. repeat split; try assumption.
        rewrite Hframe; [exact Hy' | eapply lookup_lt; eassumption |].
        intros Hin. apply Hsuf_lt in Hin. lia.
      * (* a table still to come *)
        destruct (Hkeep n' t' c' Hin) as (K1 & K2 & K3 & K4).
        destruct (Hshape n' t' c' (or_intror Hin))
          as (td' & cols' & Ht' & Hc' & Hcols' & Hndc' & Hcolumns'').
        intros td0 cols0 Ht0 Hcols0.
        assert (Ht1 : lookup t' st1 = Some (ODict td0)).
        { rewrite Hframe1; [assumption | eapply lookup_lt; eassumption | | ];
            assumption. }
        assert (Hcols1 : lookup c' st1 = Some (ODict cols0)).
        { rewrite Hframe1; [assumption | eapply lookup_lt; eassumption | | ];
            assumption. }
        destruct (Hdone n' t' c' Hin td0 cols0 Ht1 Hcols1)
          as (Htd & cols1 & Hc1 & Hkeys & Hcol).
        split; [exact Htd|]. exists cols1. split; [exact Hc1|].
        split; [exact Hkeys|].
        intros k x cd Hk Hx.
        rewrite Hcols' in Hcols0. injection Hcols0 as <-.
        destruct (Hcolumns'' k (VRef x) (get_In _ _ _ Hk))
          as (x' & cd' & [= <-] & _ & Hav).
        assert (Hx1 : lookup x st1 = Some (ODict cd)).
        { rewrite Hframe1; [assumption | eapply lookup_lt; eassumption | | ];
            intros ->; now apply Hav. }
        destruct (Hcol k x cd Hk Hx1) as (y & Hy & Hylen & Hy').
        exists y. repeat split; try assumption. lia.
Qed.

(** [apply_defaults] on a schema laid out as a tree. *)
Lemma apply_defaults_spec st doc lt lay :
  schema_shape st doc lt lay ->
  exists st',
    apply_defaults (VRef doc) st = Ok VNone st' /\
    (List.length st <= List.length st')%nat /\
    (forall l, (l < List.length st)%nat -> ~ In l (structure lay) ->
               lookup l st' = lookup l st) /\
    (forall n t c, In (n, t, c) lay -> table_done st st' n t c).
Proof.
  intros ((dd & Hdoc & Htables) & Hlt & Hnd & Hshape).
  apply NoDup_cons_iff in Hnd as [_ Hnd].
  destruct (tables_loop lt lay [] st Hnd Hlt Hshape)
    as (st' & Hrun & Hlen & Hframe & Hdone).
  exists st'. split; [|auto].
  unfold apply_defaults.
  rewrite (bind_py_Ok _ _ _ _ _ (getitem_ok _ _ _ _ _ Hdoc Htables)).
  assert (Hfor : for_items (VRef lt) apply_table_defaults st = Ok tt st').
  { unfold for_items.
    rewrite (bind_py_Ok _ _ _ _ _ (deref_ok _ _ _ Hlt)).
    cbn [app List.length] in Hrun. rewrite length_tables_of in *.
    exact Hrun. }
  now rewrite (bind_Ok _ _ _ _ _ Hfor).
Qed.

(** *** What the defaults are *)

Lemma unset_set_ne k k' (v : val) d :
  k' <> k -> unset k (set k' v d) = unset k d.
Proof. intros H. unfold unset. now rewrite get_set_ne. Qed.

Lemma table_defaults_get n td :
  get "name" (table_defaults n td) = Some (VStr n) /\
  get "write_disposition" (table_defaults n td)
  = (if unset "parent" td && unset "write_disposition" td
     then Some (VStr "append")
     else get "write_disposition" td) /\
  (forall k, k <> "name" -> k <> "write_disposition" ->
             get k (table_defaults n td) = get k td).
Proof.
  unfold table_defaults.
  rewrite !unset_set_ne by discriminate.
  destruct (unset "parent" td && unset "write_disposition" td);
    repeat split; intros;
    rewrite ?get_set_eq, ?get_set_ne by congruence;
    rewrite ?get_set_eq, ?get_set_ne by congruence; reflexivity.
Qed.

Lemma table_defaults_idem n td :
  table_defaults n (table_defaults n td) = table_defaults n td.
Proof.
  destruct (table_defaults_get n td) as (Hn & Hw & Hk).
  set (X := table_defaults n td) in *.
  assert (Hp : unset "parent" X = unset "parent" td).
  { unfold unset. now rewrite Hk by discriminate. }
  assert (Hwd : unset "parent" X && unset "write_disposition" X = false).
  { rewrite Hp. unfold unset at 2. rewrite Hw.
    destruct (unset "parent" td && unset "write_disposition" td) eqn:E.
    - apply andb_false_r.
    - exact E. }
  unfold table_defaults. cbv zeta.
  rewrite (set_same _ _ _ Hn). now rewrite Hwd.
Qed.

Lemma set_absent {V} k (v : V) d :
  get k d = None -> set k v d = (d ++ [(k, v)])%list.
Proof.
  induction d as [|[k0 v0] d IH]; simpl; [reflexivity|].
  destruct (String.eqb k k0); [discriminate|]. intros H. now rewrite IH.
Qed.

Lemma set_app {V} k (v : V) (a b : dict V) :
  set k v (a ++ b)
  = if mem k a then set k v a ++ b else a ++ set k v b.
Proof.
  unfold mem. induction a as [|[k0 v0] a IH]; simpl; [reflexivity|].
  destruct (String.eqb k k0); [reflexivity|].
  rewrite IH. now destruct (get k a).
Qed.

(** Entries under new keys go to the end, in their order. *)
Lemma fold_set_append {V} (R : dict V) : forall acc,
  NoDup (keys (acc ++ R)) ->
  fold_left (fun acc kv => set (fst kv) (snd kv) acc) R acc = acc ++ R.
Proof.
  induction R as [|[k v] R IH]; intros acc Hnd; simpl.
  - now rewrite app_nil_r.
  - rewrite (set_absent k v acc) by (eapply NoDup_keys_middle; eassumption).
    rewrite IH; rewrite <- app_assoc; [reflexivity | exact Hnd].
Qed.

(** A column with its hints begins with the six hints, in their order. *)
Lemma merge_hints_form (cd : dict val) : forall D R,
  keys D = keys hint_defaults -> NoDup (keys (D ++ R)) ->
  exists D' R',
    fold_left (fun acc kv => set (fst kv) (snd kv) acc) cd (D ++ R) = D' ++ R' /\
    keys D' = keys hint_defaults /\ NoDup (keys (D' ++ R')).
Proof.
  induction cd as [|[k v] cd IH]; intros D R HD Hnd; simpl.
  - now exists D, R.
  - pose proof (NoDup_keys_set k v _ Hnd) as Hnd'.
    rewrite set_app in *. destruct (mem k D) eqn:E.
    + apply IH; [|assumption]. rewrite keys_set, E. exact HD.
    + now apply IH.
Qed.

Lemma column_defaults_form k cd :
  exists D R,
    column_defaults k cd = D ++ R /\
    keys D = keys hint_defaults /\ NoDup (keys (D ++ R)).
Proof.
  unfold column_defaults, merge.
  destruct (merge_hints_form cd hint_defaults [] eq_refl) as (D & R & HE & HD & Hnd).
  { rewrite app_nil_r. apply NoDup_hint_defaults. }
  rewrite app_nil_r in HE. rewrite HE.
  pose proof (NoDup_keys_set "name" (VStr k) _ Hnd) as Hnd'.
  rewrite set_app in *.
  assert (E : mem "name" D = false).
  { apply not_true_is_false. rewrite mem_true, HD. simpl. intuition discriminate. }
  rewrite E in *. now exists D, (set "name" (VStr k) R).
Qed.

(** Spreading the hints under a column that has them changes nothing. *)
Lemma merge_hints_fixed (D R : dict val) :
  keys D = keys hint_defaults -> NoDup (keys (D ++ R)) ->
  merge hint_defaults (D ++ R) = D ++ R.
Proof.
  intros HD Hnd. unfold merge. rewrite fold_left_app.
  assert (E : fold_left (fun acc kv => set (fst kv) (snd kv) acc) D hint_defaults
              = D).
  { destruct D as [|[k1 v1] [|[k2 v2] [|[k3 v3] [|[k4 v4] [|[k5 v5]
      [|[k6 v6] [|]]]]]]]; try discriminate HD.
    injection HD as -> -> -> -> -> ->. reflexivity. }
  rewrite E. now apply fold_set_append.
Qed.

Lemma column_defaults_idem k cd :
  column_defaults k (column_defaults k cd) = column_defaults k cd.
Proof.
  destruct (column_defaults_form k cd) as (D & R & HE & HD & Hnd).
  unfold column_defaults at 1. rewrite HE, (merge_hints_fixed D R HD Hnd).
  rewrite <- HE. apply set_same. unfold column_defaults. apply get_set_eq.
Qed.

Lemma NoDup_keys_column_defaults k cd : NoDup (keys (column_defaults k cd)).
Proof.
  unfold column_defaults. apply NoDup_keys_set, NoDup_keys_merge.
  apply NoDup_hint_defaults.
Qed.

(** What a column with its defaults holds. *)
Lemma column_defaults_get k cd :
  get "name" (column_defaults k cd) = Some (VStr k) /\
  (NoDup (keys cd) ->
   forall j, j <> "name" ->
     get j (column_defaults k cd)
     = match get j cd with
       | Some v => Some v
       | None => get j hint_defaults
       end).
Proof.
  unfold column_defaults. split; [apply get_set_eq|].
  intros Hnd j Hj. rewrite get_set_ne by congruence. now apply get_merge.
Qed.

(** *** The schema after the call *)

Lemma schema_shape_after st st' doc lt lay :
  schema_shape st doc lt lay ->
  (List.length st <= List.length st')%nat ->
  (forall l, (l < List.length st)%nat -> ~ In l (structure lay) ->
             lookup l st' = lookup l st) ->
  (forall n t c, In (n, t, c) lay -> table_done st st' n t c) ->
  schema_shape st' doc lt lay.
Proof.
  intros ((dd & Hdoc & Htables) & Hlt & Hnd & Hshape) Hlen Hframe Hdone.
  assert (Hnd' := Hnd). apply NoDup_cons_iff in Hnd' as [Hdoc_not Hnd'].
  assert (Hlt_not := proj1 (proj1 (NoDup_cons_iff _ _) Hnd')).
  assert (Hstr_lt : forall l, In l (structure lay) -> (l < List.length st)%nat).
  { intros l. apply (structure_lt st (lt :: structure lay)). exact Hshape. }
  split; [|split; [|split]].
  - exists dd. split; [|exact Htables].
    rewrite Hframe; [exact Hdoc | eapply lookup_lt; eassumption |].
    intros H. apply Hdoc_not. now right.
  - rewrite Hframe; [exact Hlt | eapply lookup_lt; eassumption | exact Hlt_not].
  - exact Hnd.
  - intros n t c Hin.
    destruct (Hshape n t c Hin) as (td & cols & Ht & Hc & Hcols & Hndc & Hcolumns).
    destruct (Hdone n t c Hin td cols Ht Hcols)
      as (Htd & cols' & Hc' & Hkeys & Hcol).
    exists (table_defaults n td), cols'.
    split; [exact Htd|]. split; [now rewrite get_columns_table_defaults|].
    split; [exact Hc'|]. split; [now rewrite Hkeys|].
    intros k v Hk.
    assert (Hkin : In k (keys cols)).
    { rewrite <- Hkeys. apply in_map_iff. now exists (k, v). }
    destruct (In_get _ _ Hkin) as (v0 & Hv0).
    destruct (Hcolumns k v0 (get_In _ _ _ Hv0)) as (x & cd & -> & Hx & _).
    destruct (Hcol k x cd Hv0 Hx) as (y & Hy & Hylen & Hy').
    assert (Hv : get k cols' = Some v).
    { apply In_get_NoDup; [now rewrite Hkeys | exact Hk]. }
    rewrite Hy in Hv. injection Hv as <-.
    exists y, (column_defaults k cd). repeat split; try assumption.
    intros [<- | Hin']; [apply lookup_lt in Hlt; lia|].
    apply Hstr_lt in Hin'. lia.
Qed.

End DefaultsFacts.

(* ===================================================================== *)
(** ** What [apply_defaults] does to a schema *)
(* ===================================================================== *)

Module DefaultsMore.
Import PyDict PyDictFacts PyMonad PyMonadFacts Store StoreFacts HintSpec HintFacts.
Import Defaults DefaultsSpec DefaultsFacts.

Local Open Scope list_scope.

(** The sample schema is laid out as a tree. *)
Lemma stored_shop_shape : schema_shape stored_shop 0%nat 1%nat stored_shop_layout.
Proof.
  split; [|split; [|split]].
  - eexists. split; reflexivity.
  - reflexivity.
  - repeat (constructor; [simpl; intuition discriminate|]). constructor.
  - intros n t c [[= <- <- <-] | [[= <- <- <-] | []]].
    + do 2 eexists. split; [reflexivity|]. split; [reflexivity|].
      split; [reflexivity|]. split.
      * repeat constructor. simpl. tauto.
      * intros k v [[= <- <-] | []]. do 2 eexists.
        split; [reflexivity|]. split; [reflexivity|].
        simpl. intuition discriminate.
    + do 2 eexists. split; [reflexivity|]. split; [reflexivity|].
      split; [reflexivity|]. split; [constructor|]. intros k v [].
Qed.

(** X17.  On a schema laid out as a tree [apply_defaults] returns [None],
    and every table is left with the key it is stored under as its
    [name], whatever name it had.  A table gets the write disposition
    [append] exactly when it has no parent and no write disposition (a
    missing entry and [None] count alike); a child table, and a table
    with a write disposition, keep what they have.  No other entry of a
    table is changed. *)
Theorem apply_defaults_names_tables (st : store) (doc lt : loc) (lay : layout) :
  schema_shape st doc lt lay ->
  exists st',
    apply_defaults (VRef doc) st = Ok VNone st' /\
    forall n t c td,
      In (n, t, c) lay -> lookup t st = Some (ODict td) ->
      exists td',
        lookup t st' = Some (ODict td') /\
        get "name" td' = Some (VStr n) /\
        get "write_disposition" td'
        = (if unset "parent" td && unset "write_disposition" td
           then Some (VStr "append")
           else get "write_disposition" td) /\
        forall k, k <> "name" -> k <> "write_disposition" ->
                  get k td' = get k td.
Proof.
  intros Hshape.
  destruct (apply_defaults_spec _ _ _ _ Hshape) as (st' & Hrun & _ & _ & Hdone).
  exists st'. split; [exact Hrun|].
  intros n t c td Hin Ht.
  destruct Hshape as (_ & _ & _ & Htables).
  destruct (Htables n t c Hin) as (td0 & cols & Ht0 & _ & Hcols & _).
  destruct (Hdone n t c Hin td cols Ht Hcols) as (Htd & _).
  exists (table_defaults n td). split; [exact Htd|].
  apply table_defaults_get.
Qed.

Lemma apply_defaults_names_tables_witness :
  exists st',
    apply_defaults (VRef 0%nat) stored_shop = Ok VNone st' /\
    (exists td',
       lookup 2%nat st' = Some (ODict td') /\
       get "name" td' = Some (VStr "orders") /\
       get "write_disposition" td' = Some (VStr "append")) /\
    (exists td',
       lookup 5%nat st' = Some (ODict td') /\
       get "name" td' = Some (VStr "orders__items") /\
       get "write_disposition" td' = None).
Proof.
  destruct (apply_defaults_names_tables stored_shop 0%nat 1%nat stored_shop_layout
              stored_shop_shape) as (st' & Hrun & H).
  exists st'. split; [exact Hrun|]. split.
  - destruct (H "orders" 2%nat 3%nat [("columns", VRef 3%nat)])
      as (td' & H1 & H2 & H3 & _); [now left | reflexivity |].
    exists td'. now repeat split.
  - destruct (H "orders__items" 5%nat 6%nat
                [("parent", VStr "orders"); ("columns", VRef 6%nat)])
      as (td' & H1 & H2 & H3 & _); [right; now left | reflexivity |].
    exists td'. now repeat split.
Defined.

(** X18.  On a schema laid out as a tree [apply_defaults] replaces every
    column by a new dictionary and leaves the dictionary it was given as
    it was.  The mapping of columns keeps its keys; under each key it
    refers to an object that did not exist before the call, which holds
    the key as its [name], every entry of the original column under
    another key and, for each of the six hints that the original column
    lacks, [False]. *)
Theorem apply_defaults_expands_columns (st : store) (doc lt : loc)
    (lay : layout) :
  schema_shape st doc lt lay ->
  exists st',
    apply_defaults (VRef doc) st = Ok VNone st' /\
    forall n t c cols k x cd,
      In (n, t, c) lay -> lookup c st = Some (ODict cols) ->
      get k cols = Some (VRef x) -> lookup x st = Some (ODict cd) ->
      lookup x st' = Some (ODict cd) /\
      exists cols' y,
        lookup c st' = Some (ODict cols') /\ keys cols' = keys cols /\
        get k cols' = Some (VRef y) /\ (List.length st <= y)%nat /\
        lookup y st' = Some (ODict (column_defaults k cd)) /\
        get "name" (column_defaults k cd) = Some (VStr k) /\
        (NoDup (keys cd) ->
         forall j, j <> "name" ->
           get j (column_defaults k cd)
           = match get j cd with
             | Some v => Some v
             | None => get j hint_defaults
             end).
Proof.
  intros Hshape.
  destruct (apply_defaults_spec _ _ _ _ Hshape)
    as (st' & Hrun & _ & Hframe & Hdone).
  exists st'. split; [exact Hrun|].
  intros n t c cols k x cd Hin Hcols Hk Hx.
  destruct Hshape as (_ & _ & _ & Htables).
  destruct (Htables n t c Hin) as (td & cols0 & Ht & _ & Hcols0 & _ & Hcolumns).
  rewrite Hcols in Hcols0. injection Hcols0 as <-.
  destruct (Hcolumns k (VRef x) (get_In _ _ _ Hk)) as (x' & cd' & [= <-] & _ & Hav).
  split.
  - rewrite Hframe; [exact Hx | eapply lookup_lt; eassumption |].
    intros H. apply Hav. now right.
  - destruct (Hdone n t c Hin td cols Ht Hcols) as (_ & cols' & Hc' & Hkeys & Hcol).
    destruct (Hcol k x cd Hk Hx) as (y & Hy & Hylen & Hy').
    exists cols', y. repeat split; try assumption; apply column_defaults_get.
Qed.

Lemma apply_defaults_expands_columns_witness :
  exists st' cols' y,
    apply_defaults (VRef 0%nat) stored_shop = Ok VNone st' /\
    lookup 4%nat st' = Some (ODict stored_id) /\
    lookup 3%nat st' = Some (ODict cols') /\
    get "id" cols' = Some (VRef y) /\ (7 <= y)%nat /\
    lookup y st' = Some (ODict (column_defaults "id" stored_id)).
Proof.
  destruct (apply_defaults_expands_columns stored_shop 0%nat 1%nat stored_shop_layout
              stored_shop_shape) as (st' & Hrun & H).
  destruct (H "orders" 2%nat 3%nat [("id", VRef 4%nat)] "id" 4%nat stored_id)
    as (Hx & cols' & y & H1 & _ & H2 & H3 & H4 & _);
    [now left | reflexivity | reflexivity | reflexivity |].
  exists st', cols', y. now repeat split.
Defined.

(** X19.  On a schema laid out as a tree [apply_defaults] writes to the
    tables and to their mappings of columns and to nothing else that
    existed before the call: the document, its mapping of tables and
    every other object are as they were. *)
Theorem apply_defaults_frame (st : store) (doc lt : loc) (lay : layout) :
  schema_shape st doc lt lay ->
  exists st',
    apply_defaults (VRef doc) st = Ok VNone st' /\
    lookup doc st' = lookup doc st /\
    lookup lt st' = lookup lt st /\
    forall l, (l < List.length st)%nat -> ~ In l (structure lay) ->
              lookup l st' = lookup l st.
Proof.
  intros Hshape.
  destruct (apply_defaults_spec _ _ _ _ Hshape)
    as (st' & Hrun & _ & Hframe & _).
  exists st'. split; [exact Hrun|].
  destruct Hshape as ((dd & Hdoc & _) & Hlt & Hnd & _).
  apply NoDup_cons_iff in Hnd as [Hdoc_not Hnd].
  apply NoDup_cons_iff in Hnd as [Hlt_not _].
  repeat split.
  - apply Hframe; [eapply lookup_lt; eassumption|].
    intros H. apply Hdoc_not. now right.
  - apply Hframe; [eapply lookup_lt; eassumption | exact Hlt_not].
  - exact Hframe.
Qed.

Lemma apply_defaults_frame_witness :
  exists st',
    apply_defaults (VRef 0%nat) stored_shop = Ok VNone st' /\
    lookup 0%nat st' = lookup 0%nat stored_shop /\
    lookup 1%nat st' = lookup 1%nat stored_shop.
Proof.
  destruct (apply_defaults_frame stored_shop 0%nat 1%nat stored_shop_layout
              stored_shop_shape) as (st' & Hrun & H0 & H1 & _).
  exists st'. now repeat split.
Defined.

(** X20.  [apply_defaults] is idempotent on a schema laid out as a tree: a
    second call returns too, leaves every table as the first call left
    it, and puts under every column key a new dictionary that holds what
    the dictionary of the first call holds. *)
Theorem apply_defaults_idempotent (st : store) (doc lt : loc) (lay : layout) :
  schema_shape st doc lt lay ->
  exists st1 st2,
    apply_defaults (VRef doc) st = Ok VNone st1 /\
    apply_defaults_twice (VRef doc) st = Ok VNone st2 /\
    forall n t c, In (n, t, c) lay ->
      (exists td, lookup t st1 = Some (ODict td) /\
                  lookup t st2 = Some (ODict td)) /\
      exists cols1 cols2,
        lookup c st1 = Some (ODict cols1) /\
        lookup c st2 = Some (ODict cols2) /\
        keys cols2 = keys cols1 /\
        forall k y, get k cols1 = Some (VRef y) ->
          exists z column,
            get k cols2 = Some (VRef z) /\
            lookup y st1 = Some (ODict column) /\
            lookup z st2 = Some (ODict column).
Proof.
  intros Hshape.
  destruct (apply_defaults_spec _ _ _ _ Hshape)
    as (st1 & Hrun1 & Hlen1 & Hframe1 & Hdone1).
  pose proof (schema_shape_after _ _ _ _ _ Hshape Hlen1 Hframe1 Hdone1) as Hshape1.
  destruct (apply_defaults_spec _ _ _ _ Hshape1)
    as (st2 & Hrun2 & Hlen2 & Hframe2 & Hdone2).
  exists st1, st2. split; [exact Hrun1|]. split.
  { unfold apply_defaults_twice. now rewrite (bind_Ok _ _ _ _ _ Hrun1). }
  intros n t c Hin.
  destruct Hshape as (_ & _ & _ & Htables).
  destruct (Htables n t c Hin) as (td & cols & Ht & _ & Hcols & Hndc & Hcolumns).
  destruct (Hdone1 n t c Hin td cols Ht Hcols)
    as (Htd1 & cols1 & Hc1 & Hkeys1 & Hcol1).
  destruct (Hdone2 n t c Hin _ cols1 Htd1 Hc1)
    as (Htd2 & cols2 & Hc2 & Hkeys2 & Hcol2).
  rewrite table_defaults_idem in Htd2.
  split; [now exists (table_defaults n td)|].
  exists cols1, cols2. repeat split; try assumption.
  intros k y Hy.
  assert (Hkin : In k (keys cols)).
  { rewrite <- Hkeys1. eapply get_Some_In; eassumption. }
  destruct (In_get _ _ Hkin) as (v0 & Hv0).
  destruct (Hcolumns k v0 (get_In _ _ _ Hv0)) as (x & cd & -> & Hx & _).
  destruct (Hcol1 k x cd Hv0 Hx) as (y' & Hy' & _ & Hcontent).
  rewrite Hy in Hy'. injection Hy' as <-.
  destruct (Hcol2 k y _ Hy Hcontent) as (z & Hz & _ & Hz').
  rewrite column_defaults_idem in Hz'.
  now exists z, (column_defaults k cd).
Qed.

Lemma apply_defaults_idempotent_witness :
  exists st1 st2,
    apply_defaults (VRef 0%nat) stored_shop = Ok VNone st1 /\
    apply_defaults_twice (VRef 0%nat) stored_shop = Ok VNone st2 /\
    exists td, lookup 2%nat st1 = Some (ODict td) /\
               lookup 2%nat st2 = Some (ODict td).
Proof.
  destruct (apply_defaults_idempotent stored_shop 0%nat 1%nat stored_shop_layout
              stored_shop_shape) as (st1 & st2 & H1 & H2 & H).
  exists st1, st2. split; [exact H1|]. split; [exact H2|].
  exact (proj1 (H "orders" 2%nat 3%nat (or_introl eq_refl))).
Defined.

(** *** When it fails *)

Lemma getitem_missing l d k st :
  lookup l st = Some (ODict d) -> get k d = None ->
  getitem (VRef l) k st = Raise (KeyError k) st.
Proof.
  intros Hl Hk. unfold getitem.
  rewrite (bind_Ok _ _ _ _ _ (deref_ok _ _ _ Hl)). now rewrite Hk.
Qed.

(** X21.  [apply_defaults] is not undone when it fails.  When the first
    table has no [columns], the call raises [KeyError], and that table
    has got its name and its write disposition all the same; nothing else
    is changed. *)
Theorem apply_defaults_missing_columns (st : store) (doc lt t : loc)
    (dd td : dict val) (n : string) (rest : dict val) :
  lookup doc st = Some (ODict dd) ->
  get "tables" dd = Some (VRef lt) ->
  lookup lt st = Some (ODict ((n, VRef t) :: rest)) ->
  lookup t st = Some (ODict td) ->
  get "columns" td = None ->
  apply_defaults (VRef doc) st
  = Raise (Py (KeyError "columns"))
      (update t (ODict (table_defaults n td)) st).
Proof.
  intros Hdoc Htables Hlt Ht Hc.
  assert (Hbody : apply_table_defaults n (VRef t) st
                  = Raise (Py (KeyError "columns"))
                      (update t (ODict (table_defaults n td)) st)).
  { unfold apply_table_defaults. rewrite (table_head_ok _ _ _ _ _ Ht).
    apply bind_py_Raise. eapply getitem_missing.
    - apply lookup_update_eq. eapply lookup_lt; eassumption.
    - now rewrite get_columns_table_defaults. }
  unfold apply_defaults.
  rewrite (bind_py_Ok _ _ _ _ _ (getitem_ok _ _ _ _ _ Hdoc Htables)).
  apply bind_Raise. unfold for_items.
  rewrite (bind_py_Ok _ _ _ _ _ (deref_ok _ _ _ Hlt)).
  cbn [List.length items_loop].
  rewrite (bind_py_Ok _ _ _ _ _
             (check_size_ok _ ((n, VRef t) :: rest) _ Hlt)).
  rewrite (bind_py_Ok _ _ _ _ _ (deref_ok _ _ _ Hlt)).
  cbn [nth_error]. now apply bind_Raise.
Qed.

Lemma apply_defaults_missing_columns_witness :
  apply_defaults (VRef 0%nat) broken_shop
  = Raise (Py (KeyError "columns"))
      (update 2%nat
         (ODict (table_defaults "orders" [("description", VStr "orders")]))
         broken_shop).
Proof.
  apply (apply_defaults_missing_columns broken_shop 0%nat 1%nat 2%nat
           [("tables", VRef 1%nat)] [("description", VStr "orders")]
           "orders" []);
    reflexivity.
Defined.

(** *** From stored form to working form and back *)

Lemma kept_stored_entry (c : dict val) j v :
  stored_form c -> get j c = Some v ->
  is_False v && negb (String.eqb j "nullable") = false.
Proof.
  intros (_ & _ & Hfalse) Hj.
  destruct v as [|[|]| | |]; try reflexivity.
  rewrite (Hfalse j Hj). reflexivity.
Qed.

Lemma default_dropped j v :
  get j hint_defaults = Some v ->
  is_False v && negb (String.eqb j "nullable") = true.
Proof.
  intros H.
  assert (Hv : v = VBool false /\ j <> "nullable").
  { simpl in H.
    repeat match type of H with
           | context [String.eqb j ?s] =>
               let E := fresh "E" in
               destruct (String.eqb j s) eqn:E;
               [apply String.eqb_eq in E; subst j; injection H as <-;
                split; [reflexivity | discriminate]|]
           end.
    discriminate. }
  destruct Hv as [-> Hj]. apply String.eqb_neq in Hj. now rewrite Hj.
Qed.

(** X22.  A column in stored form comes back from the working form as it
    was: expanding it with [add_missing_hints], giving it its key as its
    name, and collapsing the result by the rule of [remove_defaults]
    leaves a dictionary with the entries of the stored column and no
    other (their order apart), and the stored column itself is not
    touched. *)
Theorem stored_column_round_trip (st : store) (l : loc) (c : dict val)
    (column_name : string) :
  lookup l st = Some (ODict c) ->
  stored_form c ->
  exists st' c',
    expand_collapse (VRef l) column_name st
    = Ok (VRef (List.length st)) st' /\
    lookup (List.length st) st' = Some (ODict c') /\
    equiv c' c /\
    lookup l st' = Some (ODict c).
Proof.
  intros Hl Hstored. pose proof Hstored as (Hnd & Hname & Hfalse).
  unfold expand_collapse.
  rewrite (bind_Ok _ _ _ _ _ (add_missing_hints_ok _ _ _ Hl)).
  assert (Hy : lookup (List.length st) (st ++ [ODict (merge hint_defaults c)])
               = Some (ODict (merge hint_defaults c))) by apply lookup_app_new.
  rewrite (bind_Ok _ _ _ _ _ (setitem_ok _ _ "name" (VStr column_name) _ Hy)).
  rewrite update_app_new. fold (column_defaults column_name c).
  set (w := column_defaults column_name c).
  assert (Hw : lookup (List.length st) (st ++ [ODict w]) = Some (ODict w))
    by apply lookup_app_new.
  assert (Hndw : NoDup (keys w)) by apply NoDup_keys_column_defaults.
  assert (Hnw : In "name" (keys w)).
  { eapply get_Some_In. apply column_defaults_get. }
  rewrite (bind_Ok _ _ _ _ _ (remove_column_defaults_spec _ _ _ Hw Hndw Hnw)).
  rewrite update_app_new.
  exists (st ++ [ODict (stored_column w)]), (stored_column w).
  split; [reflexivity|]. split; [apply lookup_app_new|]. split.
  - intros j. rewrite (get_stored_column j w Hndw). unfold w.
    destruct (String.eqb "name" j) eqn:E.
    + apply String.eqb_eq in E. subst j. now rewrite Hname.
    + apply String.eqb_neq in E.
      rewrite (proj2 (column_defaults_get column_name c) Hnd j)
        by congruence.
      destruct (get j c) as [v|] eqn:Hj.
      * now rewrite (kept_stored_entry c j v Hstored Hj).
      * destruct (get j hint_defaults) as [v|] eqn:Hd; [|reflexivity].
        now rewrite (default_dropped j v Hd).
  - rewrite lookup_app_old; [exact Hl | eapply lookup_lt; eassumption].
Qed.

Lemma stored_column_round_trip_witness :
  exists st' c',
    expand_collapse (VRef 4%nat) "id" stored_shop = Ok (VRef 7%nat) st' /\
    lookup 7%nat st' = Some (ODict c') /\
    equiv c' stored_id /\
    lookup 4%nat st' = Some (ODict stored_id).
Proof.
  apply (stored_column_round_trip stored_shop 4%nat stored_id "id").
  - reflexivity.
  - repeat split.
    + repeat (constructor; [simpl; intuition discriminate|]). constructor.
    + intros k. simpl.
      repeat match goal with
             | |- context [String.eqb k ?s] =>
                 let E := fresh "E" in
                 destruct (String.eqb k s) eqn:E;
                 [apply String.eqb_eq in E; subst k;
                  intros H; first [discriminate H | reflexivity]|]
             end.
      discriminate.
Defined.

End DefaultsMore.

(* ===================================================================== *)
(** ** What [deepcopy] builds *)
(* ===================================================================== *)

Module CopyFacts.
Import PyDict PyDictFacts PyMonad PyMonadFacts Store StoreFacts StoreSpec.
Import HintFacts DefaultsFacts CopySpec.

Local Open Scope list_scope.

(** *** The memo *)

Lemma memo_agrees_refl m : memo_agrees m m.
Proof. intros x y H. exact H. Qed.

Lemma memo_agrees_trans m1 m2 m3 :
  memo_agrees m1 m2 -> memo_agrees m2 m3 -> memo_agrees m1 m3.
Proof. intros H1 H2 x y H. auto. Qed.

Lemma memo_agrees_cons m (x y : loc) :
  memo_get x m = None -> memo_agrees m ((x, y) :: m).
Proof.
  intros Hx x' y' H. simpl. destruct (x' =? x)%nat eqn:E; [|exact H].
  apply Nat.eqb_eq in E. congruence.
Qed.

Lemma image_agrees m m' v :
  known m v -> memo_agrees m m' -> image m' v = image m v.
Proof.
  destruct v as [| | | |x]; try reflexivity. simpl. intros Hk Ha.
  destruct (memo_get x m) as [y|] eqn:E; [|congruence].
  now rewrite (Ha _ _ E).
Qed.

Lemma known_agrees m m' v : known m v -> memo_agrees m m' -> known m' v.
Proof.
  destruct v as [| | | |x]; try (intros; exact I). simpl. intros Hk Ha.
  destruct (memo_get x m) as [y|] eqn:E; [|congruence].
  rewrite (Ha _ _ E). discriminate.
Qed.

Lemma Forall_known_agrees m m' vs :
  Forall (known m) vs -> memo_agrees m m' -> Forall (known m') vs.
Proof.
  intros H Ha. eapply Forall_impl; [|exact H].
  intros v Hv. eapply known_agrees; eassumption.
Qed.

Lemma map_image_agrees m m' vs :
  Forall (known m) vs -> memo_agrees m m' ->
  map (image m') vs = map (image m) vs.
Proof.
  intros H Ha. induction H as [|v vs Hv _ IH]; simpl; [reflexivity|].
  now rewrite IH, (image_agrees m m' v Hv Ha).
Qed.

Lemma map_image_entry_agrees m m' (d : dict val) :
  Forall (known m) (values d) -> memo_agrees m m' ->
  map (image_entry m') d = map (image_entry m) d.
Proof.
  intros H Ha. induction d as [|[k v] d IH]; simpl; [reflexivity|].
  inversion H as [|? ? Hv Hd]; subst.
  unfold image_entry at 1 3. simpl.
  now rewrite (IH Hd), (image_agrees m m' v Hv Ha).
Qed.

Lemma image_obj_agrees m m' o :
  Forall (known m) (obj_vals o) -> memo_agrees m m' ->
  image_obj m' o = image_obj m o.
Proof.
  intros H Ha. destruct o as [d|l]; simpl.
  - now rewrite (map_image_entry_agrees m m' d H Ha).
  - now rewrite (map_image_agrees m m' l H Ha).
Qed.

Lemma keys_image m (d : dict val) : keys (map (image_entry m) d) = keys d.
Proof. unfold keys. rewrite map_map. reflexivity. Qed.

Lemma copy_of_agrees st0 st st' m m' x y :
  copy_of st0 st m x y -> memo_agrees m m' ->
  lookup y st' = lookup y st ->
  copy_of st0 st' m' x y.
Proof.
  intros (o & Hx & Hk & Hy) Ha Hl. exists o. split; [exact Hx|]. split.
  - eapply Forall_known_agrees; eassumption.
  - rewrite Hl, Hy. now rewrite (image_obj_agrees m m' o Hk Ha).
Qed.

Lemma bind_alloc {B} o (f : loc -> S B) st :
  bind (alloc o) f st = f (List.length st) (st ++ [o]).
Proof. reflexivity. Qed.

Lemma append_ok y l x st :
  lookup y st = Some (OList l) ->
  append y x st = Ok tt (update y (OList (l ++ [x])) st).
Proof.
  intros Hy. unfold append.
  now rewrite (bind_Ok _ _ _ _ _ (deref_ok _ _ _ Hy)).
Qed.

Lemma lookup_Some_lt l (st : store) :
  (l < List.length st)%nat -> exists o, lookup l st = Some o.
Proof.
  intros H. unfold lookup. destruct (nth_error st l) eqn:E; [eauto|].
  apply nth_error_None in E. lia.
Qed.

Lemma unchanged_length st0 st :
  unchanged st0 st -> (List.length st0 <= List.length st)%nat.
Proof.
  intros H. destruct (List.length st0) as [|n] eqn:E; [lia|].
  assert (Hn : (n < List.length st0)%nat) by lia.
  destruct (lookup_Some_lt n st0 Hn) as (o & Ho).
  rewrite <- (H n Hn) in Ho. apply lookup_lt in Ho. lia.
Qed.

(** Writing to the copy of an object whose children are being copied
    keeps the copy under way as it is. *)
Lemma copying_update st0 st m pend x y o :
  copying st0 st m pend -> In x pend -> memo_get x m = Some y ->
  copying st0 (update y o st) m pend.
Proof.
  intros (Hun & Hb & H11 & Hcp) Hx Hy.
  destruct (Hb x y Hy) as (_ & Hy0 & _).
  split; [|split; [|split]].
  - intros l Hl. rewrite lookup_update_ne by lia. now apply Hun.
  - intros x' y' H'. rewrite length_update. now apply Hb.
  - exact H11.
  - intros x' y' H'. destruct (Hcp x' y' H') as [Hp | Hc]; [now left|].
    destruct (Nat.eq_dec y' y) as [-> | Hne].
    + left. now rewrite (H11 x' x y H' Hy).
    + right. eapply copy_of_agrees;
        [exact Hc | apply memo_agrees_refl | apply lookup_update_ne; congruence].
Qed.

(** Entering a new object in the memo, with its new, empty copy. *)
Lemma copying_enter st0 st m pend x o :
  copying st0 st m pend -> (x < List.length st0)%nat -> memo_get x m = None ->
  copying st0 (st ++ [o]) ((x, List.length st) :: m) (x :: pend).
Proof.
  intros (Hun & Hb & H11 & Hcp) Hx Hnone.
  pose proof (unchanged_length _ _ Hun) as Hlen.
  split; [|split; [|split]].
  - intros l Hl. rewrite lookup_app_old by lia. now apply Hun.
  - intros x' y'. simpl. rewrite length_app. simpl.
    destruct (x' =? x)%nat eqn:E.
    + apply Nat.eqb_eq in E. intros [= <-]. subst. lia.
    + intros H'. destruct (Hb x' y' H'). lia.
  - intros x1 x2 y'. simpl.
    destruct (x1 =? x)%nat eqn:E1, (x2 =? x)%nat eqn:E2; intros H1 H2.
    + apply Nat.eqb_eq in E1, E2. congruence.
    + injection H1 as <-. destruct (Hb x2 _ H2). lia.
    + injection H2 as <-. destruct (Hb x1 _ H1). lia.
    + eapply H11; eassumption.
  - intros x' y'. simpl. destruct (x' =? x)%nat eqn:E.
    + apply Nat.eqb_eq in E. subst. intros _. left. now left.
    + intros H'. destruct (Hcp x' y' H') as [Hp | Hc]; [left; now right|].
      right. eapply copy_of_agrees;
        [exact Hc | now apply memo_agrees_cons |].
      destruct (Hb x' y' H'). apply lookup_app_old. lia.
Qed.

(** The copy of an object is finished: the object is no longer one of
    those whose children are being copied. *)
Lemma copying_leave st0 st m pend x y :
  copying st0 st m (x :: pend) -> memo_get x m = Some y ->
  copy_of st0 st m x y ->
  copying st0 st m pend.
Proof.
  intros (Hun & Hb & H11 & Hcp) Hy Hc.
  split; [exact Hun|]. split; [exact Hb|]. split; [exact H11|].
  intros x' y' H'. destruct (Hcp x' y' H') as [[<- | Hp] | Hc']; auto.
  right. rewrite Hy in H'. now injection H' as <-.
Qed.

Section Copy.
Variable st0 : store.
Hypothesis st0_closed : closed st0.
Hypothesis st0_keys : distinct_keys st0.

Local Abbreviation n0 := (List.length st0).

Section Children.
Variable rec : val -> memo -> S (val * memo).
Variable pend : list loc.
Hypothesis rec_ok : forall v m st,
  old_val n0 v -> copying st0 st m pend ->
  match rec v m st with
  | Ok r st' => copied_as st0 st pend v m r st'
  | Raise _ _ => False
  | OutOfFuel => True
  end.

(** The loop that copies the entries of a dictionary into its copy. *)
Lemma copy_items_ok x y : forall suf pre m st,
  In x pend -> memo_get x m = Some y ->
  copying st0 st m pend ->
  lookup y st = Some (ODict (map (image_entry m) pre)) ->
  Forall (known m) (values pre) ->
  NoDup (keys (pre ++ suf)) ->
  Forall (old_val n0) (values suf) ->
  match copy_items rec y suf m st with
  | Ok m' st' =>
      copying st0 st' m' pend /\ memo_agrees m m' /\
      (List.length st <= List.length st')%nat /\
      (forall l, (l < List.length st)%nat -> l <> y ->
                 lookup l st' = lookup l st) /\
      lookup y st' = Some (ODict (map (image_entry m') (pre ++ suf))) /\
      Forall (known m') (values (pre ++ suf))
  | Raise _ _ => False
  | OutOfFuel => True
  end.
Proof.
  induction suf as [|[k v] suf IH]; intros pre m st Hx Hy Hcop Hly Hkn Hnd Hold.
  - cbn [copy_items]. unfold ret. rewrite app_nil_r.
    split; [exact Hcop|]. split; [apply memo_agrees_refl|].
    split; [lia|]. split; [auto|]. split; assumption.
  - cbn [copy_items]. unfold bind at 1.
    inversion Hold as [|? ? Hv Hold']; subst.
    pose proof (rec_ok v m st Hv Hcop) as Hrec.
    destruct (rec v m st) as [[v' m1] st1|e st1|]; [|contradiction | exact I].
    destruct Hrec as (Hv' & Hkv & Hcop1 & Hag & Hlen & Hfr). cbn [fst snd] in *.
    assert (Hy_lt : (y < List.length st)%nat).
    { destruct Hcop as (_ & Hb & _). now destruct (Hb x y Hy). }
    assert (Hly1 : lookup y st1 = Some (ODict (map (image_entry m) pre))).
    { now rewrite Hfr. }
    rewrite (bind_Ok _ _ _ _ _ (setitem_ok _ _ k v' _ Hly1)).
    assert (Hk : get k (map (image_entry m) pre) = None).
    { apply get_None_not_In. rewrite keys_image.
      apply NoDup_keys_middle in Hnd. now apply get_None_not_In. }
    rewrite (set_absent _ _ _ Hk).
    assert (Hpre : (map (image_entry m) pre ++ [(k, v')])
                   = map (image_entry m1) (pre ++ [(k, v)])).
    { rewrite map_app, (map_image_entry_agrees m m1 pre Hkn Hag).
      simpl. unfold image_entry at 2. simpl. now rewrite Hv'. }
    rewrite Hpre.
    set (st2 := update y (ODict (map (image_entry m1) (pre ++ [(k, v)]))) st1).
    assert (Hy1 : memo_get x m1 = Some y) by now apply Hag.
    assert (Hcop2 : copying st0 st2 m1 pend) by now apply copying_update with (x := x).
    assert (Hly2 : lookup y st2
                   = Some (ODict (map (image_entry m1) (pre ++ [(k, v)])))).
    { apply lookup_update_eq. lia. }
    assert (Hkn2 : Forall (known m1) (values (pre ++ [(k, v)]))).
    { unfold values. rewrite map_app. apply Forall_app. split.
      - eapply Forall_known_agrees; eassumption.
      - repeat constructor. exact Hkv. }
    assert (Hnd2 : NoDup (keys ((pre ++ [(k, v)]) ++ suf))).
    { now rewrite <- app_assoc. }
    pose proof (IH (pre ++ [(k, v)]) m1 st2 Hx Hy1 Hcop2 Hly2 Hkn2 Hnd2 Hold')
      as Hrest.
    destruct (copy_items rec y suf m1 st2) as [m' st'|e st'|];
      [|contradiction | exact I].
    destruct Hrest as (Hcop' & Hag' & Hlen' & Hfr' & Hly' & Hkn').
    assert (Hlen2 : List.length st2 = List.length st1) by apply length_update.
    rewrite <- app_assoc in Hly', Hkn'. simpl in Hly', Hkn'.
    split; [exact Hcop'|]. split; [eapply memo_agrees_trans; eassumption|].
    split; [lia|]. split; [|split; assumption].
    intros l Hl Hne. rewrite Hfr' by (try lia; assumption).
    unfold st2. rewrite lookup_update_ne by congruence. now apply Hfr.
Qed.

(** The loop that copies the items of a list into its copy. *)
Lemma copy_elems_ok x y : forall suf pre m st,
  In x pend -> memo_get x m = Some y ->
  copying st0 st m pend ->
  lookup y st = Some (OList (map (image m) pre)) ->
  Forall (known m) pre ->
  Forall (old_val n0) suf ->
  match copy_elems rec y suf m st with
  | Ok m' st' =>
      copying st0 st' m' pend /\ memo_agrees m m' /\
      (List.length st <= List.length st')%nat /\
      (forall l, (l < List.length st)%nat -> l <> y ->
                 lookup l st' = lookup l st) /\
      lookup y st' = Some (OList (map (image m') (pre ++ suf))) /\
      Forall (known m') (pre ++ suf)
  | Raise _ _ => False
  | OutOfFuel => True
  end.
Proof.
  induction suf as [|v suf IH]; intros pre m st Hx Hy Hcop Hly Hkn Hold.
  - cbn [copy_elems]. unfold ret. rewrite app_nil_r.
    split; [exact Hcop|]. split; [apply memo_agrees_refl|].
    split; [lia|]. split; [auto|]. split; assumption.
  - cbn [copy_elems]. unfold bind at 1.
    inversion Hold as [|? ? Hv Hold']; subst.
    pose proof (rec_ok v m st Hv Hcop) as Hrec.
    destruct (rec v m st) as [[v' m1] st1|e st1|]; [|contradiction | exact I].
    destruct Hrec as (Hv' & Hkv & Hcop1 & Hag & Hlen & Hfr). cbn [fst snd] in *.
    assert (Hy_lt : (y < List.length st)%nat).
    { destruct Hcop as (_ & Hb & _). now destruct (Hb x y Hy). }
    assert (Hly1 : lookup y st1 = Some (OList (map (image m) pre))).
    { now rewrite Hfr. }
    rewrite (bind_Ok _ _ _ _ _ (append_ok _ _ v' _ Hly1)).
    assert (Hpre : (map (image m) pre ++ [v'])
                   = map (image m1) (pre ++ [v])).
    { rewrite map_app, (map_image_agrees m m1 pre Hkn Hag).
      simpl. now rewrite Hv'. }
    rewrite Hpre.
    set (st2 := update y (OList (map (image m1) (pre ++ [v]))) st1).
    assert (Hy1 : memo_get x m1 = Some y) by now apply Hag.
    assert (Hcop2 : copying st0 st2 m1 pend) by now apply copying_update with (x := x).
    assert (Hly2 : lookup y st2 = Some (OList (map (image m1) (pre ++ [v])))).
    { apply lookup_update_eq. lia. }
    assert (Hkn2 : Forall (known m1) (pre ++ [v])).
    { apply Forall_app. split.
      - eapply Forall_known_agrees; eassumption.
      - repeat constructor. exact Hkv. }
    pose proof (IH (pre ++ [v]) m1 st2 Hx Hy1 Hcop2 Hly2 Hkn2 Hold') as Hrest.
    destruct (copy_elems rec y suf m1 st2) as [m' st'|e st'|];
      [|contradiction | exact I].
    destruct Hrest as (Hcop' & Hag' & Hlen' & Hfr' & Hly' & Hkn').
    assert (Hlen2 : List.length st2 = List.length st1) by apply length_update.
    rewrite <- app_assoc in Hly', Hkn'. simpl in Hly', Hkn'.
    split; [exact Hcop'|]. split; [eapply memo_agrees_trans; eassumption|].
    split; [lia|]. split; [|split; assumption].
    intros l Hl Hne. rewrite Hfr' by (try lia; assumption).
    unfold st2. rewrite lookup_update_ne by congruence. now apply Hfr.
Qed.

End Children.

Lemma copied_as_same st pend v m :
  copying st0 st m pend -> known m v ->
  copied_as st0 st pend v m (image m v, m) st.
Proof.
  intros Hcop Hk. split; [reflexivity|]. split; [exact Hk|].
  split; [exact Hcop|]. split; [apply memo_agrees_refl|]. split; auto.
Qed.

(** [deepcopy_memo] neither raises nor changes an object that was there
    when it was called; when it returns, what it returns is the copy of
    its argument under the memo it returns, and every object it has
    entered in the memo has its finished copy. *)
Lemma deepcopy_memo_ok fuel : forall pend v m st,
  old_val n0 v -> copying st0 st m pend ->
  match deepcopy_memo fuel v m st with
  | Ok r st' => copied_as st0 st pend v m r st'
  | Raise _ _ => False
  | OutOfFuel => True
  end.
Proof.
  induction fuel as [|fuel IH]; intros pend v m st Hv Hcop.
  - destruct v as [| | | |x];
      try (match goal with
           | |- context [deepcopy_memo _ ?a _ _] =>
               exact (copied_as_same st pend a m Hcop I)
           end).
    cbn [deepcopy_memo]. destruct (memo_get x m) as [y|] eqn:E; [|exact I].
    assert (Hk : known m (VRef x)) by (simpl; congruence).
    pose proof (copied_as_same st pend _ m Hcop Hk) as H.
    simpl in H. rewrite E in H. exact H.
  - destruct v as [| | | |x];
      try (match goal with
           | |- context [deepcopy_memo _ ?a _ _] =>
               exact (copied_as_same st pend a m Hcop I)
           end).
    cbn [deepcopy_memo]. destruct (memo_get x m) as [y|] eqn:E.
    { assert (Hk : known m (VRef x)) by (simpl; congruence).
      pose proof (copied_as_same st pend _ m Hcop Hk) as H.
      simpl in H. rewrite E in H. exact H. }
    simpl in Hv.
    destruct (lookup_Some_lt x st0 Hv) as (o & Ho).
    assert (Hun : unchanged st0 st) by apply Hcop.
    assert (Hos : lookup x st = Some o) by now rewrite Hun.
    rewrite (bind_Ok _ _ _ _ _ (deref_ok _ _ _ Hos)).
    pose proof (st0_closed _ _ Ho) as Hchildren.
    pose proof (unchanged_length _ _ Hun) as Hlen0.
    set (y := List.length st).
    destruct o as [d|l].
    + (* a dictionary *)
      rewrite bind_alloc. cbv beta. fold y.
      set (st1 := st ++ [ODict []]).
      match goal with
      | |- context [copy_items _ _ _ ?mm] => set (m1 := mm)
      end.
      assert (Hcop1 : copying st0 st1 m1 (x :: pend))
        by now apply copying_enter.
      assert (Hy1 : memo_get x m1 = Some y).
      { unfold m1. simpl. now rewrite Nat.eqb_refl. }
      assert (Hly1 : lookup y st1 = Some (ODict (map (image_entry m1) []))).
      { apply lookup_app_new. }
      pose proof (copy_items_ok (deepcopy_memo fuel) (x :: pend)
                    (IH (x :: pend)) x y d [] m1 st1 (or_introl eq_refl)
                    Hy1 Hcop1 Hly1 (Forall_nil _) (st0_keys _ _ Ho) Hchildren)
        as Hitems.
      unfold bind at 1.
      destruct (copy_items (deepcopy_memo fuel) y d m1 st1) as [m' st'|e st'|];
        [|contradiction | exact I].
      destruct Hitems as (Hcop' & Hag & Hlen & Hfr & Hly & Hkn).
      cbn [app] in Hly, Hkn. unfold ret.
      assert (Hy' : memo_get x m' = Some y) by now apply Hag.
      assert (Hlen1 : List.length st1 = Datatypes.S (List.length st)).
      { unfold st1. rewrite length_app. simpl. lia. }
      split; [|split; [|split; [|split; [|split]]]]; cbn [fst snd].
      * simpl. now rewrite Hy'.
      * simpl. congruence.
      * apply (copying_leave _ _ _ _ x y Hcop' Hy').
        exists (ODict d). now repeat split.
      * eapply memo_agrees_trans; [|exact Hag]. now apply memo_agrees_cons.
      * lia.
      * intros l0 Hl0. rewrite Hfr by (unfold y; lia).
        unfold st1. now apply lookup_app_old.
    + (* a list *)
      rewrite bind_alloc. cbv beta. fold y.
      set (st1 := st ++ [OList []]).
      match goal with
      | |- context [copy_elems _ _ _ ?mm] => set (m1 := mm)
      end.
      assert (Hcop1 : copying st0 st1 m1 (x :: pend))
        by now apply copying_enter.
      assert (Hy1 : memo_get x m1 = Some y).
      { unfold m1. simpl. now rewrite Nat.eqb_refl. }
      assert (Hly1 : lookup y st1 = Some (OList (map (image m1) []))).
      { apply lookup_app_new. }
      pose proof (copy_elems_ok (deepcopy_memo fuel) (x :: pend)
                    (IH (x :: pend)) x y l [] m1 st1 (or_introl eq_refl)
                    Hy1 Hcop1 Hly1 (Forall_nil _) Hchildren)
        as Hitems.
      unfold bind at 1.
      destruct (copy_elems (deepcopy_memo fuel) y l m1 st1) as [m' st'|e st'|];
        [|contradiction | exact I].
      destruct Hitems as (Hcop' & Hag & Hlen & Hfr & Hly & Hkn).
      cbn [app] in Hly, Hkn. unfold ret.
      assert (Hy' : memo_get x m' = Some y) by now apply Hag.
      assert (Hlen1 : List.length st1 = Datatypes.S (List.length st)).
      { unfold st1. rewrite length_app. simpl. lia. }
      split; [|split; [|split; [|split; [|split]]]]; cbn [fst snd].
      * simpl. now rewrite Hy'.
      * simpl. congruence.
      * apply (copying_leave _ _ _ _ x y Hcop' Hy').
        exists (OList l). now repeat split.
      * eapply memo_agrees_trans; [|exact Hag]. now apply memo_agrees_cons.
      * lia.
      * intros l0 Hl0. rewrite Hfr by (unfold y; lia).
        unfold st1. now apply lookup_app_old.
Qed.

(** [deepcopy] returns, and what it builds is a copy: there is a one to
    one mapping of the objects reached to new objects, under which every
    new object holds what the old one holds, and the old objects are as
    they were. *)
Lemma deepcopy_isomorphic v :
  old_val n0 v ->
  exists m st,
    deepcopy v st0 = Ok (image m v) st /\ known m v /\
    isomorphic st0 st m.
Proof.
  intros Hv.
  assert (Hcop0 : copying st0 st0 [] []).
  { split; [|split; [|split]].
    - intros l _. reflexivity.
    - intros x y [=].
    - intros x x' y [=].
    - intros x y [=]. }
  pose proof (deepcopy_memo_ok (Datatypes.S n0) [] v [] st0 Hv Hcop0) as Hok.
  pose proof (FrameFacts.keeps_deepcopy st0 st0_closed v Hv st0
                (FrameFacts.frame_refl st0)) as Hkeeps.
  unfold deepcopy, bind in *.
  destruct (deepcopy_memo (Datatypes.S n0) v [] st0) as [[v' m] st|e st|];
    [|contradiction | contradiction].
  destruct Hok as (Hv' & Hk & Hcop & _). cbn [fst snd] in *.
  exists m, st. unfold ret. now rewrite Hv'.
Qed.

End Copy.

End CopyFacts.

(* ===================================================================== *)
(** ** What [remove_defaults] stores *)
(* ===================================================================== *)

Module StoredFacts.
Import PyDict PyDictFacts PyMonad PyMonadFacts Store StoreFacts StoreSpec.
Import HintSpec HintFacts DefaultsFacts CopySpec CopyFacts StoredSpec.

Local Open Scope list_scope.

(** *** Lists without repetition *)

Lemma NoDup_app_l {A} (a b : list A) : NoDup (a ++ b) -> NoDup a.
Proof.
  induction a as [|x a IH]; simpl; intros H; [constructor|].
  inversion H as [|? ? Hx Ha]; subst. constructor.
  - intros Hin. apply Hx. apply in_or_app. now left.
  - now apply IH.
Qed.

Lemma NoDup_app_r {A} (a b : list A) : NoDup (a ++ b) -> NoDup b.
Proof.
  induction a as [|x a IH]; simpl; intros H; [assumption|].
  inversion H; subst. now apply IH.
Qed.

Lemma NoDup_app_disjoint {A} (a b : list A) x :
  NoDup (a ++ b) -> In x a -> ~ In x b.
Proof.
  induction a as [|y a IH]; simpl; intros H Hin; [destruct Hin|].
  inversion H as [|? ? Hy Ha]; subst. destruct Hin as [-> | Hin].
  - intros Hb. apply Hy. apply in_or_app. now right.
  - now apply IH.
Qed.

(** *** The columns of one table *)

Lemma check_size_same l d st :
  lookup l st = Some (ODict d) -> check_size l (List.length d) st = Ok tt st.
Proof. apply check_size_ok. Qed.

(** The loop over the columns of a table, from any point on. *)
Lemma clean_columns_loop c D : forall (suf : list (string * loc)) st,
  lookup c st = Some (ODict D) ->
  NoDup (c :: map snd suf) ->
  (forall k x, In (k, x) suf ->
     exists cd, lookup x st = Some (ODict cd) /\
                In "name" (keys cd) /\ NoDup (keys cd)) ->
  exists st',
    values_loop c (List.length D) (values (columns_of suf))
      remove_column_defaults st = Ok tt st' /\
    List.length st' = List.length st /\
    (forall l, ~ In l (map snd suf) -> lookup l st' = lookup l st) /\
    (forall k x cd, In (k, x) suf -> lookup x st = Some (ODict cd) ->
                    lookup x st' = Some (ODict (stored_column cd))).
Proof.
  induction suf as [|[k x] suf IH]; intros st Hc Hnd Hcols.
  - exists st. cbn [columns_of map values values_loop].
    split; [now apply check_size_same|]. repeat split; auto.
    intros ? ? ? [].
  - destruct (Hcols k x (or_introl eq_refl)) as (cd & Hx & Hname & Hndk).
    cbn [map snd] in Hnd.
    apply NoDup_cons_iff in Hnd as [Hc_not Hnd].
    apply NoDup_cons_iff in Hnd as [Hx_not Hnd].
    assert (Hcx : c <> x) by (intros ->; apply Hc_not; now left).
    change (values (columns_of ((k, x) :: suf)))
      with (VRef x :: values (columns_of suf)).
    cbn [values_loop].
    rewrite (bind_Ok _ _ _ _ _ (check_size_same _ _ _ Hc)).
    rewrite (bind_Ok _ _ _ _ _ (remove_column_defaults_spec _ _ _ Hx Hndk Hname)).
    set (st1 := update x (ODict (stored_column cd)) st).
    assert (Hold : forall l, l <> x -> lookup l st1 = lookup l st).
    { intros l Hl. unfold st1. apply lookup_update_ne. congruence. }
    assert (Hc1 : lookup c st1 = Some (ODict D)) by now rewrite Hold.
    assert (Hnd1 : NoDup (c :: map snd suf)).
    { constructor; [|assumption]. intros H. apply Hc_not. now right. }
    assert (Hcols1 : forall k' x', In (k', x') suf ->
              exists cd', lookup x' st1 = Some (ODict cd') /\
                          In "name" (keys cd') /\ NoDup (keys cd')).
    { intros k' x' Hin. destruct (Hcols k' x' (or_intror Hin)) as (cd' & H1 & H2).
      exists cd'. split; [|exact H2]. rewrite Hold; [exact H1|].
      intros ->. apply Hx_not. apply in_map_iff. now exists (k', x). }
    destruct (IH st1 Hc1 Hnd1 Hcols1) as (st' & Hrun & Hlen & Hfr & Hdone).
    exists st'. split; [exact Hrun|].
    split; [rewrite Hlen; apply length_update|]. split.
    + intros l Hl. cbn [map snd In] in Hl.
      rewrite Hfr by tauto. apply Hold. intros ->. tauto.
    + intros k' x' cd' [[= -> ->] | Hin] Hx'.
      * rewrite Hfr by assumption.
        rewrite Hx in Hx'. injection Hx' as <-.
        apply lookup_update_eq. eapply lookup_lt; eassumption.
      * apply (Hdone k' x' cd' Hin). rewrite Hold; [exact Hx'|].
        intros ->. apply Hx_not. apply in_map_iff. now exists (k', x).
Qed.

(** *** One table *)

Lemma clean_table st (e : table_layout) :
  table_ready st e -> NoDup (table_objects e) ->
  exists st',
    remove_table_defaults (VRef (snd (fst (fst e)))) st = Ok tt st' /\
    List.length st' = List.length st /\
    (forall l, ~ In l (table_objects e) -> lookup l st' = lookup l st) /\
    table_cleaned st st' e.
Proof.
  destruct e as [[[n t] c] xs]. unfold table_ready, table_objects, table_cleaned.
  cbn [fst snd].
  intros ((td & Ht & Hname & Hcol) & Hc & Hcols) Hnd.
  assert (Hnd' := Hnd). apply NoDup_cons_iff in Hnd' as [Ht_not Hnd'].
  assert (Htc : t <> c) by (intros ->; apply Ht_not; now left).
  unfold remove_table_defaults.
  rewrite (bind_Ok _ _ _ _ _ (delitem_ok _ _ _ _ Ht Hname)).
  set (st1 := update t (ODict (remove "name" td)) st).
  assert (Ht1 : lookup t st1 = Some (ODict (remove "name" td))).
  { apply lookup_update_eq. eapply lookup_lt; eassumption. }
  assert (Hold : forall l, l <> t -> lookup l st1 = lookup l st).
  { intros l Hl. unfold st1. apply lookup_update_ne. congruence. }
  assert (Hcol1 : get "columns" (remove "name" td) = Some (VRef c)).
  { now rewrite get_remove_ne by discriminate. }
  rewrite (bind_Ok _ _ _ _ _ (getitem_ok _ _ _ _ _ Ht1 Hcol1)).
  assert (Hc1 : lookup c st1 = Some (ODict (columns_of xs))).
  { rewrite Hold by congruence. exact Hc. }
  unfold for_values.
  rewrite (bind_Ok _ _ _ _ _ (deref_ok _ _ _ Hc1)).
  assert (Hcols1 : forall k x, In (k, x) xs ->
            exists cd, lookup x st1 = Some (ODict cd) /\
                       In "name" (keys cd) /\ NoDup (keys cd)).
  { intros k x Hin. destruct (Hcols k x Hin) as (cd & H1 & H2).
    exists cd. split; [|exact H2]. rewrite Hold; [exact H1|].
    intros ->. apply Ht_not. right. apply in_map_iff. now exists (k, t). }
  destruct (clean_columns_loop c (columns_of xs) xs st1 Hc1 Hnd' Hcols1)
    as (st' & Hrun & Hlen & Hfr & Hdone).
  exists st'. split; [exact Hrun|].
  split; [rewrite Hlen; apply length_update|]. split; [|split; [|split]].
  - intros l Hl. cbn [In] in Hl.
    rewrite Hfr by tauto. apply Hold. intros ->. tauto.
  - intros td0 Ht0. rewrite Ht in Ht0. injection Ht0 as <-.
    rewrite Hfr; [exact Ht1|]. intros H. apply Ht_not. now right.
  - rewrite Hfr; [now apply Hold; congruence|].
    apply NoDup_cons_iff in Hnd' as [Hc_not _]. exact Hc_not.
  - intros k x cd Hin Hx. apply (Hdone k x cd Hin).
    rewrite Hold; [exact Hx|].
    intros ->. apply Ht_not. right. apply in_map_iff. now exists (k, t).
Qed.

(** *** The tables *)

Lemma table_ready_frame st st' e :
  (forall l, In l (table_objects e) -> lookup l st' = lookup l st) ->
  table_ready st e -> table_ready st' e.
Proof.
  destruct e as [[[n t] c] xs]. unfold table_ready, table_objects.
  cbn [fst snd].
  intros Hfr ((td & Ht & Hname & Hcol) & Hc & Hcols).
  split; [|split].
  - exists td. rewrite Hfr by now left. auto.
  - rewrite Hfr by (right; now left). exact Hc.
  - intros k x Hin. destruct (Hcols k x Hin) as (cd & H1 & H2).
    exists cd. split; [|exact H2]. rewrite Hfr; [exact H1|].
    right. right. apply in_map_iff. now exists (k, x).
Qed.

Lemma table_cleaned_frame st st1 st2 st3 e :
  (forall l, In l (table_objects e) -> lookup l st1 = lookup l st) ->
  (forall l, In l (table_objects e) -> lookup l st3 = lookup l st2) ->
  table_cleaned st1 st2 e -> table_cleaned st st3 e.
Proof.
  destruct e as [[[n t] c] xs]. unfold table_cleaned, table_objects.
  cbn [fst snd].
  intros H1 H3 (Ht & Hc & Hcols).
  assert (Hin : forall k x, In (k, x) xs -> In x (t :: c :: map snd xs)).
  { intros k x Hk. right. right. apply in_map_iff. now exists (k, x). }
  split; [|split].
  - intros td Htd. rewrite H3 by now left. apply Ht.
    now rewrite H1 by now left.
  - rewrite H3, Hc, H1 by (right; now left). reflexivity.
  - intros k x cd Hk Hx. rewrite H3 by (eapply Hin; eassumption).
    apply (Hcols k x cd Hk). now rewrite H1 by (eapply Hin; eassumption).
Qed.

Lemma objects_In lay e l :
  In e lay -> In l (table_objects e) -> In l (objects lay).
Proof.
  intros He Hl. unfold objects. apply in_flat_map. now exists e.
Qed.

(** The loop over the tables, from any point on. *)
Lemma clean_tables_loop lt D : forall (suf : layout) st,
  lookup lt st = Some (ODict D) ->
  NoDup (lt :: objects suf) ->
  (forall e, In e suf -> table_ready st e) ->
  exists st',
    values_loop lt (List.length D) (values (tables_of suf))
      remove_table_defaults st = Ok tt st' /\
    List.length st' = List.length st /\
    (forall l, ~ In l (objects suf) -> lookup l st' = lookup l st) /\
    (forall e, In e suf -> table_cleaned st st' e).
Proof.
  induction suf as [|e suf IH]; intros st Hlt Hnd Hready.
  - exists st. cbn [tables_of map values values_loop].
    split; [now apply check_size_same|]. split; [reflexivity|].
    split; [auto|]. intros ? [].
  - apply NoDup_cons_iff in Hnd as [Hlt_not Hnd].
    change (objects (e :: suf)) with (table_objects e ++ objects suf) in *.
    pose proof (NoDup_app_l _ _ Hnd) as Hnd_e.
    pose proof (NoDup_app_r _ _ Hnd) as Hnd_suf.
    pose proof (fun l => NoDup_app_disjoint _ _ l Hnd) as Hdisj.
    destruct (clean_table st e (Hready e (or_introl eq_refl)) Hnd_e)
      as (st1 & Hrun1 & Hlen1 & Hfr1 & Hdone1).
    change (values (tables_of (e :: suf)))
      with (VRef (snd (fst (fst e))) :: values (tables_of suf)).
    cbn [values_loop].
    rewrite (bind_Ok _ _ _ _ _ (check_size_same _ _ _ Hlt)).
    rewrite (bind_Ok _ _ _ _ _ Hrun1).
    assert (Hlt1 : lookup lt st1 = Some (ODict D)).
    { rewrite Hfr1; [exact Hlt|]. intros H. apply Hlt_not.
      apply in_or_app. now left. }
    assert (Hnd1 : NoDup (lt :: objects suf)).
    { constructor; [|exact Hnd_suf]. intros H. apply Hlt_not.
      apply in_or_app. now right. }
    assert (Hsame : forall e' l, In e' suf -> In l (table_objects e') ->
                                 lookup l st1 = lookup l st).
    { intros e' l He' Hl. apply Hfr1. intros H.
      apply (Hdisj l H). eapply objects_In; eassumption. }
    assert (Hready1 : forall e', In e' suf -> table_ready st1 e').
    { intros e' He'. apply (table_ready_frame st); [|apply Hready; now right].
      intros l Hl. eapply Hsame; eassumption. }
    destruct (IH st1 Hlt1 Hnd1 Hready1) as (st' & Hrun & Hlen & Hfr & Hdone).
    exists st'. split; [exact Hrun|]. split; [lia|]. split.
    + intros l Hl. rewrite Hfr, Hfr1; [reflexivity | |];
        intros H; apply Hl; apply in_or_app; tauto.
    + intros e' [<- | He'].
      * apply (table_cleaned_frame st st st1 st'); [reflexivity | | exact Hdone1].
        intros l Hl. apply Hfr. now apply Hdisj.
      * apply (table_cleaned_frame st st1 st' st');
          [|reflexivity | now apply Hdone].
        intros l Hl. eapply Hsame; eassumption.
Qed.

(** The loop of [remove_defaults] over tables laid out as a tree. *)
Lemma clean_tables st lt lay :
  tables_ready st lt lay ->
  exists st',
    for_values (VRef lt) remove_table_defaults st = Ok tt st' /\
    List.length st' = List.length st /\
    (forall l, ~ In l (objects lay) -> lookup l st' = lookup l st) /\
    (forall e, In e lay -> table_cleaned st st' e).
Proof.
  intros (Hlt & Hnd & Hready).
  destruct (clean_tables_loop lt (tables_of lay) lay st Hlt Hnd Hready)
    as (st' & Hrun & H).
  exists st'. split; [|exact H].
  unfold for_values. now rewrite (bind_Ok _ _ _ _ _ (deref_ok _ _ _ Hlt)).
Qed.

(** *** The copy of the tables *)

Lemma image_copy_loc m x : image m (VRef x) = VRef (copy_loc m x).
Proof. unfold image, copy_loc. now destruct (memo_get x m). Qed.

Lemma image_atom m v : atom v -> image m v = v.
Proof. now destruct v. Qed.

Lemma map_image_atoms m (d : dict val) :
  Forall atom (values d) -> map (image_entry m) d = d.
Proof.
  induction d as [|[k v] d IH]; simpl; intros H; [reflexivity|].
  inversion H as [|? ? Hv Hd]; subst. unfold image_entry at 1. simpl.
  now rewrite (image_atom m v Hv), (IH Hd).
Qed.

Lemma get_image m k (d : dict val) :
  get k (map (image_entry m) d) = option_map (image m) (get k d).
Proof.
  induction d as [|[k0 v0] d IH]; simpl; [reflexivity|].
  now destruct (String.eqb k k0).
Qed.

Lemma tables_of_copy m lay :
  map (image_entry m) (tables_of lay) = tables_of (copy_layout m lay).
Proof.
  unfold tables_of, copy_layout. rewrite !map_map. apply map_ext.
  intros [[[n t] c] xs]. unfold image_entry, copy_table. cbn [fst snd].
  now rewrite image_copy_loc.
Qed.

Lemma columns_of_copy m xs :
  map (image_entry m) (columns_of xs)
  = columns_of (map (fun kx => (fst kx, copy_loc m (snd kx))) xs).
Proof.
  unfold columns_of. rewrite !map_map. apply map_ext.
  intros [k x]. unfold image_entry. cbn [fst snd]. now rewrite image_copy_loc.
Qed.

Lemma objects_copy m lay :
  objects (copy_layout m lay) = map (copy_loc m) (objects lay).
Proof.
  unfold objects, copy_layout. induction lay as [|[[[n t] c] xs] lay IH];
    [reflexivity|].
  simpl. rewrite map_app, IH. do 2 f_equal.
  f_equal. rewrite !map_map. reflexivity.
Qed.

Lemma NoDup_map_on {A B} (f : A -> B) (l : list A) :
  (forall x y, In x l -> In y l -> f x = f y -> x = y) ->
  NoDup l -> NoDup (map f l).
Proof.
  intros Hinj Hnd. induction Hnd as [|x l Hx Hnd IH]; simpl; [constructor|].
  constructor.
  - intros Hin. apply in_map_iff in Hin. destruct Hin as (y & Hy & Hyl).
    assert (y = x) by (apply Hinj; [now right | now left | assumption]).
    now subst.
  - apply IH. intros a b Ha Hb. apply Hinj; now right.
Qed.

Lemma get_In_values {V} k (v : V) (d : dict V) :
  get k d = Some v -> In v (values d).
Proof.
  intros H. apply get_In in H. unfold values. apply in_map_iff.
  now exists (k, v).
Qed.

(** An object that the memo of a finished copy knows. *)
Lemma known_copy st0 st m x :
  isomorphic st0 st m -> known m (VRef x) ->
  memo_get x m = Some (copy_loc m x) /\
  (List.length st0 <= copy_loc m x)%nat /\
  exists o, lookup x st0 = Some o /\ Forall (known m) (obj_vals o) /\
            lookup (copy_loc m x) st = Some (image_obj m o).
Proof.
  intros (_ & Hb & _ & Hcp) Hk. simpl in Hk. unfold copy_loc.
  destruct (memo_get x m) as [y|] eqn:E; [|congruence].
  split; [reflexivity|]. destruct (Hb x y E) as (_ & Hy & _).
  split; [exact Hy|]. destruct (Hcp x y E) as [[] | Hc]. exact Hc.
Qed.

Section CopyOfTables.
Variables (st0 st : store) (m : memo) (doc lt : loc) (lay : layout).
Hypothesis Hws : working_schema st0 doc lt lay.
Hypothesis Hiso : isomorphic st0 st m.
Hypothesis Hlt : known m (VRef lt).

(** The memo knows the tables, their mappings of columns and the
    columns. *)
Lemma known_table n t c xs :
  In (n, t, c, xs) lay ->
  known m (VRef t) /\ known m (VRef c) /\
  forall k x, In (k, x) xs -> known m (VRef x).
Proof.
  intros Hin.
  destruct Hws as (_ & _ & _ & (Hlt0 & _ & Hready) & _).
  destruct (known_copy _ _ _ _ Hiso Hlt) as (_ & _ & o & Ho & Hk & _).
  rewrite Hlt0 in Ho. injection Ho as <-. cbn [obj_vals] in Hk.
  assert (Ht : known m (VRef t)).
  { rewrite Forall_forall in Hk. apply Hk. unfold values, tables_of.
    rewrite map_map. apply in_map_iff. now exists (n, t, c, xs). }
  destruct (Hready _ Hin) as ((td & Htd & _ & Hcol) & Hc & _).
  cbn [fst snd] in *.
  destruct (known_copy _ _ _ _ Hiso Ht) as (_ & _ & o & Ho & Hkt & _).
  rewrite Htd in Ho. injection Ho as <-. cbn [obj_vals] in Hkt.
  assert (Hc' : known m (VRef c)).
  { rewrite Forall_forall in Hkt. apply Hkt. eapply get_In_values; eassumption. }
  split; [exact Ht|]. split; [exact Hc'|].
  intros k x Hx.
  destruct (known_copy _ _ _ _ Hiso Hc') as (_ & _ & o & Ho & Hkc & _).
  rewrite Hc in Ho. injection Ho as <-. cbn [obj_vals] in Hkc.
  rewrite Forall_forall in Hkc. apply Hkc. unfold values, columns_of.
  rewrite map_map. apply in_map_iff. now exists (k, x).
Qed.

Lemma known_objects x : In x (lt :: objects lay) -> known m (VRef x).
Proof.
  intros [<- | Hin]; [exact Hlt|].
  unfold objects in Hin. apply in_flat_map in Hin.
  destruct Hin as ([[[n t] c] xs] & He & Hx).
  destruct (known_table n t c xs He) as (Ht & Hc & Hxs).
  unfold table_objects in Hx. cbn [fst snd] in Hx.
  destruct Hx as [<- | [<- | Hx]]; try assumption.
  apply in_map_iff in Hx. destruct Hx as ([k x'] & <- & Hx).
  eapply Hxs; eassumption.
Qed.

(** What the copy of a table, of its mapping of columns and of a column
    hold. *)
Lemma copy_table_content n t c xs :
  In (n, t, c, xs) lay ->
  (forall td, lookup t st0 = Some (ODict td) ->
     lookup (copy_loc m t) st = Some (ODict (map (image_entry m) td))) /\
  lookup (copy_loc m c) st
  = Some (ODict (columns_of (map (fun kx => (fst kx, copy_loc m (snd kx))) xs))) /\
  (forall k x cd, In (k, x) xs -> lookup x st0 = Some (ODict cd) ->
     lookup (copy_loc m x) st = Some (ODict cd)).
Proof.
  intros Hin. destruct (known_table n t c xs Hin) as (Ht & Hc & Hxs).
  destruct Hws as (_ & _ & _ & (_ & _ & Hready) & Hatoms).
  destruct (Hready _ Hin) as (_ & Hc0 & _). cbn [fst snd] in *.
  split; [|split].
  - intros td Htd.
    destruct (known_copy _ _ _ _ Hiso Ht) as (_ & _ & o & Ho & _ & Hcopy).
    rewrite Htd in Ho. injection Ho as <-. exact Hcopy.
  - destruct (known_copy _ _ _ _ Hiso Hc) as (_ & _ & o & Ho & _ & Hcopy).
    rewrite Hc0 in Ho. injection Ho as <-.
    rewrite Hcopy. cbn [image_obj]. now rewrite columns_of_copy.
  - intros k x cd Hx Hcd.
    destruct (known_copy _ _ _ _ Hiso (Hxs k x Hx))
      as (_ & _ & o & Ho & _ & Hcopy).
    rewrite Hcd in Ho. injection Ho as <-.
    rewrite Hcopy. cbn [image_obj].
    now rewrite (map_image_atoms m cd (Hatoms _ _ _ _ _ _ _ Hin Hx Hcd)).
Qed.

(** The copy of the tables is laid out as the tables are. *)
Lemma copy_ready :
  tables_ready st (copy_loc m lt) (copy_layout m lay).
Proof.
  pose proof Hws as (_ & Hkeys & _ & (Hlt0 & Hnd & Hready) & _).
  split; [|split].
  - destruct (known_copy _ _ _ _ Hiso Hlt) as (_ & _ & o & Ho & _ & Hcopy).
    rewrite Hlt0 in Ho. injection Ho as <-.
    rewrite Hcopy. cbn [image_obj]. now rewrite tables_of_copy.
  - rewrite objects_copy.
    change (copy_loc m lt :: map (copy_loc m) (objects lay))
      with (map (copy_loc m) (lt :: objects lay)).
    apply NoDup_map_on; [|exact Hnd].
    intros x y Hx Hy Hxy.
    destruct (known_copy _ _ _ _ Hiso (known_objects x Hx)) as (Mx & _).
    destruct (known_copy _ _ _ _ Hiso (known_objects y Hy)) as (My & _).
    destruct Hiso as (_ & _ & H11 & _).
    apply (H11 x y (copy_loc m x)); [exact Mx | now rewrite Hxy].
  - intros e' He'. unfold copy_layout in He'. apply in_map_iff in He'.
    destruct He' as ([[[n t] c] xs] & <- & He).
    destruct (copy_table_content n t c xs He) as (Ht' & Hc' & Hx').
    destruct (Hready _ He) as ((td & Htd & Hname & Hcol) & _ & Hcols).
    unfold table_ready, copy_table. cbn [fst snd] in *.
    split; [|split].
    + exists (map (image_entry m) td). split; [now apply Ht'|].
      split; [now rewrite keys_image|].
      now rewrite get_image, Hcol, <- image_copy_loc.
    + exact Hc'.
    + intros k x' Hin. apply in_map_iff in Hin.
      destruct Hin as ([k0 x] & [= <- <-] & Hx). cbn [fst snd].
      destruct (Hcols k0 x Hx) as (cd & Hcd & Hnm & Hndk).
      exists cd. split; [eapply Hx'; eassumption|]. now split.
Qed.

Lemma copy_objects_new l :
  In l (copy_loc m lt :: objects (copy_layout m lay)) ->
  (List.length st0 <= l)%nat.
Proof.
  rewrite objects_copy.
  change (copy_loc m lt :: map (copy_loc m) (objects lay))
    with (map (copy_loc m) (lt :: objects lay)).
  intros Hin. apply in_map_iff in Hin. destruct Hin as (x & <- & Hx).
  now destruct (known_copy _ _ _ _ Hiso (known_objects x Hx)) as (_ & H & _).
Qed.

End CopyOfTables.

End StoredFacts.

(* ===================================================================== *)
(** ** The stored form of a schema *)
(* ===================================================================== *)

Module StoredMore.
Import PyDict PyDictFacts PyMonad PyMonadFacts Store StoreFacts StoreSpec.
Import HintSpec HintFacts DefaultsFacts CopySpec CopyFacts StoredSpec StoredFacts.

Local Open Scope list_scope.

Lemma keys_tables_of_copy m lay :
  keys (tables_of (copy_layout m lay)) = keys (tables_of lay).
Proof.
  unfold keys, tables_of, copy_layout. rewrite !map_map. apply map_ext.
  now intros [[[n t] c] xs].
Qed.

Lemma keys_columns_of xs : keys (columns_of xs) = map fst xs.
Proof. unfold keys, columns_of. rewrite map_map. reflexivity. Qed.

(** [remove_defaults] on a working schema: the copy, then the cleaning of
    the copy, then the assignment to the document. *)
Lemma remove_defaults_spec st0 doc lt lay :
  working_schema st0 doc lt lay ->
  exists st1 st2 m dd,
    lookup doc st0 = Some (ODict dd) /\
    isomorphic st0 st1 m /\ known m (VRef lt) /\
    remove_defaults (VRef doc) st0
    = Ok VNone
        (update doc (ODict (set "tables" (VRef (copy_loc m lt)) dd)) st2) /\
    List.length st2 = List.length st1 /\
    lookup doc st2 = Some (ODict dd) /\
    (forall l, ~ In l (objects (copy_layout m lay)) ->
               lookup l st2 = lookup l st1) /\
    (forall e, In e (copy_layout m lay) -> table_cleaned st1 st2 e).
Proof.
  intros Hws.
  pose proof Hws as (Hclosed & Hkeys & (dd & Hdoc & Htables) & (Hlt & _) & _).
  assert (Hold : old_val (List.length st0) (VRef lt)).
  { simpl. eapply lookup_lt; eassumption. }
  destruct (deepcopy_isomorphic st0 Hclosed Hkeys (VRef lt) Hold)
    as (m & st1 & Hcopy & Hk & Hiso).
  pose proof (copy_ready st0 st1 m doc lt lay Hws Hiso Hk) as Hready.
  destruct (clean_tables st1 _ _ Hready) as (st2 & Hrun & Hlen & Hfr & Hdone).
  assert (Hdoc2 : lookup doc st2 = Some (ODict dd)).
  { rewrite Hfr.
    - destruct Hiso as (Hun & _). rewrite Hun; [exact Hdoc|].
      eapply lookup_lt; eassumption.
    - intros Hin.
      assert (H := copy_objects_new st0 st1 m doc lt lay Hws Hiso Hk doc
                     (or_intror Hin)).
      apply lookup_lt in Hdoc. lia. }
  exists st1, st2, m, dd. split; [exact Hdoc|]. split; [exact Hiso|].
  split; [exact Hk|].
  split; [|split; [exact Hlen | split; [exact Hdoc2 | split; [exact Hfr | exact Hdone]]]].
  unfold remove_defaults.
  rewrite (bind_Ok _ _ _ _ _ (getitem_ok _ _ _ _ _ Hdoc Htables)).
  rewrite (bind_Ok _ _ _ _ _ Hcopy). rewrite image_copy_loc.
  rewrite (bind_Ok _ _ _ _ _ Hrun).
  now rewrite (bind_Ok _ _ _ _ _ (setitem_ok _ _ "tables" _ _ Hdoc2)).
Qed.

(** The sample schema is a working schema. *)
Lemma working_shop_schema :
  working_schema working_shop 0%nat 1%nat working_shop_layout.
Proof.
  split; [|split; [|split; [|split]]].
  - intros l o H.
    do 5 (destruct l as [|l];
          [injection H as <-; repeat constructor; simpl; lia|]).
    destruct l; discriminate.
  - intros l d H.
    do 5 (destruct l as [|l];
          [injection H as <-;
           repeat (constructor; [simpl; intuition discriminate|]);
           constructor|]).
    destruct l; discriminate.
  - eexists. split; reflexivity.
  - split; [reflexivity|]. split.
    + repeat (constructor; [simpl; intuition discriminate|]). constructor.
    + intros e [<- | []]. split; [|split].
      * eexists. split; [reflexivity|]. split; [|reflexivity]. simpl. tauto.
      * reflexivity.
      * intros k x [[= <- <-] | []]. eexists. split; [reflexivity|]. split.
        -- simpl. tauto.
        -- repeat (constructor; [simpl; intuition discriminate|]). constructor.
  - intros n t c xs k x cd [[= <- <- <- <-] | []] [[= <- <-] | []] [= <-].
    repeat constructor.
Qed.

(** What [remove_defaults] makes of a working schema, object by object. *)
Lemma remove_defaults_stored_form (st : store) (doc lt : loc) (lay : layout) :
  working_schema st doc lt lay ->
  exists st' lt' tables',
    remove_defaults (VRef doc) st = Ok VNone st' /\
    (exists dd, lookup doc st = Some (ODict dd) /\
                lookup doc st' = Some (ODict (set "tables" (VRef lt') dd))) /\
    (forall l, (l < List.length st)%nat -> l <> doc ->
               lookup l st' = lookup l st) /\
    (List.length st <= lt')%nat /\
    lookup lt' st' = Some (ODict tables') /\
    keys tables' = keys (tables_of lay) /\
    forall n t c xs td,
      In (n, t, c, xs) lay -> lookup t st = Some (ODict td) ->
      exists t' c' td' cols',
        get n tables' = Some (VRef t') /\ (List.length st <= t')%nat /\
        lookup t' st' = Some (ODict td') /\
        get "name" td' = None /\
        get "columns" td' = Some (VRef c') /\
        (forall k a, k <> "name" -> atom a -> get k td = Some a ->
                     get k td' = Some a) /\
        (List.length st <= c')%nat /\
        lookup c' st' = Some (ODict cols') /\
        keys cols' = map fst xs /\
        forall k x cd,
          In (k, x) xs -> lookup x st = Some (ODict cd) ->
          exists x',
            get k cols' = Some (VRef x') /\ (List.length st <= x')%nat /\
            lookup x' st' = Some (ODict (stored_column cd)).
Proof.
  intros Hws.
  destruct (remove_defaults_spec _ _ _ _ Hws)
    as (st1 & st2 & m & dd & Hdoc & Hiso & Hk & Hrun & Hlen & Hdoc2 & Hfr & Hdone).
  pose proof Hws as (_ & Hkeys & _ & (Hlt & Hnd & Hready) & _).
  pose proof (copy_ready _ _ _ _ _ _ Hws Hiso Hk) as (Hlt1 & Hnd1 & Hready1).
  pose proof (copy_objects_new _ _ _ _ _ _ Hws Hiso Hk) as Hnew.
  assert (Hdoc_lt : (doc < List.length st)%nat) by (eapply lookup_lt; eassumption).
  assert (Hun : unchanged st st1) by apply Hiso.
  pose proof (unchanged_length _ _ Hun) as Hlen1.
  set (st' := update doc (ODict (set "tables" (VRef (copy_loc m lt)) dd)) st2) in *.
  assert (Hst' : forall l, l <> doc -> lookup l st' = lookup l st2).
  { intros l Hl. unfold st'. apply lookup_update_ne. congruence. }
  assert (Hnew' : forall l, In l (copy_loc m lt :: objects (copy_layout m lay)) ->
                            lookup l st' = lookup l st2).
  { intros l Hl. apply Hst'. apply Hnew in Hl. lia. }
  exists st', (copy_loc m lt), (tables_of (copy_layout m lay)).
  split; [exact Hrun|]. split.
  { exists dd. split; [exact Hdoc|]. unfold st'. apply lookup_update_eq. lia. }
  split.
  { intros l Hl Hne. rewrite Hst' by assumption. rewrite Hfr.
    - now apply Hun.
    - intros Hin. assert (H := Hnew l (or_intror Hin)). lia. }
  split; [apply Hnew; now left|]. split.
  { rewrite Hnew' by now left. rewrite Hfr; [exact Hlt1|].
    now apply NoDup_cons_iff in Hnd1 as [H _]. }
  split; [apply keys_tables_of_copy|].
  intros n t c xs td Hin Htd.
  set (e' := copy_table m (n, t, c, xs)).
  assert (Hin' : In e' (copy_layout m lay)).
  { unfold copy_layout. apply in_map_iff. now exists (n, t, c, xs). }
  destruct (copy_table_content _ _ _ _ _ _ Hws Hiso Hk n t c xs Hin)
    as (Ht1 & Hc1 & Hx1).
  destruct (Hdone e' Hin') as (Htc & Hcc & Hxc). cbn [e' copy_table fst snd] in *.
  destruct (Hready _ Hin) as ((td0 & Htd0 & Hname & Hcol) & Hc0 & Hcols).
  cbn [fst snd] in *. rewrite Htd in Htd0. injection Htd0 as <-.
  assert (Hobj : forall l, In l (table_objects e') ->
                           In l (copy_loc m lt :: objects (copy_layout m lay))).
  { intros l Hl. right. eapply objects_In; eassumption. }
  exists (copy_loc m t), (copy_loc m c),
    (remove "name" (map (image_entry m) td)),
    (columns_of (map (fun kx => (fst kx, copy_loc m (snd kx))) xs)).
  split.
  { apply In_get_NoDup.
    - rewrite keys_tables_of_copy. exact (Hkeys _ _ Hlt).
    - unfold tables_of, copy_layout. rewrite map_map. apply in_map_iff.
      now exists (n, t, c, xs). }
  split; [apply Hnew, Hobj; now left|]. split.
  { rewrite Hnew' by (apply Hobj; now left). apply Htc. now apply Ht1. }
  split; [apply get_remove_eq|]. split.
  { rewrite get_remove_ne by discriminate.
    now rewrite get_image, Hcol, <- image_copy_loc. }
  split.
  { intros k a Hk' Ha Hget. rewrite get_remove_ne by congruence.
    rewrite get_image, Hget. simpl. now rewrite image_atom. }
  split; [apply Hnew, Hobj; right; now left|]. split.
  { rewrite Hnew' by (apply Hobj; right; now left). now rewrite Hcc. }
  split.
  { rewrite keys_columns_of, map_map. reflexivity. }
  intros k x cd Hx Hcd.
  assert (Hx' : In (k, copy_loc m x)
                  (map (fun kx => (fst kx, copy_loc m (snd kx))) xs)).
  { apply in_map_iff. now exists (k, x). }
  assert (Hxo : In (copy_loc m x) (table_objects e')).
  { right. right. apply in_map_iff. now exists (k, copy_loc m x). }
  exists (copy_loc m x). split.
  { apply In_get_NoDup.
    - rewrite keys_columns_of, map_map. cbn [fst].
      rewrite <- keys_columns_of. exact (Hkeys _ _ Hc0).
    - unfold columns_of. apply in_map_iff. now exists (k, copy_loc m x). }
  split; [apply Hnew, Hobj, Hxo|].
  rewrite Hnew' by apply Hobj, Hxo.
  apply (Hxc k (copy_loc m x) cd Hx'). eapply Hx1; eassumption.
Qed.

(** X23.  On a working schema (a document whose tables, mappings of
    columns and columns are objects of their own, every table and column
    with its name, in a store without dangling references)
    [remove_defaults] returns [None] and binds the [tables] of the
    document to a new mapping with the same keys.  Under each key is a
    new table without [name], with every other entry of the original
    that is no reference, and with a new mapping of columns that has the
    keys of the original; under each of these is a new dictionary, the
    stored form of the original column: no [name], no [False] except
    under [nullable].  No object that existed before the call is changed
    but the document. *)
Theorem remove_defaults_stores (st : store) (doc lt : loc) (lay : layout) :
  working_schema st doc lt lay ->
  exists st' lt' tables',
    remove_defaults (VRef doc) st = Ok VNone st' /\
    (exists dd, lookup doc st = Some (ODict dd) /\
                lookup doc st' = Some (ODict (set "tables" (VRef lt') dd))) /\
    (forall l, (l < List.length st)%nat -> l <> doc ->
               lookup l st' = lookup l st) /\
    (List.length st <= lt')%nat /\
    lookup lt' st' = Some (ODict tables') /\
    keys tables' = keys (tables_of lay) /\
    forall n t c xs td,
      In (n, t, c, xs) lay -> lookup t st = Some (ODict td) ->
      exists t' c' td' cols',
        get n tables' = Some (VRef t') /\ (List.length st <= t')%nat /\
        lookup t' st' = Some (ODict td') /\
        get "name" td' = None /\
        get "columns" td' = Some (VRef c') /\
        (forall k a, k <> "name" -> atom a -> get k td = Some a ->
                     get k td' = Some a) /\
        (List.length st <= c')%nat /\
        lookup c' st' = Some (ODict cols') /\
        keys cols' = map fst xs /\
        forall k x cd,
          In (k, x) xs -> lookup x st = Some (ODict cd) ->
          exists x',
            get k cols' = Some (VRef x') /\ (List.length st <= x')%nat /\
            lookup x' st' = Some (ODict (stored_column cd)).
Proof. exact (remove_defaults_stored_form st doc lt lay). Qed.

Lemma remove_defaults_stores_witness :
  exists st' lt' tables',
    remove_defaults (VRef 0%nat) working_shop = Ok VNone st' /\
    (5 <= lt')%nat /\
    lookup lt' st' = Some (ODict tables') /\
    keys tables' = ["orders"].
Proof.
  destruct (remove_defaults_stores working_shop 0%nat 1%nat working_shop_layout
              working_shop_schema)
    as (st' & lt' & tables' & Hrun & _ & _ & Hnew & Hlt & Hkeys & _).
  exists st', lt', tables'. now repeat split.
Defined.

(** *** When a table has no name *)

Lemma delitem_missing l d k st :
  lookup l st = Some (ODict d) -> get k d = None ->
  delitem (VRef l) k st = Raise (KeyError k) st.
Proof.
  intros Hl Hk. unfold delitem.
  rewrite (bind_Ok _ _ _ _ _ (deref_ok _ _ _ Hl)).
  unfold del, mem. now rewrite Hk.
Qed.

(** X24.  [remove_defaults] needs the names that it deletes: when the
    first table of the document has no [name], as a table in stored form
    has none, the call raises [KeyError], and every object that existed
    before the call, the document included, is as it was. *)
Theorem remove_defaults_needs_names (st : store) (doc lt t : loc)
    (dd td : dict val) (n : string) (rest : dict val) :
  closed st -> distinct_keys st ->
  lookup doc st = Some (ODict dd) ->
  get "tables" dd = Some (VRef lt) ->
  lookup lt st = Some (ODict ((n, VRef t) :: rest)) ->
  lookup t st = Some (ODict td) ->
  get "name" td = None ->
  exists st',
    remove_defaults (VRef doc) st = Raise (KeyError "name") st' /\
    forall l, (l < List.length st)%nat -> lookup l st' = lookup l st.
Proof.
  intros Hclosed Hkeys Hdoc Htables Hlt Ht Hname.
  assert (Hold : old_val (List.length st) (VRef lt)).
  { simpl. eapply lookup_lt; eassumption. }
  destruct (deepcopy_isomorphic st Hclosed Hkeys (VRef lt) Hold)
    as (m & st1 & Hcopy & Hk & Hiso).
  exists st1. split; [|apply Hiso].
  destruct (known_copy _ _ _ _ Hiso Hk) as (_ & _ & o & Ho & Hkn & Hlt1).
  rewrite Hlt in Ho. injection Ho as <-. cbn [obj_vals image_obj] in *.
  assert (Hkt : known m (VRef t)).
  { inversion Hkn; subst. assumption. }
  destruct (known_copy _ _ _ _ Hiso Hkt) as (_ & _ & o & Ho & _ & Ht1).
  rewrite Ht in Ho. injection Ho as <-. cbn [image_obj] in Ht1.
  assert (Hbody : remove_table_defaults (VRef (copy_loc m t)) st1
                  = Raise (KeyError "name") st1).
  { unfold remove_table_defaults. apply bind_Raise.
    apply (delitem_missing _ _ _ _ Ht1). now rewrite get_image, Hname. }
  unfold remove_defaults.
  rewrite (bind_Ok _ _ _ _ _ (getitem_ok _ _ _ _ _ Hdoc Htables)).
  rewrite (bind_Ok _ _ _ _ _ Hcopy). rewrite image_copy_loc.
  apply bind_Raise. unfold for_values.
  rewrite (bind_Ok _ _ _ _ _ (deref_ok _ _ _ Hlt1)).
  change (values (map (image_entry m) ((n, VRef t) :: rest)))
    with (image m (VRef t) :: values (map (image_entry m) rest)).
  rewrite image_copy_loc. cbn [values_loop].
  rewrite (bind_Ok _ _ _ _ _ (check_size_same _ _ _ Hlt1)).
  now apply bind_Raise.
Qed.

Lemma remove_defaults_needs_names_witness :
  exists st',
    remove_defaults (VRef 0%nat) DefaultsSpec.stored_shop
    = Raise (KeyError "name") st' /\
    forall l, (l < 7)%nat -> lookup l st' = lookup l DefaultsSpec.stored_shop.
Proof.
  apply (remove_defaults_needs_names DefaultsSpec.stored_shop 0%nat 1%nat 2%nat
           [("name", VStr "shop"); ("tables", VRef 1%nat)]
           [("columns", VRef 3%nat)] "orders" [("orders__items", VRef 5%nat)]).
  - intros l o H.
    do 7 (destruct l as [|l];
          [injection H as <-; repeat constructor; simpl; lia|]).
    destruct l; discriminate.
  - intros l d H.
    do 7 (destruct l as [|l];
          [injection H as <-;
           repeat (constructor; [simpl; intuition discriminate|]);
           constructor|]).
    destruct l; discriminate.
  - reflexivity.
  - reflexivity.
  - reflexivity.
  - reflexivity.
  - reflexivity.
Defined.

End StoredMore.

(* ===================================================================== *)
(** ** The cleaning of the copy, whatever the document *)
(* ===================================================================== *)

(** The loops of [remove_defaults] only delete entries, of the objects
    they reach.  What they have made of a table or of a column therefore
    still holds when they return, whichever objects the tables share. *)
Module CleanFacts.
Import PyDict PyDictFacts PyMonad PyMonadFacts Store StoreFacts StoreSpec.
Import HintFacts CopySpec CopyFacts CleanSpec.

Local Open Scope list_scope.

(** *** Deletions *)

Lemma deletions_one s s' : deletion s s' -> deletions s s'.
Proof. intros H. eapply deletions_more; [apply deletions_none | exact H]. Qed.

Lemma deletions_trans s1 s2 s3 :
  deletions s1 s2 -> deletions s2 s3 -> deletions s1 s3.
Proof.
  intros H12 H23. induction H23; [assumption|].
  eapply deletions_more; eassumption.
Qed.

Lemma stable_deletions (P : store -> Prop) :
  stable P -> forall s s', deletions s s' -> P s -> P s'.
Proof.
  intros HP s s' H. induction H; [auto|].
  intros Hs. eapply HP; eauto.
Qed.

(** What a deletion makes of the object at [l]. *)
Lemma deletion_lookup s s' l :
  deletion s s' ->
  lookup l s' = lookup l s \/
  exists d k,
    lookup l s = Some (ODict d) /\ lookup l s' = Some (ODict (remove k d)) /\
    (k = "name" \/ (get k d = Some (VBool false) /\ k <> "nullable")).
Proof.
  intros [l0 d k Hl Hk]. destruct (Nat.eq_dec l0 l) as [-> | Hne].
  - right. exists d, k. split; [exact Hl|]. split; [|exact Hk].
    apply lookup_update_eq. eapply lookup_lt; eassumption.
  - left. now apply lookup_update_ne.
Qed.

Lemma filter_filter {A} (f g : A -> bool) (l : list A) :
  filter g (filter f l) = filter (fun x => f x && g x) l.
Proof.
  induction l as [|a l IH]; simpl; [reflexivity|].
  destruct (f a); simpl; [destruct (g a); now rewrite IH | exact IH].
Qed.

Lemma filter_same_length {A} (f : A -> bool) (l : list A) :
  List.length (filter f l) = List.length l -> filter f l = l.
Proof.
  induction l as [|a l IH]; simpl; [reflexivity|].
  pose proof (filter_length_le f l) as Hle.
  destruct (f a); simpl; intros H; [f_equal; apply IH; lia | lia].
Qed.

Lemma pruned_refl d : pruned d d.
Proof.
  exists (fun _ => true). symmetry. apply forallb_filter_id.
  apply forallb_forall. reflexivity.
Qed.

Lemma pruned_trans d1 d2 d3 : pruned d1 d2 -> pruned d2 d3 -> pruned d1 d3.
Proof. intros [f ->] [g ->]. eexists. apply filter_filter. Qed.

Lemma pruned_remove k d : pruned d (remove k d).
Proof. eexists. reflexivity. Qed.

Lemma pruned_obj_refl o : pruned_obj o o.
Proof. destruct o; simpl; [apply pruned_refl | reflexivity]. Qed.

Lemma pruned_obj_trans o1 o2 o3 :
  pruned_obj o1 o2 -> pruned_obj o2 o3 -> pruned_obj o1 o3.
Proof.
  destruct o1, o2, o3; simpl; try tauto.
  - apply pruned_trans.
  - congruence.
Qed.

Lemma values_pruned_In d d' v : pruned d d' -> In v (values d') -> In v (values d).
Proof.
  intros [keep ->] Hv. unfold values in *.
  apply in_map_iff in Hv as (kv & <- & Hkv).
  apply filter_In in Hkv as [Hkv _]. now apply in_map.
Qed.

Lemma keys_pruned_In d d' k : pruned d d' -> In k (keys d') -> In k (keys d).
Proof.
  intros [keep ->] Hk. unfold keys in *.
  apply in_map_iff in Hk as (kv & <- & Hkv).
  apply filter_In in Hkv as [Hkv _]. now apply in_map.
Qed.

Lemma deletions_length s s' : deletions s s' -> List.length s' = List.length s.
Proof.
  intros H. induction H as [|s1 s2 _ IH [l d k _ _]]; [reflexivity|].
  now rewrite length_update.
Qed.

(** The cleaning makes of an object the object less some entries. *)
Lemma deletions_pruned s s' :
  deletions s s' ->
  forall l o, lookup l s = Some o ->
              exists o', lookup l s' = Some o' /\ pruned_obj o o'.
Proof.
  intros H. induction H as [|s1 s2 _ IH Hd]; intros l o Hl.
  - exists o. split; [exact Hl | apply pruned_obj_refl].
  - destruct (IH l o Hl) as (o1 & Ho1 & Hp).
    destruct (deletion_lookup s1 s2 l Hd) as [E | (d & k & Hl1 & Hl2 & _)].
    + exists o1. rewrite E. now split.
    + rewrite Ho1 in Hl1. injection Hl1 as ->.
      exists (ODict (remove k d)). split; [exact Hl2|].
      eapply pruned_obj_trans; [exact Hp|]. apply pruned_remove.
Qed.

(** *** What the cleaning deletes *)

Lemma cleaned_dict_refl d : cleaned_dict d d.
Proof.
  exists (fun _ => true). split; [|discriminate].
  symmetry. apply forallb_filter_id. apply forallb_forall. reflexivity.
Qed.

Lemma cleaned_dict_trans d1 d2 d3 :
  cleaned_dict d1 d2 -> cleaned_dict d2 d3 -> cleaned_dict d1 d3.
Proof.
  intros (f & -> & Hf) (g & -> & Hg). exists (fun x => f x && g x).
  split; [apply filter_filter|].
  intros kv Hin Hk. destruct (f kv) eqn:Ef; [|now apply Hf].
  apply Hg; [apply filter_In; now split | exact Hk].
Qed.

Lemma cleaned_dict_remove k d :
  NoDup (keys d) ->
  k = "name" \/ (get k d = Some (VBool false) /\ k <> "nullable") ->
  cleaned_dict d (remove k d).
Proof.
  intros Hnd Hk. exists (fun kv => negb (String.eqb k (fst kv))).
  split; [reflexivity|].
  intros [k' v'] Hin Hkeep. cbn [fst] in Hkeep.
  apply negb_false_iff, String.eqb_eq in Hkeep. subst k'.
  destruct Hk as [-> | [Hget Hn]]; [now left|]. right. cbn [fst snd].
  split; [|exact Hn].
  rewrite (In_get_NoDup k v' d Hnd Hin) in Hget. congruence.
Qed.

Lemma NoDup_keys_cleaned d d' :
  cleaned_dict d d' -> NoDup (keys d) -> NoDup (keys d').
Proof. intros (f & -> & _). apply NoDup_keys_filter. Qed.

Lemma cleaned_obj_refl o : cleaned_obj o o.
Proof. destruct o; simpl; [apply cleaned_dict_refl | reflexivity]. Qed.

(** The cleaning makes of a dictionary with distinct keys the dictionary
    less entries [name] and entries [False]. *)
Lemma deletions_cleaned s s' :
  deletions s s' ->
  forall l o,
    lookup l s = Some o -> (forall d, o = ODict d -> NoDup (keys d)) ->
    exists o', lookup l s' = Some o' /\ cleaned_obj o o'.
Proof.
  intros H. induction H as [|s1 s2 _ IH Hd]; intros l o Hl Hnd.
  - exists o. split; [exact Hl | apply cleaned_obj_refl].
  - destruct (IH l o Hl Hnd) as (o1 & Ho1 & Hc).
    destruct (deletion_lookup s1 s2 l Hd) as [E | (d & k & Hl1 & Hl2 & Hk)].
    + exists o1. rewrite E. now split.
    + rewrite Ho1 in Hl1. injection Hl1 as ->.
      destruct o as [d0|]; [|contradiction]. simpl in Hc.
      exists (ODict (remove k d)). split; [exact Hl2|]. simpl.
      eapply cleaned_dict_trans; [exact Hc|].
      apply cleaned_dict_remove; [|exact Hk].
      eapply NoDup_keys_cleaned; [exact Hc | now apply Hnd].
Qed.

(** *** What stays *)

(** No [False] under [h] in the dictionary at [x], unless [h] is
    [nullable]. *)
Lemma stable_no_False x h :
  stable (fun s => forall cd, lookup x s = Some (ODict cd) ->
                              get h cd = Some (VBool false) -> h = "nullable").
Proof.
  intros s s' Hd HQ cd Hcd Hh.
  destruct (deletion_lookup s s' x Hd) as [E | (d & k & Hl & Hl' & Hk)].
  - rewrite E in Hcd. eauto.
  - rewrite Hl' in Hcd. injection Hcd as <-. rewrite get_remove in Hh.
    destruct (String.eqb k h); [discriminate|]. eauto.
Qed.

Lemma stable_cleaned_column v : stable (fun s => cleaned_column s v).
Proof.
  intros s s' Hd (x & cd & -> & Hx & Hn & Hf).
  destruct (deletion_lookup s s' x Hd) as [E | (d & k & Hl & Hl' & Hk)].
  - exists x, cd. rewrite E. auto.
  - rewrite Hx in Hl. injection Hl as <-.
    exists x, (remove k cd). split; [reflexivity|]. split; [exact Hl'|]. split.
    + rewrite get_remove. destruct (String.eqb k "name"); [reflexivity | exact Hn].
    + intros h Hh. rewrite get_remove in Hh.
      destruct (String.eqb k h); [discriminate | auto].
Qed.

(** The dictionary at [t] has no [name], and its [columns] is the object
    at [c]: the reference is neither a [name] nor [False]. *)
Lemma stable_table_top t c :
  stable (fun s => exists td, lookup t s = Some (ODict td) /\
                              get "name" td = None /\
                              get "columns" td = Some (VRef c)).
Proof.
  intros s s' Hd (td & Ht & Hn & Hc).
  destruct (deletion_lookup s s' t Hd) as [E | (d & k & Hl & Hl' & Hk)].
  - exists td. rewrite E. auto.
  - rewrite Ht in Hl. injection Hl as <-. exists (remove k td).
    split; [exact Hl'|]. split.
    + rewrite get_remove. destruct (String.eqb k "name"); [reflexivity | exact Hn].
    + rewrite get_remove. destruct (String.eqb k "columns") eqn:E; [|exact Hc].
      apply String.eqb_eq in E. subst k.
      destruct Hk as [Hk | [Hk _]]; [discriminate | congruence].
Qed.

Lemma stable_cleaned_table v : stable (fun s => cleaned_table s v).
Proof.
  intros s s' Hd (t & td & c & cols & -> & Ht & Hn & Hc & Hcols & Hall).
  destruct (stable_table_top t c s s' Hd) as (td' & Ht' & Hn' & Hc').
  { exists td. auto. }
  destruct (deletions_pruned s s' (deletions_one _ _ Hd) c _ Hcols)
    as (o' & Hcols' & Hp).
  destruct o' as [cols'|]; [|contradiction].
  exists t, td', c, cols'.
  split; [reflexivity|]. split; [exact Ht'|]. split; [exact Hn'|].
  split; [exact Hc'|]. split; [exact Hcols'|].
  apply Forall_forall. intros v Hv. rewrite Forall_forall in Hall.
  apply (stable_cleaned_column v s s' Hd). apply Hall.
  eapply values_pruned_In; eassumption.
Qed.

(** *** The operations, when they return *)

Lemma deref_Ok l s o s' : deref l s = Ok o s' -> s' = s /\ lookup l s = Some o.
Proof.
  unfold deref. destruct (lookup l s) as [o0|]; [|discriminate].
  intros [= <- <-]. auto.
Qed.

Lemma getitem_Ok v k s x s' :
  getitem v k s = Ok x s' ->
  s' = s /\
  exists l d, v = VRef l /\ lookup l s = Some (ODict d) /\ get k d = Some x.
Proof.
  destruct v as [| | | |l]; try discriminate. unfold getitem. intros H.
  apply bind_Ok_inv in H as (o & s1 & Hd & H). apply deref_Ok in Hd as [-> Hl].
  destruct o as [d|xs]; [|discriminate].
  destruct (get k d) as [y|] eqn:E; [|discriminate].
  injection H as <- <-. split; [reflexivity|]. exists l, d. auto.
Qed.

Lemma delitem_Ok v k s u s' :
  delitem v k s = Ok u s' ->
  exists l d,
    v = VRef l /\ lookup l s = Some (ODict d) /\
    s' = update l (ODict (remove k d)) s.
Proof.
  destruct v as [| | | |l]; try discriminate. unfold delitem. intros H.
  apply bind_Ok_inv in H as (o & s1 & Hd & H). apply deref_Ok in Hd as [-> Hl].
  destruct o as [d|xs]; [|discriminate].
  unfold del in H. destruct (mem k d); [|discriminate].
  injection H as _ <-. exists l, d. auto.
Qed.

Lemma keys_list_Ok v s hs s' :
  keys_list v s = Ok hs s' ->
  s' = s /\ exists l d, v = VRef l /\ lookup l s = Some (ODict d) /\ hs = keys d.
Proof.
  destruct v as [| | | |l]; try discriminate. unfold keys_list. intros H.
  apply bind_Ok_inv in H as (o & s1 & Hd & H). apply deref_Ok in Hd as [-> Hl].
  destruct o as [d|xs]; [|discriminate].
  injection H as <- <-. split; [reflexivity|]. exists l, d. auto.
Qed.

Lemma check_size_Ok l size s u s' :
  check_size l size s = Ok u s' ->
  s' = s /\ exists d, lookup l s = Some (ODict d) /\ List.length d = size.
Proof.
  unfold check_size. intros H.
  apply bind_Ok_inv in H as (o & s1 & Hd & H). apply deref_Ok in Hd as [-> Hl].
  destruct o as [d|xs]; [|discriminate].
  destruct (List.length d =? size)%nat eqn:E; [|discriminate].
  injection H as _ <-. split; [reflexivity|]. exists d.
  split; [exact Hl | now apply Nat.eqb_eq].
Qed.

(** *** The hints of a column *)

Lemma remove_default_hint_Ok x h s u s' :
  remove_default_hint (VRef x) h s = Ok u s' ->
  deletions s s' /\
  forall cd, lookup x s' = Some (ODict cd) ->
             get h cd = Some (VBool false) -> h = "nullable".
Proof.
  unfold remove_default_hint. intros H.
  apply bind_Ok_inv in H as (v & s1 & Hg & H).
  apply getitem_Ok in Hg as (-> & l & d & [= <-] & Hl & Hv).
  destruct (is_False v && negb (String.eqb h "nullable")) eqn:E.
  - apply andb_true_iff in E as [Ef En].
    assert (v = VBool false) as ->
      by (destruct v as [|[]| | |]; try discriminate; reflexivity).
    apply negb_true_iff, String.eqb_neq in En.
    apply delitem_Ok in H as (l' & d' & [= <-] & Hl' & ->).
    rewrite Hl in Hl'. injection Hl' as <-. split.
    + apply deletions_one. econstructor; [exact Hl|]. right. now split.
    + intros cd Hcd.
      rewrite lookup_update_eq in Hcd by (eapply lookup_lt; eassumption).
      injection Hcd as <-. rewrite get_remove_eq. discriminate.
  - injection H as <- <-. split; [apply deletions_none|].
    intros cd Hcd Hh. rewrite Hl in Hcd. injection Hcd as <-.
    rewrite Hv in Hh. injection Hh as ->.
    cbn [is_False andb] in E. now apply negb_false_iff, String.eqb_eq in E.
Qed.

Lemma hints_loop_clean x : forall hs s u s',
  for_each hs (remove_default_hint (VRef x)) s = Ok u s' ->
  deletions s s' /\
  forall h, In h hs ->
  forall cd, lookup x s' = Some (ODict cd) ->
             get h cd = Some (VBool false) -> h = "nullable".
Proof.
  induction hs as [|h hs IH]; intros s u s' H; cbn [for_each] in H.
  - injection H as <- <-. split; [apply deletions_none | intros h []].
  - apply bind_Ok_inv in H as ([] & s1 & Hb & H).
    apply remove_default_hint_Ok in Hb as [Hd1 HQ].
    apply IH in H as [Hd2 HQs].
    split; [eapply deletions_trans; eassumption|].
    intros h' [<- | Hin]; [|now apply HQs].
    exact (stable_deletions _ (stable_no_False x h) s1 s' Hd2 HQ).
Qed.

(** A column that the loop body has returned from is in stored form. *)
Lemma remove_column_defaults_clean v s u s' :
  remove_column_defaults v s = Ok u s' ->
  deletions s s' /\ cleaned_column s' v.
Proof.
  unfold remove_column_defaults. intros H.
  apply bind_Ok_inv in H as ([] & s1 & Hdel & H).
  apply delitem_Ok in Hdel as (x & d & -> & Hx & ->).
  assert (Hlt : (x < List.length s)%nat) by (eapply lookup_lt; eassumption).
  apply bind_Ok_inv in H as (hs & s2 & Hk & H).
  apply keys_list_Ok in Hk as (-> & l & d1 & [= <-] & Hx1 & ->).
  rewrite lookup_update_eq in Hx1 by assumption. injection Hx1 as <-.
  apply hints_loop_clean in H as [Hd HQ].
  assert (D1 : deletion s (update x (ODict (remove "name" d)) s))
    by (econstructor; [exact Hx | now left]).
  split; [eapply deletions_trans; [apply deletions_one; exact D1 | exact Hd]|].
  destruct (deletions_pruned _ _ Hd x (ODict (remove "name" d))) as (o' & Ho' & Hp).
  { now apply lookup_update_eq. }
  destruct o' as [cd|]; [|contradiction].
  exists x, cd. split; [reflexivity|]. split; [exact Ho'|]. split.
  - apply get_None_not_In. intros Hin.
    apply (keys_pruned_In _ _ _ Hp) in Hin.
    apply In_get in Hin as (w & Hw). rewrite get_remove_eq in Hw. discriminate.
  - intros h Hh. apply (HQ h) with (cd := cd); [|exact Ho' | exact Hh].
    apply get_Some_In in Hh. eapply keys_pruned_In; eassumption.
Qed.

(** *** The loops over the values of a dictionary *)

Section Loop.
Variable P : store -> val -> Prop.
Variable body : val -> S unit.
Hypothesis body_ok : forall v s u s',
  body v s = Ok u s' -> deletions s s' /\ P s' v.
Hypothesis P_stable : forall v, stable (fun s => P s v).

Lemma values_loop_clean l size : forall vs s u s',
  values_loop l size vs body s = Ok u s' ->
  deletions s s' /\ Forall (P s') vs /\
  exists d, lookup l s' = Some (ODict d) /\ List.length d = size.
Proof.
  induction vs as [|v vs IH]; intros s u s' H; cbn [values_loop] in H.
  - apply check_size_Ok in H as (-> & d & Hl & Hlen).
    split; [apply deletions_none|]. split; [constructor|]. eauto.
  - apply bind_Ok_inv in H as ([] & s1 & Hc & H).
    apply check_size_Ok in Hc as (-> & _).
    apply bind_Ok_inv in H as ([] & s2 & Hb & H).
    apply body_ok in Hb as [Hd1 Hv].
    apply IH in H as (Hd2 & Hvs & Hend).
    split; [eapply deletions_trans; eassumption|]. split; [|exact Hend].
    constructor; [|exact Hvs].
    exact (stable_deletions _ (P_stable v) _ _ Hd2 Hv).
Qed.

(** A loop that returns has found its dictionary of the same size at
    every step; nothing but deletions happens, so the dictionary is as it
    was, and every value of it has been through the body. *)
Lemma for_values_clean v s u s' :
  for_values v body s = Ok u s' ->
  deletions s s' /\
  exists l d,
    v = VRef l /\ lookup l s = Some (ODict d) /\
    lookup l s' = Some (ODict d) /\ Forall (P s') (values d).
Proof.
  destruct v as [| | | |l]; try discriminate. unfold for_values. intros H.
  apply bind_Ok_inv in H as (o & s1 & Hd & H). apply deref_Ok in Hd as [-> Hl].
  destruct o as [d|xs]; [|discriminate].
  apply values_loop_clean in H as (Hdel & Hall & d' & Hl' & Hlen).
  split; [exact Hdel|]. exists l, d. split; [reflexivity|]. split; [exact Hl|].
  destruct (deletions_pruned _ _ Hdel l _ Hl) as (o' & Ho' & Hp).
  rewrite Hl' in Ho'. injection Ho' as <-. destruct Hp as [keep E].
  assert (d' = d) as -> by (subst d'; now apply filter_same_length).
  now split.
Qed.

End Loop.

(** A table that the loop body has returned from is in stored form. *)
Lemma remove_table_defaults_clean v s u s' :
  remove_table_defaults v s = Ok u s' ->
  deletions s s' /\ cleaned_table s' v.
Proof.
  unfold remove_table_defaults. intros H.
  apply bind_Ok_inv in H as ([] & s1 & Hdel & H).
  apply delitem_Ok in Hdel as (t & td & -> & Ht & ->).
  assert (Hlt : (t < List.length s)%nat) by (eapply lookup_lt; eassumption).
  apply bind_Ok_inv in H as (cv & s2 & Hg & H).
  apply getitem_Ok in Hg as (-> & l & d1 & [= <-] & Ht1 & Hcv).
  rewrite lookup_update_eq in Ht1 by assumption. injection Ht1 as <-.
  apply (for_values_clean cleaned_column remove_column_defaults
           remove_column_defaults_clean stable_cleaned_column) in H
    as (Hd & c & cols & -> & Hc1 & Hc' & Hall).
  assert (D1 : deletion s (update t (ODict (remove "name" td)) s))
    by (econstructor; [exact Ht | now left]).
  split; [eapply deletions_trans; [apply deletions_one; exact D1 | exact Hd]|].
  destruct (stable_deletions _ (stable_table_top t c) _ _ Hd)
    as (td' & Ht' & Hn' & Hcol').
  { exists (remove "name" td). split; [now apply lookup_update_eq|].
    split; [apply get_remove_eq | exact Hcv]. }
  exists t, td', c, cols. auto 8.
Qed.

(** An object that the cleaning does not reach by a write. *)
Lemma cleaned_table_frame n st st' v :
  independent n st -> new_val n v ->
  (forall y, (n <= y)%nat -> lookup y st' = lookup y st) ->
  cleaned_table st v -> cleaned_table st' v.
Proof.
  intros Hind Hv Hsame (t & td & c & cols & -> & Ht & Hn & Hc & Hcols & Hall).
  simpl in Hv.
  assert (Hcn : (n <= c)%nat).
  { exact (FrameFacts.Forall_values_get (new_val n) _ _ _ (Hind t _ Hv Ht) Hc). }
  exists t, td, c, cols. split; [reflexivity|].
  split; [now rewrite Hsame|]. split; [exact Hn|]. split; [exact Hc|].
  split; [now rewrite Hsame|].
  pose proof (Hind c _ Hcn Hcols) as Hnew. cbn [obj_vals] in Hnew.
  clear Hcols. induction Hall as [|w ws Hw Hws IH]; [constructor|].
  inversion Hnew as [|? ? Hwn Hwsn]; subst.
  constructor; [|now apply IH].
  destruct Hw as (x & cd & -> & Hx & Hnm & Hf).
  exists x, cd. split; [reflexivity|]. split; [|now split].
  rewrite Hsame; [exact Hx | exact Hwn].
Qed.

End CleanFacts.

(* ===================================================================== *)
(** ** The claim about the copy *)
(* ===================================================================== *)

Module CleanClaims.
Import PyDict PyDictFacts PyMonad PyMonadFacts Store StoreFacts StoreSpec.
Import FrameFacts CopySpec CopyFacts CleanSpec CleanFacts.

Lemma distinct_keys_shop_store : distinct_keys Samples.shop_store.
Proof.
  intros l d H.
  do 5 (destruct l as [|l];
        [injection H as <-;
         repeat (constructor; [simpl; intuition discriminate|]);
         constructor|]).
  destruct l; discriminate.
Qed.



End CleanClaims.

(* ===================================================================== *)
(** ** The claim about the hint defaults *)
(* ===================================================================== *)

Module StoredClaims.
Import PyDict PyDictFacts PyMonad PyMonadFacts Store StoreFacts StoreSpec.
Import HintSpec HintFacts CopySpec StoredSpec StoredFacts StoredMore.

Local Open Scope list_scope.

(** The column that [remove_defaults] leaves in the document, under the
    key of its table and its own key: the stored form of the column that
    was there, which is itself not touched. *)
Lemma remove_defaults_column st doc lt lay n t c xs k x cd :
  working_schema st doc lt lay ->
  In (n, t, c, xs) lay -> In (k, x) xs ->
  lookup x st = Some (ODict cd) ->
  exists st',
    remove_defaults (VRef doc) st = Ok VNone st' /\
    stored_at st' (VRef doc) n k (stored_column cd) /\
    lookup x st' = Some (ODict cd).
Proof.
  intros Hws Hin Hx Hcd.
  destruct (remove_defaults_stored_form st doc lt lay Hws)
    as (st' & lt' & tables' & Hrun & (dd & Hdoc & Hdoc') & Hframe & _ & Hlt' & _ & Htabs).
  pose proof Hws as (_ & _ & (dd0 & Hdoc0 & Htables) & (_ & _ & Hready) & Hatoms).
  destruct (Hready _ Hin) as ((td & Htd & _ & _) & _ & _). cbn [fst snd] in Htd.
  destruct (Htabs n t c xs td Hin Htd)
    as (t' & c' & td' & cols' & Hn & _ & Ht' & _ & Hcol & _ & _ & Hc' & _ & Hcols).
  destruct (Hcols k x cd Hx Hcd) as (x' & Hk & _ & Hx').
  exists st'. split; [exact Hrun|]. split.
  - exists x'. split; [|exact Hx']. unfold column_at.
    rewrite (bind_Ok _ _ _ _ _
               (getitem_ok _ _ "tables" _ _ Hdoc' (get_set_eq _ _ _))).
    rewrite (bind_Ok _ _ _ _ _ (getitem_ok _ _ _ _ _ Hlt' Hn)).
    rewrite (bind_Ok _ _ _ _ _ (getitem_ok _ _ _ _ _ Ht' Hcol)).
    exact (getitem_ok _ _ _ _ _ Hc' Hk).
  - rewrite Hframe; [exact Hcd | eapply lookup_lt; eassumption |].
    intros ->. rewrite Hdoc0 in Hcd. injection Hcd as <-.
    exact (FrameFacts.Forall_values_get atom _ _ _
             (Hatoms _ _ _ _ _ _ _ Hin Hx Hdoc0) Htables).
Qed.

Lemma working_shop_no_sort_schema :
  working_schema working_shop_no_sort 0%nat 1%nat working_shop_layout.
Proof.
  split; [|split; [|split; [|split]]].
  - intros l o H.
    do 5 (destruct l as [|l];
          [injection H as <-; repeat constructor; simpl; lia|]).
    destruct l; discriminate.
  - intros l d H.
    do 5 (destruct l as [|l];
          [injection H as <-;
           repeat (constructor; [simpl; intuition discriminate|]);
           constructor|]).
    destruct l; discriminate.
  - eexists. split; reflexivity.
  - split; [reflexivity|]. split.
    + repeat (constructor; [simpl; intuition discriminate|]). constructor.
    + intros e [<- | []]. split; [|split].
      * eexists. split; [reflexivity|]. split; [|reflexivity]. simpl. tauto.
      * reflexivity.
      * intros k x [[= <- <-] | []]. eexists. split; [reflexivity|]. split.
        -- simpl. tauto.
        -- repeat (constructor; [simpl; intuition discriminate|]). constructor.
  - intros n t c xs k x cd [[= <- <- <- <-] | []] [[= <- <-] | []] [= <-].
    repeat constructor.
Qed.

(** C7.  For a column of a working schema and a hint flag [h] other than
    [nullable], [remove_defaults] deletes the flag from the stored column
    exactly when it is [False].  The call returns, and the column that the
    document then holds under the key of the table and the key of the
    column has [h] as the column had it, unless it was [False], in which
    case it has no [h]: a flag that is [True] (or any other value) is
    kept.  It has [nullable] as the column had it, whatever the value.
    And a column of a schema that differs from the column in that it has
    no [h] where the column has [False] is stored identically. *)
Theorem remove_defaults_elides_false_hints
    (st : store) (doc lt : loc) (lay : layout)
    (n : string) (t c : loc) (xs : list (string * loc))
    (k : string) (x : loc) (cd : dict val) (h : string) :
  working_schema st doc lt lay ->
  In (n, t, c, xs) lay -> In (k, x) xs ->
  lookup x st = Some (ODict cd) ->
  h <> "nullable" -> h <> "name" ->
  exists st' stored,
    remove_defaults (VRef doc) st = Ok VNone st' /\
    stored_at st' (VRef doc) n k stored /\
    get h stored =
      match get h cd with
      | Some (VBool false) => None
      | present_or_absent => present_or_absent
      end /\
    get "nullable" stored = get "nullable" cd /\
    (get h cd = Some (VBool false) ->
     forall st2 doc2 lt2 lay2 n2 t2 c2 xs2 k2 x2,
       working_schema st2 doc2 lt2 lay2 ->
       In (n2, t2, c2, xs2) lay2 -> In (k2, x2) xs2 ->
       lookup x2 st2 = Some (ODict (remove h cd)) ->
       exists st2',
         remove_defaults (VRef doc2) st2 = Ok VNone st2' /\
         stored_at st2' (VRef doc2) n2 k2 stored).
Proof.
  intros Hws Hin Hx Hcd Hh Hn.
  assert (Hnd : NoDup (keys cd)).
  { destruct Hws as (_ & Hkeys & _). exact (Hkeys _ _ Hcd). }
  destruct (remove_defaults_column _ _ _ _ _ _ _ _ _ _ _ Hws Hin Hx Hcd)
    as (st' & Hrun & Hat & _).
  exists st', (stored_column cd).
  split; [exact Hrun|]. split; [exact Hat|]. split; [|split].
  - rewrite (get_stored_column _ _ Hnd).
    destruct (String.eqb "name" h) eqn:E; [apply String.eqb_eq in E; congruence|].
    apply String.eqb_neq in Hh. rewrite Hh.
    destruct (get h cd) as [[|[]| | |]|]; reflexivity.
  - rewrite (get_stored_column _ _ Hnd). cbn [String.eqb Ascii.eqb Bool.eqb].
    destruct (get "nullable" cd) as [[|[]| | |]|]; reflexivity.
  - intros Hf st2 doc2 lt2 lay2 n2 t2 c2 xs2 k2 x2 Hws2 Hin2 Hx2 Hcd2.
    destruct (remove_defaults_column _ _ _ _ _ _ _ _ _ _ _ Hws2 Hin2 Hx2 Hcd2)
      as (st2' & Hrun2 & Hat2 & _).
    exists st2'. split; [exact Hrun2|].
    now rewrite (stored_column_remove h cd Hnd Hf Hh) in Hat2.
Qed.

Lemma remove_defaults_elides_false_hints_witness :
  exists st' st2' stored,
    remove_defaults (VRef 0%nat) working_shop = Ok VNone st' /\
    stored_at st' (VRef 0%nat) "orders" "id" stored /\
    get "sort" stored = None /\
    get "nullable" stored = Some (VBool false) /\
    remove_defaults (VRef 0%nat) working_shop_no_sort = Ok VNone st2' /\
    stored_at st2' (VRef 0%nat) "orders" "id" stored.
Proof.
  destruct (remove_defaults_elides_false_hints working_shop 0%nat 1%nat
              working_shop_layout "orders" 2%nat 3%nat [("id", 4%nat)]
              "id" 4%nat _ "sort" working_shop_schema
              (or_introl eq_refl) (or_introl eq_refl) eq_refl)
    as (st' & stored & Hrun & Hat & Hsort & Hnull & Hsame);
    [discriminate | discriminate |].
  destruct (Hsame eq_refl working_shop_no_sort 0%nat 1%nat working_shop_layout
              "orders" 2%nat 3%nat [("id", 4%nat)] "id" 4%nat
              working_shop_no_sort_schema (or_introl eq_refl) (or_introl eq_refl)
              eq_refl)
    as (st2' & Hrun2 & Hat2).
  exists st', st2', stored.
  split; [exact Hrun|]. split; [exact Hat|]. split; [exact Hsort|].
  split; [exact Hnull|]. split; [exact Hrun2 | exact Hat2].
Defined.

End StoredClaims.
